(* ===== verification/_CoqProject ===== *)
-Q . S2P
Prelude.v
Error.v
ErrorDisplay.v
External.v
Address.v
Types.v
Account.v
Events.v
Migration.v
Storage.v
StorageLaws.v
AppStore.v
LedgerEvent.v
Ledger.v
Tokens.v
Supply.v
Subresource.v
AccountStorage.v
AccountModule.v
Multisig.v
MultisigLaws.v
MultisigSpec.v
Abci.v
LedgerModule.v
EventsModule.v
KvStore.v
KvModule.v
KvLaws.v
KvAccounts.v
Web.v
WebLaws.v
WebSites.v
Cose.v
Wire.v
WireLaws.v
Protocol.v
ProtocolLaws.v
ProofOps.v
Verifiers.v
VerifierLaws.v
BaseStatus.v
Server.v
ServerLaws.v
ServerReplay.v
Endpoints.v
EndpointLaws.v
AbciBridge.v
AbciBridgeLaws.v
Blockchain.v
BlockchainLaws.v
FrontServer.v
ValueWire.v
ValueWireLaws.v
EventWire.v
EventWireLaws.v
LedgerMigrations.v
IdStore.v
Genesis.v
GenesisLaws.v
GenesisExport.v
ExportLaws.v
EventsExport.v
EventsExportLaws.v
LedgerServer.v
LedgerServerLaws.v
HttpProxy.v
WebServer.v
Compute.v
ComputeLaws.v
Codecs.v
Reference.v
Scenario.v
Witnesses.v
ServerReference.v
AppWitnesses.v
ServerWitnesses.v
NodeWitnesses.v
ComputeReference.v
WireWitnesses.v
GenesisWitnesses.v
