(* ===== verification/Prelude.v ===== *)
(** * Verification of the MANY framework and its applications

    ** The program

    The repository implements MANY, a protocol of signed requests and responses, and applications
    that run behind it on a Tendermint chain:
    - a client signs a request ([many-protocol], [many-identity], [many-client]); a server validates it
      and hands it to the module whose endpoint it names ([many-server], [many-server-cache]);
    - in front of a chain the server is [many-abci]: queries go straight to the application, commands
      go through the consensus, which delivers them to the ABCI application of every node, which
      forwards them to the server of the backend;
    - the backends keep their state in a Merkle key-value store ([merk]): the ledger ([many-ledger]:
      balances, tokens, accounts, multisig transactions, events, identity store, migrations), the
      key-value store ([many-kvstore]), the web server ([many-web]) and a front of a market of
      machines ([many-compute], which drives the command line of Akash);
    - around them, a proxy gives the pages of the web server to browsers ([http-proxy]), and databases are exported
      as files from which a ledger starts again ([genesis-from-db]);
    - the modules of a server are traits, from which a procedural macro ([many-macros]) generates the
      table of endpoints, the decoding of arguments and the checks of the sender.

    ** How it is modelled

    Code is embedded shallowly. A method that reads is a function to [outcome E A] (a value, an error,
    a panic, or no answer); a method with [&mut self] is a function of type [ST S E A], which keeps the
    state it reached when it fails, as the code does. Machine integers are [N] or [Z] with the
    wrap-around or the check the code has; bytes are [Byte.byte]; maps are [gmap], and their order where
    the code iterates is that of a [BTreeMap] ([btree_iter]). Traits are classes. Libraries that are not in
    the repository are classes of operations with classes of laws ([External], and [Minicbor],
    [Coset], [RocksDb], [Http], [Tendermint], [TendermintRpc] and the environment of
    many-compute beside the code that uses them); theorems assume the laws
    they need and are applied in reference environments in which the laws are proved.

    ** Files

    Shared: [Prelude] (bytes, integers, orders, [outcome] and [ST]); [Error], [ErrorDisplay]
    (many-error); [External] (libraries); [Address] (many-identity/src/address.rs); [Types]
    (many-types); [Account], [Events] (many-modules: accounts, roles, features; events and
    transactions); [Migration] (many-migration).

    The ledger: [Storage], [StorageLaws] (storage.rs, keys and their separation), [LedgerEvent],
    [Ledger] (send), [Tokens], [Supply] (tokens, mint, burn), [Subresource], [AccountStorage],
    [AccountModule], [Multisig], [MultisigLaws], [MultisigSpec], [Abci] (blocks), [LedgerModule]
    (ledger, tokens and data endpoints), [EventsModule], [LedgerMigrations], [IdStore]; [Genesis],
    [GenesisLaws] (json.rs, the constructors of module.rs and the choice of main.rs: a ledger opened from a
    genesis file or from its database); [GenesisExport], [ExportLaws], [EventsExport], [EventsExportLaws]
    (genesis-from-db: a database written as a genesis file, its events and its multisig transactions as JSON).

    The key-value store and the web server: [AppStore] (what the two share), [KvStore], [KvModule],
    [KvLaws], [KvAccounts]; [Web], [WebLaws], [WebSites].

    Messages and servers: [Cose] (envelopes and keys of COSE, many-identity/src/cose.rs), [Wire],
    [WireLaws] (the hand-written CBOR of messages), [ValueWire], [ValueWireLaws] (that of the values inside), [EventWire],
    [EventWireLaws] (that of events, filters and transactions, which macros generate from a table), [BaseStatus] (the
    status of a server and its CBOR), [Protocol], [ProtocolLaws] (messages, envelopes),
    [Verifiers], [VerifierLaws] (many-identity-dsa, many-identity-webauthn: who signed), [Server], [ServerLaws], [ServerReplay] (validators, cache,
    dispatch, the phases of a call), [ProofOps] (proofs of the store and the contexts that carry
    them), [Endpoints], [EndpointLaws] (the modules that the macro generates), [AbciBridge],
    [AbciBridgeLaws] (client, ABCI application, server in front), [Blockchain], [BlockchainLaws] (the
    blockchain module of many-abci, blocks, transactions and the state of an asynchronous call), [FrontServer]
    (the server that the binary of many-abci assembles).

    Whole programs: [LedgerServer], [LedgerServerLaws] (the server that the binary of many-ledger
    assembles, from the envelope to the store), [Compute], [ComputeLaws] (many-compute and the calls of
    the tool it makes), [HttpProxy] (http-proxy, and the path of a call from a client to an endpoint and back),
    [WebServer] (the server that the binary of many-web assembles, and the pages of its sites through the proxy).

    Witnesses: [Codecs], [Reference], [Scenario], [ServerReference], [ComputeReference] (environments
    and concrete states), [Witnesses], [AppWitnesses], [ServerWitnesses], [NodeWitnesses], [WireWitnesses],
    [GenesisWitnesses].

    ** What the theorems show

    - Ledger: a send moves exactly its amount and creates nothing; balances add up to the supply of each
      token after any commands, but for what a mint to the anonymous address, whose balance is never read,
      overwrites; minting and burning change balances and supply together and respect the
      maximum; who may send, mint and burn; allocation of subresource ids ends and never gives an id twice.
    - Genesis: a ledger opened from a file has the balances, accounts and tokens of the file, and satisfies
      the invariants of supplies and accounts from the start; why else a file is refused, and what makes its
      opening panic; a database that is exported and opened again has
      the same balances, token and accounts, except that disabled accounts are enabled, that the
      file of a ledger with one identity for tokens and accounts is refused, and that an account with a feature
      which files do not have (that of token accounts) makes the opening panic; which events are exported.
    - Accounts: an account always owns itself, roles belong to its features, and only an owner or the
      account itself changes it.
    - Multisig: a transaction only moves forward, is executed once and with its threshold of approvals,
      by the right roles; the expiry at the end of a block; each refusal; a transaction that
      executes itself does not return.
    - Blocks, events, migrations: what a commit does; the listing of events is the filtered log in
      order; a node restarted from its configuration agrees with one that ran.
    - Key-value store and web server: only owners (or accounts through their roles) change a key or a
      site; what put, deployment, update and removal store; one domain per site; the address that a deployment
      returns leads, through proxy, client, envelopes and server, to the files of the site.
    - Messages: requests survive the wire, responses do up to the loss of ids, decoding ends on all
      input, a request is accepted only for the signer of its envelope and within its time.
    - Events on the wire: every event is read back, whatever its kind; a filter is, unless it names exactly one
      kind, which the server refuses; that a token loses its owner cannot be said in a message.
    - Verifiers: an envelope that the verifier of COSE keys accepts is signed by the key whose hash is the
      address; what an identity signs is accepted; the verifier of WebAuthn, which is asked next, accepts
      any key in the name of any address, and with it the servers.
    - Servers: under any interleaving only validated messages are executed; calls in a row execute no
      message twice when there is a cache; a server whose parts answer always answers, with an envelope or the error
      that says why it has none; registration keeps
      dispatch unambiguous; a text as sender poisons the server.
    - Bridge: nodes agree on results; only authenticated, known and allowed requests reach the
      consensus; when a client gets the token of its command, and the result of its command from that
      token; which transactions a query of the chain lists; heights that the query cuts.
    - The ledger server: its table of endpoints is exactly the declared one; a message changes the store
      only through one endpoint, after validation, in the name of the address it was verified for; by the
      verifier of WebAuthn that address may be anyone's, and its funds with it; a request for a proof gets
      no answer.
    - many-compute: the calls that a deployment makes, one by one, and what it records (a lease of no provider
      when nobody offered); what a close runs; the store holds well
      typed records only; a failure after the first transaction leaves a deployment that is paid for and
      not recorded.

    ** Bounds and fuel

    Recursion that is not structural takes fuel, which is enough by a theorem or a lemma: the nesting of
    multisig transactions ([_execute_multisig_tx]: the fuel is the depth of the calls; the theorems say
    which depth a transaction needs, and that a transaction which contains its own execution needs more
    than any); the search for a free subresource id ([next_free]: the symbols in use); the decoders
    (the tokens of the input, since every step of a loop and every level of nesting takes one); the
    removal of a pattern from a text ([remove_matches]: the length of the text); the
    polling loops of many-compute have the 120 rounds of the code and need no other fuel.
    The size of the stack and of the memory are not modelled.

    ** Not modelled

    Command lines; the reading and printing of JSON texts (parameters: what is done with the
    values they hold is modelled); signature schemes and hashes
    (parameters), hardware modules and key files; the parsing of traits by the procedural macro (what it
    generates is modelled); the mock server and the tools of the tests; the CBOR derived for stored types (a parameter with a round-trip law); the base
    module inside a server (a parameter: its backend is the server that holds it); Debug output and
    logging. The law of the Merkle store ([MerkLaws] in [External]) is the
    one its documentation states: a comment in many-web says that the linked version loses a put
    over a key deleted since the last commit, which the law does not describe. Only a site that is removed and
    deployed again in one block meets it; the theorem on deployed sites asks for a committed store. *)
From Stdlib Require Export Strings.Byte.
From Stdlib Require Export Ascii.
From stdpp Require Export base gmap sets list strings sorting lexico numbers pretty.

#[global] Open Scope N_scope.

(** Closed and decidable facts, by evaluation. *)
Ltac decided := apply (bool_decide_unpack _); vm_compute; exact I.

(** ** Bytes *)

(** [u8] is [Byte.byte]; [to_N] gives its value. *)
Abbreviation u8 := Byte.byte.
Abbreviation bytes := (list Byte.byte).

#[global] Instance byte_eq_dec : EqDecision Byte.byte := Byte.byte_eq_dec.

#[global] Program Instance byte_countable : Countable Byte.byte :=
  inj_countable Byte.to_N Byte.of_N Byte.of_to_N.

#[global] Instance byte_inhabited : Inhabited Byte.byte := populate "000"%byte.

(** The cast [n as u8]: truncation to the low eight bits. *)
Definition as_u8 (n : N) : u8 := default "000"%byte (Byte.of_N (n mod 256)).

Lemma to_N_lt (x : u8) : Byte.to_N x < 256.
Proof. pose proof (Byte.to_N_bounded x). lia. Qed.

Lemma to_N_inj (x y : u8) : Byte.to_N x = Byte.to_N y → x = y.
Proof.
  intros H. apply (f_equal Byte.of_N) in H. rewrite !Byte.of_to_N in H. by simplify_eq.
Qed.

Lemma to_N_as_u8 n : Byte.to_N (as_u8 n) = n mod 256.
Proof.
  unfold as_u8. destruct (Byte.of_N (n mod 256)) as [x|] eqn:E; simpl.
  - by apply Byte.to_of_N.
  - apply Byte.of_N_None_iff in E. pose proof (N.mod_upper_bound n 256). lia.
Qed.

Lemma as_u8_to_N x : as_u8 (Byte.to_N x) = x.
Proof. apply to_N_inj. rewrite to_N_as_u8, N.mod_small; auto using to_N_lt. Qed.

(** Bytes are ordered by value, byte strings lexicographically (Rust's [Ord]
    for [u8], [\[u8\]] and [Vec<u8>]). *)
#[global] Instance byte_lexico : Lexico Byte.byte := λ x y, Byte.to_N x < Byte.to_N y.

#[global] Instance byte_lexico_po : StrictOrder (@lexico Byte.byte _).
Proof.
  unfold lexico, byte_lexico. split.
  - intros x H. unfold complement in *. lia.
  - intros x y z ??. lia.
Qed.

#[global] Instance byte_lexico_trichotomy : TrichotomyT (@lexico Byte.byte _).
Proof.
  red. refine (λ x y,
    match N.compare (Byte.to_N x) (Byte.to_N y) as c
      return N.compare (Byte.to_N x) (Byte.to_N y) = c → _ with
    | Lt => λ H, inleft (left (proj2 (N.compare_lt_iff _ _) H))
    | Eq => λ H, inleft (right (to_N_inj _ _ (N.compare_eq _ _ H)))
    | Gt => λ H, inright (proj1 (N.compare_gt_iff _ _) H)
    end eq_refl).
Defined.

(** [b "text"] is the byte string of a literal (the text's UTF-8 bytes). *)
Definition b (s : string) : bytes := String.list_byte_of_string s.

Lemma b_app s1 s2 : b (s1 +:+ s2) = b s1 ++ b s2.
Proof.
  unfold b, String.list_byte_of_string.
  induction s1 as [|c s1 IH]; simpl; [done|]. by f_equal.
Qed.

Lemma b_inj s1 s2 : b s1 = b s2 → s1 = s2.
Proof.
  intros H. apply (f_equal String.string_of_list_byte) in H.
  by rewrite !String.string_of_list_byte_of_string in H.
Qed.

(** [str] is ordered by its bytes. *)
#[global] Instance string_lexico : Lexico string := λ s1 s2, lexico (b s1) (b s2).
#[global] Instance string_lexico_po : StrictOrder (@lexico string _).
Proof.
  unfold lexico, string_lexico. split.
  - intros s H. by apply (irreflexivity lexico (b s)).
  - intros s1 s2 s3 ??. by trans (b s2).
Qed.
#[global] Instance string_lexico_trichotomy : TrichotomyT (@lexico string _).
Proof.
  red. refine (λ s1 s2,
    match trichotomyT lexico (b s1) (b s2) with
    | inleft (left h) => inleft (left h)
    | inleft (right e) => inleft (right (b_inj _ _ e))
    | inright h => inright h
    end).
Defined.

(** ** Total orders, and iteration in key order *)

Section ordered.
Context {K : Type} `{Lexico K, !StrictOrder (@lexico K _), !TrichotomyT (@lexico K _)}.

Definition key_le (x y : K) : Prop := ¬ lexico y x.

#[global] Instance lexico_dec (x y : K) : Decision (lexico x y).
Proof.
  refine (match trichotomyT lexico x y with
          | inleft (left H) => left H
          | inleft (right e) => right _
          | inright h => right _
          end).
  - abstract (intros Hxy; subst; by apply (irreflexivity lexico y)).
  - abstract (intros Hxy; apply (irreflexivity lexico x); by trans y).
Defined.

#[global] Instance key_le_dec (x y : K) : Decision (key_le x y).
Proof. unfold key_le. apply _. Defined.

Lemma key_le_lt_or_eq x y : key_le x y ↔ lexico x y ∨ x = y.
Proof.
  unfold key_le. split.
  - intros Hn. destruct (trichotomyT lexico x y) as [[?|?]|?]; auto. done.
  - intros [Hxy| ->] Hyx.
    + apply (irreflexivity lexico x). by trans y.
    + by apply (irreflexivity lexico y).
Qed.

#[global] Instance key_le_trans : Transitive key_le.
Proof.
  intros x y z. rewrite !key_le_lt_or_eq.
  intros [?| ->] [?| ->]; auto. left. by trans y.
Qed.

#[global] Instance key_le_total : Total key_le.
Proof.
  intros x y. rewrite !key_le_lt_or_eq.
  destruct (trichotomyT lexico x y) as [[?| ->]|?]; auto.
Qed.
End ordered.

(** Sorting a list of pairs by key: [v.sort_by(|(k1, _), (k2, _)| k1.cmp(k2))]. *)
Section sort_by_key.
Context {K : Type} `{Lexico K, !StrictOrder (@lexico K _), !TrichotomyT (@lexico K _)}.
Context {V : Type}.

Definition fst_le (p q : K * V) : Prop := key_le p.1 q.1.

#[global] Instance fst_le_dec p q : Decision (fst_le p q).
Proof. unfold fst_le. apply _. Defined.
#[global] Instance fst_le_trans : Transitive fst_le.
Proof. intros p q r. unfold fst_le. apply key_le_trans. Qed.
#[global] Instance fst_le_total : Total fst_le.
Proof. intros p q. unfold fst_le. apply (total key_le). Qed.

Definition sort_by_key (l : list (K * V)) : list (K * V) := merge_sort fst_le l.

(** Keys in strictly ascending order. *)
Definition keys_ascending (l : list (K * V)) : Prop := StronglySorted lexico l.*1.

#[global] Instance keys_ascending_dec l : Decision (keys_ascending l).
Proof. unfold keys_ascending. apply _. Defined.

Lemma sort_by_key_perm l : sort_by_key l ≡ₚ l.
Proof. apply merge_sort_Permutation. Qed.

Lemma sorted_nodup_ascending l :
  StronglySorted fst_le l → NoDup l.*1 → keys_ascending l.
Proof.
  unfold keys_ascending. induction 1 as [|p l Hs IH Hall]; csimpl; [constructor|].
  intros [Hnin Hnd]%NoDup_cons. constructor; [by apply IH|].
  rewrite Forall_fmap. apply Forall_forall. intros q Hq.
  rewrite Forall_forall in Hall. specialize (Hall q Hq).
  unfold fst_le in Hall. rewrite key_le_lt_or_eq in Hall.
  destruct Hall as [?|Heq]; [done|]. exfalso. apply Hnin. rewrite Heq.
  by apply list_elem_of_fmap_2.
Qed.

Lemma sort_by_key_ascending l : NoDup l.*1 → keys_ascending (sort_by_key l).
Proof.
  intros Hnd. apply sorted_nodup_ascending.
  - apply StronglySorted_merge_sort; apply _.
  - by rewrite sort_by_key_perm.
Qed.

Lemma keys_ascending_NoDup l : keys_ascending l → NoDup l.*1.
Proof.
  unfold keys_ascending. induction 1 as [|k ks Hs IH Hall]; constructor; [|done].
  intros Hin. rewrite Forall_forall in Hall. apply Hall in Hin.
  by apply (irreflexivity lexico k).
Qed.
End sort_by_key.

(** [BTreeMap] is [gmap]; [.iter()] walks it in key order. *)
Definition btree_iter {K V : Type} `{Countable K, Lexico K, !TrichotomyT (@lexico K _),
    !StrictOrder (@lexico K _)} (m : gmap K V) : list (K * V) :=
  sort_by_key (map_to_list m).

Lemma btree_iter_perm {K V : Type} `{Countable K, Lexico K, !TrichotomyT (@lexico K _),
    !StrictOrder (@lexico K _)} (m : gmap K V) :
  btree_iter m ≡ₚ map_to_list m.
Proof. apply sort_by_key_perm. Qed.

Lemma elem_of_btree_iter {K V : Type} `{Countable K, Lexico K, !TrichotomyT (@lexico K _),
    !StrictOrder (@lexico K _)} (m : gmap K V) k v :
  (k, v) ∈ btree_iter m ↔ m !! k = Some v.
Proof. by rewrite btree_iter_perm, elem_of_map_to_list. Qed.

Lemma NoDup_fst_btree_iter {K V : Type} `{Countable K, Lexico K, !TrichotomyT (@lexico K _),
    !StrictOrder (@lexico K _)} (m : gmap K V) :
  NoDup (btree_iter m).*1.
Proof. rewrite btree_iter_perm. apply NoDup_fst_map_to_list. Qed.

(** ** Machine integers *)

(** The release profile compiles [+] and [<<] on machine integers without overflow
    checks: results are taken modulo the width. *)
Definition U32_MAX : N := 4294967295.
Definition U64_MAX : N := 18446744073709551615.
Definition wrap32 (n : N) : N := n mod 2 ^ 32.
Definition wrap64 (n : N) : N := n mod 2 ^ 64.

(** Value of a byte string read as a big-endian natural number. *)
Fixpoint be_fold (acc : N) (l : bytes) : N :=
  match l with
  | [] => acc
  | x :: l => be_fold (256 * acc + Byte.to_N x) l
  end.
Definition be_value (l : bytes) : N := be_fold 0 l.

(** [uN::to_be_bytes] for a width of [w] bytes. *)
Fixpoint be_bytes (w : nat) (n : N) : bytes :=
  match w with
  | O => []
  | S w => be_bytes w (n / 256) ++ [as_u8 n]
  end.

Lemma be_fold_app acc l1 l2 : be_fold acc (l1 ++ l2) = be_fold (be_fold acc l1) l2.
Proof. revert acc. induction l1 as [|x l1 IH]; intros acc; simpl; auto. Qed.

Lemma be_fold_acc acc l : be_fold acc l = acc * 256 ^ N.of_nat (length l) + be_value l.
Proof.
  unfold be_value. revert acc. induction l as [|x l IH] using rev_ind; intros acc.
  - simpl. lia.
  - rewrite !be_fold_app, (IH acc), (IH 0), length_app. simpl.
    replace (N.of_nat (length l + 1)) with (N.succ (N.of_nat (length l))) by lia.
    rewrite N.pow_succ_r'. lia.
Qed.

Lemma be_value_app l1 l2 :
  be_value (l1 ++ l2) = be_value l1 * 256 ^ N.of_nat (length l2) + be_value l2.
Proof. unfold be_value at 1. rewrite be_fold_app, be_fold_acc. done. Qed.

Lemma be_value_cons x l :
  be_value (x :: l) = Byte.to_N x * 256 ^ N.of_nat (length l) + be_value l.
Proof. change (x :: l) with ([x] ++ l). by rewrite be_value_app. Qed.

Lemma be_value_lt l : be_value l < 256 ^ N.of_nat (length l).
Proof.
  induction l as [|x l IH]; [done|].
  rewrite be_value_cons. simpl length.
  replace (N.of_nat (S (length l))) with (N.succ (N.of_nat (length l))) by lia.
  rewrite N.pow_succ_r'. pose proof (to_N_lt x). nia.
Qed.

Lemma length_be_bytes w n : length (be_bytes w n) = w.
Proof.
  revert n. induction w as [|w IH]; intros n; simpl; [done|].
  rewrite length_app, IH. simpl. lia.
Qed.

Lemma be_value_be_bytes w n : be_value (be_bytes w n) = n mod 256 ^ N.of_nat w.
Proof.
  revert n. induction w as [|w IH]; intros n.
  - simpl. by rewrite N.mod_1_r.
  - change (be_bytes (S w) n) with (be_bytes w (n / 256) ++ [as_u8 n]).
    rewrite be_value_app, IH. unfold be_value. simpl. rewrite to_N_as_u8.
    replace (N.of_nat (S w)) with (N.succ (N.of_nat w)) by lia.
    rewrite N.pow_succ_r', N.Div0.mod_mul_r. lia.
Qed.

Lemma be_value_inj l1 l2 :
  length l1 = length l2 → be_value l1 = be_value l2 → l1 = l2.
Proof.
  revert l2. induction l1 as [|x l1 IH]; intros [|y l2]; try done.
  intros [= Hlen]. rewrite !be_value_cons, Hlen.
  pose proof (be_value_lt l1) as H1. pose proof (be_value_lt l2) as H2. rewrite Hlen in H1.
  intros Heq. assert (Byte.to_N x = Byte.to_N y ∧ be_value l1 = be_value l2) as [Hx ?].
  { apply (N.div_mod_unique (256 ^ N.of_nat (length l2))); lia. }
  f_equal; auto using to_N_inj.
Qed.

Lemma be_bytes_be_value l : be_bytes (length l) (be_value l) = l.
Proof.
  apply be_value_inj; [apply length_be_bytes|].
  rewrite be_value_be_bytes, N.mod_small; auto using be_value_lt.
Qed.

(** Among byte strings of one length, the lexicographic order is the numeric one. *)
Lemma lexico_be_value l1 l2 :
  length l1 = length l2 → lexico l1 l2 ↔ be_value l1 < be_value l2.
Proof.
  revert l2. induction l1 as [|x l1 IH]; intros [|y l2]; try done.
  intros [= Hlen]. rewrite !be_value_cons, Hlen.
  pose proof (be_value_lt l1) as H1. pose proof (be_value_lt l2) as H2. rewrite Hlen in H1.
  change (lexico (x :: l1) (y :: l2))
    with (Byte.to_N x < Byte.to_N y ∨ x = y ∧ lexico l1 l2).
  rewrite (IH _ Hlen). split.
  - intros [Hlt|[-> ?]]; [|lia].
    assert (Byte.to_N x + 1 ≤ Byte.to_N y) as Hle by lia.
    apply (N.mul_le_mono_r _ _ (256 ^ N.of_nat (length l2))) in Hle. lia.
  - intros Hlt. destruct (N.lt_trichotomy (Byte.to_N x) (Byte.to_N y)) as [?|[Heq|?]].
    + by left.
    + right. split; [by apply to_N_inj|]. rewrite Heq in Hlt. lia.
    + exfalso. assert (be_value l2 < 256 ^ N.of_nat (length l2)) by done.
      assert (Byte.to_N y + 1 ≤ Byte.to_N x) as Hle by lia.
      apply (N.mul_le_mono_r _ _ (256 ^ N.of_nat (length l2))) in Hle. lia.
Qed.

(** ** Outcomes of fallible code *)

(** [Result<A, E>] with the two other ways a Rust call can end: a panic, and (for
    the one function of the ledger whose recursion is unbounded) no answer within
    the given recursion depth. *)
Inductive outcome (E A : Type) : Type :=
| Ok (a : A)
| Err (e : E)
| Panic (msg : string)
| OutOfFuel.
Arguments Ok {E A} a.
Arguments Err {E A} e.
Arguments Panic {E A} msg.
Arguments OutOfFuel {E A}.
Lemma Ok_inj {E A} (a a' : A) : (Ok a : outcome E A) = Ok a' → a = a'.
Proof. by injection 1. Qed.

#[global] Instance outcome_ret {E} : MRet (outcome E) := λ A, Ok.
#[global] Instance outcome_bind {E} : MBind (outcome E) := λ A B f m,
  match m with
  | Ok a => f a
  | Err e => Err e
  | Panic s => Panic s
  | OutOfFuel => OutOfFuel
  end.
#[global] Instance outcome_fmap {E} : FMap (outcome E) := λ A B f m,
  match m with
  | Ok a => Ok (f a)
  | Err e => Err e
  | Panic s => Panic s
  | OutOfFuel => OutOfFuel
  end.

Definition ok_or {E A} (o : option A) (e : E) : outcome E A :=
  match o with Some a => Ok a | None => Err e end.

Definition map_err {E E' A} (f : E → E') (m : outcome E A) : outcome E' A :=
  match m with
  | Ok a => Ok a
  | Err e => Err (f e)
  | Panic s => Panic s
  | OutOfFuel => OutOfFuel
  end.

(** The call returns, with a value or an error: no panic, no missing answer. *)
Definition answers {E A} (m : outcome E A) : bool :=
  match m with Ok _ | Err _ => true | _ => false end.

Definition is_ok {E A} (m : outcome E A) : bool := if m is Ok _ then true else false.

(** [m.or_else(|e| f(e))]. *)
Definition or_else {E A} (m : outcome E A) (f : E → outcome E A) : outcome E A :=
  match m with Err e => f e | _ => m end.

Lemma bind_Ok_inv {E A B} (f : A → outcome E B) (m : outcome E A) v :
  m ≫= f = Ok v → ∃ a, m = Ok a ∧ f a = Ok v.
Proof. destruct m; simpl; intros; simplify_eq/=; eauto. Qed.

(** ** Methods taking [&mut self]: state is kept on every outcome *)

(** A failing method leaves the writes it did before failing in place. *)
Definition ST (S E A : Type) : Type := S → S * outcome E A.

#[global] Instance st_ret {S E} : MRet (ST S E) := λ A a s, (s, Ok a).
#[global] Instance st_bind {S E} : MBind (ST S E) := λ A B f m s,
  match m s with
  | (s', Ok a) => f a s'
  | (s', Err e) => (s', Err e)
  | (s', Panic t) => (s', Panic t)
  | (s', OutOfFuel) => (s', OutOfFuel)
  end.

(** A method taking [&self], used inside one taking [&mut self]. *)
Definition reads {S E A} (f : S → outcome E A) : ST S E A := λ s, (s, f s).
Definition lift {S E A} (m : outcome E A) : ST S E A := λ s, (s, m).
Definition fails {S E A} (e : E) : ST S E A := λ s, (s, Err e).
Definition panics {S E A} (t : string) : ST S E A := λ s, (s, Panic t).
Definition modify_state {S E} (f : S → S) : ST S E unit := λ s, (f s, Ok tt).
(** The outcome of [m] as a value ([let r = m();], with no [?]). *)
Definition catch {S E A} (m : ST S E A) : ST S E (outcome E A) := λ s,
  match m s with
  | (s', Ok a) => (s', Ok (Ok a))
  | (s', Err e) => (s', Ok (Err e))
  | (s', Panic t) => (s', Panic t)
  | (s', OutOfFuel) => (s', OutOfFuel)
  end.
Definition st_map_err {S E E' A} (f : E → E') (m : ST S E A) : ST S E' A := λ s,
  let '(s', r) := m s in (s', map_err f r).

(** ** Filters and sorted lists *)

Lemma filter_true {A} (l : list A) : filter (λ _, true = true) l = l.
Proof. induction l as [|x l IH]; [done|]. rewrite filter_cons_True by done. by rewrite IH. Qed.

Lemma filter_and {A} (p q : A → bool) (l : list A) :
  filter (λ t, q t = true) (filter (λ t, p t = true) l) = filter (λ t, p t && q t = true) l.
Proof.
  induction l as [|t l IH]; [done|]. rewrite !filter_cons.
  destruct (p t) eqn:Hp; simpl; [|by rewrite IH]. rewrite filter_cons.
  destruct (q t); simpl; by rewrite IH.
Qed.

Lemma sorted_filter {A} (R : A → A → Prop) (p : A → bool) l :
  StronglySorted R l → StronglySorted R (filter (λ e, p e = true) l).
Proof.
  induction 1 as [|e l Hs IH Hall]; [constructor|]. rewrite filter_cons.
  destruct (decide (p e = true)); [|done]. constructor; [done|].
  rewrite Forall_forall in *. intros e' [_ He']%list_elem_of_filter. auto.
Qed.
Lemma sorted_reverse {A} (R : A → A → Prop) l :
  StronglySorted R l → StronglySorted (flip R) (reverse l).
Proof.
  induction 1 as [|e l Hs IH Hall]; [constructor|]. rewrite reverse_cons.
  rewrite Forall_forall in Hall.
  assert (∀ x, x ∈ reverse l → R e x) as Hr by (intros x; rewrite elem_of_reverse; auto).
  clear -IH Hr. induction IH as [|x l' Hs IH Hall]; simpl; [repeat constructor|].
  constructor; [apply IH; intros; apply Hr; by right|].
  rewrite Forall_app. split; [done|]. repeat constructor. apply Hr. by left.
Qed.

(** ** Tactics *)

(** [lia] with division and remainder by constants. *)
Ltac dlia := zify; Z.to_euclidean_division_equations; lia.
