(* ===== verification/Error.v ===== *)
(** * many-error: error codes, reasons and the error constructors

    Models [many-error/src/error.rs] (the [many_error!] table, the conversions of
    [ManyErrorCode] from and to [i64], [ManyError]), [many-error/src/reason.rs]
    ([Reason]; its [Display] is in [ErrorDisplay]) and the error tables declared with
    [define_attribute_many_error!] and [define_application_many_error!] by the ledger
    and the modules it implements. Codes are [Z] at the width the code casts them to;
    the arguments of an error are the strings its [ToString] arguments give. *)
From S2P Require Import Prelude.

#[local] Open Scope string_scope.

(** The newline and double quote characters of the messages. *)
Definition nl : string := String (Ascii.ascii_of_N 10) EmptyString.
Definition dq : string := String (Ascii.ascii_of_N 34) EmptyString.

(** ** [Reason] *)

Record Reason (T : Type) : Type := mkReason {
  code : T;
  message : option string;
  arguments : gmap string string;
}.
Arguments mkReason {T} code message arguments.
Arguments code {T} r : rename.
Arguments message {T} r : rename.
Arguments arguments {T} r : rename.

Definition Reason_with_code {T} (r : Reason T) (c : T) : Reason T :=
  mkReason c (message r) (arguments r).
Definition Reason_set_message {T} (r : Reason T) (m : option string) : Reason T :=
  mkReason (code r) m (arguments r).
Definition Reason_add_argument {T} (r : Reason T) (k v : string) : Reason T :=
  mkReason (code r) (message r) (<[k := v]> (arguments r)).
Definition Reason_remove_argument {T} (r : Reason T) (k : string) : Reason T :=
  mkReason (code r) (message r) (delete k (arguments r)).
Definition Reason_argument {T} (r : Reason T) (k : string) : option string :=
  arguments r !! k.

#[global] Instance Reason_eq_dec {T} `{EqDecision T} : EqDecision (Reason T).
Proof. solve_decision. Defined.

(** ** [ManyErrorCode] *)

Inductive ManyErrorCode : Type :=
| Unknown | MessageTooLong | DeserializationError | SerializationError
| UnexpectedEmptyRequest | UnexpectedEmptyResponse | UnexpectedTransportError
| CouldNotRouteMessage | InvalidAttribtueId | InvalidAttributeArguments
| AttributeNotFound
| InvalidIdentity | InvalidIdentityPrefix | InvalidIdentityKind
| InvalidIdentitySubResourceId | SenderCannotBeAnonymous
| HSMInitError | HSMSessionError | HSMLoginError | HSMKeyIdError | HSMSignError
| HSMVerifyError | HSMECPointError | HSMECParamsError | HSMKeygenError
| HSMMutexPoisoned
| InvalidMethodName | InvalidFromIdentity | InvalidToIdentity
| CouldNotVerifySignature | UnknownDestination | EmptyEnvelope
| TimestampOutOfRange | RequiredFieldMissing | NonWebAuthnRequestDenied
| DuplicatedMessage
| InternalServerError
| AttributeSpecific (x : Z)
| ApplicationSpecific (x : Z).

#[global] Instance ManyErrorCode_eq_dec : EqDecision ManyErrorCode.
Proof. solve_decision. Defined.

(** The cast [x as i32] and [x as u32] of an [i64]. *)
Definition as_u32 (x : Z) : Z := (x mod 2 ^ 32)%Z.
Definition as_i32 (x : Z) : Z :=
  let y := as_u32 x in if (y <? 2 ^ 31)%Z then y else (y - 2 ^ 32)%Z.

(** [impl From<ManyErrorCode> for i64]. *)
Definition code_to_i64 (c : ManyErrorCode) : Z :=
  match c with
  | Unknown => -1
  | MessageTooLong => -2
  | DeserializationError => -3
  | SerializationError => -4
  | UnexpectedEmptyRequest => -5
  | UnexpectedEmptyResponse => -6
  | UnexpectedTransportError => -7
  | CouldNotRouteMessage => -8
  | InvalidAttribtueId => -9
  | InvalidAttributeArguments => -10
  | AttributeNotFound => -11
  | InvalidIdentity => -100
  | InvalidIdentityPrefix => -101
  | InvalidIdentityKind => -102
  | InvalidIdentitySubResourceId => -103
  | SenderCannotBeAnonymous => -104
  | HSMInitError => -200
  | HSMSessionError => -201
  | HSMLoginError => -202
  | HSMKeyIdError => -203
  | HSMSignError => -204
  | HSMVerifyError => -205
  | HSMECPointError => -206
  | HSMECParamsError => -207
  | HSMKeygenError => -208
  | HSMMutexPoisoned => -209
  | InvalidMethodName => -1000
  | InvalidFromIdentity => -1001
  | InvalidToIdentity => -1002
  | CouldNotVerifySignature => -1003
  | UnknownDestination => -1004
  | EmptyEnvelope => -1005
  | TimestampOutOfRange => -1006
  | RequiredFieldMissing => -1007
  | NonWebAuthnRequestDenied => -1008
  | DuplicatedMessage => -1009
  | InternalServerError => -2000
  | AttributeSpecific x => x
  | ApplicationSpecific x => x
  end%Z.

(** The codes of the [many_error!] table, in its order. *)
Definition named_codes : list ManyErrorCode :=
  [ Unknown; MessageTooLong; DeserializationError; SerializationError;
    UnexpectedEmptyRequest; UnexpectedEmptyResponse; UnexpectedTransportError;
    CouldNotRouteMessage; InvalidAttribtueId; InvalidAttributeArguments;
    AttributeNotFound;
    InvalidIdentity; InvalidIdentityPrefix; InvalidIdentityKind;
    InvalidIdentitySubResourceId; SenderCannotBeAnonymous;
    HSMInitError; HSMSessionError; HSMLoginError; HSMKeyIdError; HSMSignError;
    HSMVerifyError; HSMECPointError; HSMECParamsError; HSMKeygenError;
    HSMMutexPoisoned;
    InvalidMethodName; InvalidFromIdentity; InvalidToIdentity;
    CouldNotVerifySignature; UnknownDestination; EmptyEnvelope;
    TimestampOutOfRange; RequiredFieldMissing; NonWebAuthnRequestDenied;
    DuplicatedMessage; InternalServerError ].

(** [impl From<i64> for ManyErrorCode]: the literal arms of the table first, then the
    three range arms. *)
Definition code_from_i64 (v : Z) : ManyErrorCode :=
  match list_find (λ c, code_to_i64 c = v) named_codes with
  | Some (_, c) => c
  | None =>
      if (0 <=? v)%Z then ApplicationSpecific (as_u32 v)
      else if (v <=? -10000)%Z then AttributeSpecific (as_i32 v)
      else Unknown
  end.

Definition is_attribute_specific (c : ManyErrorCode) : bool :=
  if c is AttributeSpecific _ then true else false.
Definition is_application_specific (c : ManyErrorCode) : bool :=
  if c is ApplicationSpecific _ then true else false.

(** ** [ManyError] *)

Abbreviation ManyError := (Reason ManyErrorCode).

Definition many_error (c : ManyErrorCode) (description : string)
    (args : list (string * string)) : ManyError :=
  mkReason c (Some description) (list_to_map args).

(** [define_attribute_many_error!]: the code is [id * -10000 - n]. *)
Definition attribute_specific (attribute id : Z) (msg : string)
    (args : list (string * string)) : ManyError :=
  mkReason (AttributeSpecific (attribute * -10000 - id)%Z) (Some msg) (list_to_map args).
Definition application_specific (id : Z) (msg : string)
    (args : list (string * string)) : ManyError :=
  mkReason (ApplicationSpecific id) (Some msg) (list_to_map args).

Definition unknown (m : string) : ManyError :=
  many_error Unknown "Unknown error: {message}" [("message", m)].
Definition deserialization_error (d : string) : ManyError :=
  many_error DeserializationError ("Deserialization error:" +:+ nl +:+ "{details}") [("details", d)].
Definition serialization_error (d : string) : ManyError :=
  many_error SerializationError ("Serialization error:" +:+ nl +:+ "{details}") [("details", d)].
Definition could_not_route_message : ManyError :=
  many_error CouldNotRouteMessage "Could not find a handler for the message." [].
Definition invalid_attribute_arguments : ManyError :=
  many_error InvalidAttributeArguments "Attribute does not have the right arguments." [].
Definition attribute_not_found (id : string) : ManyError :=
  many_error AttributeNotFound "Expected attribute {id} not found." [("id", id)].
Definition invalid_identity : ManyError :=
  many_error InvalidIdentity "Identity is invalid (does not follow the protocol)." [].
Definition invalid_identity_prefix (actual : string) : ManyError :=
  many_error InvalidIdentityPrefix
    "Identity string did not start with the right prefix. Expected 'm', was '{actual}'."
    [("actual", actual)].
Definition invalid_identity_kind (actual : string) : ManyError :=
  many_error InvalidIdentityKind ("Identity kind " +:+ dq +:+ "{actual}" +:+ dq +:+ " was not recognized.")
    [("actual", actual)].
Definition invalid_identity_subid : ManyError :=
  many_error InvalidIdentitySubResourceId
    "Invalid Subresource ID. Subresource IDs are 31 bits." [].
Definition invalid_method_name (m : string) : ManyError :=
  many_error InvalidMethodName ("Invalid method name: " +:+ dq +:+ "{method}" +:+ dq +:+ ".") [("method", m)].
Definition invalid_from_identity : ManyError :=
  many_error InvalidFromIdentity
    "The identity of the from field is invalid or unexpected." [].

(** ** Round trips of the code conversions *)

(** What [ManyErrorCode] values the constructors of the crate can build: the named
    codes, attribute codes in [i32] at or below [-10000], application codes in [u32]. *)
Definition code_in_range (c : ManyErrorCode) : Prop :=
  match c with
  | AttributeSpecific x => (- 2 ^ 31 <= x <= -10000)%Z
  | ApplicationSpecific x => (0 <= x < 2 ^ 32)%Z
  | _ => True
  end.

#[global] Instance code_in_range_dec c : Decision (code_in_range c).
Proof. destruct c; simpl; apply _. Defined.

Lemma as_u32_small x : (0 <= x < 2 ^ 32)%Z → as_u32 x = x.
Proof. apply Z.mod_small. Qed.

Lemma as_i32_small x : (- 2 ^ 31 <= x < 0)%Z → as_i32 x = x.
Proof.
  intros H. unfold as_i32, as_u32.
  assert (x mod 2 ^ 32 = x + 2 ^ 32)%Z as ->.
  { symmetry. apply (Z.mod_unique_pos _ _ (-1)); lia. }
  destruct (Z.ltb_spec (x + 2 ^ 32)%Z (2 ^ 31)%Z); lia.
Qed.

Lemma code_from_i64_not_named v :
  Forall (λ c, code_to_i64 c ≠ v) named_codes →
  code_from_i64 v = if (0 <=? v)%Z then ApplicationSpecific (as_u32 v)
                    else if (v <=? -10000)%Z then AttributeSpecific (as_i32 v) else Unknown.
Proof.
  intros H. unfold code_from_i64.
  destruct (list_find _ named_codes) as [[i c]|] eqn:E; [|done].
  apply list_find_Some in E as (Hin & Hc & _).
  rewrite Forall_lookup in H. by specialize (H _ _ Hin).
Qed.

Lemma code_i64_roundtrip_lemma c : code_in_range c → code_from_i64 (code_to_i64 c) = c.
Proof.
  destruct c; try (intros _; reflexivity); simpl; intros H.
  - rewrite code_from_i64_not_named.
    + destruct (Z.leb_spec 0 x); [lia|]. destruct (Z.leb_spec x (-10000)); [|lia].
      rewrite as_i32_small by lia. done.
    + repeat constructor; simpl; lia.
  - rewrite code_from_i64_not_named.
    + destruct (Z.leb_spec 0 x); [|lia]. by rewrite as_u32_small.
    + repeat constructor; simpl; lia.
Qed.

Lemma as_i32_range x : (- 2 ^ 31 <= as_i32 x < 2 ^ 31)%Z.
Proof.
  unfold as_i32. pose proof (Z.mod_pos_bound x (2 ^ 32)) as Hb. unfold as_u32.
  destruct (Z.ltb_spec (x mod 2 ^ 32)%Z (2 ^ 31)%Z); lia.
Qed.

(** The numbers on the wire that stand for a code. *)
Definition wire_code (v : Z) : Prop :=
  v ∈ code_to_i64 <$> named_codes ∨ (0 <= v < 2 ^ 32)%Z ∨ (- 2 ^ 31 <= v <= -10000)%Z.

Lemma code_from_i64_wire v : wire_code v → code_to_i64 (code_from_i64 v) = v.
Proof.
  intros Hv. unfold code_from_i64. destruct (list_find _ named_codes) as [[i c]|] eqn:E.
  - by apply list_find_Some in E as (_ & ? & _).
  - destruct Hv as [(c & -> & Hc)%list_elem_of_fmap|[Hv|Hv]].
    + apply list_find_None in E. rewrite Forall_forall in E. by destruct (E c Hc).
    + destruct (Z.leb_spec 0 v); [|lia]. simpl. by apply as_u32_small.
    + destruct (Z.leb_spec 0 v); [lia|]. destruct (Z.leb_spec v (-10000)); [|lia].
      simpl. apply as_i32_small. lia.
Qed.

Lemma code_from_i64_cases v :
  (code_to_i64 (code_from_i64 v) = v ∧ v ∈ code_to_i64 <$> named_codes)
  ∨ (0 <= v ∧ code_from_i64 v = ApplicationSpecific (as_u32 v))%Z
  ∨ (v <= -10000 ∧ code_from_i64 v = AttributeSpecific (as_i32 v))%Z
  ∨ (code_from_i64 v = Unknown ∧ v ≠ -1)%Z.
Proof.
  unfold code_from_i64. destruct (list_find _ named_codes) as [[i c]|] eqn:E.
  - apply list_find_Some in E as (Hc & <- & _). left. split; [done|].
    apply list_elem_of_fmap_2. by eapply list_elem_of_lookup_2.
  - right. destruct (Z.leb_spec 0 v); [by left|right].
    destruct (Z.leb_spec v (-10000)); [by left|right]. split; [done|]. intros ->.
    apply list_find_None in E. by inversion E.
Qed.

(** an error code survives its conversion to the [i64] of the wire and back
    exactly when it is one of the named codes, an attribute code between the smallest [i32]
    and -10000, or an application code in [u32]; and a number on the wire survives the
    conversion to a code and back exactly when it stands for such a code. Any other number
    loses its value: it is truncated or becomes [Unknown]. *)
Theorem code_i64_roundtrip c v :
  (code_from_i64 (code_to_i64 c) = c ↔ code_in_range c)
  ∧ (code_to_i64 (code_from_i64 v) = v ↔ wire_code v).
Proof.
  split; split; [|apply code_i64_roundtrip_lemma| |apply code_from_i64_wire].
  - destruct (code_from_i64_cases (code_to_i64 c)) as [[_ Hn]|[[Hv ->]|[[Hv ->]|[-> Hv]]]].
    + intros Hc. destruct c; try done; exfalso; revert Hn; simpl in *; rewrite !elem_of_cons, elem_of_nil.
      all: intros Hn; destruct_or? Hn; subst; done.
    + intros <-. apply (Z.mod_pos_bound _ (2 ^ 32)). lia.
    + intros Hc. destruct c; try done. injection Hc as Hx. cbn [code_to_i64] in *.
      pose proof (as_i32_range x). cbv [code_in_range]. lia.
    + by intros <-.
  - destruct (code_from_i64_cases v) as [[_ Hn]|[[Hv ->]|[[Hv ->]|[-> Hv]]]]; simpl.
    + intros _. by left.
    + intros <-. right; left. apply (Z.mod_pos_bound v (2 ^ 32)). lia.
    + intros Hx. right; right. pose proof (as_i32_range v). lia.
    + intros <-. done.
Qed.
