(* ===== verification/ErrorDisplay.v ===== *)
(** * many-error: how an error is shown

    Models the [Display] of [Reason] and [ManyError] ([many-error/src/reason.rs] and
    [error.rs]): the message is a template in which [{field}] stands for an argument, and
    [{{] and [}}] for a brace. The tokens are the matches, leftmost first, of
    the regular expression [\{\{|\}\}|\{\[^\}\s\]*\}]; strings are their UTF-8 bytes. *)
From S2P Require Import Prelude Error.

#[local] Open Scope string_scope.
#[local] Open Scope nat_scope.

(** [ManyErrorCode::message]. *)
Definition code_message (c : ManyErrorCode) : option string :=
  match c with
  | Unknown => Some "Unknown error: {message}"
  | MessageTooLong => Some "Message is too long. Max allowed size is {max} bytes."
  | DeserializationError => Some ("Deserialization error:" +:+ nl +:+ "{details}")
  | SerializationError => Some ("Serialization error:" +:+ nl +:+ "{details}")
  | UnexpectedEmptyRequest => Some "Request of a message was unexpectedly empty."
  | UnexpectedEmptyResponse => Some "Response of a message was unexpectedly empty."
  | UnexpectedTransportError =>
      Some ("The transport returned an error unexpectedly:" +:+ nl +:+ "{inner}")
  | CouldNotRouteMessage => Some "Could not find a handler for the message."
  | InvalidAttribtueId => Some "Unexpected attribute ID: {id}."
  | InvalidAttributeArguments => Some "Attribute does not have the right arguments."
  | AttributeNotFound => Some "Expected attribute {id} not found."
  | InvalidIdentity => Some "Identity is invalid (does not follow the protocol)."
  | InvalidIdentityPrefix =>
      Some "Identity string did not start with the right prefix. Expected 'm', was '{actual}'."
  | InvalidIdentityKind => Some ("Identity kind " +:+ dq +:+ "{actual}" +:+ dq +:+ " was not recognized.")
  | InvalidIdentitySubResourceId => Some "Invalid Subresource ID. Subresource IDs are 31 bits."
  | SenderCannotBeAnonymous => Some "Invalid Identity; the sender cannot be anonymous."
  | HSMInitError => Some ("PKCS#11 init error:" +:+ nl +:+ "{details}")
  | HSMSessionError => Some ("PKCS#11 session error:" +:+ nl +:+ "{details}")
  | HSMLoginError => Some ("PKCS#11 login error:" +:+ nl +:+ "{details}")
  | HSMKeyIdError => Some ("PKCS#11 key ID error:" +:+ nl +:+ "{details}")
  | HSMSignError => Some ("PKCS#11 sign error:" +:+ nl +:+ "{details}")
  | HSMVerifyError => Some ("PKCS#11 verify error:" +:+ nl +:+ "{details}")
  | HSMECPointError => Some ("PKCS#11 EC Point error:" +:+ nl +:+ "{details}")
  | HSMECParamsError => Some ("PKCS#11 EC Params error:" +:+ nl +:+ "{details}")
  | HSMKeygenError => Some ("PKCS#11 key generation error:" +:+ nl +:+ "{details}")
  | HSMMutexPoisoned => Some ("PKCS#11 global instance mutex poisoned:" +:+ nl +:+ "{details}")
  | InvalidMethodName => Some ("Invalid method name: " +:+ dq +:+ "{method}" +:+ dq +:+ ".")
  | InvalidFromIdentity => Some "The identity of the from field is invalid or unexpected."
  | InvalidToIdentity => Some "The identity of the to field is invalid or unexpected."
  | CouldNotVerifySignature => Some "Could not verify the signature: {details}."
  | UnknownDestination =>
      Some ("Unknown destination for message." +:+ nl +:+ "This is " +:+ dq +:+ "{this}" +:+ dq
            +:+ ", message was for " +:+ dq +:+ "{to}" +:+ dq +:+ ".")
  | EmptyEnvelope => Some "An envelope must contain a payload."
  | TimestampOutOfRange =>
      Some "The message's timestamp is out of the accepted range of the server."
  | RequiredFieldMissing => Some "Field is required but missing: '{field}'."
  | NonWebAuthnRequestDenied => Some "Non-WebAuthn request denied for endpoint '{endpoint}'."
  | DuplicatedMessage => Some "This message was already processed."
  | InternalServerError => Some "An internal server error happened."
  | AttributeSpecific _ | ApplicationSpecific _ => None
  end.

Definition code_to_string (c : ManyErrorCode) : string :=
  match code_message c with
  | Some m => m
  | None => pretty (code_to_i64 c)
  end.

(** [\s]: a character with the property White_Space starts here. *)
Definition white_space (s : string) : bool :=
  match (λ x, N.to_nat (N_of_ascii x)) <$> String.list_ascii_of_string (String.substring 0 3 s) with
  | x :: l =>
      (9 <=? x) && (x <=? 13) || (x =? 32)
      || match l with
         | y :: l' =>
             (x =? 0xC2) && ((y =? 0x85) || (y =? 0xA0))
             || match l' with
                | z :: _ =>
                    (x =? 0xE1) && (y =? 0x9A) && (z =? 0x80)
                    || (x =? 0xE2) && (y =? 0x80)
                       && ((0x80 <=? z) && (z <=? 0x8A) || (z =? 0xA8) || (z =? 0xA9) || (z =? 0xAF))
                    || (x =? 0xE2) && (y =? 0x81) && (z =? 0x9F)
                    || (x =? 0xE3) && (y =? 0x80) && (z =? 0x80)
                | [] => false
                end
         | [] => false
         end
  | [] => false
  end.

(** [\[^\}\s\]*\}]: the field up to the closing brace, if there is one. *)
Fixpoint field_name (s : string) : option string :=
  match s with
  | EmptyString => None
  | String c s' =>
      if Ascii.eqb c "}" then Some ""
      else if white_space s then None
      else String c <$> field_name s'
  end.

(** The match at the start of a text: its length and what is written in its place. *)
Definition token (args : gmap string string) (s : string) : option (nat * string) :=
  match s with
  | String "{" (String "{" _) => Some (2, "{")
  | String "}" (String "}" _) => Some (2, "}")
  | String "{" s' =>
      f ← field_name s'; Some (String.length f + 2, default "" (args !! f))
  | _ => None
  end.

(** The loop over the matches; [skip] bytes of the last match are left to pass. *)
Fixpoint render (args : gmap string string) (skip : nat) (s : string) : string :=
  match s with
  | EmptyString => ""
  | String c s' =>
      match skip with
      | S k => render args k s'
      | O => match token args s with
             | Some (n, t) => t +:+ render args (n - 1) s'
             | None => String c (render args 0 s')
             end
      end
  end.

Definition Reason_to_string {T} (show : T → string) (r : Reason T) : string :=
  render (arguments r) 0 (default ("Error '" +:+ show (code r) +:+ "'") (message r)).
Definition ManyError_to_string (e : ManyError) : string := Reason_to_string code_to_string e.

(** ** Laws *)

(** A text in which every brace is doubled. *)
Fixpoint escape (s : string) : string :=
  match s with
  | EmptyString => ""
  | String c s =>
      if Ascii.eqb c "{" || Ascii.eqb c "}" then String c (String c (escape s))
      else String c (escape s)
  end.

Definition no_brace (c : ascii) : bool := negb (Ascii.eqb c "{" || Ascii.eqb c "}").

(** Names of fields: no brace, no white space. *)
Fixpoint plain_field (s : string) : bool :=
  match s with
  | EmptyString => true
  | String c s => no_brace c && (N_of_ascii c <? 128)%N && negb (white_space (String c "")) && plain_field s
  end.

Fixpoint all_chars (f : ascii → bool) (s : string) : bool :=
  match s with
  | EmptyString => true
  | String c s => f c && all_chars f s
  end.

Lemma token_plain args c s : no_brace c = true → token args (String c s) = None.
Proof.
  unfold no_brace. intros [H1 H2]%negb_true_iff%orb_false_iff.
  destruct c as [[] [] [] [] [] [] [] []]; try reflexivity; discriminate.
Qed.

Lemma render_skip args n s s' :
  String.length s = n → render args n (s +:+ s') = render args 0 s'.
Proof.
  intros <-. induction s as [|c s IH]; [done|]. simpl. exact IH.
Qed.

Lemma render_escape args s : render args 0 (escape s) = s.
Proof.
  induction s as [|c s IH]; [done|]. cbn [escape].
  destruct (Ascii.eqb_spec c "{") as [->|H1]; [cbn; by rewrite IH|].
  destruct (Ascii.eqb_spec c "}") as [->|H2]; [cbn; by rewrite IH|].
  cbn [orb render]. rewrite token_plain, IH; [done|].
  unfold no_brace. by rewrite (proj2 (Ascii.eqb_neq _ _) H1), (proj2 (Ascii.eqb_neq _ _) H2).
Qed.

Lemma render_plain args p s :
  all_chars no_brace p = true → render args 0 (p +:+ s) = p +:+ render args 0 s.
Proof.
  induction p as [|c p IH]; [done|]. simpl all_chars. intros [Hc Hp]%andb_true_iff.
  change (render args 0 (String c (p +:+ s)) = String c (p +:+ render args 0 s)).
  cbn [render]. rewrite token_plain by done. by rewrite IH.
Qed.

Lemma white_space_ascii c s :
  (N_of_ascii c < 128)%N → white_space (String c s) = white_space (String c "").
Proof.
  intros Hc. unfold white_space. destruct s as [|y s]; [done|]. cbn [String.substring].
  destruct c as [[] [] [] [] [] [] [] []]; try (exfalso; revert Hc; vm_compute; discriminate).
  all: destruct s as [|z s]; reflexivity.
Qed.

Lemma field_name_plain f s : plain_field f = true → field_name (f +:+ String "}" s) = Some f.
Proof.
  induction f as [|c f IH]; [done|]. simpl plain_field.
  intros [[[Hb Hc%N.ltb_lt]%andb_true_iff Hw]%andb_true_iff Hf]%andb_true_iff.
  change (field_name (String c (f +:+ String "}" s)) = Some (String c f)). cbn [field_name].
  destruct (Ascii.eqb_spec c "}") as [->|_]; [done|].
  rewrite white_space_ascii by done. destruct (white_space (String c "")); [done|].
  by rewrite (IH Hf).
Qed.

Lemma token_field args f r :
  field_name r = Some f → (∀ r', r ≠ String "{" r') →
  token args (String "{" r) = Some (String.length f + 2, default "" (args !! f)).
Proof.
  intros Hn Hr. destruct r as [|c r]; [done|]. unfold token. rewrite Hn.
  destruct (decide (c = "{"%char)) as [->|Hne]; [by destruct (Hr r)|].
  destruct c as [[] [] [] [] [] [] [] []]; done.
Qed.

Lemma render_field args f s :
  plain_field f = true →
  render args 0 ("{" +:+ f +:+ "}" +:+ s) = default "" (args !! f) +:+ render args 0 s.
Proof.
  intros Hf. change ("{" +:+ f +:+ "}" +:+ s) with (String "{" (f +:+ "}" +:+ s)).
  cbn [render]. rewrite (token_field args f).
  - f_equal. rewrite <-(render_skip args (String.length f + 2 - 1) (f +:+ "}") s).
    + f_equal. clear. induction f as [|c f IH]; [done|].
      change (String c (f +:+ "}" +:+ s) = String c ((f +:+ "}") +:+ s)). by rewrite IH.
    + trans (S (String.length f)); [|lia].
      clear. induction f as [|c f IH]; [done|].
      change (S (String.length (f +:+ "}")) = S (S (String.length f))). by rewrite IH.
  - by apply field_name_plain.
  - intros r' Hr. destruct f as [|x f]; [discriminate Hr|].
    change (String x (f +:+ "}" +:+ s) = String "{" r') in Hr. injection Hr as -> _. discriminate Hf.
Qed.

(** what an error shows. A text whose braces are doubled is shown as it is, whatever the
    arguments; in any other template, text without braces is kept and a field is replaced by
    its argument, or by nothing when there is none. *)
Theorem error_display text pre field post c args :
  all_chars no_brace pre = true → plain_field field = true →
  ManyError_to_string (mkReason c (Some (escape text)) args) = text
  ∧ ManyError_to_string (mkReason c (Some (pre +:+ "{" +:+ field +:+ "}" +:+ post)) args)
    = pre +:+ default "" (args !! field) +:+ ManyError_to_string (mkReason c (Some post) args).
Proof.
  intros Hp Hf. split; [apply render_escape|].
  etrans; [apply (render_plain args pre ("{" +:+ field +:+ "}" +:+ post) Hp)|].
  by rewrite render_field.
Qed.
