(* ===== verification/External.v ===== *)
(** * Interfaces of the libraries the code calls

    The crates below are not part of the repository. Each is a class of operations,
    and a class of laws that states the behaviour its documentation promises and the
    code relies on:

    - [Base32], [Crc16]: the textual form of addresses ([base32], [crc-any]); [Hex]: [hex];
    - [BigUintBytes]: big-endian conversion of arbitrary-precision naturals ([num-bigint]);
    - [Merk]: the Merkle key-value store over RocksDB ([merk]);
    - [Cbor]: the CBOR encoding of one type ([minicbor] with its derive macros);
    - [Clock]: the reading of the system clock.

    The laws of [Merk] are those of a healthy database: the error values stay in the
    types, so the error paths of the code are part of the model. *)
From S2P Require Import Prelude.

(** ** Textual encodings *)

Class Base32 := {
  base32_encode : bytes → string;          (* RFC 4648 alphabet, no padding, upper case *)
  base32_decode : string → option bytes;
}.

(** [str::to_ascii_lowercase]. *)
Definition ascii_lower (c : ascii) : ascii :=
  let n := N_of_ascii c in
  if ((65 <=? n) && (n <=? 90))%N then ascii_of_N (n + 32) else c.
Fixpoint to_ascii_lowercase (s : string) : string :=
  match s with
  | EmptyString => EmptyString
  | String c s => String (ascii_lower c) (to_ascii_lowercase s)
  end.

(** Letters [A]-[Z] and digits [2]-[7]. *)
Definition rfc4648_char (c : ascii) : bool :=
  let n := N_of_ascii c in
  (((65 <=? n) && (n <=? 90)) || ((50 <=? n) && (n <=? 55)))%N.

Fixpoint string_forallb (f : ascii → bool) (s : string) : bool :=
  match s with
  | EmptyString => true
  | String c s => f c && string_forallb f s
  end.

Class Base32Laws `{Base32} : Prop := {
  (** Decoding ignores case. *)
  base32_roundtrip l : base32_decode (to_ascii_lowercase (base32_encode l)) = Some l;
  base32_alphabet l : string_forallb rfc4648_char (base32_encode l) = true;
  base32_zero : base32_encode ["000"%byte] = "AA"%string;
  (** Eight text characters per five bytes, the last group rounded up. *)
  base32_length l : String.length (base32_encode l) = Nat.div (8 * length l + 4) 5;
}.

Class Crc16 := crc16 : bytes → N.

(** [hex::encode]. *)
Class Hex := hex_encode : bytes → string.

(** ** Arbitrary-precision naturals *)

Class BigUintBytes := {
  to_bytes_be : N → bytes;
  from_bytes_be : bytes → N;
}.

Class BigUintBytesLaws `{BigUintBytes} : Prop := {
  from_bytes_be_value l : from_bytes_be l = be_value l;
  to_bytes_be_value n : be_value (to_bytes_be n) = n;
  (** Zero is one zero byte; any other number has no leading zero byte. *)
  to_bytes_be_zero : to_bytes_be 0 = ["000"%byte];
  to_bytes_be_minimal n : n ≠ 0 → 256 ^ N.of_nat (length (to_bytes_be n) - 1) ≤ n;
}.

(** ** The persistent store *)

Inductive Op : Type := Put (v : bytes) | Delete.
Abbreviation BatchEntry := (bytes * Op)%type.

(** [ReadOptions]: the keys with a prefix ([PrefixRange]), or the keys from a lower
    bound (included) to an upper bound (excluded). *)
Inductive IterRange : Type :=
| PrefixRange (p : bytes)
| BoundRange (lower upper : bytes).

Definition in_iter_range (r : IterRange) (k : bytes) : Prop :=
  match r with
  | PrefixRange p => p `prefix_of` k
  | BoundRange lo hi => key_le lo k ∧ lexico k hi
  end.

#[global] Instance in_iter_range_dec r k : Decision (in_iter_range r k).
Proof. destruct r; simpl; apply _. Defined.

Inductive IteratorMode : Type := IterStart | IterEnd.

Class Merk := {
  merk : Type;
  merk_get : merk → bytes → outcome string (option bytes);
  merk_apply : merk → list BatchEntry → outcome string merk;
  merk_commit : merk → outcome string merk;
  merk_root_hash : merk → bytes;
  (** RocksDB iteration: keys with the encoded tree nodes stored under them. *)
  merk_iter : merk → IteratorMode → IterRange → list (outcome string (bytes * bytes));
  (** [Tree::decode(key, node).value()]. *)
  merk_tree_value : bytes → bytes → bytes;
}.

(** Effect of a batch on a map. *)
Definition apply_op (m : gmap bytes bytes) (e : BatchEntry) : gmap bytes bytes :=
  match e.2 with
  | Put v => <[e.1 := v]> m
  | Delete => delete e.1 m
  end.
Definition apply_batch (m : gmap bytes bytes) (l : list BatchEntry) : gmap bytes bytes :=
  foldl apply_op m l.
#[global] Arguments apply_batch : simpl never.

(** The entries of a map in a range, in key order. *)
Definition range_entries (m : gmap bytes bytes) (r : IterRange) : list (bytes * bytes) :=
  btree_iter (filter (λ kv, in_iter_range r kv.1) m).

Definition iter_entries (m : gmap bytes bytes) (mode : IteratorMode) (r : IterRange) :
    list (bytes * bytes) :=
  match mode with
  | IterStart => range_entries m r
  | IterEnd => reverse (range_entries m r)
  end.

(** Reads see the applied batches; iteration reads the database, which a commit
    brings up to date. A batch must have its keys in strictly ascending order.

    [merk_apply_ok] leaves out one behaviour of the tree that the repository reports
    (many-web/src/storage.rs, the comment in [update_website]): a put of a key which an
    earlier batch deleted, with no commit between the two, is ignored. The theorems therefore speak of
    runs in which no key is put again after a deletion before the next commit. The code deletes
    keys in two places only: many-web removes the files and the metadata of a site, and the token
    migration of the ledger removes the account counter, whose key is not written again. So the
    restriction concerns a site that is removed and deployed again in the same block; the claim
    on deployed sites asks for a store that is committed. *)
Class MerkLaws `{Merk} := {
  merk_view : merk → gmap bytes bytes;
  merk_db : merk → gmap bytes bytes;
  merk_get_view m k : merk_get m k = Ok (merk_view m !! k);
  merk_apply_ok m l : keys_ascending l →
    ∃ m', merk_apply m l = Ok m' ∧ merk_view m' = apply_batch (merk_view m) l
          ∧ merk_db m' = merk_db m;
  merk_apply_err m l : ¬ keys_ascending l → ∃ e, merk_apply m l = Err e;
  merk_commit_ok m : ∃ m', merk_commit m = Ok m' ∧ merk_view m' = merk_view m
                           ∧ merk_db m' = merk_view m;
  merk_iter_ok m mode r :
    (λ i, i ≫= λ kn, Ok (kn.1, merk_tree_value kn.1 kn.2)) <$> merk_iter m mode r
    = Ok <$> iter_entries (merk_db m) mode r;
}.

(** ** CBOR encoding *)

Class Cbor (A : Type) := {
  to_vec : A → bytes;
  decode : bytes → outcome string A;      (* the error is the decoder's message *)
}.

(** Decoding gives back every encoded value that satisfies [valid] (the size and
    non-emptiness checks some decoders make). *)
Class CborLaws (A : Type) `{Cbor A} (valid : A → Prop) : Prop :=
  decode_to_vec a : valid a → decode (to_vec a) = Ok a.

(** ** System clock *)

Class Clock := clock_now : N.    (* seconds since the Unix epoch *)

(** ** Lemmas on batches *)

Lemma apply_batch_app m l1 l2 :
  apply_batch m (l1 ++ l2) = apply_batch (apply_batch m l1) l2.
Proof. unfold apply_batch. by rewrite foldl_app. Qed.

Lemma apply_batch_cons m e l : apply_batch m (e :: l) = apply_batch (apply_op m e) l.
Proof. done. Qed.

Lemma lookup_apply_batch_ne m l k : k ∉ l.*1 → apply_batch m l !! k = m !! k.
Proof.
  revert m. induction l as [|[k' o] l IH]; intros m; [done|].
  csimpl. intros [Hne Hnin]%not_elem_of_cons. rewrite apply_batch_cons, IH by done.
  destruct o; unfold apply_op; simpl; by simplify_map_eq.
Qed.

Lemma lookup_apply_batch_put m l k v :
  NoDup l.*1 → (k, Put v) ∈ l → apply_batch m l !! k = Some v.
Proof.
  revert m. induction l as [|[k' o] l IH]; intros m; csimpl.
  - intros _ Hin. by apply elem_of_nil in Hin.
  - intros [Hnin Hnd]%NoDup_cons [Heq|Hin]%elem_of_cons; rewrite apply_batch_cons.
    + simplify_eq. rewrite lookup_apply_batch_ne by done. unfold apply_op. simpl.
      by simplify_map_eq.
    + by apply IH.
Qed.

(** A batch of puts with distinct keys does not depend on its order. *)
Lemma apply_batch_perm m l1 l2 :
  NoDup l1.*1 → l1 ≡ₚ l2 → apply_batch m l1 = apply_batch m l2.
Proof.
  intros Hnd Hp. revert m Hnd.
  induction Hp as [|e l1 l2 Hp IH|e1 e2 l|l1 l2 l3 Hp1 IH1 Hp2 IH2]; intros m Hnd.
  - done.
  - csimpl in Hnd. apply NoDup_cons in Hnd as [_ Hnd].
    rewrite !apply_batch_cons. by apply IH.
  - csimpl in Hnd. apply NoDup_cons in Hnd as [Hnin _].
    apply not_elem_of_cons in Hnin as [Hne _].
    rewrite !apply_batch_cons. f_equal. destruct e1 as [k1 [v1|]], e2 as [k2 [v2|]];
      unfold apply_op; simpl in *.
    + by rewrite insert_insert_ne.
    + by rewrite delete_insert_ne.
    + by rewrite delete_insert_ne.
    + by rewrite delete_delete.
  - rewrite (IH1 m Hnd). apply IH2. by rewrite <-Hp1.
Qed.

(** ** Lemmas on iteration *)

Lemma range_entries_ascending m r : keys_ascending (range_entries m r).
Proof. apply sort_by_key_ascending, NoDup_fst_map_to_list. Qed.

Lemma elem_of_range_entries m r k v :
  (k, v) ∈ range_entries m r ↔ m !! k = Some v ∧ in_iter_range r k.
Proof. unfold range_entries. by rewrite elem_of_btree_iter, map_lookup_filter_Some. Qed.
