(* ===== verification/Address.v ===== *)
(** * many-identity: addresses

    Models [many-identity/src/address.rs]: [SubresourceId], [InnerAddress] (32 bytes
    and the functions on them), its equality, its binary form ([from_bytes],
    [to_vec]) and its textual form ([Display], [from_str]).

    [Address] packages an [InnerAddress] with the shape every constructor gives it;
    in Rust the field is private, so no other value exists. [wrap] builds one, and
    fails where the bytes do not have the shape: the lemmas [wf_*] show that no
    constructor reaches that case. *)
From S2P Require Import Prelude Error External.

#[local] Open Scope string_scope.
#[local] Open Scope list_scope.
#[local] Open Scope N_scope.

(** ** Constants and subresource ids *)

Definition MAX_SUBRESOURCE_ID : N := 0x7FFFFFFF.
Definition MAX_IDENTITY_BYTE_LEN : nat := 32.
Definition SHA_OUTPUT_SIZE : nat := 28.

Definition DISCRIMINANT_ANONYMOUS : N := 0.
Definition DISCRIMINANT_PUBLIC_KEY : N := 1.
Definition DISCRIMINANT_ILLEGAL : N := 2.

(** [SubresourceId(u32)]. *)
Record SubresourceId : Type := mkSubresourceId { subid : N }.

Definition discriminant (id : SubresourceId) : u8 :=
  as_u8 (0x80 + N.shiftr (N.land (subid id) 0x7F000000) 24).

(** [impl TryInto<SubresourceId>] for the integer types. *)
Definition i32_try_into_subid (i : Z) : outcome ManyError SubresourceId :=
  if (i <? 0)%Z then Err invalid_identity_subid else Ok (mkSubresourceId (Z.to_N i)).
Definition i16_try_into_subid (i : Z) : outcome ManyError SubresourceId :=
  i32_try_into_subid i.
Definition u16_try_into_subid (i : N) : outcome ManyError SubresourceId :=
  Ok (mkSubresourceId i).
Definition u32_try_into_subid (i : N) : outcome ManyError SubresourceId :=
  if MAX_SUBRESOURCE_ID <? i then Err invalid_identity_subid else Ok (mkSubresourceId i).
Definition u64_try_into_subid (i : N) : outcome ManyError SubresourceId :=
  if MAX_SUBRESOURCE_ID <? i then Err invalid_identity_subid
  else Ok (mkSubresourceId (wrap32 i)).

(** ** [InnerAddress] *)

Record InnerAddress : Type := mkInner { addr_bytes : bytes }.

#[global] Instance InnerAddress_eq_dec : EqDecision InnerAddress.
Proof. solve_decision. Defined.

(** [self.bytes[0]]. *)
Definition kind (a : InnerAddress) : N := Byte.to_N (addr_bytes a !!! 0%nat).

Definition inner_anonymous : InnerAddress :=
  mkInner (replicate MAX_IDENTITY_BYTE_LEN (as_u8 DISCRIMINANT_ANONYMOUS)).
Definition inner_illegal : InnerAddress :=
  mkInner (replicate MAX_IDENTITY_BYTE_LEN (as_u8 DISCRIMINANT_ILLEGAL)).

(** The loop [while len > 0 { len -= 1; bytes[1 + len] = hash[len]; }]. *)
Fixpoint copy_hash_loop (len : nat) (dst hash : bytes) : bytes :=
  match len with
  | O => dst
  | S len => copy_hash_loop len (<[(1 + len)%nat := hash !!! len]> dst) hash
  end.

Definition inner_public_key (hash : bytes) : InnerAddress :=
  mkInner (copy_hash_loop SHA_OUTPUT_SIZE
             (<[0%nat := as_u8 DISCRIMINANT_PUBLIC_KEY]> (replicate MAX_IDENTITY_BYTE_LEN (as_u8 0)))
             hash).

Definition subresource_unchecked (hash : bytes) (id : SubresourceId) : InnerAddress :=
  let bs := addr_bytes (inner_public_key hash) in
  let bs := <[0%nat := discriminant id]> bs in
  let i := subid id in
  let bs := <[(SHA_OUTPUT_SIZE + 1)%nat := as_u8 (N.shiftr (N.land i 0x00FF0000) 16)]> bs in
  let bs := <[(SHA_OUTPUT_SIZE + 2)%nat := as_u8 (N.shiftr (N.land i 0x0000FF00) 8)]> bs in
  let bs := <[(SHA_OUTPUT_SIZE + 3)%nat := as_u8 (N.land i 0x000000FF)]> bs in
  mkInner bs.

Definition inner_is_anonymous (a : InnerAddress) : bool := kind a =? DISCRIMINANT_ANONYMOUS.
Definition inner_is_illegal (a : InnerAddress) : bool := kind a =? DISCRIMINANT_ILLEGAL.
Definition inner_is_public_key (a : InnerAddress) : bool := kind a =? DISCRIMINANT_PUBLIC_KEY.
Definition inner_is_subresource (a : InnerAddress) : bool := 0x80 <=? kind a.

Definition inner_from_bytes (l : bytes) : outcome ManyError InnerAddress :=
  match l with
  | [] => Err invalid_identity
  | d :: _ =>
      let x := Byte.to_N d in
      if x =? DISCRIMINANT_ANONYMOUS then
        if (1 <? length l)%nat then Err invalid_identity else Ok inner_anonymous
      else if x =? DISCRIMINANT_PUBLIC_KEY then
        if negb (length l =? 29)%nat then Err invalid_identity
        else Ok (inner_public_key (take 28 (drop 1 l)))
      else if x =? DISCRIMINANT_ILLEGAL then
        if (1 <? length l)%nat then Err invalid_identity else Ok inner_illegal
      else if 0x80 <=? x then
        if negb (length l =? 32)%nat then Err invalid_identity
        else
          let hash := take 28 (drop 1 l) in
          let sub := d :: take 3 (drop 29 l) in
          Ok (subresource_unchecked hash (mkSubresourceId (be_value sub)))
      else Err (invalid_identity_kind (pretty x))
  end.

Definition inner_to_vec (a : InnerAddress) : outcome ManyError bytes :=
  let x := kind a in
  if x =? DISCRIMINANT_ANONYMOUS then Ok [as_u8 DISCRIMINANT_ANONYMOUS]
  else if x =? DISCRIMINANT_PUBLIC_KEY then
    Ok (as_u8 DISCRIMINANT_PUBLIC_KEY :: take SHA_OUTPUT_SIZE (drop 1 (addr_bytes a)))
  else if x =? DISCRIMINANT_ILLEGAL then Ok [as_u8 DISCRIMINANT_ILLEGAL]
  else if 0x80 <=? x then Ok (addr_bytes a)
  else Panic "internal error: entered unreachable code".

Definition inner_subresource_id (a : InnerAddress) : option N :=
  let x := kind a in
  if 0x80 <=? x then
    let byte i := Byte.to_N (addr_bytes a !!! i) in
    let high := N.shiftl (N.land x 0x7F) 24 in
    let low := N.shiftl (byte (SHA_OUTPUT_SIZE + 1)%nat) 16 in
    let low := low + N.shiftl (byte (SHA_OUTPUT_SIZE + 2)%nat) 8 in
    let low := low + byte (SHA_OUTPUT_SIZE + 3)%nat in
    Some (high + low)
  else None.

(** The loop [while len > 0 { len -= 1; hash[len] = self.bytes[1 + len]; }]. *)
Fixpoint read_hash_loop (len : nat) (dst src : bytes) : bytes :=
  match len with
  | O => dst
  | S len => read_hash_loop len (<[len := src !!! (1 + len)%nat]> dst) src
  end.

Definition inner_hash (a : InnerAddress) : option bytes :=
  let x := kind a in
  if (x =? 1) || (0x80 <=? x) then
    Some (read_hash_loop SHA_OUTPUT_SIZE (replicate SHA_OUTPUT_SIZE (as_u8 0)) (addr_bytes a))
  else None.

(** [impl PartialEq for InnerAddress]. *)
Definition inner_eqb (a c : InnerAddress) : bool :=
  let x := kind a in
  let y := kind c in
  if (x =? DISCRIMINANT_ANONYMOUS) && (y =? DISCRIMINANT_ANONYMOUS) then true
  else if (x =? DISCRIMINANT_PUBLIC_KEY) && (y =? DISCRIMINANT_PUBLIC_KEY) then
    bool_decide (take SHA_OUTPUT_SIZE (drop 1 (addr_bytes a))
                 = take SHA_OUTPUT_SIZE (drop 1 (addr_bytes c)))
  else if (x =? DISCRIMINANT_ILLEGAL) && (y =? DISCRIMINANT_ILLEGAL) then true
  else if (0x80 <=? x) && (0x80 <=? y) && (x =? y) then
    bool_decide (drop 1 (addr_bytes a) = drop 1 (addr_bytes c))
  else false.

(** ** Textual form *)

(** [s.is_char_boundary(i)] for [i < s.len()]: the byte at [i] does not continue a
    UTF-8 sequence. *)
Definition is_char_boundary (s : string) (i : nat) : bool :=
  match String.get i s with
  | Some c => let n := N_of_ascii c in (n <? 128) || (192 <=? n)
  | None => (i =? String.length s)%nat
  end.

(** [&s[..end]] and [&s[start..]]. *)
Definition str_slice_to (s : string) (e : nat) : outcome ManyError string :=
  if is_char_boundary s e then Ok (String.substring 0 e s)
  else Panic "byte index is not a char boundary".
Definition str_slice_from (s : string) (i : nat) : outcome ManyError string :=
  if is_char_boundary s i then Ok (String.substring i (String.length s - i) s)
  else Panic "byte index is not a char boundary".

Definition starts_with_m (s : string) : bool :=
  match s with String c _ => Ascii.eqb c "m" | EmptyString => false end.

Section text.
Context `{Base32, Crc16}.

(** [impl Display for InnerAddress]. *)
Definition inner_to_string (a : InnerAddress) : outcome ManyError string :=
  if inner_is_anonymous a then Ok "maa"
  else
    data ← inner_to_vec a;
    let crc := be_bytes 2 (crc16 data) in
    let check := base32_encode crc in
    if (String.length check <? 2)%nat
    then Panic "called `Option::unwrap()` on a `None` value"
    else Ok ("m" +:+ to_ascii_lowercase (base32_encode data)
                 +:+ to_ascii_lowercase (String.substring 0 2 check)).

Definition inner_from_str (value : string) : outcome ManyError InnerAddress :=
  if negb (starts_with_m value) then Err (invalid_identity_prefix "")
  else if (String.length value <? 3)%nat then Err invalid_identity
  else
    tail ← str_slice_from value 1;
    if bool_decide (tail = "aa") || bool_decide (tail = "aaaa") then Ok inner_anonymous
    else
      front ← str_slice_to value (String.length value - 2);
      data ← str_slice_from front 1;
      data ← ok_or (base32_decode data) invalid_identity;
      result ← inner_from_bytes data;
      text ← inner_to_string result;
      if bool_decide (text = value) then Ok result else Err invalid_identity.
End text.

(** ** [Address] *)

(** The shape the constructors give the 32 bytes. *)
Definition wf_inner (a : InnerAddress) : bool :=
  let x := kind a in
  (length (addr_bytes a) =? MAX_IDENTITY_BYTE_LEN)%nat &&
  (if x =? DISCRIMINANT_ANONYMOUS then bool_decide (a = inner_anonymous)
   else if x =? DISCRIMINANT_PUBLIC_KEY then
     bool_decide (drop (SHA_OUTPUT_SIZE + 1) (addr_bytes a) = replicate 3 (as_u8 0))
   else if x =? DISCRIMINANT_ILLEGAL then bool_decide (a = inner_illegal)
   else 0x80 <=? x).

Record Address : Type := mkAddress {
  inner : InnerAddress;
  inner_wf : wf_inner inner = true;
}.

Lemma Address_eq (a c : Address) : inner a = inner c → a = c.
Proof.
  destruct a as [i Hi], c as [j Hj]. simpl. intros ->. f_equal. apply (proof_irrel _ _).
Qed.

#[global] Instance Address_eq_dec : EqDecision Address.
Proof.
  refine (λ a c, cast_if (decide (inner a = inner c))).
  - abstract (by apply Address_eq).
  - abstract (by intros ->).
Defined.

Definition wrap_opt (a : InnerAddress) : option Address :=
  match bool_dec (wf_inner a) true with
  | left p => Some (mkAddress a p)
  | right _ => None
  end.

Lemma wrap_opt_inner a : wrap_opt (inner a) = Some a.
Proof.
  unfold wrap_opt. destruct (bool_dec (wf_inner (inner a)) true) as [p|n].
  - f_equal. by apply Address_eq.
  - destruct n. apply inner_wf.
Qed.

#[global] Program Instance Address_countable : Countable Address :=
  inj_countable (λ a, addr_bytes (inner a)) (λ l, wrap_opt (mkInner l)) _.
Next Obligation. intros a. simpl. destruct (inner a) eqn:E. simpl. rewrite <-E. apply wrap_opt_inner. Qed.

(** [derive(Ord)]: the order of the byte arrays. *)
#[global] Instance Address_lexico : Lexico Address :=
  λ a c, lexico (addr_bytes (inner a)) (addr_bytes (inner c)).
#[global] Instance Address_lexico_po : StrictOrder (@lexico Address _).
Proof.
  unfold lexico, Address_lexico. split.
  - intros a Ha. by apply (irreflexivity lexico (addr_bytes (inner a))).
  - intros a c d ??. by trans (addr_bytes (inner c)).
Qed.
#[global] Instance Address_lexico_trichotomy : TrichotomyT (@lexico Address _).
Proof.
  red. refine (λ a c,
    match trichotomyT lexico (addr_bytes (inner a)) (addr_bytes (inner c)) with
    | inleft (left h) => inleft (left h)
    | inleft (right e) => inleft (right _)
    | inright h => inright h
    end).
  abstract (apply Address_eq; destruct (inner a), (inner c); simpl in *; by f_equal).
Defined.

Definition wrap (a : InnerAddress) : outcome ManyError Address :=
  match wrap_opt a with
  | Some a => Ok a
  | None => Panic "address bytes without the shape of an address"
  end.

Definition ANONYMOUS : Address := mkAddress inner_anonymous eq_refl.
Definition ILLEGAL : Address := mkAddress inner_illegal eq_refl.

Definition from_bytes (l : bytes) : outcome ManyError Address := inner_from_bytes l ≫= wrap.
Definition is_anonymous (a : Address) : bool := inner_is_anonymous (inner a).
Definition is_illegal (a : Address) : bool := inner_is_illegal (inner a).
Definition is_public_key (a : Address) : bool := inner_is_public_key (inner a).
Definition is_subresource (a : Address) : bool := inner_is_subresource (inner a).
Definition subresource_id (a : Address) : option N := inner_subresource_id (inner a).

(** [with_subresource_id], for the conversion [conv] of the integer type of [i]. *)
Definition with_subresource_id_by {I} (conv : I → outcome ManyError SubresourceId)
    (a : Address) (i : I) : outcome ManyError Address :=
  match inner_hash (inner a) with
  | Some h => s ← conv i; wrap (subresource_unchecked h s)
  | None => Err (invalid_identity_kind (pretty (kind (inner a))))
  end.
Definition with_subresource_id (a : Address) (i : N) : outcome ManyError Address :=
  with_subresource_id_by u32_try_into_subid a i.

Definition into_public_key (a : Address) : outcome ManyError Address :=
  match inner_hash (inner a) with
  | Some h => wrap (inner_public_key h)
  | None => Err (invalid_identity_kind (pretty (kind (inner a))))
  end.

Definition can_sign (a : Address) : bool := is_public_key a || is_subresource a.
Definition can_be_source (a : Address) : bool :=
  is_anonymous a || is_public_key a || is_subresource a.
Definition can_be_dest (a : Address) : bool :=
  is_public_key a || is_subresource a || is_illegal a.

Definition address_to_vec (a : Address) : bytes :=
  match inner_to_vec (inner a) with Ok l => l | _ => [] end.

(** [Address::matches]: equality up to the subresource id. *)
Definition matches (a c : Address) : bool :=
  if is_anonymous a then is_anonymous c
  else if is_illegal a then is_illegal c
  else bool_decide (inner_hash (inner a) = inner_hash (inner c)).

Section address_text.
Context `{Base32, Crc16}.

Definition address_to_string (a : Address) : string :=
  match inner_to_string (inner a) with Ok s => s | _ => "" end.
Definition address_from_str (s : string) : outcome ManyError Address :=
  inner_from_str s ≫= wrap.
End address_text.

(** ** Bytes of the constructors *)

Lemma copy_hash_loop_spec n d dst src :
  (n ≤ length src)%nat → (n ≤ length dst)%nat →
  copy_hash_loop n (d :: dst) src = d :: take n src ++ drop n dst.
Proof.
  revert dst. induction n as [|n IH]; intros dst Hs Hd; [done|].
  simpl copy_hash_loop. rewrite IH by (rewrite ?length_insert; lia).
  destruct (lookup_lt_is_Some_2 src n) as [x Hx]; [lia|].
  rewrite (list_lookup_total_correct _ _ _ Hx), (take_S_r _ _ _ Hx).
  rewrite (drop_S (<[n:=x]> dst) x n) by (apply list_lookup_insert_eq; lia).
  rewrite drop_insert_lt by lia. by rewrite <-app_assoc.
Qed.

Lemma read_hash_loop_spec n d dst src :
  (n ≤ length src)%nat → (n ≤ length dst)%nat →
  read_hash_loop n dst (d :: src) = take n src ++ drop n dst.
Proof.
  revert dst. induction n as [|n IH]; intros dst Hs Hd; [done|].
  simpl read_hash_loop. rewrite IH by (rewrite ?length_insert; lia).
  destruct (lookup_lt_is_Some_2 src n) as [x Hx]; [lia|].
  rewrite (list_lookup_total_correct _ _ _ Hx), (take_S_r _ _ _ Hx).
  rewrite (drop_S (<[n:=x]> dst) x n) by (apply list_lookup_insert_eq; lia).
  rewrite drop_insert_lt by lia. by rewrite <-app_assoc.
Qed.

Lemma public_key_bytes h :
  length h = SHA_OUTPUT_SIZE →
  addr_bytes (inner_public_key h) = as_u8 1 :: h ++ replicate 3 (as_u8 0).
Proof.
  intros Hh. unfold inner_public_key. cbn [addr_bytes].
  change (<[0%nat := as_u8 DISCRIMINANT_PUBLIC_KEY]> (replicate MAX_IDENTITY_BYTE_LEN (as_u8 0)))
    with (as_u8 1 :: replicate 31 (as_u8 0)).
  rewrite copy_hash_loop_spec by (rewrite ?length_replicate, ?Hh; unfold SHA_OUTPUT_SIZE; lia).
  rewrite take_ge by lia. done.
Qed.

Lemma land_shift_mod i k s :
  N.shiftr (N.land i (N.shiftl (N.ones k) s)) s = (i / 2 ^ s) mod 2 ^ k.
Proof.
  rewrite N.shiftr_land, N.shiftr_shiftl_l, N.sub_diag, N.shiftl_0_r by lia.
  by rewrite N.land_ones, N.shiftr_div_pow2.
Qed.

Lemma as_u8_mod n m : n mod 256 = m mod 256 → as_u8 n = as_u8 m.
Proof. intros Hm. apply to_N_inj. by rewrite !to_N_as_u8. Qed.

Lemma subresource_bytes h id :
  length h = SHA_OUTPUT_SIZE →
  addr_bytes (subresource_unchecked h (mkSubresourceId id)) =
    as_u8 (128 + (id / 2 ^ 24) mod 128)
    :: h ++ [as_u8 (id / 2 ^ 16); as_u8 (id / 2 ^ 8); as_u8 id].
Proof.
  intros Hh. unfold subresource_unchecked, discriminant.
  rewrite public_key_bytes by done. cbn [subid addr_bytes].
  change 0x7F000000 with (N.shiftl (N.ones 7) 24).
  change 0x00FF0000 with (N.shiftl (N.ones 8) 16).
  change 0x0000FF00 with (N.shiftl (N.ones 8) 8).
  change 0x000000FF with (N.ones 8).
  rewrite !land_shift_mod, N.land_ones.
  assert (∀ (d : u8) (j : nat) (v : u8) (t : bytes),
    <[(SHA_OUTPUT_SIZE + 1 + j)%nat := v]> (d :: h ++ t) = d :: h ++ <[j := v]> t) as Hins.
  { intros d j v t. rewrite <-Hh. replace (length h + 1 + j)%nat with (S (length h + j)) by lia.
    change (<[S (length h + j) := v]> (d :: h ++ t)) with (d :: <[(length h + j)%nat := v]> (h ++ t)).
    by rewrite insert_app_r. }
  change (SHA_OUTPUT_SIZE + 1)%nat with (SHA_OUTPUT_SIZE + 1 + 0)%nat.
  change (SHA_OUTPUT_SIZE + 2)%nat with (SHA_OUTPUT_SIZE + 1 + 1)%nat.
  change (SHA_OUTPUT_SIZE + 3)%nat with (SHA_OUTPUT_SIZE + 1 + 2)%nat.
  assert (∀ (v x : u8) (l : bytes), <[0%nat := v]> (x :: l) = v :: l) as H0 by done.
  rewrite H0. simpl replicate. rewrite !Hins. simpl.
  assert (∀ n, as_u8 (n mod 2 ^ 8) = as_u8 n) as Hm.
  { intros n. apply as_u8_mod, N.Div0.mod_mod. }
  by rewrite !Hm.
Qed.

Lemma kind_cons d l : kind (mkInner (d :: l)) = Byte.to_N d.
Proof. done. Qed.

Lemma to_N_as_u8_small n : n < 256 → Byte.to_N (as_u8 n) = n.
Proof. intros ?. by rewrite to_N_as_u8, N.mod_small. Qed.

(** The reserved high bit: the first byte of a subresource address is at least 0x80. *)
Lemma kind_subresource h id :
  length h = SHA_OUTPUT_SIZE →
  kind (subresource_unchecked h (mkSubresourceId id)) = 128 + (id / 2 ^ 24) mod 128.
Proof.
  intros Hh. unfold kind. rewrite subresource_bytes by done.
  change (Byte.to_N (as_u8 (128 + (id / 2 ^ 24) mod 128)) = 128 + (id / 2 ^ 24) mod 128).
  apply to_N_as_u8_small. pose proof (N.mod_upper_bound (id / 2 ^ 24) 128). lia.
Qed.

Lemma kind_public_key h : length h = SHA_OUTPUT_SIZE → kind (inner_public_key h) = 1.
Proof. intros Hh. unfold kind. by rewrite public_key_bytes. Qed.

(** ** Well-formedness of every constructor *)

Lemma wf_public_key h : length h = SHA_OUTPUT_SIZE → wf_inner (inner_public_key h) = true.
Proof.
  intros Hh. unfold wf_inner. rewrite kind_public_key, public_key_bytes by done.
  rewrite !length_cons, length_app, Hh. simpl.
  apply bool_decide_eq_true_2. rewrite drop_app_ge by (rewrite Hh; done). by rewrite Hh.
Qed.

Lemma wf_subresource h s :
  length h = SHA_OUTPUT_SIZE → wf_inner (subresource_unchecked h s) = true.
Proof.
  destruct s as [id]. intros Hh. unfold wf_inner.
  rewrite kind_subresource by done. rewrite subresource_bytes by done.
  rewrite length_cons, length_app, Hh.
  pose proof (N.mod_upper_bound (id / 2 ^ 24) 128).
  generalize dependent ((id / 2 ^ 24) mod 128). intros m Hm.
  unfold DISCRIMINANT_ANONYMOUS, DISCRIMINANT_PUBLIC_KEY, DISCRIMINANT_ILLEGAL.
  repeat (match goal with |- context [?a =? ?c] => destruct (N.eqb_spec a c); [lia|] end).
  simpl. apply N.leb_le. lia.
Qed.

Lemma length_slice_28 d (l : bytes) :
  (28 ≤ length l)%nat → length (take 28 (drop 1 (d :: l))) = SHA_OUTPUT_SIZE.
Proof. intros. rewrite length_take, length_drop, length_cons. unfold SHA_OUTPUT_SIZE. lia. Qed.

Lemma wf_from_bytes l a : inner_from_bytes l = Ok a → wf_inner a = true.
Proof.
  destruct l as [|d l]; [done|]. unfold inner_from_bytes.
  repeat case_match; intros; simplify_eq; try done.
  all: first [apply wf_public_key, (length_slice_28 d) | apply wf_subresource, (length_slice_28 d)].
  all: match goal with H : negb _ = false |- _ => apply negb_false_iff, Nat.eqb_eq in H; simpl in H end.
  all: lia.
Qed.

Lemma wrap_wf a : wf_inner a = true → ∃ w, wrap a = Ok w ∧ inner w = a.
Proof.
  intros Ha. unfold wrap, wrap_opt.
  destruct (bool_dec (wf_inner a) true) as [p|?]; [|done]. eauto.
Qed.

Lemma wrap_inner a : wrap (inner a) = Ok a.
Proof. unfold wrap. by rewrite wrap_opt_inner. Qed.

Lemma inner_hash_spec a :
  wf_inner a = true →
  (inner_hash a = None ∧ (kind a = 0 ∨ kind a = 2)) ∨
  (∃ d h t, addr_bytes a = d :: h ++ t ∧ length h = SHA_OUTPUT_SIZE ∧ length t = 3%nat
            ∧ inner_hash a = Some h ∧ (kind a = 1 ∧ t = replicate 3 (as_u8 0) ∨ 0x80 ≤ kind a)).
Proof.
  unfold wf_inner, inner_hash, DISCRIMINANT_ANONYMOUS, DISCRIMINANT_PUBLIC_KEY, DISCRIMINANT_ILLEGAL.
  intros [Hlen Hk]%andb_true_iff. apply Nat.eqb_eq in Hlen.
  destruct (addr_bytes a) as [|d l] eqn:Ha; [done|]. simpl in Hlen.
  assert (length l = 31%nat) as Hl by (unfold MAX_IDENTITY_BYTE_LEN in Hlen; lia).
  assert (read_hash_loop SHA_OUTPUT_SIZE (replicate SHA_OUTPUT_SIZE (as_u8 0)) (d :: l) = take 28 l) as Hr.
  { rewrite read_hash_loop_spec by (rewrite ?length_replicate; unfold SHA_OUTPUT_SIZE; lia).
    by rewrite drop_ge, app_nil_r by (rewrite length_replicate; lia). }
  rewrite Hr.
  destruct (N.eqb_spec (kind a) 0) as [E0|]; [left; rewrite E0; auto|].
  destruct (N.eqb_spec (kind a) 1) as [E1|].
  { right. exists d, (take 28 l), (drop 28 l). rewrite take_drop, E1.
    rewrite length_take, length_drop. unfold SHA_OUTPUT_SIZE. apply bool_decide_eq_true_1 in Hk.
    repeat split; auto; lia. }
  destruct (N.eqb_spec (kind a) 2) as [E2|]; [left; rewrite E2; auto|].
  right. exists d, (take 28 l), (drop 28 l). rewrite take_drop, Hk.
  rewrite length_take, length_drop. unfold SHA_OUTPUT_SIZE.
  apply N.leb_le in Hk. repeat split; auto; lia.
Qed.

(** The four kinds of addresses. *)
Inductive inner_view : InnerAddress → Prop :=
| view_anonymous : inner_view inner_anonymous
| view_illegal : inner_view inner_illegal
| view_public_key h :
    length h = SHA_OUTPUT_SIZE → inner_view (inner_public_key h)
| view_subresource h id :
    length h = SHA_OUTPUT_SIZE → id ≤ MAX_SUBRESOURCE_ID →
    inner_view (subresource_unchecked h (mkSubresourceId id)).

Lemma inner_ext a c : addr_bytes a = addr_bytes c → a = c.
Proof. destruct a, c. simpl. by intros ->. Qed.

(** Four bytes with the high bit of the first one dropped: a 31-bit id. *)
Definition subid_of_bytes (d x y z : u8) : N :=
  Byte.to_N d mod 128 * 2 ^ 24 + Byte.to_N x * 2 ^ 16 + Byte.to_N y * 2 ^ 8 + Byte.to_N z.

Lemma subresource_of_bytes d h x y z v :
  length h = SHA_OUTPUT_SIZE → 0x80 ≤ Byte.to_N d →
  v mod 2 ^ 31 = subid_of_bytes d x y z →
  subresource_unchecked h (mkSubresourceId v) = mkInner (d :: h ++ [x; y; z]).
Proof.
  intros Hh Hd Hv. apply inner_ext. rewrite subresource_bytes by done. cbn [addr_bytes].
  unfold subid_of_bytes in Hv. change (2 ^ 31) with 2147483648 in Hv.
  change (2 ^ 24) with 16777216 in *. change (2 ^ 16) with 65536 in *. change (2 ^ 8) with 256 in *.
  pose proof (to_N_lt d). pose proof (to_N_lt x). pose proof (to_N_lt y). pose proof (to_N_lt z).
  f_equal; [|do 2 f_equal; [|f_equal; [|f_equal]]]; apply to_N_inj; rewrite to_N_as_u8; dlia.
Qed.

Lemma subid_of_bytes_max d x y z : subid_of_bytes d x y z ≤ MAX_SUBRESOURCE_ID.
Proof.
  unfold subid_of_bytes, MAX_SUBRESOURCE_ID.
  pose proof (to_N_lt x). pose proof (to_N_lt y). pose proof (to_N_lt z).
  pose proof (N.mod_upper_bound (Byte.to_N d) 128).
  change (2 ^ 24) with 16777216. change (2 ^ 16) with 65536. change (2 ^ 8) with 256. lia.
Qed.

Lemma inner_view_wf a : wf_inner a = true → inner_view a.
Proof.
  intros Hwf. pose proof Hwf as Hwf'.
  apply inner_hash_spec in Hwf as [[_ Hk]|(d & h & t & Ha & Hh & Ht & _ & Hk)].
  - unfold wf_inner in Hwf'. apply andb_true_iff in Hwf' as [_ Hwf'].
    destruct Hk as [Hk|Hk]; rewrite Hk in Hwf'; apply bool_decide_eq_true_1 in Hwf' as ->;
      constructor.
  - assert (a = mkInner (d :: h ++ t)) as -> by (by apply inner_ext).
    rewrite kind_cons in Hk. destruct Hk as [[Hd ->]|Hd].
    + replace (mkInner (d :: h ++ replicate 3 (as_u8 0))) with (inner_public_key h); [by constructor|].
      apply inner_ext. rewrite public_key_bytes by done. cbn [addr_bytes]. f_equal.
      apply to_N_inj. by rewrite Hd.
    + destruct t as [|x [|y [|z [|]]]]; try done.
      rewrite <-(subresource_of_bytes d h x y z (subid_of_bytes d x y z)); auto.
      * constructor; auto using subid_of_bytes_max.
      * pose proof (subid_of_bytes_max d x y z). unfold MAX_SUBRESOURCE_ID in *.
        apply N.mod_small. change (2 ^ 31) with 2147483648. lia.
Qed.

Lemma address_view a : inner_view (inner a).
Proof. apply inner_view_wf, inner_wf. Qed.

(** ** Binary form *)

Lemma to_vec_public_key h :
  length h = SHA_OUTPUT_SIZE → inner_to_vec (inner_public_key h) = Ok (as_u8 1 :: h).
Proof.
  intros Hh. unfold inner_to_vec. rewrite kind_public_key, public_key_bytes by done.
  change (Ok (E := ManyError) (as_u8 1 :: take SHA_OUTPUT_SIZE (h ++ replicate 3 (as_u8 0))) = Ok (as_u8 1 :: h)).
  by rewrite <-Hh, take_app_length.
Qed.

(** The arms of the matches on the first byte, for a subresource. *)
Ltac subresource_arm :=
  unfold DISCRIMINANT_ANONYMOUS, DISCRIMINANT_PUBLIC_KEY, DISCRIMINANT_ILLEGAL;
  repeat (match goal with |- context [?a =? ?c] => destruct (N.eqb_spec a c); [lia|] end);
  match goal with |- context [?a <=? ?c] => destruct (N.leb_spec a c); [|lia] end.

Lemma to_vec_subresource h s :
  length h = SHA_OUTPUT_SIZE →
  inner_to_vec (subresource_unchecked h s) = Ok (addr_bytes (subresource_unchecked h s)).
Proof.
  intros Hh. destruct s as [id]. unfold inner_to_vec. rewrite kind_subresource by done.
  assert ((id / 2 ^ 24) mod 128 < 128) as Hm by (by apply N.mod_upper_bound).
  generalize dependent ((id / 2 ^ 24) mod 128). intros m Hm. by subresource_arm.
Qed.

(** [to_vec] never reaches its [unreachable!()]. *)
Lemma inner_to_vec_address a : inner_to_vec (inner a) = Ok (address_to_vec a).
Proof.
  unfold address_to_vec. destruct (address_view a).
  - done.
  - done.
  - by rewrite to_vec_public_key.
  - by rewrite to_vec_subresource.
Qed.

Lemma inner_from_to_vec a : inner_from_bytes (address_to_vec a) = Ok (inner a).
Proof.
  pose proof (inner_to_vec_address a) as Hv.
  destruct (address_view a) as [| |h Hh|h id Hh Hid].
  - injection Hv as <-. done.
  - injection Hv as <-. done.
  - rewrite to_vec_public_key in Hv by done. injection Hv as <-.
    unfold inner_from_bytes.
    rewrite length_cons, Hh.
    change (Ok (E := ManyError) (inner_public_key (take SHA_OUTPUT_SIZE h)) = Ok (inner_public_key h)).
    by rewrite <-Hh, take_ge.
  - rewrite to_vec_subresource, subresource_bytes in Hv by done. injection Hv as <-.
    assert ((id / 2 ^ 24) mod 128 < 128) as Hm by (by apply N.mod_upper_bound).
    assert (0x80 ≤ Byte.to_N (as_u8 (128 + (id / 2 ^ 24) mod 128))) as Hd.
    { generalize dependent ((id / 2 ^ 24) mod 128). intros m Hm. rewrite to_N_as_u8_small; lia. }
    unfold inner_from_bytes. subresource_arm.
    rewrite length_cons, length_app, Hh.
    match goal with |- context [be_value (?d :: take 3 (drop 29 (_ :: ?r)))] =>
      change (Ok (E := ManyError) (subresource_unchecked (take SHA_OUTPUT_SIZE r)
        (mkSubresourceId (be_value (d :: take 3 (drop SHA_OUTPUT_SIZE r))))) =
        Ok (subresource_unchecked h (mkSubresourceId id)))
    end.
    rewrite <-Hh, take_app_length, drop_app_length. cbn [take].
    f_equal. rewrite (subresource_of_bytes (as_u8 (128 + (id / 2 ^ 24) mod 128)) h
      (as_u8 (id / 2 ^ 16)) (as_u8 (id / 2 ^ 8)) (as_u8 id)).
    + symmetry. apply inner_ext. by rewrite subresource_bytes.
    + done.
    + done.
    + unfold subid_of_bytes, be_value. cbn [be_fold]. rewrite !to_N_as_u8.
      change (2 ^ 31) with 2147483648. change (2 ^ 24) with 16777216 in *.
      change (2 ^ 16) with 65536. change (2 ^ 8) with 256. clear Hm. dlia.
Qed.

Lemma inner_to_vec_from l a : inner_from_bytes l = Ok a → inner_to_vec a = Ok l.
Proof.
  destruct l as [|d l]; [done|]. unfold inner_from_bytes.
  destruct (N.eqb_spec (Byte.to_N d) DISCRIMINANT_ANONYMOUS) as [Hd|H0].
  { destruct l; [|done]. intros [= <-]. assert (d = as_u8 0) as -> by (apply to_N_inj; by rewrite Hd). done. }
  destruct (N.eqb_spec (Byte.to_N d) DISCRIMINANT_PUBLIC_KEY) as [Hd|H1].
  { destruct (Nat.eqb_spec (length (d :: l)) 29) as [Hl|]; [|done]. intros [= <-].
    change (take 28 (drop 0 l)) with (take SHA_OUTPUT_SIZE l).
    rewrite length_cons in Hl. rewrite take_ge by (unfold SHA_OUTPUT_SIZE; lia).
    rewrite to_vec_public_key by (unfold SHA_OUTPUT_SIZE; lia).
    do 2 f_equal. apply to_N_inj. by rewrite Hd. }
  destruct (N.eqb_spec (Byte.to_N d) DISCRIMINANT_ILLEGAL) as [Hd|H2].
  { destruct l; [|done]. intros [= <-]. assert (d = as_u8 2) as -> by (apply to_N_inj; by rewrite Hd). done. }
  destruct (N.leb_spec 0x80 (Byte.to_N d)) as [Hd|]; [|done].
  destruct (Nat.eqb_spec (length (d :: l)) 32) as [Hl|]; [|done]. intros [= <-].
  change (take 28 (drop 0 l)) with (take SHA_OUTPUT_SIZE l).
  change (take 3 (drop 28 l)) with (take 3 (drop SHA_OUTPUT_SIZE l)).
  rewrite length_cons in Hl.
  assert (length (take SHA_OUTPUT_SIZE l) = SHA_OUTPUT_SIZE) as Hh.
  { rewrite length_take. unfold SHA_OUTPUT_SIZE. lia. }
  rewrite to_vec_subresource by done. f_equal.
  rewrite <-(take_drop SHA_OUTPUT_SIZE l) at 3.
  assert (length (drop SHA_OUTPUT_SIZE l) = 3%nat) as Ht.
  { rewrite length_drop. unfold SHA_OUTPUT_SIZE. lia. }
  destruct (drop SHA_OUTPUT_SIZE l) as [|x [|y [|z [|]]]]; try done. cbn [take].
  rewrite (subresource_of_bytes d (take SHA_OUTPUT_SIZE l) x y z); auto.
  unfold subid_of_bytes, be_value. cbn [be_fold].
  change (2 ^ 31) with 2147483648. change (2 ^ 24) with 16777216.
  change (2 ^ 16) with 65536. change (2 ^ 8) with 256.
  pose proof (to_N_lt d). pose proof (to_N_lt x). pose proof (to_N_lt y). pose proof (to_N_lt z).
  dlia.
Qed.

Lemma from_bytes_inner l a : from_bytes l = Ok a ↔ inner_from_bytes l = Ok (inner a).
Proof.
  unfold from_bytes. split.
  - intros (i & Hi & Hw)%bind_Ok_inv. destruct (wrap_wf i) as (w & Hw' & <-).
    { by eapply wf_from_bytes. }
    rewrite wrap_inner in Hw. by simplify_eq.
  - intros ->. simpl. apply wrap_inner.
Qed.

Lemma from_to_vec a : from_bytes (address_to_vec a) = Ok a.
Proof. apply from_bytes_inner, inner_from_to_vec. Qed.

Lemma to_vec_inj a c : address_to_vec a = address_to_vec c → a = c.
Proof.
  intros E. pose proof (from_to_vec a) as Ha. rewrite E, from_to_vec in Ha. by simplify_eq.
Qed.

(** the binary form of an address is canonical. [Address::from_bytes]
    accepts exactly the byte strings [to_vec] produces, and gives back the address
    they came from; every other byte string is an error. *)
Theorem address_binary_roundtrip l a : from_bytes l = Ok a ↔ l = address_to_vec a.
Proof.
  split; [|intros ->; apply from_to_vec].
  rewrite from_bytes_inner. intros Hi%inner_to_vec_from.
  rewrite inner_to_vec_address in Hi. by simplify_eq.
Qed.

(** ** Equality *)

(** The first byte of a subresource address, as a number of its own. *)
Lemma kind_subresource_ge h id :
  length h = SHA_OUTPUT_SIZE →
  0x80 ≤ kind (subresource_unchecked h (mkSubresourceId id)).
Proof. intros Hh. rewrite kind_subresource by done. apply N.le_add_r. Qed.

Lemma inner_eqb_refl a : inner_eqb (inner a) (inner a) = true.
Proof.
  unfold inner_eqb. destruct (address_view a) as [| |h Hh|h id Hh Hid]; try done.
  - rewrite !kind_public_key by done. by apply bool_decide_eq_true_2.
  - pose proof (kind_subresource_ge h id Hh) as Hk. rewrite N.eqb_refl.
    generalize dependent (kind (subresource_unchecked h (mkSubresourceId id))). intros m Hk.
    subresource_arm. by apply bool_decide_eq_true_2.
Qed.

(** the hand-written [PartialEq] of [InnerAddress], which compares only the
    bytes that matter for each kind, is equality of addresses. *)
Theorem address_partial_eq a c : inner_eqb (inner a) (inner c) = true ↔ a = c.
Proof.
  split; [|intros <-; apply inner_eqb_refl].
  intros He. apply Address_eq. revert He. unfold inner_eqb.
  destruct (address_view a) as [| |h Hh|h id Hh Hid], (address_view c) as [| |h' Hh'|h' id' Hh' Hid'];
    rewrite ?kind_public_key by done; try done;
    try (pose proof (kind_subresource_ge h id Hh));
    try (pose proof (kind_subresource_ge h' id' Hh'));
    unfold DISCRIMINANT_ANONYMOUS, DISCRIMINANT_PUBLIC_KEY, DISCRIMINANT_ILLEGAL;
    repeat case_match; rewrite ?andb_true_iff, ?N.eqb_eq, ?bool_decide_eq_true in *;
    destruct_and?; try done; try lia.
  - rewrite !public_key_bytes by done. intros E.
    change (take SHA_OUTPUT_SIZE (h ++ replicate 3 (as_u8 0))
            = take SHA_OUTPUT_SIZE (h' ++ replicate 3 (as_u8 0))) in E.
    rewrite <-Hh in E at 1. rewrite <-Hh' in E. rewrite !take_app_length in E. by subst.
  - intros E. apply inner_ext. revert E.
    assert (Hk : kind (subresource_unchecked h (mkSubresourceId id))
                 = kind (subresource_unchecked h' (mkSubresourceId id'))) by done.
    rewrite !kind_subresource in Hk by done. rewrite !subresource_bytes, Hk by done.
    intros E. f_equal. exact E.
Qed.

(** ** Subresources *)

Lemma inner_hash_of d h t a :
  addr_bytes a = d :: h ++ t → length h = SHA_OUTPUT_SIZE →
  Byte.to_N d = 1 ∨ 0x80 ≤ Byte.to_N d → inner_hash a = Some h.
Proof.
  intros Ha Hh Hd. unfold inner_hash, kind. rewrite Ha.
  change (Byte.to_N ((d :: h ++ t) !!! 0%nat)) with (Byte.to_N d).
  assert ((Byte.to_N d =? 1) || (0x80 <=? Byte.to_N d) = true) as ->.
  { apply orb_true_iff. rewrite N.eqb_eq, N.leb_le. done. }
  rewrite read_hash_loop_spec
    by (rewrite ?length_app, ?length_replicate; unfold SHA_OUTPUT_SIZE in *; lia).
  rewrite drop_ge, app_nil_r by (rewrite length_replicate; lia).
  by rewrite <-Hh, take_app_length.
Qed.

Lemma inner_hash_public_key h :
  length h = SHA_OUTPUT_SIZE → inner_hash (inner_public_key h) = Some h.
Proof. intros Hh. eapply inner_hash_of; [by apply public_key_bytes|done|by left]. Qed.

Lemma inner_hash_subresource h id :
  length h = SHA_OUTPUT_SIZE →
  inner_hash (subresource_unchecked h (mkSubresourceId id)) = Some h.
Proof.
  intros Hh. eapply inner_hash_of; [by apply subresource_bytes|done|right].
  rewrite to_N_as_u8_small; [apply N.le_add_r|].
  pose proof (N.mod_upper_bound (id / 2 ^ 24) 128 ltac:(done)) as Hm.
  generalize dependent ((id / 2 ^ 24) mod 128). intros; lia.
Qed.

Lemma land_7F x : N.land x 0x7F = x mod 128.
Proof. change 0x7F with (N.ones 7). apply N.land_ones. Qed.

Lemma subresource_id_unchecked h id :
  length h = SHA_OUTPUT_SIZE →
  inner_subresource_id (subresource_unchecked h (mkSubresourceId id)) = Some (id mod 2 ^ 31).
Proof.
  intros Hh. unfold inner_subresource_id.
  destruct (N.leb_spec 0x80 (kind (subresource_unchecked h (mkSubresourceId id)))) as [_|Hlt];
    [|pose proof (kind_subresource_ge h id Hh); lia].
  rewrite kind_subresource, subresource_bytes by done.
  assert (∀ d (t : bytes) j, (d :: h ++ t) !!! (SHA_OUTPUT_SIZE + S j)%nat = t !!! j) as Hget.
  { intros d t j. rewrite Nat.add_succ_r.
    change ((h ++ t) !!! (SHA_OUTPUT_SIZE + j)%nat = t !!! j).
    rewrite <-Hh, lookup_total_app_r by lia. f_equal. lia. }
  rewrite !Hget, land_7F, !N.shiftl_mul_pow2. f_equal.
  cbn. rewrite !to_N_as_u8.
  change (2 ^ 31) with 2147483648. change (2 ^ 24) with 16777216.
  change (2 ^ 16) with 65536. change (2 ^ 8) with 256. dlia.
Qed.

Lemma with_subresource_id_ok a i h :
  inner_hash (inner a) = Some h → i ≤ MAX_SUBRESOURCE_ID →
  ∃ s, with_subresource_id a i = Ok s ∧ inner s = subresource_unchecked h (mkSubresourceId i)
       ∧ length h = SHA_OUTPUT_SIZE.
Proof.
  intros Hh Hi. unfold with_subresource_id, with_subresource_id_by, u32_try_into_subid.
  rewrite Hh. destruct (N.ltb_spec MAX_SUBRESOURCE_ID i); [lia|]. simpl.
  assert (length h = SHA_OUTPUT_SIZE) as Hl.
  { pose proof (inner_hash_spec _ (inner_wf a)) as [[? _]|(?&?&?&?&?&?&?&_)]; congruence. }
  destruct (wrap_wf (subresource_unchecked h (mkSubresourceId i))) as (s & -> & ?);
    [by apply wf_subresource|]. eauto.
Qed.

Lemma inner_hash_can_sign a : can_sign a = true ↔ is_Some (inner_hash (inner a)).
Proof.
  unfold can_sign, is_public_key, is_subresource, inner_is_public_key, inner_is_subresource, inner_hash.
  unfold DISCRIMINANT_PUBLIC_KEY. destruct ((kind (inner a) =? 1) || _).
  - split; eauto.
  - split; [done|by intros []].
Qed.

(** [with_subresource_id] on an address with a key gives, for an id of at
    most 31 bits, an address of the same key with exactly that id, from which
    [into_public_key] gives the key back; an id that does not fit is refused, and so
    is the anonymous or illegal address. *)
Theorem with_subresource_id_spec a i :
  if negb (can_sign a) then
    with_subresource_id a i = Err (invalid_identity_kind (pretty (kind (inner a))))
  else if MAX_SUBRESOURCE_ID <? i then
    with_subresource_id a i = Err invalid_identity_subid
  else ∃ s, with_subresource_id a i = Ok s ∧ is_subresource s = true
         ∧ subresource_id s = Some i ∧ matches a s = true
         ∧ into_public_key s = into_public_key a.
Proof.
  destruct (can_sign a) eqn:Hc; simpl.
  - apply inner_hash_can_sign in Hc as [h Hh].
    destruct (N.ltb_spec MAX_SUBRESOURCE_ID i) as [Hi|Hi].
    { unfold with_subresource_id, with_subresource_id_by, u32_try_into_subid. rewrite Hh.
      by apply N.ltb_lt in Hi as ->. }
    destruct (with_subresource_id_ok a i h) as (s & Hs & Hin & Hl); try done.
    exists s. split; [done|].
    unfold is_subresource, inner_is_subresource, subresource_id, matches, into_public_key.
    rewrite Hin, subresource_id_unchecked, inner_hash_subresource, Hh by done.
    split; [by apply N.leb_le, kind_subresource_ge|].
    split; [f_equal; apply N.mod_small; unfold MAX_SUBRESOURCE_ID in Hi;
            change (2 ^ 31) with 2147483648; lia|].
    split; [|done].
    assert (is_anonymous a = false ∧ is_illegal a = false) as [-> ->].
    { unfold is_anonymous, is_illegal, inner_is_anonymous, inner_is_illegal.
      unfold inner_hash in Hh. rewrite !N.eqb_neq.
      destruct (N.eqb_spec (kind (inner a)) 1) as [->|]; [done|].
      destruct (N.leb_spec 128 (kind (inner a))); [|done].
      unfold DISCRIMINANT_ANONYMOUS, DISCRIMINANT_ILLEGAL. lia. }
    by apply bool_decide_eq_true_2.
  - unfold with_subresource_id, with_subresource_id_by.
    destruct (inner_hash (inner a)) eqn:Hh; [|done].
    assert (can_sign a = true) by (apply inner_hash_can_sign; eauto). congruence.
Qed.

(** ** Textual form *)

(** The characters of a textual address: [a]-[z] and [2]-[7]. *)
Definition text_char (c : ascii) : bool :=
  let n := N_of_ascii c in ((97 <=? n) && (n <=? 122)) || ((50 <=? n) && (n <=? 55)).

Lemma string_forallb_app f s1 s2 :
  string_forallb f (s1 +:+ s2) = string_forallb f s1 && string_forallb f s2.
Proof. induction s1 as [|c s1 IH]; simpl; [done|]. by rewrite IH, andb_assoc. Qed.

Lemma string_forallb_substring f n m s :
  string_forallb f s = true → string_forallb f (String.substring n m s) = true.
Proof.
  revert n m. induction s as [|c s IH]; intros n m; simpl.
  - by destruct n, m.
  - intros [Hc Hs]%andb_true_iff. destruct n, m; simpl; rewrite ?Hc; simpl; auto.
Qed.

Lemma string_forallb_get f s i c :
  string_forallb f s = true → String.get i s = Some c → f c = true.
Proof.
  revert i. induction s as [|c' s IH]; intros i; simpl; [done|].
  intros [Hc Hs]%andb_true_iff. destruct i; [by intros [= <-]|by apply IH].
Qed.

Lemma to_ascii_lowercase_text s :
  string_forallb rfc4648_char s = true → string_forallb text_char (to_ascii_lowercase s) = true.
Proof.
  induction s as [|c s IH]; simpl; [done|]. intros [Hc Hs]%andb_true_iff.
  rewrite IH, andb_true_r by done. clear IH Hs.
  unfold rfc4648_char in Hc. unfold text_char, ascii_lower.
  destruct ((65 <=? N_of_ascii c) && (N_of_ascii c <=? 90)) eqn:E.
  - apply andb_true_iff in E as [E1%N.leb_le E2%N.leb_le].
    rewrite N_ascii_embedding by lia.
    apply orb_true_iff; left; apply andb_true_iff; rewrite !N.leb_le; lia.
  - rewrite orb_false_l in Hc. rewrite Hc. by rewrite orb_true_r.
Qed.

Lemma length_to_ascii_lowercase s : String.length (to_ascii_lowercase s) = String.length s.
Proof. induction s; simpl; auto. Qed.

Lemma string_length_app s1 s2 : String.length (s1 +:+ s2) = (String.length s1 + String.length s2)%nat.
Proof. induction s1; simpl; auto. Qed.

Lemma substring_app_l s1 s2 : String.substring 0 (String.length s1) (s1 +:+ s2) = s1.
Proof. induction s1 as [|c s1 IH]; simpl; [by destruct s2|by rewrite IH]. Qed.

Lemma substring_all s : String.substring 0 (String.length s) s = s.
Proof. induction s as [|c s IH]; simpl; [done|by rewrite IH]. Qed.

Lemma length_substring_0 n s :
  (n ≤ String.length s)%nat → String.length (String.substring 0 n s) = n.
Proof.
  revert n. induction s as [|c s IH]; intros [|n]; simpl; try done; [lia|].
  intros. rewrite IH; lia.
Qed.

Lemma char_boundary_text s i :
  string_forallb text_char s = true → (i ≤ String.length s)%nat → is_char_boundary s i = true.
Proof.
  intros Hs Hi. unfold is_char_boundary. destruct (String.get i s) as [c|] eqn:E.
  - apply (string_forallb_get _ _ _ _ Hs) in E. unfold text_char in E.
    apply orb_true_iff. left. apply N.ltb_lt.
    apply orb_true_iff in E as [E|E]; apply andb_true_iff in E as [??%N.leb_le]; lia.
  - apply Nat.eqb_eq. revert s Hs Hi E. induction i as [|i IH]; intros [|c s]; simpl; try done; [lia|].
    intros [_ Hs]%andb_true_iff Hi E. f_equal. apply (IH s); auto. lia.
Qed.

Section text_laws.
Context `{Base32, !Base32Laws, Crc16}.

(** The text of an address other than the anonymous one: a data part, at least two
    characters long, and two check characters. *)
Lemma address_text_shape a :
  is_anonymous a = false →
  ∃ d c, inner_to_string (inner a) = Ok ("m" +:+ (d +:+ c))
    ∧ d = to_ascii_lowercase (base32_encode (address_to_vec a))
    ∧ String.length c = 2%nat ∧ string_forallb text_char d = true
    ∧ string_forallb text_char c = true.
Proof.
  intros Ha. unfold inner_to_string. unfold is_anonymous in Ha. rewrite Ha, inner_to_vec_address. simpl.
  set (crc := base32_encode _).
  assert (String.length crc = 4%nat) as Hl by (unfold crc; by rewrite base32_length).
  destruct (Nat.ltb_spec (String.length crc) 2); [lia|].
  eexists _, _. split; [done|]. split; [done|].
  rewrite length_to_ascii_lowercase, length_substring_0 by lia. split; [done|].
  split; apply to_ascii_lowercase_text; [apply base32_alphabet|].
  apply string_forallb_substring, base32_alphabet.
Qed.

Lemma address_to_vec_cases a :
  (is_anonymous a = true ∧ a = ANONYMOUS) ∨ (a = ILLEGAL ∧ address_to_vec a = [as_u8 2])
  ∨ (29 ≤ length (address_to_vec a))%nat.
Proof.
  pose proof (inner_to_vec_address a) as Hv. unfold is_anonymous. pose proof (Address_eq a) as Heq.
  destruct (address_view a) as [| |h Hh|h id Hh Hid].
  - left. split; [done|by apply Heq].
  - right; left. split; [by apply Heq|]. by injection Hv.
  - right; right. rewrite to_vec_public_key in Hv by done. injection Hv as <-.
    rewrite length_cons, Hh. done.
  - right; right. rewrite to_vec_subresource, subresource_bytes in Hv by done. injection Hv as <-.
    rewrite length_cons, length_app, Hh. simpl. lia.
Qed.

(** The data part of an address other than the anonymous one is not that of a
    reserved spelling of it. *)
Lemma text_not_reserved a c :
  is_anonymous a = false → String.length c = 2%nat →
  let t := to_ascii_lowercase (base32_encode (address_to_vec a)) +:+ c in
  (4 ≤ String.length t)%nat ∧ t ≠ "aa" ∧ t ≠ "aaaa".
Proof.
  intros Ha Hc t. unfold t.
  assert (String.length (to_ascii_lowercase (base32_encode (address_to_vec a)))
          = Nat.div (8 * length (address_to_vec a) + 4) 5) as Hd.
  { by rewrite length_to_ascii_lowercase, base32_length. }
  rewrite string_length_app, Hd, Hc.
  destruct (address_to_vec_cases a) as [[? _]|[[-> Hv]|Hv]]; [congruence| |].
  - rewrite Hv in *. split; [simpl; lia|]. split; intros E.
    + apply (f_equal String.length) in E. rewrite string_length_app, Hd, Hc in E. done.
    + destruct (to_ascii_lowercase _) as [|x [|y [|]]] eqn:Ht; try done.
      change (String x (String y c) = "aaaa") in E. injection E as -> -> _.
      pose proof (base32_roundtrip ["000"%byte]) as Hz.
      pose proof (base32_roundtrip [as_u8 2]) as Ht2. rewrite Ht in Ht2.
      rewrite base32_zero in Hz. change (to_ascii_lowercase "AA") with "aa" in Hz.
      rewrite Hz in Ht2. by injection Ht2.
  - assert (47 ≤ Nat.div (8 * length (address_to_vec a) + 4) 5)%nat as Hge.
    { apply Nat.div_le_lower_bound; lia. }
    split; [lia|].
    split; intros E; apply (f_equal String.length) in E;
      rewrite string_length_app, Hd, Hc in E; simpl String.length in E; lia.
Qed.

(** What [from_str] does on [m], data and two check characters. *)
Lemma inner_from_str_text d c :
  string_forallb text_char d = true → string_forallb text_char c = true →
  String.length c = 2%nat → (4 ≤ String.length (d +:+ c))%nat → d +:+ c ≠ "aaaa" →
  inner_from_str ("m" +:+ (d +:+ c)) =
    (data ← ok_or (base32_decode d) invalid_identity;
     result ← inner_from_bytes data;
     text ← inner_to_string result;
     if bool_decide (text = "m" +:+ (d +:+ c)) then Ok result else Err invalid_identity).
Proof.
  intros Hdt Hct Hc Hlen Haaaa. rewrite string_length_app in Hlen.
  assert (string_forallb text_char ("m" +:+ (d +:+ c)) = true) as Hall.
  { change (text_char "m" && string_forallb text_char (d +:+ c) = true).
    by rewrite string_forallb_app, Hdt, Hct. }
  assert (String.length ("m" +:+ (d +:+ c)) = S (String.length (d +:+ c))) as HL by done.
  pose proof (string_length_app d c) as Happ. rewrite Hc in Happ.
  unfold inner_from_str. change (starts_with_m ("m" +:+ (d +:+ c))) with true. cbn [negb].
  rewrite HL. destruct (Nat.ltb_spec (S (String.length (d +:+ c))) 3); [lia|].
  unfold str_slice_from, str_slice_to.
  rewrite (char_boundary_text ("m" +:+ (d +:+ c)) 1) by (rewrite ?HL; auto; lia).
  change (String.substring 1 (String.length ("m" +:+ (d +:+ c)) - 1) ("m" +:+ (d +:+ c)))
    with (String.substring 0 (String.length (d +:+ c) - 0) (d +:+ c)).
  rewrite Nat.sub_0_r, substring_all. cbn [mbind outcome_bind].
  rewrite (bool_decide_eq_false_2 (_ = "aa")), (bool_decide_eq_false_2 (_ = "aaaa"));
    [|done|intros E; apply (f_equal String.length) in E; simpl String.length in E; lia].
  cbn [orb]. rewrite char_boundary_text by (rewrite ?HL; auto; lia).
  replace (S (String.length (d +:+ c)) - 2)%nat with (S (String.length d)) by lia.
  change (String.substring 0 (S (String.length d)) ("m" +:+ (d +:+ c)))
    with (String "m" (String.substring 0 (String.length d) (d +:+ c))).
  rewrite substring_app_l. cbn [mbind outcome_bind].
  rewrite char_boundary_text; [|by simpl; rewrite Hdt|simpl; lia].
  change (String.substring 1 (String.length (String "m" d) - 1) (String "m" d))
    with (String.substring 0 (String.length d - 0) d).
  by rewrite Nat.sub_0_r, substring_all.
Qed.

Lemma is_anonymous_true a : is_anonymous a = true → a = ANONYMOUS.
Proof.
  intros Ha. destruct (address_to_vec_cases a) as [[_ ->]|[[-> _]|Hv]]; [done|done|].
  unfold address_to_vec, inner_to_vec in Hv. unfold is_anonymous, inner_is_anonymous in Ha.
  rewrite Ha in Hv. simpl in Hv. lia.
Qed.

Lemma from_str_to_string a : address_from_str (address_to_string a) = Ok a.
Proof.
  unfold address_from_str, address_to_string. destruct (is_anonymous a) eqn:Ha.
  { by rewrite (is_anonymous_true a Ha). }
  destruct (address_text_shape a Ha) as (d & c & Htext & Hd & Hc & Hdt & Hct).
  destruct (text_not_reserved a c Ha Hc) as (Hlen & _ & Haaaa). rewrite <-Hd in Hlen, Haaaa.
  rewrite Htext, inner_from_str_text by done.
  rewrite Hd at 1. rewrite base32_roundtrip. cbn [ok_or mbind outcome_bind].
  rewrite inner_from_to_vec. cbn [mbind outcome_bind]. rewrite Htext. cbn [mbind outcome_bind].
  rewrite bool_decide_eq_true_2 by done. cbn. apply wrap_inner.
Qed.

Lemma address_to_string_inj a c : address_to_string a = address_to_string c → a = c.
Proof.
  intros E. pose proof (from_str_to_string a) as Ha. rewrite E, from_str_to_string in Ha.
  by simplify_eq.
Qed.

Lemma address_to_string_text a : string_forallb text_char (address_to_string a) = true.
Proof.
  unfold address_to_string. destruct (is_anonymous a) eqn:Ha.
  { by rewrite (is_anonymous_true a Ha). }
  destruct (address_text_shape a Ha) as (d & c & -> & _ & _ & Hdt & Hct).
  change (text_char "m" && string_forallb text_char (d +:+ c) = true).
  by rewrite string_forallb_app, Hdt, Hct.
Qed.

(** [format!("{a}")] as bytes: an injective text without a slash. *)
Definition ab (a : Address) : bytes := b (address_to_string a).

Lemma ab_inj a c : ab a = ab c → a = c.
Proof. intros Hab%b_inj. by apply address_to_string_inj. Qed.

Lemma ab_no_slash a : Byte.x2f ∉ ab a.
Proof.
  unfold ab. pose proof (address_to_string_text a) as Ht. revert Ht.
  generalize (address_to_string a). intros s. induction s as [|c s IH]; [intros _; apply not_elem_of_nil|].
  simpl. intros [Hc Hs]%andb_true_iff. apply not_elem_of_cons. split; [|by apply IH].
  intros Hx. assert (c = "/"%char) as ->.
  { apply (f_equal Ascii.ascii_of_byte) in Hx. rewrite Ascii.ascii_of_byte_of_ascii in Hx. done. }
  done.
Qed.

(** [from_str] inverts [Display] on every address, and what it accepts
    is canonical: any string parsed as an address is that address's own text, the
    alternative spelling [maaaa] of the anonymous address apart. *)
Theorem address_text_roundtrip s a :
  address_from_str s = Ok a ↔ s = address_to_string a ∨ (s = "maaaa" ∧ a = ANONYMOUS).
Proof.
  split; [|intros [-> |[-> ->]]; [apply from_str_to_string|reflexivity]].
  unfold address_from_str. intros (i & Hi & Hw)%bind_Ok_inv. revert Hi. unfold inner_from_str.
  destruct (starts_with_m s) eqn:Hm; [|done]. cbn [negb].
  destruct s as [|m s]; [done|]. simpl in Hm. apply Ascii.eqb_eq in Hm as ->.
  destruct (_ <? 3)%nat; [done|].
  intros (tail & Htail & Hi)%bind_Ok_inv.
  assert (tail = s) as ->.
  { unfold str_slice_from in Htail. destruct (is_char_boundary _ _) in Htail; [|done]. injection Htail as <-.
    change (String.substring 0 (String.length s - 0) s = s). by rewrite Nat.sub_0_r, substring_all. }
  revert Hi. clear Htail.
  destruct (decide (s = "aa")) as [->|Hn1].
  { intros [= <-]. left. change inner_anonymous with (inner ANONYMOUS) in Hw.
    rewrite wrap_inner in Hw. by simplify_eq. }
  destruct (decide (s = "aaaa")) as [->|Hn2].
  { intros [= <-]. right. change inner_anonymous with (inner ANONYMOUS) in Hw.
    rewrite wrap_inner in Hw. by simplify_eq. }
  rewrite !bool_decide_eq_false_2 by done. cbn [orb].
  intros (front & _ & (d & _ & (data & _ & (r & Hr & (t & Ht & Hi)%bind_Ok_inv)%bind_Ok_inv)
    %bind_Ok_inv)%bind_Ok_inv)%bind_Ok_inv.
  case_bool_decide as Hts; simplify_eq. left.
  destruct (wrap_wf i) as (w & Hw' & Hwi); [by eapply wf_from_bytes|].
  rewrite Hw in Hw'. simplify_eq. unfold address_to_string. by rewrite Ht.
Qed.
End text_laws.
