(* ===== verification/Types.v ===== *)
(** * many-types: amounts, times, ranges, memos and attributes

    Models the value types of [many-types/src] the ledger is built on:
    - [ledger.rs]: [TokenAmount], [TransactionFee], [TokenInfo] and its parts;
    - [lib.rs]: [Percent], [Timestamp], [CborRange], [SortOrder], [VecOrSingle];
    - [memo.rs], [memo/legacy.rs]: [Memo], [MemoLegacy], [DataLegacy], their size
      limits and the conversions between them;
    - [cbor.rs], [attributes.rs]: [CborAny], [Attribute], [AttributeSet].

    [BigUint] is [N]: addition and multiplication are exact and subtraction panics
    when its result would be negative. [String]s are the strings of their UTF-8 bytes, so
    [len()] is [String.length]. *)
From S2P Require Import Prelude Error External Address.

#[local] Open Scope string_scope.
#[local] Open Scope list_scope.
#[local] Open Scope N_scope.

(** ** Amounts *)

Abbreviation TokenAmount := N.
Abbreviation Symbol := Address.
Abbreviation LedgerTokensAddressMap := (gmap Address TokenAmount).

Definition token_zero : TokenAmount := 0.
Definition token_is_zero (a : TokenAmount) : bool := a =? 0.

(** [BigUint]'s [Sub] panics on underflow. *)
Definition token_sub {E} (a c : TokenAmount) : outcome E TokenAmount :=
  if c <=? a then Ok (a - c) else Panic "Cannot subtract b from a because b is larger than a.".

(** [Percent]: a [U32F32] fixed-point number, by its 64 bits. *)
Definition Percent_new (i fraction : N) : N := wrap64 (N.shiftl i 32 + fraction).
(** [impl Mul<Percent> for TokenAmount]. *)
Definition mul_percent (a : TokenAmount) (p : N) : TokenAmount := N.shiftr (a * p) 32.

Record TransactionFee : Type := mkFee {
  fee_fixed : option TokenAmount;
  fee_percent : option N;
}.

Definition calculate_fees (f : TransactionFee) (amount : TokenAmount) : TokenAmount :=
  let fees := default 0 (fee_fixed f) in
  fees + match fee_percent f with
         | Some p => mul_percent amount p
         | None => token_zero
         end.

Record TokenInfoSummary : Type := mkSummary {
  name : string;
  ticker : string;
  decimals : N;
}.
Record TokenInfoSupply : Type := mkSupply {
  total : TokenAmount;
  circulating : TokenAmount;
  maximum : option TokenAmount;
}.
Record TokenInfo : Type := mkTokenInfo {
  symbol : Symbol;
  summary : TokenInfoSummary;
  supply : TokenInfoSupply;
  owner : option Address;
}.

#[global] Instance TokenInfoSummary_eq_dec : EqDecision TokenInfoSummary.
Proof. solve_decision. Defined.
#[global] Instance TokenInfoSupply_eq_dec : EqDecision TokenInfoSupply.
Proof. solve_decision. Defined.
#[global] Instance TokenInfo_eq_dec : EqDecision TokenInfo.
Proof. solve_decision. Defined.

(** [TokenMaybeOwner = Either<Address, CborNull>]. *)
Inductive TokenMaybeOwner : Type := OwnerLeft (a : Address) | OwnerNull.

(** ** Times *)

(** [Timestamp(u64)], in seconds. *)
Abbreviation Timestamp := N.
Definition I64_MAX : N := 9223372036854775807.

(** [SystemTime] holds its seconds in an [i64]. *)
Definition as_system_time (t : Timestamp) : outcome ManyError N :=
  if t <=? I64_MAX then Ok t
  else Err (unknown "duration value can not represent system time").
Definition timestamp_add (t : Timestamp) (secs : N) : Timestamp := wrap64 (t + secs).

(** ** Ranges and orders *)

Inductive Bound (T : Type) : Type := Included (x : T) | Excluded (x : T) | Unbounded.
Arguments Included {T} x.
Arguments Excluded {T} x.
Arguments Unbounded {T}.

Record CborRange (T : Type) : Type := mkRange { start : Bound T; end_ : Bound T }.
Arguments mkRange {T} start end_.
Arguments start {T} c.
Arguments end_ {T} c.

Definition range_default {T} : CborRange T := mkRange Unbounded Unbounded.

(** [CborRange::contains], for the comparison [le] of the type. *)
Definition range_contains {T} (le : T → T → bool) (r : CborRange T) (x : T) : bool :=
  (match start r with
   | Included s => le s x
   | Excluded s => negb (le x s)
   | Unbounded => true
   end) &&
  (match end_ r with
   | Included e => le x e
   | Excluded e => negb (le e x)
   | Unbounded => true
   end).

Inductive SortOrder : Type := Indeterminate | Ascending | Descending.

Definition SortOrder_from_str (s : string) : outcome string SortOrder :=
  if bool_decide (s = "indeterminate") then Ok Indeterminate
  else if bool_decide (s = "ascending") then Ok Ascending
  else if bool_decide (s = "descending") then Ok Descending
  else Err ("Invalid sort order: " +:+ s).

(** ** Blocks *)

(** [many-modules/src/_1000_abci_backend.rs]: what an application tells at the end of a
    block, what it answers about itself, and what it is told at the start of a block. *)
Record AbciCommitInfo : Type := mkCommitInfo { retain_height : N; commit_hash : bytes }.
Record AbciInfo : Type := mkAbciInfo { info_height : N; info_hash : bytes }.
Record AbciBlock : Type := mkAbciBlock { block_time : option N }.

(** ** Memos *)

Definition MEMO_DATA_DEFAULT_MAX_SIZE : N := 4000.
Definition MULTISIG_MEMO_DATA_MAX_SIZE : N := 4000.

Inductive MemoInner : Type := MemoString (s : string) | MemoBytes (l : bytes).
(** [Memo<M>]: a vector of strings and byte strings. *)
Abbreviation Memo := (list MemoInner).

#[global] Instance MemoInner_eq_dec : EqDecision MemoInner.
Proof. solve_decision. Defined.

Definition str_len (s : string) : N := N.of_nat (String.length s).
Definition bytes_len (l : bytes) : N := N.of_nat (length l).
Definition memo_inner_len (i : MemoInner) : N :=
  match i with MemoString s => str_len s | MemoBytes l => bytes_len l end.

Definition over_limit (len M : N) : ManyError :=
  unknown ("Data size (" +:+ pretty len +:+ ") over limit (" +:+ pretty M +:+ ")").

Section memo.
Variable M : N.      (* MAX_LENGTH *)

Definition memo_inner_try_from (i : MemoInner) : outcome ManyError MemoInner :=
  if M <? memo_inner_len i then Err (over_limit (memo_inner_len i) M) else Ok i.

Definition memo_from (i : MemoInner) : Memo := [i].
Definition memo_try_from (i : MemoInner) : outcome ManyError Memo :=
  memo_from <$> memo_inner_try_from i.

(** [.map(try_into).collect::<Result<_, _>>()]: stops at the first error. *)
Fixpoint memo_collect (l : list MemoInner) : outcome ManyError Memo :=
  match l with
  | [] => Ok []
  | i :: l => x ← memo_inner_try_from i; xs ← memo_collect l; Ok (x :: xs)
  end.
Definition memo_try_from_iter (l : list MemoInner) : outcome ManyError Memo := memo_collect l.

Definition memo_push (i : MemoInner) : ST Memo ManyError unit := λ m,
  match memo_inner_try_from i with
  | Ok x => (m ++ [x], Ok tt)
  | Err e => (m, Err e)
  | Panic t => (m, Panic t)
  | OutOfFuel => (m, OutOfFuel)
  end.
Definition memo_push_str (s : string) : ST Memo ManyError unit := memo_push (MemoString s).
Definition memo_push_bytes (l : bytes) : ST Memo ManyError unit := memo_push (MemoBytes l).

(** [Decode for Memo] once the array is read: the element check, then the
    non-emptiness check. *)
Definition memo_decode (l : list MemoInner) : outcome ManyError Memo :=
  m ← memo_collect l;
  if bool_decide (m = []) then Err (unknown "Cannot build empty Memo.") else Ok m.
End memo.

Definition memo_len (m : Memo) : nat := length m.
Definition memo_is_empty (m : Memo) : bool := bool_decide (m = []).
Definition memo_iter_str (m : Memo) : list string :=
  omap (λ i, match i with MemoString s => Some s | _ => None end) m.
Definition memo_iter_bytes (m : Memo) : list bytes :=
  omap (λ i, match i with MemoString _ => None | MemoBytes l => Some l end) m.
(** [impl PartialEq<str> for Memo]. *)
Definition memo_eq_str (m : Memo) (s : string) : bool :=
  if (memo_len m =? 1)%nat then bool_decide (head (memo_iter_str m) = Some s) else false.

(** [MemoLegacy(String)] and [DataLegacy(ByteVec)]. *)
Record MemoLegacy : Type := mkMemoLegacy { memo_legacy : string }.
Record DataLegacy : Type := mkDataLegacy { data_legacy : bytes }.

Definition MemoLegacy_try_from (s : string) : outcome string MemoLegacy :=
  if MULTISIG_MEMO_DATA_MAX_SIZE <? str_len s
  then Err ("Memo size over limit " +:+ pretty (str_len s)) else Ok (mkMemoLegacy s).
Definition DataLegacy_try_from (l : bytes) : outcome string DataLegacy :=
  if MULTISIG_MEMO_DATA_MAX_SIZE <? bytes_len l
  then Err ("Data size over limit " +:+ pretty (bytes_len l)) else Ok (mkDataLegacy l).

(** [.unwrap()] on a [Result]. *)
Definition unwrap {E A} (m : outcome E A) : outcome E A :=
  match m with
  | Err _ => Panic "called `Result::unwrap()` on an `Err` value"
  | _ => m
  end.

(** [impl From<MemoLegacy> for Memo] and [impl From<DataLegacy> for Memo]. *)
Definition memo_from_legacy (m : MemoLegacy) : outcome ManyError Memo :=
  memo_from <$> unwrap (memo_inner_try_from MEMO_DATA_DEFAULT_MAX_SIZE (MemoString (memo_legacy m))).
Definition memo_from_data_legacy (d : DataLegacy) : outcome ManyError Memo :=
  memo_from <$> unwrap (memo_inner_try_from MEMO_DATA_DEFAULT_MAX_SIZE (MemoBytes (data_legacy d))).

(** What the decoder of [Memo] accepts. *)
Definition memo_valid (m : Memo) : Prop :=
  m ≠ [] ∧ Forall (λ i, memo_inner_len i ≤ MEMO_DATA_DEFAULT_MAX_SIZE) m.
Definition memo_legacy_valid (m : MemoLegacy) : Prop :=
  str_len (memo_legacy m) ≤ MULTISIG_MEMO_DATA_MAX_SIZE.
Definition data_legacy_valid (d : DataLegacy) : Prop :=
  bytes_len (data_legacy d) ≤ MULTISIG_MEMO_DATA_MAX_SIZE.

#[global] Instance memo_valid_dec m : Decision (memo_valid m).
Proof. unfold memo_valid. apply _. Defined.
#[global] Instance memo_legacy_valid_dec m : Decision (memo_legacy_valid m).
Proof. unfold memo_legacy_valid. apply _. Defined.
#[global] Instance data_legacy_valid_dec m : Decision (data_legacy_valid m).
Proof. unfold data_legacy_valid. apply _. Defined.

(** ** Characters *)

(** The scalar values of a string: [str::chars]. *)
Fixpoint utf8_chars (pending : nat) (acc : N) (l : bytes) : list N :=
  match l with
  | [] => []
  | x :: l =>
      let n := Byte.to_N x in
      match pending with
      | S O => (acc * 64 + n mod 64) :: utf8_chars 0 0 l
      | S p => utf8_chars p (acc * 64 + n mod 64) l
      | O => if n <? 0x80 then n :: utf8_chars 0 0 l
             else if n <? 0xE0 then utf8_chars 1 (n mod 32) l
             else if n <? 0xF0 then utf8_chars 2 (n mod 16) l
             else utf8_chars 3 (n mod 8) l
      end
  end.
(** [String::from(c)]: the bytes of a scalar value. *)
Definition utf8_tail (shift c : N) : u8 := as_u8 (0x80 + N.shiftr c shift mod 64).
Definition char_to_utf8 (c : N) : bytes :=
  if c <? 0x80 then [as_u8 c]
  else if c <? 0x800 then [as_u8 (0xC0 + N.shiftr c 6); utf8_tail 0 c]
  else if c <? 0x10000 then [as_u8 (0xE0 + N.shiftr c 12); utf8_tail 6 c; utf8_tail 0 c]
  else [as_u8 (0xF0 + N.shiftr c 18); utf8_tail 12 c; utf8_tail 6 c; utf8_tail 0 c].

(** ** Attributes *)

#[local] Set Warnings "-register-all".

(** [CborAny]; a map's entries are in key order. *)
Inductive CborAny : Type :=
| CBool (x : bool)
| CInt (i : Z)
| CString (s : string)
| CBytes (l : bytes)
| CArray (l : list CborAny)
| CMap (l : list (CborAny * CborAny))
| CTagged (t : N) (v : CborAny)
| CNull.

(** The derived [PartialEq]. *)
Definition any_eq_dec : ∀ x y : CborAny, {x = y} + {x ≠ y}.
Proof.
  fix IH 1. intros [x|i|s|l|l|l|t v|] [x'|i'|s'|l'|l'|l'|t' v'|]; try (right; discriminate).
  - destruct (decide (x = x')) as [->|]; [by left|right; congruence].
  - destruct (decide (i = i')) as [->|]; [by left|right; congruence].
  - destruct (decide (s = s')) as [->|]; [by left|right; congruence].
  - destruct (decide (l = l')) as [->|]; [by left|right; congruence].
  - destruct (@list_eq_dec CborAny IH l l') as [->|]; [by left|right; congruence].
  - destruct (@list_eq_dec (CborAny * CborAny) (@prod_eq_dec _ IH _ IH) l l') as [->|]; [by left|right; congruence].
  - destruct (decide (t = t')) as [->|]; [|right; congruence].
    destruct (IH v v') as [->|]; [by left|right; congruence].
  - by left.
Defined.
#[global] Instance CborAny_eq_dec : EqDecision CborAny := any_eq_dec.

(** [m.get(&CborAny::Int(k))]. *)
Definition cmap_get_int (m : list (CborAny * CborAny)) (k : Z) : option CborAny :=
  snd <$> find (λ kv, match kv.1 with CInt i => (i =? k)%Z | _ => false end) m.

Record Attribute : Type := mkAttribute { attr_id : N; attr_arguments : list CborAny }.

#[global] Instance Attribute_eq_dec : EqDecision Attribute.
Proof. solve_decision. Defined.

Definition attribute_id (i : N) : Attribute := mkAttribute i [].
Definition attribute_with_argument (a : Attribute) (x : CborAny) : Attribute :=
  mkAttribute (attr_id a) (attr_arguments a ++ [x]).

(** A [BTreeSet<Attribute>]: attributes are ordered by their id alone, so a set holds
    one argument list per id. *)
Abbreviation AttributeSet := (gmap N (list CborAny)).

(** [BTreeSet::insert]: an attribute already present under this id is kept. *)
Definition AttributeSet_insert (s : AttributeSet) (a : Attribute) : AttributeSet * bool :=
  match s !! attr_id a with
  | Some _ => (s, false)
  | None => (<[attr_id a := attr_arguments a]> s, true)
  end.
(** In the order of the ids. *)
Definition attribute_list (s : AttributeSet) : list Attribute := map (λ ia, mkAttribute ia.1 ia.2) (btree_iter s).
(** [BTreeSet::from_iter]: a stable sort by the order, which is that of the ids, after which neighbours that are
    equal become one; attributes with one id and different arguments are both kept. *)
Fixpoint sorted_insert (a : Attribute) (l : list Attribute) : list Attribute :=
  match l with
  | [] => [a]
  | x :: l' => if attr_id a <=? attr_id x then a :: l else x :: sorted_insert a l'
  end.
Fixpoint dedup_sorted (l : list Attribute) : list Attribute :=
  match l with
  | x :: (y :: _) as l' => if bool_decide (x = y) then dedup_sorted l' else x :: dedup_sorted l'
  | _ => l
  end.
Definition attributes_from_iter (l : list Attribute) : list Attribute := dedup_sorted (foldr sorted_insert [] l).
Definition AttributeSet_has_id (s : AttributeSet) (i : N) : bool :=
  bool_decide (is_Some (s !! i)).
Definition AttributeSet_get_attribute (s : AttributeSet) (i : N) : option Attribute :=
  mkAttribute i <$> s !! i.

(** [Decode for Attribute] once the array is read: the first item is the id. *)
Definition attribute_of_array (l : list CborAny) : outcome string Attribute :=
  match l with
  | [] => Err "Invalid empty attribute."
  | CInt i :: args =>
      if (i <=? Z.of_N U32_MAX)%Z then Ok (mkAttribute (Z.to_N (as_u32 i)) args)
      else Err "Expected an attribute ID."
  | _ => Err "Expected an attribute ID."
  end.

(** ** Lemmas *)

Lemma elem_of_attributes_from_iter a l : a ∈ attributes_from_iter l ↔ a ∈ l.
Proof.
  assert (∀ x l, x ∈ dedup_sorted l ↔ x ∈ l) as Hd.
  { intros x k. induction k as [|y [|z k] IH]; [done..|]. cbn [dedup_sorted]. case_bool_decide as Hyz.
    - subst y. rewrite IH. set_solver.
    - rewrite elem_of_cons, IH. set_solver. }
  assert (∀ x y l, x ∈ sorted_insert y l ↔ x = y ∨ x ∈ l) as Hs.
  { intros x y k. induction k as [|z k IH]; [set_solver|]. cbn [sorted_insert].
    destruct (attr_id y <=? attr_id z); [set_solver|]. rewrite elem_of_cons, IH. set_solver. }
  unfold attributes_from_iter. rewrite Hd. induction l as [|y l IH]; [done|]. cbn [foldr]. rewrite Hs, IH. set_solver.
Qed.

Lemma memo_inner_try_from_ok M i x :
  memo_inner_try_from M i = Ok x ↔ x = i ∧ memo_inner_len i ≤ M.
Proof.
  unfold memo_inner_try_from. destruct (N.ltb_spec M (memo_inner_len i)).
  - split; [done|]. intros [_ ?]. lia.
  - split; [by intros [= <-]|by intros [-> _]].
Qed.

Lemma memo_collect_ok M l m :
  memo_collect M l = Ok m ↔ m = l ∧ Forall (λ i, memo_inner_len i ≤ M) l.
Proof.
  revert m. induction l as [|i l IH]; intros m; simpl.
  - split; [by intros [= <-]|by intros [-> _]].
  - rewrite Forall_cons. split.
    + intros (x & [-> Hi]%memo_inner_try_from_ok & (xs & [-> Hl]%IH & [= <-])%bind_Ok_inv)%bind_Ok_inv.
      done.
    + intros (-> & Hi & Hl).
      assert (memo_inner_try_from M i = Ok i) as -> by (by apply memo_inner_try_from_ok).
      assert (memo_collect M l = Ok l) as Hc by (by apply IH).
      cbn [mbind outcome_bind]. rewrite Hc. done.
Qed.

(** Legacy memos have the same limit, so the [unwrap] of the conversion never panics
    on a value within it. *)
Lemma memo_from_legacy_ok m :
  memo_legacy_valid m → memo_from_legacy m = Ok [MemoString (memo_legacy m)].
Proof.
  intros Hm. unfold memo_from_legacy.
  assert (memo_inner_try_from MEMO_DATA_DEFAULT_MAX_SIZE (MemoString (memo_legacy m))
          = Ok (MemoString (memo_legacy m))) as -> by (by apply memo_inner_try_from_ok).
  done.
Qed.

Lemma memo_from_data_legacy_ok d :
  data_legacy_valid d → memo_from_data_legacy d = Ok [MemoBytes (data_legacy d)].
Proof.
  intros Hd. unfold memo_from_data_legacy.
  assert (memo_inner_try_from MEMO_DATA_DEFAULT_MAX_SIZE (MemoBytes (data_legacy d))
          = Ok (MemoBytes (data_legacy d))) as -> by (by apply memo_inner_try_from_ok).
  done.
Qed.

(** a memo is decoded exactly when it is not empty and no item is over the
    limit; [try_from] and the two push operations keep every item within the limit
    and the memo non-empty, and leave the memo as it was when they refuse an item. *)
Theorem memo_operations M l i m :
  (∀ m', memo_decode M l = Ok m' ↔ m' = l ∧ l ≠ [] ∧ Forall (λ i, memo_inner_len i ≤ M) l)
  ∧ (∀ m', memo_try_from M i = Ok m' ↔ m' = [i] ∧ memo_inner_len i ≤ M)
  ∧ memo_push M i m = (if memo_inner_len i <=? M then (m ++ [i], Ok tt)
                       else (m, Err (over_limit (memo_inner_len i) M))).
Proof.
  split; [|split].
  - intros m'. unfold memo_decode. split.
    + intros (m1 & [-> Hl]%memo_collect_ok & Hm)%bind_Ok_inv.
      case_bool_decide; [done|]. by injection Hm as <-.
    + intros (-> & Hne & Hl). assert (memo_collect M l = Ok l) as -> by (by apply memo_collect_ok).
      cbn [mbind outcome_bind]. by rewrite bool_decide_eq_false_2.
  - intros m'. unfold memo_try_from, memo_inner_try_from.
    destruct (N.ltb_spec M (memo_inner_len i)); simpl.
    + split; [done|]. intros [_ ?]. lia.
    + split; [by intros [= <-]|by intros [-> _]].
  - unfold memo_push, memo_inner_try_from.
    destruct (N.ltb_spec M (memo_inner_len i)), (N.leb_spec (memo_inner_len i) M); try lia; done.
Qed.

(** the fees of a transaction are the fixed part plus the percentage
    rounded down: never more than the exact product, and short of it by less than
    one unit. *)
Theorem calculate_fees_bounds fixed p amount :
  let fees := calculate_fees (mkFee (Some fixed) (Some p)) amount in
  fixed ≤ fees ∧ (fees - fixed) * 2 ^ 32 ≤ amount * p < (fees - fixed + 1) * 2 ^ 32.
Proof.
  unfold calculate_fees, mul_percent. simpl. rewrite N.shiftr_div_pow2.
  pose proof (N.div_mod (amount * p) (2 ^ 32) ltac:(done)) as Hdm.
  pose proof (N.mod_upper_bound (amount * p) (2 ^ 32) ltac:(done)).
  replace (fixed + amount * p / 2 ^ 32 - fixed) with (amount * p / 2 ^ 32) by lia.
  generalize dependent ((amount * p) mod 2 ^ 32). generalize dependent (amount * p / 2 ^ 32).
  generalize dependent (amount * p). change (2 ^ 32) with 4294967296. intros. lia.
Qed.
