(* ===== verification/Account.v ===== *)
(** * many-modules, attribute 9: accounts, roles and features

    Models [many-modules/src/_9_account.rs] ([Role], [Account], [AccountMap] and the
    argument types), [_9_account/features.rs] ([Feature], [FeatureSet]) with the features
    [ledger], [tokens] and [multisig], and [_9_account/errors.rs].

    A [BTreeSet<Role>] is a [gset Role], an [AddressRoleMap] a [gmap] of them. A
    [FeatureSet] is a set of attributes ordered by id, hence a [gmap] from ids to
    arguments. *)
From S2P Require Import Prelude Error External Address Types.

#[local] Open Scope string_scope.
#[local] Open Scope list_scope.
#[local] Open Scope N_scope.

(** ** Roles *)

Inductive Role : Type :=
| Owner | CanLedgerTransact | CanMultisigSubmit | CanMultisigApprove
| CanKvStorePut | CanKvStoreDisable | CanKvStoreTransfer
| CanTokensCreate | CanTokensMint | CanTokensBurn | CanTokensUpdate
| CanTokensAddExtendedInfo | CanTokensRemoveExtendedInfo.

#[global] Instance Role_eq_dec : EqDecision Role.
Proof. solve_decision. Defined.

(** The discriminant of [#[repr(u8)]], also the order of [derive(Ord)]. *)
Definition role_discriminant (r : Role) : N :=
  match r with
  | Owner => 0 | CanLedgerTransact => 1 | CanMultisigSubmit => 2 | CanMultisigApprove => 3
  | CanKvStorePut => 4 | CanKvStoreDisable => 5 | CanKvStoreTransfer => 6
  | CanTokensCreate => 7 | CanTokensMint => 8 | CanTokensBurn => 9 | CanTokensUpdate => 10
  | CanTokensAddExtendedInfo => 11 | CanTokensRemoveExtendedInfo => 12
  end.

Definition all_roles : list Role :=
  [Owner; CanLedgerTransact; CanMultisigSubmit; CanMultisigApprove; CanKvStorePut;
   CanKvStoreDisable; CanKvStoreTransfer; CanTokensCreate; CanTokensMint; CanTokensBurn;
   CanTokensUpdate; CanTokensAddExtendedInfo; CanTokensRemoveExtendedInfo].

#[global] Program Instance Role_countable : Countable Role :=
  inj_countable role_discriminant (λ n, all_roles !! N.to_nat n) _.
Next Obligation. by intros []. Qed.

(** [strum], [serialize_all = camelCase]. *)
Definition role_to_string (r : Role) : string :=
  match r with
  | Owner => "owner"
  | CanLedgerTransact => "canLedgerTransact"
  | CanMultisigSubmit => "canMultisigSubmit"
  | CanMultisigApprove => "canMultisigApprove"
  | CanKvStorePut => "canKvStorePut"
  | CanKvStoreDisable => "canKvStoreDisable"
  | CanKvStoreTransfer => "canKvStoreTransfer"
  | CanTokensCreate => "canTokensCreate"
  | CanTokensMint => "canTokensMint"
  | CanTokensBurn => "canTokensBurn"
  | CanTokensUpdate => "canTokensUpdate"
  | CanTokensAddExtendedInfo => "canTokensAddExtendedInfo"
  | CanTokensRemoveExtendedInfo => "canTokensRemoveExtendedInfo"
  end.
Definition role_from_str (s : string) : option Role :=
  snd <$> list_find (λ r, role_to_string r = s) all_roles.

Abbreviation AddressRoleMap := (gmap Address (gset Role)).

(** ** Errors *)

Definition unknown_account (i : string) : ManyError :=
  attribute_specific 9 1 "Account with ID {id} unknown." [("id", i)].
Definition unknown_role (r : string) : ManyError :=
  attribute_specific 9 2 "Account does not know role '{role}'." [("role", r)].
Definition user_needs_role (r : string) : ManyError :=
  attribute_specific 9 3 "Sender needs role '{role}' to perform this operation." [("role", r)].
Definition account_must_own_itself : ManyError :=
  attribute_specific 9 4 "Unable to remove owner role from the account itself." [].
Definition empty_feature : ManyError :=
  attribute_specific 9 5 "At least one feature must be selected." [].

Definition transaction_cannot_be_found : ManyError :=
  attribute_specific 9 100 "The transaction cannot be found." [].
Definition user_cannot_approve_transaction : ManyError :=
  attribute_specific 9 101 "The user is not in the list of approvers." [].
Definition transaction_type_unsupported : ManyError :=
  attribute_specific 9 102 "This transaction is not supported." [].
Definition cannot_execute_transaction : ManyError :=
  attribute_specific 9 103 "This transaction cannot be executed yet." [].
Definition transaction_expired_or_withdrawn : ManyError :=
  attribute_specific 9 104 "This transaction expired or was withdrawn." [].

(** ** Features *)

Abbreviation Feature := Attribute.
Abbreviation FeatureSet := (gmap N (list CborAny)).

(** [BTreeSet::replace(attr).is_some()]. *)
Definition FeatureSet_insert (s : FeatureSet) (f : Feature) : FeatureSet * bool :=
  (<[attr_id f := attr_arguments f]> s, bool_decide (is_Some (s !! attr_id f))).
Definition FeatureSet_remove (s : FeatureSet) (i : N) : FeatureSet * bool :=
  (delete i s, bool_decide (is_Some (s !! i))).
Definition FeatureSet_is_empty (s : FeatureSet) : bool := bool_decide (s = ∅).
Definition FeatureSet_has_id (s : FeatureSet) (i : N) : bool := bool_decide (is_Some (s !! i)).
Definition get_feature (s : FeatureSet) (i : N) : option Feature := mkAttribute i <$> s !! i.
Definition FeatureSet_iter (s : FeatureSet) : list Feature :=
  (λ '(i, args), mkAttribute i args) <$> btree_iter s.

(** [TryCreateFeature] and [FeatureInfo]. *)
Class TryCreateFeature (F : Type) := {
  ID : N;
  try_create : Feature → outcome ManyError F;
}.
Class FeatureInfo (F : Type) := {
  as_feature : F → Feature;
  feature_roles : gset Role;
}.
Arguments ID F {_}.
Arguments try_create F {_}.
Arguments feature_roles F {_}.

Definition FeatureSet_get (F : Type) `{TryCreateFeature F} (s : FeatureSet) : outcome ManyError F :=
  match get_feature s (ID F) with
  | None => Err (attribute_not_found (pretty (ID F)))
  | Some f => try_create F f
  end.

Inductive AccountLedger : Type := mkAccountLedger.
#[global] Instance AccountLedger_try : TryCreateFeature AccountLedger :=
  { ID := 0; try_create := λ _, Ok mkAccountLedger }.
#[global] Instance AccountLedger_info : FeatureInfo AccountLedger :=
  { as_feature := λ _, attribute_id 0; feature_roles := {[CanLedgerTransact]} }.

Inductive TokenAccountLedger : Type := mkTokenAccountLedger.
#[global] Instance TokenAccountLedger_try : TryCreateFeature TokenAccountLedger :=
  { ID := 3; try_create := λ _, Ok mkTokenAccountLedger }.
#[global] Instance TokenAccountLedger_info : FeatureInfo TokenAccountLedger :=
  { as_feature := λ _, attribute_id 3;
    feature_roles := list_to_set [CanTokensCreate; CanTokensBurn; CanTokensMint;
      CanTokensUpdate; CanTokensAddExtendedInfo; CanTokensRemoveExtendedInfo] }.

Record MultisigAccountFeatureArg : Type := mkMultisigArg {
  arg_threshold : option N;
  arg_timeout_in_secs : option N;
  arg_execute_automatically : option bool;
}.
Record MultisigAccountFeature : Type := mkMultisigFeature { arg : MultisigAccountFeatureArg }.

(** [i64::try_into::<u64>().ok()] and [u64 as i64]. *)
Definition u64_of_i64 (x : Z) : option N := if (0 <=? x)%Z then Some (Z.to_N x) else None.
Definition i64_of_u64 (x : N) : Z :=
  if x <? 2 ^ 63 then Z.of_N x else (Z.of_N x - 2 ^ 64)%Z.

Definition multisig_int (m : list (CborAny * CborAny)) (k : Z) : option N :=
  v ← cmap_get_int m k;
  match v with CInt x => u64_of_i64 x | _ => None end.

#[global] Instance Multisig_try : TryCreateFeature MultisigAccountFeature :=
  { ID := 1;
    try_create := λ f,
      match attr_arguments f with
      | [CMap m] =>
          Ok (mkMultisigFeature (mkMultisigArg
            (multisig_int m 0) (multisig_int m 1)
            (v ← cmap_get_int m 2; match v with CBool x => Some x | _ => None end)))
      | _ => Err invalid_attribute_arguments
      end }.

#[global] Instance Multisig_info : FeatureInfo MultisigAccountFeature :=
  { as_feature := λ f,
      let m0 := match arg_threshold (arg f) with
                | Some t => [(CInt 0, CInt (i64_of_u64 t))] | None => [] end in
      let m1 := match arg_timeout_in_secs (arg f) with
                | Some t => [(CInt 1, CInt (i64_of_u64 t))] | None => [] end in
      let m2 := match arg_execute_automatically (arg f) with
                | Some x => [(CInt 2, CBool x)] | None => [] end in
      attribute_with_argument (attribute_id 1) (CMap (m0 ++ m1 ++ m2));
    feature_roles := {[CanMultisigSubmit; CanMultisigApprove]} }.

(** ** [Account] *)

(** [Either<bool, Reason<u64>>]. *)
Inductive DisabledFlag : Type := DisabledBool (x : bool) | DisabledReason (r : Reason N).

Record Account : Type := mkAccount {
  description : option string;
  roles : AddressRoleMap;
  features : FeatureSet;
  disabled : option DisabledFlag;
}.

Definition account_with_description (a : Account) d := mkAccount d (roles a) (features a) (disabled a).
Definition account_with_roles (a : Account) r := mkAccount (description a) r (features a) (disabled a).
Definition account_with_features (a : Account) f := mkAccount (description a) (roles a) f (disabled a).
Definition account_with_disabled (a : Account) d := mkAccount (description a) (roles a) (features a) d.

Record CreateArgs : Type := mkCreateArgs {
  ca_description : option string;
  ca_roles : option AddressRoleMap;
  ca_features : FeatureSet;
}.
Record SetDescriptionArgs : Type := mkSetDescriptionArgs { sd_account : Address; sd_description : string }.
Record GetRolesArgs : Type := mkGetRolesArgs { gr_account : Address; gr_identities : list Address }.
Record AddRolesArgs : Type := mkAddRolesArgs { ar_account : Address; ar_roles : AddressRoleMap }.
Record RemoveRolesArgs : Type := mkRemoveRolesArgs { rr_account : Address; rr_roles : AddressRoleMap }.
Record DisableArgs : Type := mkDisableArgs { di_account : Address }.
Record AddFeaturesArgs : Type := mkAddFeaturesArgs {
  af_account : Address;
  af_roles : option AddressRoleMap;
  af_features : FeatureSet;
}.

(** [roles.entry(id).or_default().insert(role)]. *)
Definition insert_role (m : AddressRoleMap) (i : Address) (r : Role) : AddressRoleMap :=
  <[i := {[r]} ∪ default ∅ (m !! i)]> m.

Definition Account_create (sender : Address) (args : CreateArgs) : Account :=
  mkAccount (ca_description args)
    (insert_role (default ∅ (ca_roles args)) sender Owner)
    (ca_features args) None.

Definition Account_disable (a : Account) (reason : option (Reason N)) : Account :=
  account_with_disabled a (Some match reason with
                                | None => DisabledBool true
                                | Some e => DisabledReason e
                                end).
Definition Account_set_description (a : Account) (d : option string) : Account :=
  account_with_description a d.

Definition has_role (a : Account) (i : Address) (r : Role) : bool :=
  match roles a !! i with
  | Some v => bool_decide (r ∈ v)
  | None => false
  end.

(** The loop of [needs_role]: the first role asked for is the one the error names. *)
Fixpoint needs_role_loop (a : Account) (i : Address) (first : option Role) (l : list Role) :
    outcome ManyError unit :=
  match l with
  | [] => Err (user_needs_role (role_to_string (default Owner first)))
  | r :: l =>
      if has_role a i r then Ok tt
      else needs_role_loop a i (match first with Some f => Some f | None => Some r end) l
  end.
Definition needs_role (a : Account) (i : Address) (l : list Role) : outcome ManyError unit :=
  needs_role_loop a i None l.

Definition add_role (a : Account) (i : Address) (r : Role) : Account :=
  account_with_roles a (insert_role (roles a) i r).
Definition remove_role (a : Account) (i : Address) (r : Role) : Account :=
  match roles a !! i with
  | Some v =>
      let v' := v ∖ {[r]} in
      account_with_roles a (if bool_decide (v' = ∅) then delete i (roles a)
                            else <[i := v']> (roles a))
  | None => a
  end.
Definition get_roles (a : Account) (i : Address) : gset Role := default ∅ (roles a !! i).
Definition account_feature (F : Type) `{TryCreateFeature F} (a : Account) : option F :=
  match FeatureSet_get F (features a) with Ok f => Some f | _ => None end.

(** ** [AccountMap] *)

Record AccountMap : Type := mkAccountMap { map_id : Address; map_inner : gmap N Account }.

Definition AccountMap_new (i : Address) : AccountMap := mkAccountMap i ∅.
Definition AccountMap_get (m : AccountMap) (i : Address) : option Account :=
  if matches i (map_id m) then s ← subresource_id i; map_inner m !! s else None.
Definition AccountMap_contains (m : AccountMap) (i : Address) : bool :=
  bool_decide (is_Some (AccountMap_get m i)).
Definition AccountMap_insert (m : AccountMap) (a : Account) :
    outcome ManyError (Address * AccountMap) :=
  let s := match last (btree_iter (map_inner m)).*1 with
           | Some x => wrap32 (x + 1)
           | None => 0
           end in
  i ← with_subresource_id (map_id m) s;
  Ok (i, mkAccountMap (map_id m) (<[s := a]> (map_inner m))).
Definition AccountMap_remove (m : AccountMap) (i : Address) : AccountMap :=
  if matches i (map_id m) then
    match subresource_id i with
    | Some s => mkAccountMap (map_id m) (delete s (map_inner m))
    | None => m
    end
  else m.
Definition AccountMap_has_role (m : AccountMap) (acc i : Address) (r : Role) : bool :=
  match AccountMap_get m acc with Some a => has_role a i r | None => false end.
Definition AccountMap_needs_role `{Base32, Crc16} (m : AccountMap) (acc i : Address)
    (l : list Role) : outcome ManyError unit :=
  match AccountMap_get m acc with
  | Some a => needs_role a i l
  | None => Err (unknown_account (address_to_string acc))
  end.

(** ** Lemmas *)

Lemma role_roundtrip r : role_from_str (role_to_string r) = Some r.
Proof. by destruct r. Qed.

(** Who holds a role, as a relation. *)
Definition holds (a : Account) (i : Address) (r : Role) : Prop :=
  ∃ v, roles a !! i = Some v ∧ r ∈ v.

Lemma has_role_holds a i r : has_role a i r = true ↔ holds a i r.
Proof.
  unfold has_role, holds. destruct (roles a !! i) as [v|].
  - rewrite bool_decide_eq_true. split; [eauto|by intros (? & [= <-] & ?)].
  - split; [done|by intros (? & ? & _)].
Qed.

Lemma holds_insert_role a m i r j q :
  roles a = m → holds (account_with_roles a (insert_role m i r)) j q ↔ holds a j q ∨ (j = i ∧ q = r).
Proof.
  intros <-. unfold holds, insert_role. simpl.
  destruct (decide (j = i)) as [->|Hne].
  - rewrite lookup_insert_eq. destruct (roles a !! i) as [v|] eqn:E; simpl.
    + split; [intros (? & [= <-] & ?); set_solver|].
      intros [(? & [= <-] & ?)|[_ ->]]; eexists; split; try done; set_solver.
    + split; [intros (? & [= <-] & ?); set_solver|].
      intros [(? & ? & _)|[_ ->]]; [done|]. eexists; split; [done|set_solver].
  - rewrite lookup_insert_ne by done. naive_solver.
Qed.

Lemma holds_add_role a i r j q : holds (add_role a i r) j q ↔ holds a j q ∨ (j = i ∧ q = r).
Proof. by apply holds_insert_role. Qed.

Lemma holds_remove_role a i r j q :
  holds (remove_role a i r) j q ↔ holds a j q ∧ ¬ (j = i ∧ q = r).
Proof.
  unfold remove_role. destruct (roles a !! i) as [v|] eqn:E.
  - unfold holds. simpl. case_bool_decide as Hv.
    + destruct (decide (j = i)) as [->|Hne].
      * rewrite lookup_delete_eq. split; [by intros (? & ? & _)|].
        rewrite E. intros [(? & [= <-] & ?) Hn]. set_solver.
      * rewrite lookup_delete_ne by done. naive_solver.
    + destruct (decide (j = i)) as [->|Hne].
      * rewrite lookup_insert_eq, E. split.
        -- intros (? & [= <-] & ?). split; [eexists; split; [done|]|]; set_solver.
        -- intros [(? & [= <-] & ?) Hn]. eexists; split; [done|]. set_solver.
      * rewrite lookup_insert_ne by done. naive_solver.
  - unfold holds. split; [|by intros []].
    intros (w & Hw & Hq). split; [eauto|]. intros [-> _]. congruence.
Qed.

Lemma needs_role_ok a i l : needs_role a i l = Ok tt ↔ Exists (holds a i) l.
Proof.
  unfold needs_role. generalize (@None Role). induction l as [|r l IH]; intros first; simpl.
  - split; [done|]. intros H; inversion H.
  - rewrite Exists_cons. destruct (has_role a i r) eqn:E.
    + apply has_role_holds in E. tauto.
    + rewrite IH. assert (¬ holds a i r) by (rewrite <-has_role_holds; congruence). tauto.
Qed.

Lemma needs_role_cases a i l : needs_role a i l = Ok tt ∨ ∃ e, needs_role a i l = Err e.
Proof.
  unfold needs_role. generalize (@None Role). induction l as [|r l IH]; intros first; simpl; [eauto|].
  destruct (has_role a i r); eauto.
Qed.

(** [add_role] and [remove_role] change exactly the pair they name,
    [has_role] decides whether a pair is held, and [needs_role] succeeds exactly when
    one of the listed roles is held, and is an error otherwise (it never panics). *)
Theorem role_operations a i r l :
  (∀ j q, has_role (add_role a i r) j q = true ↔ has_role a j q = true ∨ (j = i ∧ q = r))
  ∧ (∀ j q, has_role (remove_role a i r) j q = true ↔ has_role a j q = true ∧ ¬ (j = i ∧ q = r))
  ∧ (needs_role a i l = Ok tt ↔ ∃ q, q ∈ l ∧ has_role a i q = true)
  ∧ (needs_role a i l = Ok tt ∨ ∃ e, needs_role a i l = Err e).
Proof.
  split; [|split; [|split]].
  - intros j q. rewrite !has_role_holds. apply holds_add_role.
  - intros j q. rewrite !has_role_holds. apply holds_remove_role.
  - rewrite needs_role_ok, Exists_exists. by setoid_rewrite has_role_holds.
  - apply needs_role_cases.
Qed.

Lemma u64_of_i64_of_u64 n :
  n < 2 ^ 64 → u64_of_i64 (i64_of_u64 n) = if n <? 2 ^ 63 then Some n else None.
Proof.
  intros Hn. unfold u64_of_i64, i64_of_u64. destruct (N.ltb_spec n (2 ^ 63)).
  - destruct (Z.leb_spec 0 (Z.of_N n)); [f_equal; lia|lia].
  - destruct (Z.leb_spec 0 (Z.of_N n - 2 ^ 64)); [lia|done].
Qed.

(** the multisig feature of an account survives its encoding as an
    attribute, except that a threshold or a timeout of [2^63] or more is lost: the
    cast to [i64] makes it negative, and reading a negative number back gives [None]. *)
Theorem multisig_feature_roundtrip th ti ex :
  let fits o := match o with Some n => n < 2 ^ 64 | None => True end in
  let kept o := match o with Some n => if n <? 2 ^ 63 then Some n else None | None => None end in
  fits th → fits ti →
  try_create MultisigAccountFeature (as_feature (mkMultisigFeature (mkMultisigArg th ti ex)))
  = Ok (mkMultisigFeature (mkMultisigArg (kept th) (kept ti) ex)).
Proof.
  intros fits kept Hth Hti. destruct th, ti, ex; simpl in *; unfold multisig_int; simpl;
    rewrite ?u64_of_i64_of_u64 by done; done.
Qed.

(** [AccountMap::insert] never reuses an id that is in the map. *)
Lemma last_ascending_max (m : gmap N Account) k :
  is_Some (m !! k) → ∃ x, last (btree_iter m).*1 = Some x ∧ k ≤ x.
Proof.
  intros [a Hk]. apply elem_of_btree_iter in Hk.
  pose proof (NoDup_fst_btree_iter m) as Hnd.
  assert (keys_ascending (btree_iter m)) as Hs.
  { apply sort_by_key_ascending, NoDup_fst_map_to_list. }
  unfold keys_ascending in Hs. apply (list_elem_of_fmap_2 fst) in Hk. simpl in Hk.
  clear Hnd. induction Hs as [|y l Hl IH Hall]; [by apply elem_of_nil in Hk|].
  destruct l as [|z l].
  - apply list_elem_of_singleton in Hk as ->. exists y. split; [done|lia].
  - rewrite last_cons_cons. apply elem_of_cons in Hk as [->|Hk]; [|by apply IH].
    destruct (last (z :: l)) as [x|] eqn:El; [|by apply last_None in El].
    exists x. split; [done|]. apply last_Some_elem_of in El. rewrite Forall_forall in Hall.
    apply Hall in El. change (y < x) in El. lia.
Qed.
