(* ===== verification/Events.v ===== *)
(** * many-modules: event ids, event contents and the transactions of multisig accounts

    Models [many-modules/src/_4_events.rs] ([EventId], the table of [define_event!] with
    what its macros generate: [EventKind] and its indices, [EventInfo], its addresses
    and memo, [AccountMultisigTransaction]; [EventFilter], [EventLog]), the
    argument types of the commands of attributes 6, 7, 9, 11, 12, 13 and 17 that events and
    transactions carry, [_11_ledger_tokens/extended_info.rs], and
    [AttributeRelatedIndex] of [many-types/src/lib.rs].

    Constructors of [EventKind] have the prefix [K_], those of [EventInfo] [E_] and those
    of [AccountMultisigTransaction] [T_]. *)
From S2P Require Import Prelude Error External Address Types Account.

#[local] Open Scope string_scope.
#[local] Open Scope list_scope.
#[local] Open Scope N_scope.

(** ** [AttributeRelatedIndex]: an attribute id and at most four indices *)

Record AttributeRelatedIndex : Type := mkIndex { ix_attribute : N; ix_indices : list N }.

#[global] Instance AttributeRelatedIndex_eq_dec : EqDecision AttributeRelatedIndex.
Proof. solve_decision. Defined.

Definition index_new (attribute : N) : AttributeRelatedIndex := mkIndex attribute [].
Definition with_index (x : AttributeRelatedIndex) (i : N) : AttributeRelatedIndex :=
  if (length (ix_indices x) <? 4)%nat then mkIndex (ix_attribute x) (ix_indices x ++ [i]) else x.
Definition flattened (x : AttributeRelatedIndex) : list N := ix_attribute x :: ix_indices x.

(** ** [EventId] *)

Abbreviation EventId := bytes.

Section event_id.
Context `{BigUintBytes}.

(** [From<u64>]: eight big-endian bytes; [From<BigUint>]: as many as needed. *)
Definition event_id_of_u64 (v : N) : EventId := be_bytes 8 v.
Definition event_id_of_big (v : N) : EventId := to_bytes_be v.
Definition event_id_add_bytes (i : EventId) (rhs : bytes) : EventId :=
  event_id_of_big (from_bytes_be i + from_bytes_be rhs).
Definition event_id_add (i : EventId) (rhs : N) : EventId :=
  event_id_of_big (from_bytes_be i + rhs).
Definition event_id_sub_bytes (i : EventId) (rhs : bytes) : outcome ManyError EventId :=
  event_id_of_big <$> token_sub (from_bytes_be i) (from_bytes_be rhs).
Definition event_id_sub (i : EventId) (rhs : N) : outcome ManyError EventId :=
  event_id_of_big <$> token_sub (from_bytes_be i) rhs.
End event_id.

(** ** Arguments of the commands *)

Record SendArgs : Type := mkSendArgs {
  send_from : option Address;
  send_to : Address;
  send_amount : TokenAmount;
  send_symbol : Symbol;
  send_memo : option Memo;
}.

(** [kvstore] (attributes 7 and 13). *)
Record KvPutArgs : Type := mkKvPutArgs {
  kv_put_key : bytes;
  kv_put_value : bytes;
  kv_put_alternative_owner : option Address;
}.
Record KvDisableArgs : Type := mkKvDisableArgs {
  kv_disable_key : bytes;
  kv_disable_alternative_owner : option Address;
  kv_disable_reason : option (Reason N);
}.
Record KvTransferArgs : Type := mkKvTransferArgs {
  kv_transfer_key : bytes;
  kv_transfer_alternative_owner : option Address;
  kv_transfer_new_owner : Address;
}.

(** [web] (attribute 17); [WebDeploymentSource] has the one variant [Archive]. *)
Record WebDeployArgs : Type := mkWebDeployArgs {
  web_owner : option Address;
  web_site_name : string;
  web_site_description : option string;
  web_source : bytes;
  web_memo : option Memo;
  web_domain : option string;
}.
Record WebRemoveArgs : Type := mkWebRemoveArgs {
  web_remove_owner : option Address;
  web_remove_site_name : string;
  web_remove_memo : option Memo;
}.

(** [TokenExtendedInfo]: a map with at most a memo and a visual logo. *)
Inductive ExtendedInfoKey : Type := KeyMemo | KeyVisualLogo.
#[global] Instance ExtendedInfoKey_eq_dec : EqDecision ExtendedInfoKey.
Proof. solve_decision. Defined.

Definition key_to_index (k : ExtendedInfoKey) : AttributeRelatedIndex :=
  index_new (match k with KeyMemo => 0 | KeyVisualLogo => 1 end).
Definition key_try_from (x : AttributeRelatedIndex) : option ExtendedInfoKey :=
  if ix_attribute x =? 0 then Some KeyMemo
  else if ix_attribute x =? 1 then Some KeyVisualLogo else None.

Inductive SingleVisualTokenLogo : Type :=
| UnicodeChar (c : N)
| Image (content_type : string) (binary : bytes).
Abbreviation VisualTokenLogo := (list SingleVisualTokenLogo).

Record TokenExtendedInfo : Type := mkExtendedInfo {
  ext_memo : option Memo;
  ext_visual_logo : option VisualTokenLogo;
}.
Definition ext_new : TokenExtendedInfo := mkExtendedInfo None None.
Definition ext_contains_key (e : TokenExtendedInfo) (k : ExtendedInfoKey) : bool :=
  match k with
  | KeyMemo => bool_decide (is_Some (ext_memo e))
  | KeyVisualLogo => bool_decide (is_Some (ext_visual_logo e))
  end.
Definition key_error : ManyError :=
  unknown "Unable to convert AttributeRelatedIndex to ExtendedInfoKey".
Definition ext_contains_index (e : TokenExtendedInfo) (x : AttributeRelatedIndex) :
    outcome ManyError bool :=
  k ← ok_or (key_try_from x) key_error; Ok (ext_contains_key e k).
Definition ext_remove_key (e : TokenExtendedInfo) (k : ExtendedInfoKey) : TokenExtendedInfo :=
  match k with
  | KeyMemo => mkExtendedInfo None (ext_visual_logo e)
  | KeyVisualLogo => mkExtendedInfo (ext_memo e) None
  end.
Definition ext_remove (e : TokenExtendedInfo) (x : AttributeRelatedIndex) :
    outcome ManyError TokenExtendedInfo :=
  k ← ok_or (key_try_from x) key_error; Ok (ext_remove_key e k).
Definition ext_with_memo (e : TokenExtendedInfo) (m : Memo) : TokenExtendedInfo :=
  mkExtendedInfo (Some m) (ext_visual_logo e).
Definition ext_with_visual_logo (e : TokenExtendedInfo) (l : VisualTokenLogo) : TokenExtendedInfo :=
  mkExtendedInfo (ext_memo e) (Some l).
(** [retain]: every index must convert; keys not listed go. *)
Fixpoint retain_keys (l : list AttributeRelatedIndex) : outcome ManyError (list ExtendedInfoKey) :=
  match l with
  | [] => Ok []
  | x :: l =>
      k ← ok_or (key_try_from x) (unknown "Unable to convert {i} to ExtendedInfoKey");
      ks ← retain_keys l; Ok (k :: ks)
  end.
Definition ext_retain (e : TokenExtendedInfo) (l : list AttributeRelatedIndex) :
    outcome ManyError TokenExtendedInfo :=
  ks ← retain_keys l;
  let drop_unless k e := if bool_decide (k ∈ ks) then e else ext_remove_key e k in
  Ok (drop_unless KeyMemo (drop_unless KeyVisualLogo e)).

(** [tokens] (attributes 11 and 12). *)
Record TokenCreateArgs : Type := mkTokenCreateArgs {
  tc_summary : TokenInfoSummary;
  tc_owner : option TokenMaybeOwner;
  tc_initial_distribution : option LedgerTokensAddressMap;
  tc_maximum_supply : option TokenAmount;
  tc_extended_info : option TokenExtendedInfo;
  tc_memo : option Memo;
}.
Record TokenInfoArgs : Type := mkTokenInfoArgs {
  ti_symbol : Symbol;
  ti_extended_info : option (list AttributeRelatedIndex);
}.
Record TokenUpdateArgs : Type := mkTokenUpdateArgs {
  tu_symbol : Symbol;
  tu_name : option string;
  tu_ticker : option string;
  tu_decimals : option N;
  tu_owner : option TokenMaybeOwner;
  tu_memo : option Memo;
}.
Record TokenAddExtendedInfoArgs : Type := mkTokenAddExtendedInfoArgs {
  tae_symbol : Symbol;
  tae_extended_info : TokenExtendedInfo;
  tae_memo : option Memo;
}.
Record TokenRemoveExtendedInfoArgs : Type := mkTokenRemoveExtendedInfoArgs {
  tre_symbol : Symbol;
  tre_extended_info : list AttributeRelatedIndex;
  tre_memo : option Memo;
}.
Record TokenMintArgs : Type := mkTokenMintArgs {
  tm_symbol : Symbol;
  tm_distribution : LedgerTokensAddressMap;
  tm_memo : option Memo;
}.
Record TokenBurnArgs : Type := mkTokenBurnArgs {
  tb_symbol : Symbol;
  tb_distribution : LedgerTokensAddressMap;
  tb_memo : option Memo;
  tb_error_on_under_burn : option bool;
}.

(** [multisig] (feature 1 of attribute 9). *)
Record SubmitTransactionArgs (T : Type) : Type := mkSubmitArgs {
  sub_account : Address;
  sub_memo_ : option MemoLegacy;
  sub_transaction : T;
  sub_threshold : option N;
  sub_timeout_in_secs : option N;
  sub_execute_automatically : option bool;
  sub_data_ : option DataLegacy;
  sub_memo : option Memo;
}.
Arguments mkSubmitArgs {T} _ _ _ _ _ _ _ _.
Arguments sub_account {T} _.
Arguments sub_memo_ {T} _.
Arguments sub_transaction {T} _.
Arguments sub_threshold {T} _.
Arguments sub_timeout_in_secs {T} _.
Arguments sub_execute_automatically {T} _.
Arguments sub_data_ {T} _.
Arguments sub_memo {T} _.

Record SetDefaultsArgs : Type := mkSetDefaultsArgs {
  msd_account : Address;
  msd_threshold : option N;
  msd_timeout_in_secs : option N;
  msd_execute_automatically : option bool;
}.

#[local] Set Warnings "-register-all".

Inductive AccountMultisigTransaction : Type :=
| T_Send (a : SendArgs)
| T_KvStorePut (a : KvPutArgs)
| T_KvStoreDisable (a : KvDisableArgs)
| T_AccountCreate (a : CreateArgs)
| T_AccountSetDescription (a : SetDescriptionArgs)
| T_AccountAddRoles (a : AddRolesArgs)
| T_AccountRemoveRoles (a : RemoveRolesArgs)
| T_AccountDisable (a : DisableArgs)
| T_AccountAddFeatures (a : AddFeaturesArgs)
| T_AccountMultisigSubmit (a : SubmitTransactionArgs AccountMultisigTransaction)
| T_AccountMultisigApprove (token : bytes)
| T_AccountMultisigRevoke (token : bytes)
| T_AccountMultisigExecute (token : bytes)
| T_AccountMultisigWithdraw (token : bytes)
| T_AccountMultisigSetDefaults (a : SetDefaultsArgs)
| T_TokenCreate (a : TokenCreateArgs)
| T_TokenUpdate (a : TokenUpdateArgs)
| T_TokenAddExtendedInfo (a : TokenAddExtendedInfoArgs)
| T_TokenRemoveExtendedInfo (a : TokenRemoveExtendedInfoArgs)
| T_TokenMint (a : TokenMintArgs)
| T_TokenBurn (a : TokenBurnArgs)
| T_KvStoreTransfer (a : KvTransferArgs)
| T_WebDeploy (a : WebDeployArgs)
| T_WebRemove (a : WebRemoveArgs)
| T_WebUpdate (a : WebDeployArgs).

(** [SubmitTransactionArgs::send]. *)
Definition SubmitTransactionArgs_send (from to symbol : Address) (amount : TokenAmount)
    (memo : option Memo) : SubmitTransactionArgs AccountMultisigTransaction :=
  mkSubmitArgs from None (T_Send (mkSendArgs (Some from) to amount symbol memo))
    None None None None None.

(** ** [AddressContainer] *)

Definition map_addresses {V} (m : gmap Address V) : gset Address := dom m.
Definition option_addresses {A} (f : A → gset Address) (o : option A) : gset Address :=
  match o with Some x => f x | None => ∅ end.

Definition SendArgs_addresses (a : SendArgs) : gset Address :=
  match send_from a with
  | Some from => {[from; send_to a]}
  | None => {[send_to a]}
  end.
Definition CreateArgs_addresses (a : CreateArgs) : gset Address :=
  option_addresses map_addresses (ca_roles a).
Definition SetDescriptionArgs_addresses (a : SetDescriptionArgs) : gset Address := {[sd_account a]}.
Definition AddRolesArgs_addresses (a : AddRolesArgs) : gset Address :=
  {[ar_account a]} ∪ map_addresses (ar_roles a).
Definition RemoveRolesArgs_addresses (a : RemoveRolesArgs) : gset Address :=
  {[rr_account a]} ∪ map_addresses (rr_roles a).
Definition DisableArgs_addresses (a : DisableArgs) : gset Address := {[di_account a]}.
Definition AddFeaturesArgs_addresses (a : AddFeaturesArgs) : gset Address :=
  {[af_account a]} ∪ option_addresses map_addresses (af_roles a).
Definition KvTransferArgs_addresses (a : KvTransferArgs) : gset Address :=
  {[kv_transfer_new_owner a]} ∪ option_addresses singleton (kv_transfer_alternative_owner a).
Definition SetDefaultsArgs_addresses (a : SetDefaultsArgs) : gset Address := {[msd_account a]}.

(** The arguments with the tag [addresses] in the table; the others have none. *)
Fixpoint transaction_addresses (t : AccountMultisigTransaction) : gset Address :=
  match t with
  | T_Send a => SendArgs_addresses a
  | T_AccountCreate a => CreateArgs_addresses a
  | T_AccountSetDescription a => SetDescriptionArgs_addresses a
  | T_AccountAddRoles a => AddRolesArgs_addresses a
  | T_AccountRemoveRoles a => RemoveRolesArgs_addresses a
  | T_AccountDisable a => DisableArgs_addresses a
  | T_AccountAddFeatures a => AddFeaturesArgs_addresses a
  | T_AccountMultisigSubmit a => {[sub_account a]} ∪ transaction_addresses (sub_transaction a)
  | T_AccountMultisigSetDefaults a => SetDefaultsArgs_addresses a
  | T_KvStoreTransfer a => KvTransferArgs_addresses a
  | _ => ∅
  end.
Definition transaction_is_about (t : AccountMultisigTransaction) (i : Address) : bool :=
  bool_decide (i ∈ transaction_addresses t).

(** ** Events *)

(** [ResponseMessage] of [many-protocol/src/response.rs]. *)
Record ResponseMessage : Type := mkResponse {
  resp_version : option N;
  resp_from : Address;
  resp_to : option Address;
  resp_data : outcome ManyError bytes;
  resp_timestamp : option Timestamp;
  resp_id : option N;
  resp_attributes : AttributeSet;
}.
Definition response_default : ResponseMessage :=
  mkResponse None ANONYMOUS None (Ok []) None None ∅.
Definition response_error (from : Address) (i : option N) (e : ManyError) : ResponseMessage :=
  mkResponse (Some 1) from None (Err e) None i ∅.

Inductive EventKind : Type :=
| K_Send | K_KvStorePut | K_KvStoreDisable
| K_AccountCreate | K_AccountSetDescription | K_AccountAddRoles | K_AccountRemoveRoles
| K_AccountDisable | K_AccountAddFeatures
| K_AccountMultisigSubmit | K_AccountMultisigApprove | K_AccountMultisigRevoke
| K_AccountMultisigExecute | K_AccountMultisigWithdraw | K_AccountMultisigSetDefaults
| K_AccountMultisigExpired
| K_TokenCreate | K_TokenUpdate | K_TokenAddExtendedInfo | K_TokenRemoveExtendedInfo
| K_TokenMint | K_TokenBurn | K_KvStoreTransfer | K_WebDeploy | K_WebRemove | K_WebUpdate.

#[global] Instance EventKind_eq_dec : EqDecision EventKind.
Proof. solve_decision. Defined.

Definition all_kinds : list EventKind :=
  [K_Send; K_KvStorePut; K_KvStoreDisable; K_AccountCreate; K_AccountSetDescription;
   K_AccountAddRoles; K_AccountRemoveRoles; K_AccountDisable; K_AccountAddFeatures;
   K_AccountMultisigSubmit; K_AccountMultisigApprove; K_AccountMultisigRevoke;
   K_AccountMultisigExecute; K_AccountMultisigWithdraw; K_AccountMultisigSetDefaults;
   K_AccountMultisigExpired; K_TokenCreate; K_TokenUpdate; K_TokenAddExtendedInfo;
   K_TokenRemoveExtendedInfo; K_TokenMint; K_TokenBurn; K_KvStoreTransfer; K_WebDeploy;
   K_WebRemove; K_WebUpdate].

(** The bracketed index of each row of the table. *)
Definition kind_row (k : EventKind) : list N :=
  match k with
  | K_Send => [6; 0]
  | K_KvStorePut => [7; 0]
  | K_KvStoreDisable => [7; 1]
  | K_AccountCreate => [9; 0]
  | K_AccountSetDescription => [9; 1]
  | K_AccountAddRoles => [9; 2]
  | K_AccountRemoveRoles => [9; 3]
  | K_AccountDisable => [9; 4]
  | K_AccountAddFeatures => [9; 5]
  | K_AccountMultisigSubmit => [9; 1; 0]
  | K_AccountMultisigApprove => [9; 1; 1]
  | K_AccountMultisigRevoke => [9; 1; 2]
  | K_AccountMultisigExecute => [9; 1; 3]
  | K_AccountMultisigWithdraw => [9; 1; 4]
  | K_AccountMultisigSetDefaults => [9; 1; 5]
  | K_AccountMultisigExpired => [9; 1; 6]
  | K_TokenCreate => [11; 0]
  | K_TokenUpdate => [11; 1]
  | K_TokenAddExtendedInfo => [11; 2]
  | K_TokenRemoveExtendedInfo => [11; 3]
  | K_TokenMint => [12; 0]
  | K_TokenBurn => [12; 1]
  | K_KvStoreTransfer => [13; 0]
  | K_WebDeploy => [17; 0]
  | K_WebRemove => [17; 1]
  | K_WebUpdate => [17; 2]
  end.

(** [AttributeRelatedIndex::new($index) $(.with_index($sub))*]. *)
Definition kind_to_index (k : EventKind) : AttributeRelatedIndex :=
  match kind_row k with
  | [] => index_new 0
  | a :: subs => foldl with_index (index_new a) subs
  end.
(** [TryFrom<AttributeRelatedIndex>]: the first row whose index matches. *)
Definition kind_try_from (x : AttributeRelatedIndex) : outcome (list N) EventKind :=
  match list_find (λ k, kind_row k = flattened x) all_kinds with
  | Some (_, k) => Ok k
  | None => Err (flattened x)
  end.

Inductive EventInfo : Type :=
| E_Send (from to : Address) (symbol : Symbol) (amount : TokenAmount) (memo : option Memo)
| E_KvStorePut (key value : bytes) (owner : Address)
| E_KvStoreDisable (key : bytes) (reason : option (Reason N))
| E_AccountCreate (account : Address) (description : option string) (roles : AddressRoleMap)
    (features : FeatureSet)
| E_AccountSetDescription (account : Address) (description : string)
| E_AccountAddRoles (account : Address) (roles : AddressRoleMap)
| E_AccountRemoveRoles (account : Address) (roles : AddressRoleMap)
| E_AccountDisable (account : Address)
| E_AccountAddFeatures (account : Address) (roles : AddressRoleMap) (features : FeatureSet)
| E_AccountMultisigSubmit (submitter account : Address) (memo_ : option MemoLegacy)
    (transaction : AccountMultisigTransaction) (token : option bytes) (threshold : N)
    (timeout : Timestamp) (execute_automatically : bool) (data_ : option DataLegacy)
    (memo : option Memo)
| E_AccountMultisigApprove (account : Address) (token : bytes) (approver : Address)
| E_AccountMultisigRevoke (account : Address) (token : bytes) (revoker : Address)
| E_AccountMultisigExecute (account : Address) (token : bytes) (executer : option Address)
    (response : ResponseMessage)
| E_AccountMultisigWithdraw (account : Address) (token : bytes) (withdrawer : Address)
| E_AccountMultisigSetDefaults (submitter account : Address) (threshold timeout_in_secs : option N)
    (execute_automatically : option bool)
| E_AccountMultisigExpired (account : Address) (token : bytes) (time : Timestamp)
| E_TokenCreate (summary : TokenInfoSummary) (symbol : Address) (owner : option TokenMaybeOwner)
    (initial_distribution : option LedgerTokensAddressMap) (maximum_supply : option TokenAmount)
    (extended_info : option TokenExtendedInfo) (memo : option Memo)
| E_TokenUpdate (symbol : Address) (name ticker : option string) (decimals : option N)
    (owner : option TokenMaybeOwner) (memo : option Memo)
| E_TokenAddExtendedInfo (symbol : Address) (extended_info : list AttributeRelatedIndex)
    (memo : option Memo)
| E_TokenRemoveExtendedInfo (symbol : Address) (extended_info : list AttributeRelatedIndex)
    (memo : option Memo)
| E_TokenMint (symbol : Address) (distribution : LedgerTokensAddressMap) (memo : option Memo)
| E_TokenBurn (symbol : Address) (distribution : LedgerTokensAddressMap) (memo : option Memo)
| E_KvStoreTransfer (key : bytes) (owner new_owner : Address)
| E_WebDeploy (owner : Address) (site_name : string) (site_description : option string)
    (source_hash : string) (memo : option Memo) (domain : option string)
| E_WebRemove (owner : Address) (site_name : string) (memo : option Memo)
| E_WebUpdate (owner : Address) (site_name : string) (site_description : option string)
    (source_hash : string) (memo : option Memo) (domain : option string).

Definition kind_of (e : EventInfo) : EventKind :=
  match e with
  | E_Send _ _ _ _ _ => K_Send
  | E_KvStorePut _ _ _ => K_KvStorePut
  | E_KvStoreDisable _ _ => K_KvStoreDisable
  | E_AccountCreate _ _ _ _ => K_AccountCreate
  | E_AccountSetDescription _ _ => K_AccountSetDescription
  | E_AccountAddRoles _ _ => K_AccountAddRoles
  | E_AccountRemoveRoles _ _ => K_AccountRemoveRoles
  | E_AccountDisable _ => K_AccountDisable
  | E_AccountAddFeatures _ _ _ => K_AccountAddFeatures
  | E_AccountMultisigSubmit _ _ _ _ _ _ _ _ _ _ => K_AccountMultisigSubmit
  | E_AccountMultisigApprove _ _ _ => K_AccountMultisigApprove
  | E_AccountMultisigRevoke _ _ _ => K_AccountMultisigRevoke
  | E_AccountMultisigExecute _ _ _ _ => K_AccountMultisigExecute
  | E_AccountMultisigWithdraw _ _ _ => K_AccountMultisigWithdraw
  | E_AccountMultisigSetDefaults _ _ _ _ _ => K_AccountMultisigSetDefaults
  | E_AccountMultisigExpired _ _ _ => K_AccountMultisigExpired
  | E_TokenCreate _ _ _ _ _ _ _ => K_TokenCreate
  | E_TokenUpdate _ _ _ _ _ _ => K_TokenUpdate
  | E_TokenAddExtendedInfo _ _ _ => K_TokenAddExtendedInfo
  | E_TokenRemoveExtendedInfo _ _ _ => K_TokenRemoveExtendedInfo
  | E_TokenMint _ _ _ => K_TokenMint
  | E_TokenBurn _ _ _ => K_TokenBurn
  | E_KvStoreTransfer _ _ _ => K_KvStoreTransfer
  | E_WebDeploy _ _ _ _ _ _ => K_WebDeploy
  | E_WebRemove _ _ _ => K_WebRemove
  | E_WebUpdate _ _ _ _ _ _ => K_WebUpdate
  end.

Definition maybe_owner_addresses (o : option TokenMaybeOwner) : gset Address :=
  match o with Some (OwnerLeft a) => {[a]} | _ => ∅ end.

(** The fields with the tag [id] or [maybe_owner]. *)
Definition event_addresses (e : EventInfo) : gset Address :=
  match e with
  | E_Send from to symbol _ _ => {[from]} ∪ {[to]} ∪ {[symbol]}
  | E_KvStorePut _ _ owner => {[owner]}
  | E_KvStoreDisable _ _ => ∅
  | E_AccountCreate account _ roles _ => {[account]} ∪ map_addresses roles
  | E_AccountSetDescription account _ => {[account]}
  | E_AccountAddRoles account roles => {[account]} ∪ map_addresses roles
  | E_AccountRemoveRoles account roles => {[account]} ∪ map_addresses roles
  | E_AccountDisable account => {[account]}
  | E_AccountAddFeatures account roles _ => {[account]} ∪ map_addresses roles
  | E_AccountMultisigSubmit submitter account _ tx _ _ _ _ _ _ =>
      {[submitter]} ∪ {[account]} ∪ transaction_addresses tx
  | E_AccountMultisigApprove account _ approver => {[account]} ∪ {[approver]}
  | E_AccountMultisigRevoke account _ revoker => {[account]} ∪ {[revoker]}
  | E_AccountMultisigExecute account _ executer _ => {[account]} ∪ option_addresses singleton executer
  | E_AccountMultisigWithdraw account _ withdrawer => {[account]} ∪ {[withdrawer]}
  | E_AccountMultisigSetDefaults submitter account _ _ _ => {[submitter]} ∪ {[account]}
  | E_AccountMultisigExpired account _ _ => {[account]}
  | E_TokenCreate _ symbol owner dist _ _ _ =>
      {[symbol]} ∪ maybe_owner_addresses owner ∪ option_addresses map_addresses dist
  | E_TokenUpdate symbol _ _ _ owner _ => {[symbol]} ∪ maybe_owner_addresses owner
  | E_TokenAddExtendedInfo symbol _ _ => {[symbol]}
  | E_TokenRemoveExtendedInfo symbol _ _ => {[symbol]}
  | E_TokenMint symbol dist _ => {[symbol]} ∪ map_addresses dist
  | E_TokenBurn symbol dist _ => {[symbol]} ∪ map_addresses dist
  | E_KvStoreTransfer _ owner new_owner => {[owner]} ∪ {[new_owner]}
  | E_WebDeploy owner _ _ _ _ _ => {[owner]}
  | E_WebRemove owner _ _ => {[owner]}
  | E_WebUpdate owner _ _ _ _ _ => {[owner]}
  end.

(** The field with the tag [memo]. *)
Definition event_memo (e : EventInfo) : option Memo :=
  match e with
  | E_Send _ _ _ _ m => m
  | E_AccountMultisigSubmit _ _ _ _ _ _ _ _ _ m => m
  | E_TokenCreate _ _ _ _ _ _ m => m
  | E_TokenUpdate _ _ _ _ _ m => m
  | E_TokenAddExtendedInfo _ _ m => m
  | E_TokenRemoveExtendedInfo _ _ m => m
  | E_TokenMint _ _ m => m
  | E_TokenBurn _ _ m => m
  | E_WebDeploy _ _ _ _ m _ => m
  | E_WebRemove _ _ m => m
  | E_WebUpdate _ _ _ _ m _ => m
  | _ => None
  end.

Definition event_is_about (e : EventInfo) (i : Address) : bool :=
  bool_decide (i ∈ event_addresses e).

Record EventLog : Type := mkEventLog {
  log_id : EventId;
  log_time : Timestamp;
  log_content : EventInfo;
}.

Definition log_kind (e : EventLog) : EventKind := kind_of (log_content e).
Definition log_is_about (e : EventLog) (i : Address) : bool := event_is_about (log_content e) i.

Inductive MultisigTransactionState : Type :=
| Pending | ExecutedAutomatically | ExecutedManually | Withdrawn | Expired.
#[global] Instance MultisigTransactionState_eq_dec : EqDecision MultisigTransactionState.
Proof. solve_decision. Defined.

Record EventFilter : Type := mkEventFilter {
  ef_account : option (list Address);
  ef_kind : option (list EventKind);
  ef_symbol : option (list Address);
  ef_id_range : option (CborRange EventId);
  ef_date_range : option (CborRange Timestamp);
  (** The one attribute-specific filter, [MultisigTransactionState]. *)
  ef_multisig_state : option (list MultisigTransactionState);
}.
Definition filter_default : EventFilter := mkEventFilter None None None None None None.

(** ** Lemmas *)

(** an index decodes to an event kind exactly when it is the index that
    kind is encoded with: every kind survives the round trip, no two rows of the
    table share an index, and every other index is refused. *)
Theorem event_kind_roundtrip k x : kind_try_from x = Ok k ↔ x = kind_to_index k.
Proof.
  split; [|intros ->; by destruct k]. unfold kind_try_from.
  destruct (list_find _ all_kinds) as [[i k']|] eqn:E; [|done]. intros [= ->].
  apply list_find_Some in E as (_ & Hrow & _). destruct x as [a l]. unfold flattened in Hrow.
  simpl in Hrow. destruct k; simpl in Hrow; injection Hrow as <- <-; done.
Qed.

Section event_id_laws.
Context `{BigUintBytes, !BigUintBytesLaws}.

Lemma event_id_of_u64_value v : v < 2 ^ 64 → be_value (event_id_of_u64 v) = v.
Proof.
  intros Hv. unfold event_id_of_u64. rewrite be_value_be_bytes. apply N.mod_small.
  change (256 ^ N.of_nat 8) with (2 ^ 64). done.
Qed.

Lemma event_id_add_value i n : be_value (event_id_add i n) = be_value i + n.
Proof. unfold event_id_add, event_id_of_big. by rewrite to_bytes_be_value, from_bytes_be_value. Qed.

Lemma to_bytes_be_length n w : n < 256 ^ N.of_nat w → (0 < w)%nat → (length (to_bytes_be n) ≤ w)%nat.
Proof.
  intros Hn Hw. destruct (decide (n = 0)) as [->|Hne].
  { rewrite to_bytes_be_zero. simpl. lia. }
  pose proof (to_bytes_be_minimal n Hne) as Hmin.
  assert (256 ^ N.of_nat (length (to_bytes_be n) - 1) < 256 ^ N.of_nat w) as Hlt by lia.
  apply N.pow_lt_mono_r_iff in Hlt; [|done]. lia.
Qed.
End event_id_laws.
