(* ===== verification/Migration.v ===== *)
(** * many-migration: migrations, their activation and the migration set

    Models [many-migration/src/lib.rs] for any storage type [T] and error type [Er]:
    [Metadata], [MigrationType], [InnerMigration] and its constructors, [Migration] with
    its activation, [MigrationConfig], and [MigrationSet] ([load], [update_at_height],
    [hotfix], [is_active]).

    [serde_json::Value] is [JsonValue]; the [extra] parameters are a map from names to
    values. The [_Unreachable] variant of [MigrationType] has no constructor in the code
    and is left out. *)
From S2P Require Import Prelude Error External.

#[local] Open Scope string_scope.
#[local] Open Scope list_scope.
#[local] Open Scope N_scope.

#[local] Set Warnings "-register-all".

Inductive JsonValue : Type :=
| JNull
| JBool (x : bool)
| JNumber (z : Z)
| JString (s : string)
| JArray (l : list JsonValue)
| JObject (l : list (string * JsonValue)).

Abbreviation Extra := (gmap string JsonValue).

Record Metadata : Type := mkMetadata {
  block_height : N;
  upper_block_height : option N;
  meta_disabled : bool;
  issue : option string;
  extra : Extra;
}.
Definition metadata_enabled (h : N) : Metadata := mkMetadata h None false None ∅.
Definition metadata_disabled (h : N) : Metadata := mkMetadata h None true None ∅.
(** [Metadata::default()]. *)
Definition metadata_default : Metadata := mkMetadata 0 None false None ∅.

Section migration.
Context {T Er : Type}.

Definition FnPtr : Type := Extra → ST T Er unit.
Definition FnByte : Type := bytes → option bytes.

Inductive MigrationType : Type :=
| Regular (initialize_fn update_fn : FnPtr)
| Hotfix (hotfix_fn : FnByte)
| Trigger (active_by_default : bool).

Record InnerMigration : Type := mkInnerMigration {
  mtype : MigrationType;
  mname : string;
  mdescription : string;
}.

Definition no_effect : FnPtr := λ _ s, (s, Ok tt).
Definition new_hotfix (f : FnByte) (n d : string) : InnerMigration :=
  mkInnerMigration (Hotfix f) n d.
Definition new_initialize_update (i u : FnPtr) (n d : string) : InnerMigration :=
  mkInnerMigration (Regular i u) n d.
Definition new_initialize (i : FnPtr) (n d : string) : InnerMigration :=
  mkInnerMigration (Regular i no_effect) n d.
Definition new_update (u : FnPtr) (n d : string) : InnerMigration :=
  mkInnerMigration (Regular no_effect u) n d.
Definition new_trigger (active_by_default : bool) (n d : string) : InnerMigration :=
  mkInnerMigration (Trigger active_by_default) n d.

Definition is_trigger (m : InnerMigration) : bool :=
  match mtype m with Trigger _ => true | _ => false end.

Definition inner_initialize (m : InnerMigration) (x : Extra) : ST T Er unit :=
  match mtype m with Regular i _ => i x | _ => λ s, (s, Ok tt) end.
Definition inner_update (m : InnerMigration) (x : Extra) : ST T Er unit :=
  match mtype m with Regular _ u => u x | _ => λ s, (s, Ok tt) end.
Definition inner_hotfix (m : InnerMigration) (l : bytes) : option bytes :=
  match mtype m with Hotfix f => f l | _ => None end.

(** ** [Migration] *)

Inductive Activated : Type := Activated_Initialize | Activated_Update | Activated_None.

Record Migration : Type := mkMigration {
  migration : InnerMigration;
  metadata : Metadata;
  enabled : bool;
  active : bool;
}.
Definition with_active (m : Migration) (x : bool) : Migration :=
  mkMigration (migration m) (metadata m) (enabled m) x.

Definition Migration_new (i : InnerMigration) (d : Metadata) : Migration :=
  mkMigration i d (negb (meta_disabled d)) false.

(** [(block_height..upper_block_height.unwrap_or(u64::MAX)).contains(&height)]. *)
Definition in_range (d : Metadata) (height : N) : bool :=
  (block_height d <=? height) && (height <? default U64_MAX (upper_block_height d)).

Definition activate_at_height (m : Migration) (height : N) : Migration * Activated :=
  if is_trigger (migration m) then (with_active m (in_range (metadata m) height), Activated_None)
  else if (height =? block_height (metadata m)) && negb (active m)
  then (with_active m true, Activated_Initialize)
  else if block_height (metadata m) <? height then (m, Activated_Update)
  else (m, Activated_None).

Definition set_active_at_height (m : Migration) (height : N) : Migration :=
  if is_trigger (migration m) then with_active m (in_range (metadata m) height)
  else if block_height (metadata m) <=? height then with_active m true
  else m.

(** [maybe_initialize_update_at_height]: the flag is set before the function runs,
    and stays set if it fails. *)
Definition maybe_initialize_update_at_height (m : Migration) (height : N) (s : T) :
    Migration * T * outcome Er unit :=
  if enabled m then
    match activate_at_height m height with
    | (m', Activated_Initialize) =>
        let '(s', r) := inner_initialize (migration m) (extra (metadata m)) s in (m', s', r)
    | (m', Activated_Update) =>
        let '(s', r) := inner_update (migration m) (extra (metadata m)) s in (m', s', r)
    | (m', Activated_None) => (m', s, Ok tt)
    end
  else (m, s, Ok tt).

Definition migration_initialize (m : Migration) (height : N) : ST T Er unit :=
  if enabled m && (height =? block_height (metadata m))
  then inner_initialize (migration m) (extra (metadata m)) else λ s, (s, Ok tt).
Definition migration_update (m : Migration) (height : N) : ST T Er unit :=
  if enabled m && (block_height (metadata m) <? height)
  then inner_update (migration m) (extra (metadata m)) else λ s, (s, Ok tt).
Definition migration_hotfix (m : Migration) (l : bytes) (height : N) : option bytes :=
  if enabled m && (block_height (metadata m) =? height)
  then inner_hotfix (migration m) l else None.

Definition is_regular (m : Migration) : bool :=
  match mtype (migration m) with Regular _ _ => true | _ => false end.
Definition is_hotfix (m : Migration) : bool :=
  match mtype (migration m) with Hotfix _ => true | _ => false end.
Definition migration_disable (m : Migration) : Migration :=
  mkMigration (migration m) (metadata m) false (active m).
Definition migration_enable (m : Migration) : Migration :=
  mkMigration (migration m) (metadata m) true (active m).

Definition migration_is_active (m : Migration) : bool :=
  if active m then true
  else match mtype (migration m) with
       | Trigger by_default => negb (enabled m) && by_default
       | _ => false
       end.

(** ** [MigrationConfig] *)

Record SingleMigrationConfig : Type := mkSingle { config_name : string; config_metadata : Metadata }.
Record MigrationConfig : Type := mkConfig {
  strict : option bool;
  config_migrations : list SingleMigrationConfig;
}.
Definition is_strict (c : MigrationConfig) : bool := default false (strict c).
Definition config_strict (c : MigrationConfig) : MigrationConfig :=
  mkConfig (Some true) (config_migrations c).
Definition with_migration_opts (c : MigrationConfig) (m : InnerMigration) (d : Metadata) :
    MigrationConfig :=
  mkConfig (strict c) (config_migrations c ++ [mkSingle (mname m) d]).
Definition with_migration (c : MigrationConfig) (m : InnerMigration) : MigrationConfig :=
  with_migration_opts c m metadata_default.

(** ** [MigrationSet] *)

Abbreviation MigrationSet := (gmap string Migration).

Definition MigrationSet_insert (s : MigrationSet) (m : Migration) : MigrationSet :=
  <[mname (migration m) := m]> s.

(** [.collect::<BTreeMap<_, _>>()]: a later entry replaces an earlier one. *)
Definition registry_map (r : list InnerMigration) : gmap string InnerMigration :=
  foldl (λ m i, <[mname i := i]> m) ∅ r.

Fixpoint load_entries (r : gmap string InnerMigration) (l : list SingleMigrationConfig)
    (acc : MigrationSet) : outcome string MigrationSet :=
  match l with
  | [] => Ok acc
  | c :: l =>
      i ← ok_or (r !! config_name c) ("Unsupported migration '" +:+ config_name c +:+ "'");
      load_entries r l (<[config_name c := Migration_new i (config_metadata c)]> acc)
  end.

(** [format!("{more:?}")] of the missing names. *)
Definition debug_names (l : list string) : string :=
  "[" +:+ String.concat ", " ((λ n, dq +:+ n +:+ dq) <$> l) +:+ "]".

Definition missing_names (r : gmap string InnerMigration) (s : MigrationSet) : list string :=
  filter (λ n, s !! n = None) (btree_iter r).*1.

Definition check_strict (c : MigrationConfig) (r : gmap string InnerMigration)
    (s : MigrationSet) : outcome string unit :=
  if is_strict c then
    match missing_names r s with
    | [] => Ok tt
    | [n] => Err ("Migration Config is missing migration " +:+ dq +:+ n +:+ dq)
    | more => Err ("Migration Config is missing migrations " +:+ debug_names more)
    end
  else Ok tt.

Definition activate_enabled (height : N) (m : Migration) : Migration :=
  if enabled m then set_active_at_height m height else m.

Definition load (registry : list InnerMigration) (config : MigrationConfig) (height : N) :
    outcome string MigrationSet :=
  let r := registry_map registry in
  inner ← load_entries r (config_migrations config) ∅;
  _ ← check_strict config r inner;
  Ok (activate_enabled height <$> inner).

(** [for migration in self.inner.values_mut()]: in name order, stopping at the first
    error; the changes made so far stay. *)
Fixpoint update_entries (height : N) (l : list (string * Migration)) (ms : MigrationSet) (s : T) :
    MigrationSet * T * outcome Er unit :=
  match l with
  | [] => (ms, s, Ok tt)
  | (n, m) :: l =>
      match maybe_initialize_update_at_height m height s with
      | (m', s', Ok _) => update_entries height l (<[n := m']> ms) s'
      | (m', s', r) => (<[n := m']> ms, s', r)
      end
  end.
Definition update_at_height (ms : MigrationSet) (s : T) (height : N) :
    MigrationSet * T * outcome Er unit :=
  update_entries height (btree_iter ms) ms s.

Fixpoint first_hotfix (l : list (string * Migration)) (name : string) (d : bytes) (height : N) :
    option bytes :=
  match l with
  | [] => None
  | (_, m) :: l =>
      if is_hotfix m && bool_decide (mname (migration m) = name) then
        match migration_hotfix m d height with
        | Some r => Some r
        | None => first_hotfix l name d height
        end
      else first_hotfix l name d height
  end.
Definition MigrationSet_hotfix (ms : MigrationSet) (name : string) (d : bytes) (height : N) :
    outcome Er (option bytes) :=
  Ok (first_hotfix (btree_iter ms) name d height).

Definition is_enabled (ms : MigrationSet) (name : string) : bool :=
  match ms !! name with Some m => enabled m | None => false end.
Definition is_active (ms : MigrationSet) (name : string) : bool :=
  match ms !! name with Some m => migration_is_active m | None => false end.
End migration.
Arguments MigrationType T Er : clear implicits.
Arguments InnerMigration T Er : clear implicits.
Arguments Migration T Er : clear implicits.
Arguments FnPtr T Er : clear implicits.
Abbreviation MigrationSet T Er := (gmap string (Migration T Er)).

(** ** Activation over the life of a chain *)

Section activation.
Context {T Er : Type}.
Implicit Types (m : Migration T Er) (ms : MigrationSet T Er) (s : T).

(** The migration after a block at [height]: what [values_mut()] leaves in the set. *)
Definition after_block (height : N) (m : Migration T Er) : Migration T Er :=
  if enabled m then (activate_at_height m height).1 else m.

Lemma maybe_update_after_block m height s m' s' r :
  maybe_initialize_update_at_height m height s = (m', s', r) → m' = after_block height m.
Proof.
  unfold maybe_initialize_update_at_height, after_block. destruct (enabled m); [|by intros [= <- _ _]].
  destruct (activate_at_height m height) as [m1 []]; simpl.
  - destruct (inner_initialize _ _ s). by intros [= <- _ _].
  - destruct (inner_update _ _ s). by intros [= <- _ _].
  - by intros [= <- _ _].
Qed.

Lemma update_entries_ok height l ms s ms' s' :
  NoDup l.*1 → update_entries height l ms s = (ms', s', Ok tt) →
  (∀ n m, (n, m) ∈ l → ms' !! n = Some (after_block height m))
  ∧ (∀ n, n ∉ l.*1 → ms' !! n = ms !! n).
Proof.
  revert ms s. induction l as [|[n m] l IH]; intros ms s; csimpl.
  - intros _ [= <- _]. split; [|done]. intros n m Hin. by apply elem_of_nil in Hin.
  - intros [Hnin Hnd]%NoDup_cons. simpl.
    destruct (maybe_initialize_update_at_height m height s) as [[m1 s1] r] eqn:E.
    apply maybe_update_after_block in E as ->. destruct r as [[]| | |]; [|done|done|done].
    intros Hu. apply IH in Hu as [H1 H2]; [|done]. split.
    + intros n' m' [[= -> ->]|Hin]%elem_of_cons; [|by apply H1].
      rewrite H2 by done. apply lookup_insert_eq.
    + intros n' [Hne Hn']%not_elem_of_cons. rewrite H2 by done. by rewrite lookup_insert_ne.
Qed.

Lemma update_at_height_ok ms height s ms' s' :
  update_at_height ms s height = (ms', s', Ok tt) → ms' = after_block height <$> ms.
Proof.
  intros Hu. apply update_entries_ok in Hu as [H1 H2]; [|apply NoDup_fst_btree_iter].
  apply map_eq. intros n. rewrite lookup_fmap. destruct (ms !! n) as [m|] eqn:E; simpl.
  - apply H1. by apply elem_of_btree_iter.
  - rewrite H2; [done|]. intros ([n' m] & -> & Hin)%list_elem_of_fmap.
    apply elem_of_btree_iter in Hin. simpl in E. congruence.
Qed.

Lemma load_entries_new r l acc (ms : MigrationSet T Er) :
  (∀ n m, acc !! n = Some m → ∃ i d, m = Migration_new i d) →
  load_entries r l acc = Ok ms →
  ∀ n m, ms !! n = Some m → ∃ i d, m = Migration_new i d.
Proof.
  revert acc. induction l as [|c l IH]; intros acc Hacc; simpl.
  - by intros [= <-].
  - intros (i & _ & Hl)%bind_Ok_inv. eapply IH; [|done]. intros n m.
    destruct (decide (n = config_name c)) as [->|].
    + rewrite lookup_insert_eq. intros [= <-]. eauto.
    + rewrite lookup_insert_ne by done. apply Hacc.
Qed.

Lemma load_inv reg c h (ms : MigrationSet T Er) :
  load reg c h = Ok ms →
  ∃ inner : MigrationSet T Er, load_entries (registry_map reg) (config_migrations c) ∅ = Ok inner
    ∧ check_strict c (registry_map reg) inner = Ok tt ∧ ms = activate_enabled h <$> inner
    ∧ (∀ n m, inner !! n = Some m → ∃ i d, m = Migration_new i d).
Proof.
  unfold load. intros (inner & Hi & ([] & Hs & [= <-])%bind_Ok_inv)%bind_Ok_inv.
  exists inner. split; [done|]. split; [done|]. split; [done|].
  eapply load_entries_new; [|done]. intros n m. by rewrite lookup_empty.
Qed.

(** One block turns the migration loaded at a height into the one loaded at the next. *)
Lemma after_block_activate (i : InnerMigration T Er) d h :
  after_block (h + 1) (activate_enabled h (Migration_new i d))
  = activate_enabled (h + 1) (Migration_new i d).
Proof.
  unfold after_block, activate_enabled, set_active_at_height, activate_at_height, Migration_new. simpl.
  destruct (meta_disabled d); simpl; [done|].
  destruct (is_trigger i) eqn:Ht; simpl; [by rewrite Ht|].
  destruct (N.leb_spec (block_height d) h); simpl; rewrite Ht; simpl;
    destruct (N.eqb_spec (h + 1) (block_height d)), (N.ltb_spec (block_height d) (h + 1)),
      (N.leb_spec (block_height d) (h + 1)); simpl; try lia; done.
Qed.

(** C36: restarting does not change which migrations are active. A migration set
    loaded at a height and run through the next block is, flag for flag, the set
    loaded from the same configuration at the next height. By iterating it, a node
    that ran since genesis and one restarted at any height agree on every migration. *)
Theorem migration_restart reg c h (ms ms' : MigrationSet T Er) s s' :
  load reg c h = Ok ms →
  update_at_height ms s (h + 1) = (ms', s', Ok tt) →
  load reg c (h + 1) = Ok ms'.
Proof.
  intros (inner & Hi & Hs & -> & Hnew)%load_inv Hu%update_at_height_ok.
  unfold load. rewrite Hi. cbn [mbind outcome_bind]. rewrite Hs. cbn [mbind outcome_bind].
  f_equal. subst ms'. apply map_eq. intros n. rewrite !lookup_fmap.
  destruct (inner !! n) as [m|] eqn:E; [|done]. simpl. f_equal.
  destruct (Hnew _ _ E) as (i & d & ->). symmetry. apply after_block_activate.
Qed.

(** when a migration is active. A loaded migration is active exactly when it
    is enabled and its block has been reached (for a trigger: the height is in its
    range), or when it is a disabled trigger that is active by default; a disabled
    regular migration or hotfix never is. *)
Theorem migration_active_spec reg c h (ms : MigrationSet T Er) n m :
  load reg c h = Ok ms → ms !! n = Some m →
  is_active ms n =
    match mtype (migration m) with
    | Trigger by_default =>
        if enabled m then in_range (metadata m) h else by_default
    | _ => enabled m && (block_height (metadata m) <=? h)
    end.
Proof.
  intros (inner & _ & _ & -> & Hnew)%load_inv Hm.
  unfold is_active. rewrite Hm. rewrite lookup_fmap in Hm.
  destruct (inner !! n) as [m0|] eqn:E; [|done]. simpl in Hm. injection Hm as <-.
  destruct (Hnew _ _ E) as (i & d & ->).
  unfold activate_enabled, set_active_at_height, migration_is_active, Migration_new, is_trigger. simpl.
  destruct (meta_disabled d), (mtype i) eqn:Ei; simpl; rewrite ?Ei; simpl; try done;
    repeat case_match; simpl in *; try done; congruence.
Qed.

(** what a block does to the storage. From the set loaded at height [h],
    the next block runs the initialisation of an enabled migration exactly at its
    block height, its update function strictly after it, and nothing before it, for
    a disabled migration, or for a trigger or hotfix. *)
Theorem migration_effects_once (i : InnerMigration T Er) d h s :
  let m := activate_enabled h (Migration_new i d) in
  let '(_, s', r) := maybe_initialize_update_at_height m (h + 1) s in
  (s', r) =
    match mtype i with
    | Regular initialize_fn update_fn =>
        if meta_disabled d then (s, Ok tt)
        else if h + 1 =? block_height d then initialize_fn (extra d) s
        else if block_height d <? h + 1 then update_fn (extra d) s
        else (s, Ok tt)
    | _ => (s, Ok tt)
    end.
Proof.
  unfold maybe_initialize_update_at_height, activate_enabled, set_active_at_height,
    activate_at_height, Migration_new, is_trigger, inner_initialize, inner_update. simpl.
  destruct (meta_disabled d), (mtype i) eqn:Ei; simpl; rewrite ?Ei; simpl; try done;
    destruct (N.leb_spec (block_height d) h); simpl; rewrite Ei; simpl;
    destruct (N.eqb_spec (h + 1) (block_height d)), (N.ltb_spec (block_height d) (h + 1));
    simpl; rewrite ?Ei; try lia; try done; by destruct (_ (extra d) s).
Qed.
End activation.
