(* ===== verification/Storage.v ===== *)
(** * many-ledger: the storage, its keys and its basic operations

    Models [many-ledger/src/storage.rs] ([LedgerStorage]: construction, time, height,
    identity, symbols, subresource counters, hotfixes), [storage/iterator.rs],
    [storage/migrations.rs], [error.rs], and the functions of
    [storage/ledger_tokens.rs] that read the symbol table.

    [LedgerEnv] gathers what the storage takes from outside the repository: the
    Merkle store, the CBOR codec of every stored type, the text encoding of addresses
    and the clock. [LedgerEnvLaws] states what is known of them. An operation taking
    [&mut self] is a function of type [LedgerM A], which gives the storage after the
    call together with the outcome. *)
From S2P Require Import Prelude Error External Address Types Account Events Migration.

#[local] Open Scope string_scope.
#[local] Open Scope list_scope.
#[local] Open Scope N_scope.

(** ** Errors of the ledger *)

Definition unauthorized : ManyError :=
  attribute_specific 2 2 "Unauthorized to do this operation." [].
Definition insufficient_funds : ManyError := attribute_specific 2 3 "Insufficient funds." [].
Definition anonymous_cannot_hold_funds : ManyError :=
  attribute_specific 2 4 "Anonymous is not a valid account identity." [].
Definition unknown_symbol (s : string) : ManyError :=
  attribute_specific 2 1 "Symbol not supported by this ledger: {symbol}." [("symbol", s)].
Definition unexpected_subresource_id (expected actual : string) : ManyError :=
  attribute_specific 2 6
    "Invalid initial state account subresource_id. Expected '{expected}', was '{actual}'."
    [("expected", expected); ("actual", actual)].
Definition unexpected_account_id (expected actual : string) : ManyError :=
  attribute_specific 2 7
    "Invalid initial state account id. Expected '{expected}', was '{actual}'."
    [("expected", expected); ("actual", actual)].
Definition destination_is_source : ManyError :=
  attribute_specific 2 8
    "Unable to send tokens to a destination (to) that is the same as the source (from)." [].
Definition amount_is_zero : ManyError :=
  attribute_specific 2 9 "Unable to send zero (0) token." [].
Definition storage_key_not_found (k : string) : ManyError :=
  attribute_specific 2 10 "Key not found in storage: {key:?}." [("key", k)].

Definition token_info_not_found (s : string) : ManyError :=
  attribute_specific 11 1 "Token information not found in persistent storage: {symbol}."
    [("symbol", s)].
Definition ext_info_not_found (s : string) : ManyError :=
  attribute_specific 11 2 "Token extended information not found in persistent storage: {symbol}."
    [("symbol", s)].
Definition invalid_sender : ManyError :=
  attribute_specific 11 3 "Unauthorised Token endpoints sender." [].
Definition ticker_exists (t : string) : ManyError :=
  attribute_specific 11 4 "Token ticker already exists on this network: {ticker}." [("ticker", t)].
Definition subresource_exhausted (k : string) : ManyError :=
  attribute_specific 11 5 "Subresources are exhausted for: {key}." [("key", k)].
Definition invalid_ticker_length (t : string) : ManyError :=
  attribute_specific 11 6 "Token ticker length is invalid (<3 or >5): {ticker}." [("ticker", t)].

Definition symbol_not_found (s : string) : ManyError :=
  attribute_specific 12 1 "Unable to mint/burn a unknown symbol: {symbol}." [("symbol", s)].
Definition over_maximum_supply (s amount max : string) : ManyError :=
  attribute_specific 12 2
    "Unable to mint over the maximum symbol supply : {amount} > {max} {symbol}."
    [("symbol", s); ("amount", amount); ("max", max)].
Definition missing_funds (s amount balance : string) : ManyError :=
  attribute_specific 12 3 "Unable to burn, missing funds: {amount} > {balance} {symbol}."
    [("symbol", s); ("amount", amount); ("balance", balance)].
Definition unable_to_distribute_zero (s : string) : ManyError :=
  attribute_specific 12 4 "The mint/burn distribution contains zero for {symbol}." [("symbol", s)].
Definition partial_burn_disabled : ManyError :=
  attribute_specific 12 5 "Partial burns are disabled." [].
Definition no_token_owner : ManyError :=
  attribute_specific 12 6 "Token doesn't have an owner." [].

Definition storage_apply_failed (d : string) : ManyError :=
  application_specific 1 "Unable to apply change to persistent storage: {desc}." [("desc", d)].
Definition storage_get_failed (d : string) : ManyError :=
  application_specific 2 "Unable to get data from persistent storage: {desc}." [("desc", d)].
Definition storage_commit_failed (d : string) : ManyError :=
  application_specific 3 "Unable to commit data to persistent storage: {desc}." [("desc", d)].
Definition storage_open_failed (d : string) : ManyError :=
  application_specific 4 "Unable to open persistent storage: {desc}." [("desc", d)].
Definition unable_to_load_migrations (d : string) : ManyError :=
  application_specific 5 "Unable to load migrations: {desc}." [("desc", d)].

(** ** Stored data *)

(** [many-modules/src/_5_data/types.rs]; the gauge is never stored by the ledger. *)
Abbreviation DataIndex := AttributeRelatedIndex.
Inductive DataValue : Type := DataCounter (n : N) | DataGauge (z : Z).
Inductive DataType : Type := TypeCounter | TypeGauge.
Record DataInfo : Type := mkDataInfo { data_type : DataType; shortname : string }.

#[global] Program Instance AttributeRelatedIndex_countable : Countable AttributeRelatedIndex :=
  inj_countable flattened (λ l, match l with [] => None | a :: r => Some (mkIndex a r) end) _.
Next Obligation. by intros []. Qed.

(** [InfoReturn] of the multisig feature, and [MultisigTransactionStorage]. *)
Record MultisigInfo : Type := mkMultisigInfo {
  mi_memo_ : option MemoLegacy;
  mi_transaction : AccountMultisigTransaction;
  mi_submitter : Address;
  mi_approvers : gmap Address bool;
  mi_threshold : N;
  mi_execute_automatically : bool;
  mi_timeout : Timestamp;
  mi_data_ : option DataLegacy;
  mi_state : MultisigTransactionState;
  mi_memo : option Memo;
}.
Record MultisigTransactionStorage : Type := mkMultisigStorage {
  ms_account : Address;
  ms_info : MultisigInfo;
  ms_creation : N;          (* [SystemTime], in seconds *)
  ms_disabled : bool;
}.

Record Block9400Tx : Type := mkBlock9400 { tx_id : bytes; tx_response : ResponseMessage }.

(** ** The environment *)

Class LedgerEnv := {
  env_base32 :: Base32;
  env_crc16 :: Crc16;
  env_big :: BigUintBytes;
  env_merk :: Merk;
  env_clock :: Clock;
  cbor_symbols :: Cbor (gmap Address string);
  cbor_token_info :: Cbor TokenInfo;
  cbor_ext_info :: Cbor TokenExtendedInfo;
  cbor_account :: Cbor Account;
  cbor_event :: Cbor EventLog;
  cbor_multisig :: Cbor MultisigTransactionStorage;
  cbor_data_values :: Cbor (gmap DataIndex DataValue);
  cbor_data_info :: Cbor (gmap DataIndex DataInfo);
  cbor_block9400 :: Cbor Block9400Tx;
  cbor_response :: Cbor ResponseMessage;
  cbor_unit :: Cbor unit;                 (* [EmptyReturn] *)
  cbor_address :: Cbor Address;           (* [CreateReturn] *)
  cbor_token :: Cbor bytes;               (* [SubmitTransactionReturn] *)
}.

(** What the decoders check beyond the shape of the data: memos are not empty and
    within their limits, and so are the key and the value of a put. An owner that is explicitly none is
    read as no owner given. *)
Definition opt_all {A} (P : A → Prop) (o : option A) : Prop :=
  match o with Some x => P x | None => True end.
Definition ext_info_storable (e : TokenExtendedInfo) : Prop := opt_all memo_valid (ext_memo e).
Fixpoint transaction_storable (t : AccountMultisigTransaction) : Prop :=
  match t with
  | T_Send a => opt_all memo_valid (send_memo a)
  | T_KvStorePut a => bytes_len (kv_put_key a) ≤ 254 ∧ bytes_len (kv_put_value a) ≤ 524288
  | T_AccountMultisigSubmit a =>
      opt_all memo_legacy_valid (sub_memo_ a) ∧ opt_all data_legacy_valid (sub_data_ a)
      ∧ opt_all memo_valid (sub_memo a) ∧ transaction_storable (sub_transaction a)
  | T_TokenCreate a =>
      opt_all ext_info_storable (tc_extended_info a) ∧ opt_all memo_valid (tc_memo a) ∧ tc_owner a ≠ Some OwnerNull
  | T_TokenUpdate a => opt_all memo_valid (tu_memo a) ∧ tu_owner a ≠ Some OwnerNull
  | T_TokenAddExtendedInfo a => ext_info_storable (tae_extended_info a) ∧ opt_all memo_valid (tae_memo a)
  | T_TokenRemoveExtendedInfo a => opt_all memo_valid (tre_memo a)
  | T_TokenMint a => opt_all memo_valid (tm_memo a)
  | T_TokenBurn a => opt_all memo_valid (tb_memo a)
  | T_WebDeploy a => opt_all memo_valid (web_memo a)
  | T_WebRemove a => opt_all memo_valid (web_remove_memo a)
  | T_WebUpdate a => opt_all memo_valid (web_memo a)
  | _ => True
  end.
Definition multisig_storable (t : MultisigTransactionStorage) : Prop :=
  opt_all memo_legacy_valid (mi_memo_ (ms_info t)) ∧ opt_all data_legacy_valid (mi_data_ (ms_info t))
  ∧ opt_all memo_valid (mi_memo (ms_info t)) ∧ transaction_storable (mi_transaction (ms_info t)).

Class LedgerEnvLaws `{LedgerEnv} := {
  laws_base32 :: Base32Laws;
  laws_big :: BigUintBytesLaws;
  laws_merk :: MerkLaws;
  laws_symbols :: CborLaws (gmap Address string) (λ _, True);
  laws_token_info :: CborLaws TokenInfo (λ _, True);
  laws_ext_info :: CborLaws TokenExtendedInfo ext_info_storable;
  laws_account :: CborLaws Account (λ _, True);
  laws_multisig :: CborLaws MultisigTransactionStorage multisig_storable;
  laws_data_values :: CborLaws (gmap DataIndex DataValue) (λ _, True);
}.

(** ** Keys *)

Section keys.
Context `{LedgerEnv}.

Definition SYMBOLS_ROOT : string := "/config/symbols".
Definition SYMBOLS_ROOT_DASH : string := "/config/symbols/".
Definition IDENTITY_ROOT : string := "/config/identity".
Definition HEIGHT_ROOT : string := "/height".
Definition TOKEN_IDENTITY_ROOT : string := "/config/token_identity".
Definition ACCOUNT_IDENTITY_ROOT : string := "/config/account_identity".
Definition ACCOUNT_SUBRESOURCE_ID_ROOT : string := "/config/account_id".
Definition EVENTS_ROOT : bytes := b "/events/".
Definition EVENT_COUNT_ROOT : bytes := b "/events_count".
Definition MULTISIG_TRANSACTIONS_ROOT : bytes := b "/multisig/".
Definition DATA_ATTRIBUTES_KEY : bytes := b "/data/attributes".
Definition DATA_INFO_KEY : bytes := b "/data/info".
Definition EVENT_ID_KEY_SIZE_IN_BYTES : nat := 32.
Definition HEIGHT_EVENTID_SHIFT : N := 32.

Definition key_for_account_balance (i : Address) (symbol : Symbol) : bytes :=
  b "/balances/" ++ ab i ++ b "/" ++ ab symbol.
Definition key_for_subresource_counter (i : Address) (token_migration_active : bool) : bytes :=
  if token_migration_active then b "/config/subresource_counter/" ++ ab i
  else b ACCOUNT_SUBRESOURCE_ID_ROOT.
Definition key_for_symbol (symbol : Symbol) : bytes := b "/config/symbols/" ++ ab symbol.
Definition key_for_ext_info (symbol : Symbol) : bytes := b "/config/ext_info/" ++ ab symbol.
Definition key_for_account (i : Address) : bytes := b "/accounts/" ++ ab i.

(** The 32-byte form of an event id: cut if longer, zero bytes prepended if shorter. *)
Definition expand_id (i : bytes) : bytes :=
  let i := if (EVENT_ID_KEY_SIZE_IN_BYTES <? length i)%nat
           then take EVENT_ID_KEY_SIZE_IN_BYTES i else i in
  replicate (EVENT_ID_KEY_SIZE_IN_BYTES - length i) (as_u8 0) ++ i.
Definition key_for_event (i : EventId) : bytes := EVENTS_ROOT ++ expand_id i.
Definition key_for_multisig_transaction (token : bytes) : bytes :=
  MULTISIG_TRANSACTIONS_ROOT ++ expand_id token.
End keys.

(** ** [LedgerStorage] *)

(** Names of the migrations the storage asks about. *)
Definition TOKEN_MIGRATION : string := "Token Migration".
Definition MEMO_MIGRATION : string := "Memo Migration".
Definition LEGACY_REMOVE_ROLES_TRIGGER : string := "LegacyRemoveRoles".

Record LedgerStorage `{LedgerEnv} : Type := mkStorage {
  persistent_store : merk;
  blockchain : bool;
  latest_tid : EventId;
  current_time : option Timestamp;
  current_hash : option bytes;
  migrations : MigrationSet merk ManyError;
}.

Section storage.
Context `{LedgerEnv}.

Abbreviation LedgerM A := (ST LedgerStorage ManyError A).

Definition with_store (s : LedgerStorage) (m : merk) : LedgerStorage :=
  mkStorage _ m (blockchain s) (latest_tid s) (current_time s) (current_hash s) (migrations s).
Definition with_tid (s : LedgerStorage) (i : EventId) : LedgerStorage :=
  mkStorage _ (persistent_store s) (blockchain s) i (current_time s) (current_hash s) (migrations s).
Definition set_time (s : LedgerStorage) (t : Timestamp) : LedgerStorage :=
  mkStorage _ (persistent_store s) (blockchain s) (latest_tid s) (Some t) (current_hash s) (migrations s).
Definition with_hash (s : LedgerStorage) (h : bytes) : LedgerStorage :=
  mkStorage _ (persistent_store s) (blockchain s) (latest_tid s) (current_time s) (Some h) (migrations s).
Definition set_migrations (s : LedgerStorage) (ms : MigrationSet merk ManyError) : LedgerStorage :=
  mkStorage _ (persistent_store s) (blockchain s) (latest_tid s) (current_time s) (current_hash s) ms.

Definition now (s : LedgerStorage) : Timestamp := default clock_now (current_time s).
Definition migration_active (s : LedgerStorage) (n : string) : bool := is_active (migrations s) n.

(** [self.persistent_store.get(k).map_err(error::storage_get_failed)]. *)
Definition store_get (s : LedgerStorage) (k : bytes) : outcome ManyError (option bytes) :=
  map_err storage_get_failed (merk_get (persistent_store s) k).
(** [self.persistent_store.apply(l).map_err(f)]. *)
Definition store_apply_with (f : string → ManyError) (l : list BatchEntry) : LedgerM unit := λ s,
  match merk_apply (persistent_store s) l with
  | Ok m => (with_store s m, Ok tt)
  | Err e => (s, Err (f e))
  | Panic t => (s, Panic t)
  | OutOfFuel => (s, OutOfFuel)
  end.
Definition store_apply (l : list BatchEntry) : LedgerM unit := store_apply_with storage_apply_failed l.
Definition commit_storage : LedgerM unit := λ s,
  match merk_commit (persistent_store s) with
  | Ok m => (with_store s m, Ok tt)
  | Err e => (s, Err (storage_commit_failed e))
  | Panic t => (s, Panic t)
  | OutOfFuel => (s, OutOfFuel)
  end.
Definition maybe_commit : LedgerM unit := λ s,
  if negb (blockchain s) then commit_storage s else (s, Ok tt).

(** [bytes.copy_from_slice(x); uN::from_be_bytes(bytes)]. *)
Definition read_be (w : nat) (x : bytes) : outcome ManyError N :=
  if (length x =? w)%nat then Ok (be_value x)
  else Panic "source slice length does not match destination slice length".
Definition read_be_or_zero (w : nat) (o : option bytes) : outcome ManyError N :=
  match o with Some x => read_be w x | None => Ok 0 end.

Definition get_height (s : LedgerStorage) : outcome ManyError N :=
  o ← store_get s (b HEIGHT_ROOT); read_be_or_zero 8 o.
Definition inc_height : LedgerM N :=
  current ← reads get_height;
  store_apply [(b HEIGHT_ROOT, Put (be_bytes 8 (current + 1)))];;
  mret current.

(** [load] and [new]; [opened] is the result of opening the database. *)
Definition ledger_load (registry : list (InnerMigration merk ManyError)) (opened : outcome string merk)
    (is_blockchain : bool) (config : option MigrationConfig) : outcome ManyError LedgerStorage :=
  m ← map_err storage_open_failed opened;
  o ← map_err storage_get_failed (merk_get m (b HEIGHT_ROOT));
  height ← read_be_or_zero 8 o;
  let tid := event_id_of_u64 (wrap64 (N.shiftl (height - 1) HEIGHT_EVENTID_SHIFT)) in
  ms ← map_err unable_to_load_migrations
         match config with Some c => load registry c height | None => Ok ∅ end;
  Ok (mkStorage _ m is_blockchain tid None None ms).
Definition ledger_new (opened : outcome string merk) (is_blockchain : bool) :
    outcome ManyError LedgerStorage :=
  m ← map_err unknown opened;
  Ok (mkStorage _ m is_blockchain [as_u8 0] None None ∅).
Definition build : LedgerM unit := commit_storage.
Definition with_migrations (registry : list (InnerMigration merk ManyError))
    (config : option MigrationConfig) : LedgerM unit := λ s,
  match match config with Some c => load registry c 0 | None => Ok ∅ end with
  | Ok ms => (set_migrations s ms, Ok tt)
  | Err e => (s, Err (unknown e))
  | Panic t => (s, Panic t)
  | OutOfFuel => (s, OutOfFuel)
  end.

Definition hash (s : LedgerStorage) : bytes :=
  match current_hash s with Some h => h | None => merk_root_hash (persistent_store s) end.

Definition decode_or {A} `{Cbor A} (l : bytes) : outcome ManyError A :=
  map_err deserialization_error (decode l).

(** ** Iterators *)

Definition iter_mode (o : SortOrder) : IteratorMode :=
  match o with Indeterminate | Ascending => IterStart | Descending => IterEnd end.
(** [LedgerIterator::next]: keys with the values of the tree nodes. *)
Definition ledger_iter (m : merk) (mode : IteratorMode) (r : IterRange) :
    list (outcome string (bytes * bytes)) :=
  (λ i, i ≫= λ kn, Ok (kn.1, merk_tree_value kn.1 kn.2)) <$> merk_iter m mode r.
Definition all_multisig (m : merk) (o : SortOrder) : list (outcome string (bytes * bytes)) :=
  ledger_iter m (iter_mode o) (PrefixRange MULTISIG_TRANSACTIONS_ROOT).
Definition all_symbols (m : merk) (o : SortOrder) : list (outcome string (bytes * bytes)) :=
  ledger_iter m (iter_mode o) (PrefixRange (b SYMBOLS_ROOT_DASH)).
Definition events_scoped_by_id (m : merk) (r : CborRange EventId) (o : SortOrder) :
    list (outcome string (bytes * bytes)) :=
  let lower := match start r with
               | Included x => key_for_event x
               | Excluded x => key_for_event (event_id_add x 1)
               | Unbounded => EVENTS_ROOT
               end in
  let upper := match end_ r with
               | Included x => key_for_event (event_id_add x 1)
               | Excluded x => key_for_event x
               | Unbounded => b "/events0"
               end in
  ledger_iter m (iter_mode o) (BoundRange lower upper).
Definition all_events (m : merk) : list (outcome string (bytes * bytes)) :=
  events_scoped_by_id m range_default Indeterminate.

(** ** Identities and symbols *)

Definition get_identity (s : LedgerStorage) (root : string) : outcome ManyError Address :=
  o ← store_get s (b root);
  l ← ok_or o (storage_key_not_found root);
  from_bytes l.

Definition get_symbols_and_tickers (s : LedgerStorage) : outcome ManyError (gmap Address string) :=
  o ← store_get s (b SYMBOLS_ROOT);
  l ← ok_or o (storage_key_not_found SYMBOLS_ROOT);
  decode_or l.

(** [std::str::from_utf8]: the well-formed byte sequences of the Unicode standard. *)
Fixpoint utf8_from (pending : nat) (lo hi : N) (l : bytes) : bool :=
  match l with
  | [] => (pending =? 0)%nat
  | x :: l =>
      let n := Byte.to_N x in
      match pending with
      | O =>
          if n <? 0x80 then utf8_from 0 0 0 l
          else if (0xC2 <=? n) && (n <=? 0xDF) then utf8_from 1 0x80 0xBF l
          else if n =? 0xE0 then utf8_from 2 0xA0 0xBF l
          else if n =? 0xED then utf8_from 2 0x80 0x9F l
          else if (0xE1 <=? n) && (n <=? 0xEF) then utf8_from 2 0x80 0xBF l
          else if n =? 0xF0 then utf8_from 3 0x90 0xBF l
          else if (0xF1 <=? n) && (n <=? 0xF3) then utf8_from 3 0x80 0xBF l
          else if n =? 0xF4 then utf8_from 3 0x80 0x8F l
          else false
      | S p => if (lo <=? n) && (n <=? hi) then utf8_from p 0x80 0xBF l else false
      end
  end.
Definition from_utf8 (l : bytes) : outcome string string :=
  if utf8_from 0 0 0 l then Ok (String.string_of_list_byte l) else Err "invalid utf-8 sequence".

(** The symbol in a key below [/config/symbols/]. *)
Definition symbol_of_key (k : bytes) : outcome ManyError Symbol :=
  t ← map_err deserialization_error (from_utf8 (drop (String.length SYMBOLS_ROOT_DASH) k));
  address_from_str t.

Fixpoint collect_symbols (l : list (outcome string (bytes * bytes))) (acc : gset Symbol) :
    outcome ManyError (gset Symbol) :=
  match l with
  | [] => Ok acc
  | i :: l =>
      kv ← map_err unknown i;
      sym ← symbol_of_key kv.1;
      collect_symbols l ({[sym]} ∪ acc)
  end.
Definition _get_symbols (s : LedgerStorage) : outcome ManyError (gset Symbol) :=
  collect_symbols (all_symbols (persistent_store s) Indeterminate) ∅.

Definition get_symbols (s : LedgerStorage) : outcome ManyError (gset Symbol) :=
  if migration_active s TOKEN_MIGRATION then _get_symbols s
  else m ← get_symbols_and_tickers s; Ok (dom m).

(** ** Subresources *)

Definition counter_key (s : LedgerStorage) (i : Address) : bytes :=
  key_for_subresource_counter i (migration_active s TOKEN_MIGRATION).
Definition get_subresource_counter (s : LedgerStorage) (i : Address) : outcome ManyError N :=
  o ← store_get s (counter_key s i); read_be_or_zero 4 o.

Definition subresource_identity (s : LedgerStorage) (root : string) : outcome ManyError Address :=
  o ← store_get s (b root);
  match o with Some l => from_bytes l | None => get_identity s IDENTITY_ROOT end.

(** The [while] loop of [get_next_subresource]. *)
Fixpoint next_free (fuel : nat) (symbols : gset Symbol) (i : Address) (current : N)
    (next : Address) : outcome ManyError N :=
  if bool_decide (next ∈ symbols) then
    match fuel with
    | O => OutOfFuel
    | S fuel =>
        let current := wrap32 (current + 1) in
        if MAX_SUBRESOURCE_ID <? current
        then Err (subresource_exhausted (address_to_string i))
        else next ← with_subresource_id i current; next_free fuel symbols i current next
    end
  else Ok current.

(** The id the loop ends with; the symbols are finite, which bounds it. *)
Definition find_subresource (s : LedgerStorage) (i : Address) : outcome ManyError N :=
  current ← get_subresource_counter s i;
  if MAX_SUBRESOURCE_ID <? current then Err (subresource_exhausted (address_to_string i))
  else
    symbols ← get_symbols s;
    next ← with_subresource_id i current;
    next_free (size symbols) symbols i current next.

Definition get_next_subresource (root : string) : LedgerM (Address * list bytes) :=
  i ← reads (λ s, subresource_identity s root);
  current ← reads (λ s, find_subresource s i);
  key ← reads (λ s, Ok (counter_key s i));
  store_apply [(key, Put (be_bytes 4 (current + 1)))];;
  o ← reads (λ s, store_get s (b root));
  i ← reads (λ s, match o with Some l => from_bytes l | None => get_identity s IDENTITY_ROOT end);
  let keys := [key; b IDENTITY_ROOT] ++ match o with Some _ => [b root] | None => [] end in
  a ← lift (with_subresource_id i current);
  mret (a, keys).

(** ** Hotfixes *)

Definition block_hotfix {X Y} `{Cbor X, Cbor Y} (name : string) (data : X) (s : LedgerStorage) :
    outcome ManyError (option Y) :=
  height ← get_height s;
  o ← MigrationSet_hotfix (migrations s) name (to_vec data) (wrap64 (height + 1));
  match o with
  | Some l => y ← decode_or l; Ok (Some y)
  | None => Ok None
  end.
End storage.
Abbreviation LedgerM A := (ST LedgerStorage ManyError A).
