(* ===== verification/StorageLaws.v ===== *)
(** * Reasoning about the storage

    The laws of [LedgerEnvLaws] turned into rules for the operations of [Storage]:
    - [view]: the contents of the store as reads see them, and what each primitive does to it;
    - [only_writes]: a compositional account of which keys an operation may change,
      with a hint database ([writes]) that derives it for composed operations;
    - keys: the families of keys are pairwise disjoint, keys of one family are
      injective, and event keys are ordered as event ids. *)
From S2P Require Import Prelude Error External Address Types Account Events Migration Storage.

#[local] Open Scope string_scope.
#[local] Open Scope list_scope.
#[local] Open Scope N_scope.

(** ** Running composed operations *)

Section bind.
Context {S E A B : Type}.
Implicit Types (m : ST S E A) (f : A → ST S E B) (s : S).

Lemma bind_ok m f s s' a : m s = (s', Ok a) → (m ≫= f) s = f a s'.
Proof. intros Hm. unfold mbind, st_bind. by rewrite Hm. Qed.
Lemma bind_err m f s s' e : m s = (s', Err e) → (m ≫= f) s = (s', Err e).
Proof. intros Hm. unfold mbind, st_bind. by rewrite Hm. Qed.
Lemma bind_reads (g : S → outcome E A) f s a : g s = Ok a → (reads g ≫= f) s = f a s.
Proof. intros Hg. apply bind_ok. unfold reads. by rewrite Hg. Qed.
Lemma bind_reads_err (g : S → outcome E A) f s e :
  g s = Err e → (reads g ≫= f) s = (s, Err e).
Proof. intros Hg. apply bind_err. unfold reads. by rewrite Hg. Qed.
Lemma bind_lift (o : outcome E A) f s a : o = Ok a → (lift o ≫= f) s = f a s.
Proof. intros ->. done. Qed.
Lemma bind_ret (a : A) f s : (mret a ≫= f) s = f a s.
Proof. done. Qed.

(** A composed operation that succeeds. *)
Lemma bind_ok_inv m f s s' v :
  (m ≫= f) s = (s', Ok v) → ∃ s1 a, m s = (s1, Ok a) ∧ f a s1 = (s', Ok v).
Proof. unfold mbind, st_bind. destruct (m s) as [s1 [a|e|t|]]; intros; simplify_eq. eauto. Qed.
Lemma reads_ok_inv (g : S → outcome E A) f s s' v :
  (reads g ≫= f) s = (s', Ok v) → ∃ a, g s = Ok a ∧ f a s = (s', Ok v).
Proof. intros (s1 & a & [= <- ?] & ?)%bind_ok_inv. eauto. Qed.
Lemma lift_ok_inv (o : outcome E A) f s s' v :
  (lift o ≫= f) s = (s', Ok v) → ∃ a, o = Ok a ∧ f a s = (s', Ok v).
Proof. intros (s1 & a & [= <- ?] & ?)%bind_ok_inv. eauto. Qed.
End bind.

(** ** Counters *)

Lemma read_be_be_bytes n : read_be_or_zero 8 (Some (be_bytes 8 n)) = Ok (n mod 2 ^ 64).
Proof. unfold read_be_or_zero, read_be. by rewrite length_be_bytes, be_value_be_bytes. Qed.

(** ** The view of the store *)

Section laws.
Context `{LedgerEnv, !LedgerEnvLaws}.
Implicit Types (s : LedgerStorage) (k : bytes).

Definition view s : gmap bytes bytes := merk_view (persistent_store s).
Definition committed s : gmap bytes bytes := merk_db (persistent_store s).

(** The number of the last event. *)
Definition tid s : N := be_value (latest_tid s).

(** Everything but the store and the last event id is the same, and that id has not
    gone down. *)
Record frame s s' : Prop := mkFrame {
  frame_blockchain : blockchain s' = blockchain s;
  frame_time : current_time s' = current_time s;
  frame_hash : current_hash s' = current_hash s;
  frame_migrations : migrations s' = migrations s;
  frame_tid : tid s ≤ tid s';
}.

#[global] Instance frame_refl : Reflexive frame.
Proof. intros s. by constructor. Qed.
#[global] Instance frame_trans : Transitive frame.
Proof. intros s1 s2 s3 [] []. constructor; [congruence..|lia]. Qed.

Lemma store_get_view s k : store_get s k = Ok (view s !! k).
Proof. unfold store_get. by rewrite merk_get_view. Qed.

Lemma bind_get {B} k (f : option bytes → LedgerM B) s :
  (reads (λ s, store_get s k) ≫= f) s = f (view s !! k) s.
Proof. apply bind_reads, store_get_view. Qed.

Lemma store_apply_with_ok f l s :
  keys_ascending l →
  ∃ s', store_apply_with f l s = (s', Ok tt) ∧ view s' = apply_batch (view s) l
    ∧ committed s' = committed s ∧ latest_tid s' = latest_tid s ∧ frame s s'.
Proof.
  intros Hl. unfold store_apply_with.
  destruct (merk_apply_ok (persistent_store s) l Hl) as (m & -> & Hv & Hd).
  eexists. repeat split; try done; reflexivity.
Qed.

Lemma store_apply_with_cases f l s :
  (keys_ascending l ∧ ∃ s', store_apply_with f l s = (s', Ok tt) ∧ view s' = apply_batch (view s) l
    ∧ committed s' = committed s ∧ latest_tid s' = latest_tid s ∧ frame s s')
  ∨ (∃ e, store_apply_with f l s = (s, Err e)).
Proof.
  destruct (decide (keys_ascending l)) as [Hl|Hl].
  - left. split; [done|]. by apply store_apply_with_ok.
  - right. unfold store_apply_with.
    destruct (merk_apply_err (persistent_store s) l Hl) as (e & ->). eauto.
Qed.

Lemma keys_ascending_singleton k (o : External.Op) : keys_ascending [(k, o)].
Proof. repeat constructor. Qed.

Lemma keys_ascending_pair k1 k2 (o1 o2 : External.Op) :
  lexico k1 k2 → keys_ascending [(k1, o1); (k2, o2)].
Proof.
  intros Hk. unfold keys_ascending. csimpl.
  constructor; [repeat constructor|]. by constructor; [|constructor].
Qed.

(** A single entry always applies. *)
Lemma store_apply_one k o s :
  ∃ s', store_apply [(k, o)] s = (s', Ok tt) ∧ view s' = apply_op (view s) (k, o)
    ∧ committed s' = committed s ∧ latest_tid s' = latest_tid s ∧ frame s s'.
Proof. apply (store_apply_with_ok storage_apply_failed), keys_ascending_singleton. Qed.

Lemma commit_storage_ok s :
  ∃ s', commit_storage s = (s', Ok tt) ∧ view s' = view s ∧ committed s' = view s
    ∧ latest_tid s' = latest_tid s ∧ frame s s'.
Proof.
  unfold commit_storage. destruct (merk_commit_ok (persistent_store s)) as (m & -> & Hv & Hd).
  eexists. repeat split; try done; reflexivity.
Qed.

Lemma maybe_commit_ok s :
  ∃ s', maybe_commit s = (s', Ok tt) ∧ view s' = view s ∧ latest_tid s' = latest_tid s ∧ frame s s'.
Proof.
  unfold maybe_commit. destruct (blockchain s); simpl.
  - eexists. repeat split; try done; reflexivity.
  - destruct (commit_storage_ok s) as (s' & ? & ? & _ & ? & ?). eauto 10.
Qed.

Lemma maybe_commit_committed s :
  committed (maybe_commit s).1 = committed s ∨ committed (maybe_commit s).1 = view s.
Proof.
  unfold maybe_commit. destruct (blockchain s); simpl; [by left|right].
  by destruct (commit_storage_ok s) as (s' & -> & _ & ? & _).
Qed.

(** ** Which keys an operation writes *)

(** Of a key that is not written, the database has what it had or what reads saw. *)
Definition untouched s s' k : Prop :=
  view s' !! k = view s !! k
  ∧ (committed s' !! k = committed s !! k ∨ committed s' !! k = view s !! k).

Lemma untouched_refl s k : untouched s s k.
Proof. split; [done|by left]. Qed.
Lemma untouched_trans s1 s2 s3 k : untouched s1 s2 k → untouched s2 s3 k → untouched s1 s3 k.
Proof. intros [V1 C1] [V2 C2]. split; [congruence|]. rewrite <-V1. destruct C1, C2; naive_solver congruence. Qed.

Definition only_writes {A} (P : bytes → Prop) (m : LedgerM A) : Prop :=
  ∀ s, frame s (m s).1 ∧ ∀ k, ¬ P k → untouched s (m s).1 k.

Lemma only_writes_mono {A} (P Q : bytes → Prop) (m : LedgerM A) :
  only_writes P m → (∀ k, P k → Q k) → only_writes Q m.
Proof. intros Hm HPQ s. destruct (Hm s) as [? Hk]. split; [done|]. intros k HQ. apply Hk. eauto. Qed.

Lemma only_writes_ret {A} P (a : A) : only_writes P (mret a).
Proof. intros s. split; [reflexivity|intros; apply untouched_refl]. Qed.
Lemma only_writes_reads {A} P (g : LedgerStorage → outcome ManyError A) : only_writes P (reads g).
Proof. intros s. split; [reflexivity|intros; apply untouched_refl]. Qed.
Lemma only_writes_lift {A} P (o : outcome ManyError A) : only_writes P (lift o).
Proof. intros s. split; [reflexivity|intros; apply untouched_refl]. Qed.
Lemma only_writes_fails {A} P e : only_writes P (A := A) (fails e).
Proof. intros s. split; [reflexivity|intros; apply untouched_refl]. Qed.
Lemma only_writes_panics {A} P e : only_writes P (A := A) (panics e).
Proof. intros s. split; [reflexivity|intros; apply untouched_refl]. Qed.

Lemma only_writes_bind {A B} P (m : LedgerM A) (f : A → LedgerM B) :
  only_writes P m → (∀ a, only_writes P (f a)) → only_writes P (m ≫= f).
Proof.
  intros Hm Hf s. unfold mbind, st_bind. destruct (Hm s) as [Hfr Hk].
  destruct (m s) as [s' [a|e|t|]]; simpl in *; [|done..].
  destruct (Hf a s') as [Hfr' Hk']. split; [by trans s'|].
  intros k HP. eapply untouched_trans; eauto.
Qed.

(** A fact [Q] about what is read may be used. *)
Lemma only_writes_bind_reads {A B} P (Q : A → Prop) (g : LedgerStorage → outcome ManyError A)
    (f : A → LedgerM B) :
  (∀ s a, g s = Ok a → Q a) → (∀ a, Q a → only_writes P (f a)) → only_writes P (reads g ≫= f).
Proof.
  intros Hg Hf s. unfold mbind, st_bind, reads. destruct (g s) as [a|e|t|] eqn:E; simpl.
  1: by apply (Hf a), (Hg s). all: split; [reflexivity|intros; apply untouched_refl].
Qed.

Lemma only_writes_catch {A} P (m : LedgerM A) : only_writes P m → only_writes P (catch m).
Proof. intros Hm s. unfold catch. specialize (Hm s). by destruct (m s) as [s' []]. Qed.

Lemma only_writes_if {A} P (c : bool) (m1 m2 : LedgerM A) :
  only_writes P m1 → only_writes P m2 → only_writes P (if c then m1 else m2).
Proof. by destruct c. Qed.

Lemma only_writes_apply_with P f l :
  Forall (λ e, P e.1) l → only_writes P (store_apply_with f l).
Proof.
  intros Hl s. destruct (store_apply_with_cases f l s) as [(_ & s' & -> & Hv & Hc & _ & Hf)|(e & ->)].
  - split; [done|]. intros k HP. simpl. unfold untouched. rewrite Hv, Hc. split; [|by left].
    apply lookup_apply_batch_ne. intros (e & -> & He)%list_elem_of_fmap. rewrite Forall_forall in Hl. by apply HP, Hl.
  - split; [reflexivity|]. intros. apply untouched_refl.
Qed.
Lemma only_writes_apply P l : Forall (λ e, P e.1) l → only_writes P (store_apply l).
Proof. apply only_writes_apply_with. Qed.

Lemma only_writes_commit P : only_writes P commit_storage.
Proof.
  intros s. destruct (commit_storage_ok s) as (s' & -> & Hv & Hc & _ & Hf). split; [done|].
  intros k _. simpl. unfold untouched. rewrite Hv, Hc. auto.
Qed.
Lemma only_writes_maybe_commit P : only_writes P maybe_commit.
Proof.
  intros s. pose proof (maybe_commit_committed s) as Hc.
  destruct (maybe_commit_ok s) as (s' & Hs & Hv & _ & Hf). rewrite Hs in *. split; [done|].
  intros k _. simpl in *. unfold untouched. rewrite Hv. destruct Hc as [-> | ->]; auto.
Qed.
Lemma only_writes_tid P f :
  (∀ s, tid s ≤ be_value (f s)) → only_writes P (λ s, (with_tid s (f s), Ok (f s))).
Proof. intros Hf s. split; [constructor; [done..|apply Hf]|]. intros k _. split; [done|by left]. Qed.
End laws.

Create HintDb writes.
#[export] Hint Resolve only_writes_ret only_writes_reads only_writes_lift only_writes_fails
  only_writes_panics only_writes_commit only_writes_maybe_commit
  only_writes_catch : writes.
#[export] Hint Extern 2 (only_writes _ (_ ≫= _)) =>
  (apply only_writes_bind; [|intros]) : writes.
#[export] Hint Extern 2 (only_writes _ (if _ then _ else _)) => (apply only_writes_if) : writes.
#[export] Hint Extern 3 (only_writes _ (store_apply _)) => (apply only_writes_apply) : writes.
#[export] Hint Extern 3 (only_writes _ (store_apply_with _ _)) => (apply only_writes_apply_with) : writes.
#[export] Hint Extern 3 (only_writes _ (match ?x with _ => _ end)) => (destruct x) : writes.
#[export] Hint Extern 4 (Forall _ (_ :: _)) => (constructor; cbn [fst]) : writes.
#[export] Hint Extern 4 (Forall _ (if ?c then _ else _)) => (destruct c) : writes.
#[export] Hint Extern 4 (Forall _ []) => (constructor) : writes.

(** ** Keys *)

Lemma split_unique {A} (x : A) l1 l2 r1 r2 :
  x ∉ l1 → x ∉ l2 → l1 ++ x :: r1 = l2 ++ x :: r2 → l1 = l2 ∧ r1 = r2.
Proof.
  revert l2. induction l1 as [|y l1 IH]; intros [|z l2]; simpl; intros H1 H2 He; simplify_eq.
  - done.
  - by destruct H2; left.
  - by destruct H1; left.
  - apply not_elem_of_cons in H1 as [_ H1]. apply not_elem_of_cons in H2 as [_ H2].
    destruct (IH l2) as [-> ->]; auto.
Qed.

(** Two keys that start with different literals differ. *)
Ltac key_discr :=
  match goal with
  | |- ?l = ?r → False => let E := fresh in intros E; cbv in E; discriminate E
  | |- ?l ≠ ?r => let E := fresh in intros E; key_discr_in E
  | E : ?l = ?r |- _ => exfalso; key_discr_in E
  end
with key_discr_in E :=
  repeat unfold key_for_account_balance, key_for_subresource_counter, key_for_symbol,
    key_for_ext_info, key_for_account, key_for_event, key_for_multisig_transaction,
    EVENTS_ROOT, EVENT_COUNT_ROOT, MULTISIG_TRANSACTIONS_ROOT, DATA_ATTRIBUTES_KEY,
    DATA_INFO_KEY, SYMBOLS_ROOT, SYMBOLS_ROOT_DASH, IDENTITY_ROOT, HEIGHT_ROOT, TOKEN_IDENTITY_ROOT,
    ACCOUNT_IDENTITY_ROOT, ACCOUNT_SUBRESOURCE_ID_ROOT in E;
  cbn [b String.list_byte_of_string String.list_ascii_of_string Ascii.byte_of_ascii map app
    Byte.of_bits] in E;
  discriminate E.

Section key_laws.
Context `{LedgerEnv, !LedgerEnvLaws}.

Lemma key_balance_inj a x c y :
  key_for_account_balance a x = key_for_account_balance c y → a = c ∧ x = y.
Proof.
  unfold key_for_account_balance. intros Hk. apply (inj (app (b "/balances/"))) in Hk.
  apply split_unique in Hk as [Ha Hx]; [|apply ab_no_slash..]. split; by apply ab_inj.
Qed.

Lemma key_symbol_inj x y : key_for_symbol x = key_for_symbol y → x = y.
Proof. unfold key_for_symbol. intros Hk%(inj (app _)). by apply ab_inj. Qed.
Lemma key_ext_info_inj x y : key_for_ext_info x = key_for_ext_info y → x = y.
Proof. unfold key_for_ext_info. intros Hk%(inj (app _)). by apply ab_inj. Qed.
Lemma key_account_inj x y : key_for_account x = key_for_account y → x = y.
Proof. unfold key_for_account. intros Hk%(inj (app _)). by apply ab_inj. Qed.

(** *** Event and transaction keys *)

Lemma length_expand_id i : length (expand_id i) = EVENT_ID_KEY_SIZE_IN_BYTES.
Proof.
  unfold expand_id. destruct (Nat.ltb_spec EVENT_ID_KEY_SIZE_IN_BYTES (length i)).
  - rewrite length_app, length_replicate, length_take. lia.
  - rewrite length_app, length_replicate. lia.
Qed.

Lemma be_value_replicate_zero n l : be_value (replicate n (as_u8 0) ++ l) = be_value l.
Proof.
  rewrite be_value_app. replace (be_value (replicate n (as_u8 0))) with 0; [lia|].
  induction n as [|n IH]; [done|]. simpl. rewrite be_value_cons, <-IH. by rewrite to_N_as_u8.
Qed.

Lemma be_value_expand_id i :
  (length i ≤ EVENT_ID_KEY_SIZE_IN_BYTES)%nat → be_value (expand_id i) = be_value i.
Proof.
  intros Hi. unfold expand_id.
  destruct (Nat.ltb_spec EVENT_ID_KEY_SIZE_IN_BYTES (length i)); [lia|].
  apply be_value_replicate_zero.
Qed.

Lemma lexico_app (p l1 l2 : bytes) : lexico (p ++ l1) (p ++ l2) ↔ lexico l1 l2.
Proof.
  induction p as [|x p IH]; [done|].
  change (lexico ((x :: p) ++ l1) ((x :: p) ++ l2))
    with (Byte.to_N x < Byte.to_N x ∨ x = x ∧ lexico (p ++ l1) (p ++ l2)).
  rewrite IH. split; [intros [?|[_ ?]]; [lia|done]|tauto].
Qed.

Lemma expand_id_inj i j :
  (length i ≤ EVENT_ID_KEY_SIZE_IN_BYTES)%nat → (length j ≤ EVENT_ID_KEY_SIZE_IN_BYTES)%nat →
  expand_id i = expand_id j ↔ be_value i = be_value j.
Proof.
  intros Hi Hj. rewrite <-(be_value_expand_id i), <-(be_value_expand_id j) by done.
  split; [by intros ->|]. apply be_value_inj. by rewrite !length_expand_id.
Qed.

Lemma key_event_lt i j :
  (length i ≤ EVENT_ID_KEY_SIZE_IN_BYTES)%nat → (length j ≤ EVENT_ID_KEY_SIZE_IN_BYTES)%nat →
  lexico (key_for_event i) (key_for_event j) ↔ be_value i < be_value j.
Proof.
  intros Hi Hj. unfold key_for_event. rewrite lexico_app, lexico_be_value by (by rewrite !length_expand_id).
  by rewrite !be_value_expand_id.
Qed.

(** The batch of [log_event] is in key order: [/events/...] is below [/events_count]. *)
Lemma key_event_lt_count i : lexico (key_for_event i) EVENT_COUNT_ROOT.
Proof.
  unfold key_for_event, EVENTS_ROOT, EVENT_COUNT_ROOT.
  change (b "/events/") with (b "/events" ++ [Byte.x2f]).
  change (b "/events_count") with (b "/events" ++ b "_count").
  rewrite <-app_assoc, lexico_app. left. done.
Qed.

(** storage keys of events are 40 bytes long whatever the length of the id, and
    for ids of up to 32 bytes the order of the keys, the order in which the database
    iterates, is the numeric order of the ids; two such ids share a key exactly when
    they are the same number. *)
Theorem event_key_order i j :
  length (key_for_event i) = 40%nat
  ∧ (if (length i <=? 32)%nat && (length j <=? 32)%nat
     then (lexico (key_for_event i) (key_for_event j) ↔ be_value i < be_value j)
          ∧ (key_for_event i = key_for_event j ↔ be_value i = be_value j)
     else True).
Proof.
  split.
  - unfold key_for_event. by rewrite length_app, length_expand_id.
  - destruct (_ && _) eqn:Hl; [|done]. apply andb_true_iff in Hl as [Hi%Nat.leb_le Hj%Nat.leb_le].
    split; [by apply key_event_lt|]. rewrite <-expand_id_inj by done. unfold key_for_event.
    split; [by intros Hk%(inj (app _))|by intros ->].
Qed.
End key_laws.
