(* ===== verification/AppStore.v ===== *)
(** * The state shared by the key-value store and the web server

    [KvStoreStorage] ([many-kvstore/src/storage.rs]) and [WebStorage]
    ([many-web/src/storage.rs]) are structures with the same fields, and their event logs are
    two copies of one algorithm that differ in what they do with an error of the store: the one
    unwraps it, the other returns it. [AppStorage] is the structure, [AppEnv] what it takes from
    outside the repository, and the operations below take the treatment of errors as
    an argument ([unwraps], [raises]). The files [KvStore] and [Web] instantiate them. *)
From S2P Require Import Prelude Error External Address Types Account Events Migration Storage.
From S2P Require Import StorageLaws.

#[local] Open Scope string_scope.
#[local] Open Scope list_scope.
#[local] Open Scope N_scope.

Class AppEnv := {
  app_base32 :: Base32;
  app_crc16 :: Crc16;
  app_hex :: Hex;
  app_big :: BigUintBytes;
  app_merk :: Merk;
  app_clock :: Clock;
  app_cbor_event :: Cbor EventLog;
  app_cbor_event_id :: Cbor EventId;
  app_cbor_account :: Cbor Account;
}.

Class AppEnvLaws `{AppEnv} := {
  app_laws_base32 :: Base32Laws;
  app_laws_big :: BigUintBytesLaws;
  app_laws_merk :: MerkLaws;
  app_laws_event_id :: CborLaws EventId (λ _, True);
  app_laws_account :: CborLaws Account (λ _, True);
}.

Record AppStorage `{AppEnv} : Type := mkAppStorage {
  app_store : merk;
  app_blockchain : bool;
  app_event_id : EventId;
  app_time : option Timestamp;
  app_hash : option bytes;
  next_subresource : N;
  root_identity : Address;
}.
Abbreviation AppM A := (ST AppStorage ManyError A).

(** What is done with an error of the store: [.unwrap()], or [.map_err(f)?]. *)
Abbreviation OnError := (∀ A : Type, string → outcome ManyError A).
Definition unwraps : OnError := λ A e, Panic e.
Definition raises (f : string → ManyError) : OnError := λ A e, Err (f e).
Definition on_error {A} (h : OnError) (m : outcome string A) : outcome ManyError A :=
  match m with
  | Ok a => Ok a
  | Err e => h A e
  | Panic t => Panic t
  | OutOfFuel => OutOfFuel
  end.

Section app.
Context `{AppEnv}.

Definition app_with_store (s : AppStorage) (m : merk) : AppStorage :=
  mkAppStorage _ m (app_blockchain s) (app_event_id s) (app_time s) (app_hash s)
    (next_subresource s) (root_identity s).
Definition app_with_event_id (s : AppStorage) (i : EventId) : AppStorage :=
  mkAppStorage _ (app_store s) (app_blockchain s) i (app_time s) (app_hash s)
    (next_subresource s) (root_identity s).
Definition app_with_time (s : AppStorage) (t : option Timestamp) : AppStorage :=
  mkAppStorage _ (app_store s) (app_blockchain s) (app_event_id s) t (app_hash s)
    (next_subresource s) (root_identity s).
Definition app_with_hash (s : AppStorage) (h : option bytes) : AppStorage :=
  mkAppStorage _ (app_store s) (app_blockchain s) (app_event_id s) (app_time s) h
    (next_subresource s) (root_identity s).
Definition app_with_subresource (s : AppStorage) (n : N) : AppStorage :=
  mkAppStorage _ (app_store s) (app_blockchain s) (app_event_id s) (app_time s) (app_hash s)
    n (root_identity s).

Definition app_now (s : AppStorage) : Timestamp := default clock_now (app_time s).

(** [self.persistent_store.get(k)], [.apply(l)] and [.commit(&[])]. *)
Definition app_get (h : OnError) (k : bytes) (s : AppStorage) : outcome ManyError (option bytes) :=
  on_error h (merk_get (app_store s) k).
Definition app_update (h : OnError) (r : outcome string merk) : AppM unit := λ s,
  match r with
  | Ok m => (app_with_store s m, Ok tt)
  | _ => (s, on_error h ((λ _, tt) <$> r))
  end.
Definition app_apply (h : OnError) (l : list BatchEntry) : AppM unit := λ s,
  app_update h (merk_apply (app_store s) l) s.
Definition app_commit (h : OnError) : AppM unit := λ s,
  app_update h (merk_commit (app_store s)) s.
(** [if !self.blockchain { self.persistent_store.commit(&[]) }]. *)
Definition app_maybe_commit (h : OnError) : AppM unit := λ s,
  if negb (app_blockchain s) then app_commit h s else (s, Ok tt).

(** [get(k)?.map_or(0, |x| uN::from_be_bytes(x))]. *)
Definition app_number (h : OnError) (w : nat) (k : bytes) (s : AppStorage) : outcome ManyError N :=
  o ← app_get h k s; read_be_or_zero w o.

Definition app_new_event_id : AppM EventId := λ s,
  let i := event_id_add (app_event_id s) 1 in (app_with_event_id s i, Ok i).

Definition app_log_event (hg ha hc : OnError) (content : EventInfo) : AppM unit :=
  current ← reads (app_number hg 8 EVENT_COUNT_ROOT);
  i ← app_new_event_id;
  time ← reads (λ s, Ok (app_now s));
  app_apply ha [(key_for_event i, Put (to_vec (mkEventLog i time content)));
                (EVENT_COUNT_ROOT, Put (be_bytes 8 (current + 1)))];;
  app_maybe_commit hc.

(** Iteration over the keys with a prefix, or over the events with an id in a range. *)
Definition app_iter (s : AppStorage) (o : SortOrder) (r : IterRange) :
    list (outcome string (bytes * bytes)) :=
  (λ i, i ≫= λ kn, Ok (kn.1, merk_tree_value kn.1 kn.2)) <$> merk_iter (app_store s) (iter_mode o) r.
Definition app_events (s : AppStorage) (r : CborRange EventId) (o : SortOrder) :
    list (outcome string (bytes * bytes)) :=
  let lower := match start r with
               | Included x => key_for_event x
               | Excluded x => key_for_event (event_id_add x 1)
               | Unbounded => EVENTS_ROOT
               end in
  let upper := match end_ r with
               | Included x => key_for_event (event_id_add x 1)
               | Excluded x => key_for_event x
               | Unbounded => b "/events0"
               end in
  app_iter s o (BoundRange lower upper).
End app.

(** ** Laws *)

Section app_laws.
Context `{AppEnv, !AppEnvLaws}.
Implicit Types (s : AppStorage) (k : bytes).

Definition app_view s : gmap bytes bytes := merk_view (app_store s).
Definition app_db s : gmap bytes bytes := merk_db (app_store s).

(** Everything but the store and the last event id is the same. *)
Record app_frame s s' : Prop := mkAppFrame {
  same_blockchain : app_blockchain s' = app_blockchain s;
  same_time : app_time s' = app_time s;
  same_hash : app_hash s' = app_hash s;
  same_subresource : next_subresource s' = next_subresource s;
  same_identity : root_identity s' = root_identity s;
}.
#[global] Instance app_frame_refl : Reflexive app_frame.
Proof. by intros s. Qed.
#[global] Instance app_frame_trans : Transitive app_frame.
Proof. intros s1 s2 s3 [] []. constructor; congruence. Qed.

(** What a store holds after a commit that happens only without a blockchain. *)
Definition app_synced s : Prop := app_blockchain s = false → app_db s = app_view s.

Lemma app_get_view h k s : app_get h k s = Ok (app_view s !! k).
Proof. unfold app_get. by rewrite merk_get_view. Qed.

Lemma app_number_view h w k s : app_number h w k s = read_be_or_zero w (app_view s !! k).
Proof. unfold app_number. by rewrite app_get_view. Qed.

Lemma app_apply_ok h l s :
  keys_ascending l →
  ∃ s', app_apply h l s = (s', Ok tt) ∧ app_view s' = apply_batch (app_view s) l
    ∧ app_db s' = app_db s ∧ app_event_id s' = app_event_id s ∧ app_frame s s'.
Proof.
  intros Hl. unfold app_apply, app_update.
  destruct (merk_apply_ok (app_store s) l Hl) as (m & -> & Hv & Hd). eexists. by repeat split.
Qed.

Lemma app_apply_err h l s :
  ¬ keys_ascending l → ∃ e, app_apply h l s = (s, h unit e).
Proof.
  intros Hl. unfold app_apply, app_update.
  destruct (merk_apply_err (app_store s) l Hl) as (e & ->). by exists e.
Qed.

Lemma app_apply_one h k o s :
  ∃ s', app_apply h [(k, o)] s = (s', Ok tt) ∧ app_view s' = apply_op (app_view s) (k, o)
    ∧ app_db s' = app_db s ∧ app_event_id s' = app_event_id s ∧ app_frame s s'.
Proof. apply app_apply_ok, keys_ascending_singleton. Qed.

Lemma app_commit_ok h s :
  ∃ s', app_commit h s = (s', Ok tt) ∧ app_view s' = app_view s ∧ app_db s' = app_view s
    ∧ app_event_id s' = app_event_id s ∧ app_frame s s'.
Proof.
  unfold app_commit, app_update.
  destruct (merk_commit_ok (app_store s)) as (m & -> & Hv & Hd). eexists. by repeat split.
Qed.

Lemma app_maybe_commit_ok h s :
  ∃ s', app_maybe_commit h s = (s', Ok tt) ∧ app_view s' = app_view s
    ∧ app_db s' = (if app_blockchain s then app_db s else app_view s)
    ∧ app_event_id s' = app_event_id s ∧ app_frame s s'.
Proof.
  unfold app_maybe_commit. destruct (app_blockchain s); simpl; [by eexists|]. apply app_commit_ok.
Qed.

(** The view after an event has been logged. *)
Definition logged_view (m : gmap bytes bytes) (i : EventId) (t : Timestamp) (e : EventInfo) (n : N) :
    gmap bytes bytes :=
  <[EVENT_COUNT_ROOT := be_bytes 8 (n + 1)]>
    (<[key_for_event i := to_vec (mkEventLog i t e)]> m).

Lemma app_log_event_ok hg ha hc e s n :
  read_be_or_zero 8 (app_view s !! EVENT_COUNT_ROOT) = Ok n →
  ∃ s', app_log_event hg ha hc e s = (s', Ok tt)
    ∧ app_view s' = logged_view (app_view s) (event_id_add (app_event_id s) 1) (app_now s) e n
    ∧ app_db s' = (if app_blockchain s then app_db s else app_view s')
    ∧ app_event_id s' = event_id_add (app_event_id s) 1 ∧ app_frame s s'.
Proof.
  intros Hn. unfold app_log_event.
  rewrite (bind_reads _ _ s n) by (by rewrite app_number_view).
  set (i := event_id_add (app_event_id s) 1). set (s1 := app_with_event_id s i).
  rewrite (bind_ok app_new_event_id _ s s1 i) by done.
  rewrite (bind_reads _ _ s1 (app_now s)) by done.
  destruct (app_apply_ok ha
    [(key_for_event i, Put (to_vec (mkEventLog i (app_now s) e)));
     (EVENT_COUNT_ROOT, Put (be_bytes 8 (n + 1)))] s1) as (s2 & Hs2 & Hv2 & Hd2 & Hi2 & Hf2).
  { apply keys_ascending_pair, key_event_lt_count. }
  rewrite (bind_ok _ _ _ _ _ Hs2).
  destruct (app_maybe_commit_ok hc s2) as (s3 & -> & Hv3 & Hd3 & Hi3 & Hf3).
  exists s3. split; [done|]. split; [by rewrite Hv3, Hv2|].
  split; [|split; [by rewrite Hi3, Hi2|]].
  - rewrite Hd3, (same_blockchain _ _ Hf2), Hd2, Hv3. done.
  - trans s2; [|done]. destruct Hf2. by split.
Qed.

(** Event keys start with [/events]; nothing else of a logged view changes. *)
Lemma logged_view_ne m i t e n k :
  ¬ b "/events" `prefix_of` k → logged_view m i t e n !! k = m !! k.
Proof.
  intros Hk. unfold logged_view. rewrite !lookup_insert_ne; [done|..].
  - intros <-. apply Hk. by exists (Byte.x2f :: expand_id i).
  - intros <-. apply Hk. by exists (b "_count").
Qed.
Lemma logged_view_count m i t e n :
  read_be_or_zero 8 (logged_view m i t e n !! EVENT_COUNT_ROOT) = Ok ((n + 1) mod 2 ^ 64).
Proof. unfold logged_view. by rewrite lookup_insert_eq, read_be_be_bytes. Qed.

Lemma app_iter_ok s o r : app_iter s o r = Ok <$> iter_entries (app_db s) (iter_mode o) r.
Proof. unfold app_iter. by rewrite merk_iter_ok. Qed.
End app_laws.
