(* ===== verification/LedgerEvent.v ===== *)
(** * many-ledger: the event log

    Models [many-ledger/src/storage/event.rs]: [new_event_id], [nb_events], [log_event]
    and the iterators over events and multisig transactions. *)
From S2P Require Import Prelude Error External Address Types Account Events Migration Storage.
From S2P Require Import StorageLaws.

#[local] Open Scope string_scope.
#[local] Open Scope list_scope.
#[local] Open Scope N_scope.

Section events.
Context `{LedgerEnv}.

(** [self.latest_tid += 1; self.latest_tid.clone()]. *)
Definition next_event_id (s : LedgerStorage) : EventId := event_id_add (latest_tid s) 1.
Definition new_event_id : LedgerM EventId := λ s,
  (with_tid s (next_event_id s), Ok (next_event_id s)).

Definition nb_events (s : LedgerStorage) : outcome ManyError N :=
  o ← store_get s EVENT_COUNT_ROOT; read_be_or_zero 8 o.

Definition log_event (content : EventInfo) : LedgerM unit :=
  current ← reads nb_events;
  i ← new_event_id;
  time ← reads (λ s, Ok (now s));
  store_apply [(key_for_event i, Put (to_vec (mkEventLog i time content)));
               (EVENT_COUNT_ROOT, Put (be_bytes 8 (current + 1)))];;
  maybe_commit.

Definition iter_multisig (s : LedgerStorage) (o : SortOrder) : list (outcome string (bytes * bytes)) :=
  all_multisig (persistent_store s) o.
Definition iter_events (s : LedgerStorage) (r : CborRange EventId) (o : SortOrder) :
    list (outcome string (bytes * bytes)) :=
  events_scoped_by_id (persistent_store s) r o.
End events.

(** Keys of the event log. *)
Definition event_key (k : bytes) : Prop := b "/events" `prefix_of` k.

Lemma event_key_event i : event_key (key_for_event i).
Proof. exists (Byte.x2f :: expand_id i). done. Qed.
Lemma event_key_count : event_key EVENT_COUNT_ROOT.
Proof. by exists (b "_count"). Qed.

Section event_laws.
Context `{LedgerEnv, !LedgerEnvLaws}.
Implicit Types s : LedgerStorage.

Lemma nb_events_view s : nb_events s = read_be_or_zero 8 (view s !! EVENT_COUNT_ROOT).
Proof. unfold nb_events. by rewrite store_get_view. Qed.

Lemma tid_next s : be_value (next_event_id s) = tid s + 1.
Proof. apply event_id_add_value. Qed.

Lemma log_event_ok content s n :
  nb_events s = Ok n →
  ∃ s', log_event content s = (s', Ok tt)
    ∧ view s' = <[EVENT_COUNT_ROOT := be_bytes 8 (n + 1)]>
                (<[key_for_event (next_event_id s) :=
                     to_vec (mkEventLog (next_event_id s) (now s) content)]> (view s))
    ∧ latest_tid s' = next_event_id s ∧ frame s s'.
Proof.
  intros Hn. unfold log_event. rewrite (bind_reads _ _ _ _ Hn).
  set (s1 := with_tid s (next_event_id s)).
  assert (frame s s1) as Hf1.
  { constructor; [done..|]. unfold tid at 2. simpl. rewrite tid_next. lia. }
  rewrite (bind_ok new_event_id _ s s1 (next_event_id s) eq_refl).
  rewrite (bind_reads _ _ s1 (now s)) by done.
  destruct (store_apply_with_ok storage_apply_failed
    [(key_for_event (next_event_id s), Put (to_vec (mkEventLog (next_event_id s) (now s) content)));
     (EVENT_COUNT_ROOT, Put (be_bytes 8 (n + 1)))] s1) as (s2 & Hs2 & Hv2 & _ & Ht2 & Hf2).
  { apply keys_ascending_pair, key_event_lt_count. }
  rewrite (bind_ok (store_apply _) _ s1 s2 tt Hs2).
  destruct (maybe_commit_ok s2) as (s3 & -> & Hv3 & Ht3 & Hf3).
  exists s3. split; [done|]. split; [by rewrite Hv3, Hv2|].
  split; [by rewrite Ht3, Ht2|]. trans s1; [done|]. by trans s2.
Qed.

(** A malformed counter makes the copy panic. *)
Lemma nb_events_cases s : (∃ n, nb_events s = Ok n) ∨ (∃ t, nb_events s = Panic t).
Proof.
  rewrite nb_events_view. destruct (view s !! EVENT_COUNT_ROOT) as [x|]; simpl; [|eauto].
  unfold read_be. destruct (_ =? _)%nat; eauto.
Qed.

Lemma new_event_id_writes P : only_writes P new_event_id.
Proof. apply only_writes_tid. intros s. rewrite tid_next. lia. Qed.

Lemma log_event_writes content : only_writes event_key (log_event content).
Proof.
  unfold log_event.
  auto 20 using event_key_event, event_key_count, new_event_id_writes with writes.
Qed.
End event_laws.
#[export] Hint Resolve event_key_event event_key_count : writes.
#[export] Hint Resolve new_event_id_writes log_event_writes : writes.
