(* ===== verification/Ledger.v ===== *)
(** * many-ledger: balances, transfers and the account counters

    Models [many-ledger/src/storage/ledger.rs] ([with_balances], [get_all_balances],
    [get_multiple_balances]), [storage/ledger_commands.rs] ([get_balance], [send]) and
    [storage/data.rs] ([data_info], [data_attributes], [update_account_count]).
    [prove_state], which builds Merkle proofs, is not modelled; the keys it is given
    are part of the results. *)
From S2P Require Import Prelude Error External Address Types Account Events Migration Storage.
From S2P Require Import StorageLaws LedgerEvent.

#[local] Open Scope string_scope.
#[local] Open Scope list_scope.
#[local] Open Scope N_scope.

(** [DataIndex::new(0).with_index(2).with_index(0)] and [.with_index(1)]. *)
Definition ACCOUNT_TOTAL_COUNT_INDEX : DataIndex := with_index (with_index (index_new 0) 2) 0.
Definition NON_ZERO_ACCOUNT_TOTAL_COUNT_INDEX : DataIndex :=
  with_index (with_index (index_new 0) 2) 1.

Section ledger.
Context `{LedgerEnv}.

(** ** Initial balances *)

Abbreviation InitialBalances := (gmap Address (gmap Symbol TokenAmount)).

Fixpoint balance_batch_symbols (symbols : gmap Symbol string) (k : Address)
    (l : list (Symbol * TokenAmount)) : outcome ManyError (list BatchEntry) :=
  match l with
  | [] => Ok []
  | (sym, tokens) :: l =>
      if bool_decide (is_Some (symbols !! sym)) then
        r ← balance_batch_symbols symbols k l;
        Ok ((key_for_account_balance k sym, Put (to_bytes_be tokens)) :: r)
      else Err (unknown ("Unknown symbol " +:+ dq +:+ address_to_string sym +:+ dq
                           +:+ " for identity " +:+ address_to_string k))
  end.
Fixpoint balance_batch (symbols : gmap Symbol string) (l : list (Address * gmap Symbol TokenAmount)) :
    outcome ManyError (list BatchEntry) :=
  match l with
  | [] => Ok []
  | (k, v) :: l =>
      b1 ← balance_batch_symbols symbols k (btree_iter v);
      b2 ← balance_batch symbols l;
      Ok (b1 ++ b2)
  end.

Definition with_balances (identity : Address) (symbols : gmap Symbol string)
    (initial : InitialBalances) : LedgerM unit :=
  batch ← lift (balance_batch symbols (btree_iter initial));
  let batch := batch ++ [(b IDENTITY_ROOT, Put (address_to_vec identity));
                         (b SYMBOLS_ROOT, Put (to_vec symbols))] in
  store_apply (sort_by_key batch).

(** ** Reading balances *)

Definition get_balance (s : LedgerStorage) (i : Address) (symbol : Symbol) :
    outcome ManyError TokenAmount :=
  if is_anonymous i then Ok token_zero
  else
    o ← store_get s (key_for_account_balance i symbol);
    Ok match o with None => token_zero | Some v => from_bytes_be v end.

(** [for symbol in symbols { .. get(key)?.map(|v| result.insert(symbol, v.into())) }]. *)
Fixpoint read_balances (s : LedgerStorage) (i : Address) (l : list Symbol)
    (acc : gmap Symbol TokenAmount) : outcome ManyError (gmap Symbol TokenAmount) :=
  match l with
  | [] => Ok acc
  | sym :: l =>
      o ← store_get s (key_for_account_balance i sym);
      read_balances s i l match o with
                          | Some v => <[sym := from_bytes_be v]> acc
                          | None => acc
                          end
  end.
(** The elements of a [BTreeSet], in order. *)
Definition set_iter (x : gset Symbol) : list Symbol :=
  (btree_iter (gset_to_gmap tt x)).*1.

Definition get_all_balances (s : LedgerStorage) (i : Address) :
    outcome ManyError (gmap Symbol TokenAmount * list bytes) :=
  if is_anonymous i then Ok (∅, [])
  else
    symbols ← get_symbols s;
    r ← read_balances s i (set_iter symbols) ∅;
    Ok (r, key_for_account_balance i <$> set_iter symbols).

Definition get_multiple_balances (s : LedgerStorage) (i : Address) (symbols : gset Symbol) :
    outcome ManyError (gmap Symbol TokenAmount * list bytes) :=
  r ← get_all_balances s i;
  Ok (if bool_decide (symbols = ∅) then r.1 else filter (λ kv, kv.1 ∈ symbols) r.1, r.2).

(** ** Data attributes: the account counters *)

(** [minicbor::decode(&x).unwrap()]. *)
Definition decode_unwrap {A} `{Cbor A} (l : bytes) : outcome ManyError A :=
  match decode l with
  | Ok a => Ok a
  | _ => Panic "called `Result::unwrap()` on an `Err` value"
  end.
Definition data_info (s : LedgerStorage) : outcome ManyError (option (gmap DataIndex DataInfo)) :=
  o ← store_get s DATA_INFO_KEY;
  match o with Some l => m ← decode_unwrap l; Ok (Some m) | None => Ok None end.
Definition data_attributes (s : LedgerStorage) :
    outcome ManyError (option (gmap DataIndex DataValue)) :=
  o ← store_get s DATA_ATTRIBUTES_KEY;
  match o with Some l => m ← decode_unwrap l; Ok (Some m) | None => Ok None end.

(** [.and_modify(|x| if let DataValue::Counter(count) = x { *count += 1 })] and [-= 1]. *)
Definition counter_map (f : N → N) (x : DataValue) : DataValue :=
  match x with DataCounter n => DataCounter (wrap64 (f n)) | _ => x end.
Definition counter_inc (n : N) : N := n + 1.
Definition counter_dec (n : N) : N := n + U64_MAX.

Definition updated_attributes (attributes : gmap DataIndex DataValue)
    (destination_is_empty destination_is_zero origin_becomes_zero : bool) :
    gmap DataIndex DataValue :=
  let a1 := if destination_is_empty
            then alter (counter_map counter_inc) ACCOUNT_TOTAL_COUNT_INDEX attributes
            else attributes in
  let a2 := if destination_is_zero || destination_is_empty
            then alter (counter_map counter_inc) NON_ZERO_ACCOUNT_TOTAL_COUNT_INDEX a1 else a1 in
  if origin_becomes_zero
  then alter (counter_map counter_dec) NON_ZERO_ACCOUNT_TOTAL_COUNT_INDEX a2 else a2.

Definition update_account_count (from to : Address) (amount : TokenAmount) (symbol : Symbol) :
    LedgerM unit :=
  o ← reads data_attributes;
  match o with
  | Some attributes =>
      d ← reads (λ s, store_get s (key_for_account_balance to symbol));
      to_balance ← reads (λ s, get_balance s to symbol);
      from_balance ← reads (λ s, get_balance s from symbol);
      store_apply [(DATA_ATTRIBUTES_KEY,
        Put (to_vec (updated_attributes attributes (bool_decide (d = None))
                       (token_is_zero to_balance) (from_balance =? amount))))]
  | None => mret tt
  end.

(** ** Transfers *)

Definition send (from to : Address) (symbol : Symbol) (amount : TokenAmount)
    (memo : option Memo) : LedgerM (list bytes) :=
  if bool_decide (from = to) then fails destination_is_source
  else if token_is_zero amount then fails amount_is_zero
  else if is_anonymous to || is_anonymous from then fails anonymous_cannot_hold_funds
  else
    amount_from ← reads (λ s, get_balance s from symbol);
    if amount_from <? amount then fails insufficient_funds
    else
      amount_to ← reads (λ s, get_balance s to symbol);
      let amount_to := amount_to + amount in
      amount_from ← lift (token_sub amount_from amount);
      let key_from := key_for_account_balance from symbol in
      let key_to := key_for_account_balance to symbol in
      let batch :=
        if bool_decide (key_le key_from key_to)
        then [(key_from, Put (to_bytes_be amount_from)); (key_to, Put (to_bytes_be amount_to))]
        else [(key_to, Put (to_bytes_be amount_to)); (key_from, Put (to_bytes_be amount_from))] in
      update_account_count from to amount symbol;;
      store_apply batch;;
      log_event (E_Send from to symbol amount memo);;
      maybe_commit;;
      mret [key_from; key_to].
End ledger.

(** ** Laws *)

Section ledger_laws.
Context `{LedgerEnv, !LedgerEnvLaws}.
Implicit Types s : LedgerStorage.

(** The balance recorded in the store. *)
Definition bal_of (m : gmap bytes bytes) (a : Address) (x : Symbol) : TokenAmount :=
  match m !! key_for_account_balance a x with Some v => be_value v | None => 0 end.
Definition bal s (a : Address) (x : Symbol) : TokenAmount := bal_of (view s) a x.

Lemma get_balance_bal s a x :
  get_balance s a x = Ok (if is_anonymous a then 0 else bal s a x).
Proof.
  unfold get_balance, bal, bal_of. destruct (is_anonymous a); [done|].
  rewrite store_get_view. cbn [mbind outcome_bind].
  destruct (view s !! _); [by rewrite from_bytes_be_value|done].
Qed.

Lemma bind_balance {B} a x (f : TokenAmount → LedgerM B) s :
  (reads (λ s, get_balance s a x) ≫= f) s = f (if is_anonymous a then 0 else bal s a x) s.
Proof. apply bind_reads, get_balance_bal. Qed.

(** The event counter and the data attributes can be read. *)
Definition counters_ok s : Prop :=
  (∃ n, nb_events s = Ok n) ∧ (∃ o, data_attributes s = Ok o).

(** Writing values that decode keeps them readable. *)
Definition counters_ok_of (m : gmap bytes bytes) : Prop :=
  (∃ n, read_be_or_zero 8 (m !! EVENT_COUNT_ROOT) = Ok n)
  ∧ (match m !! DATA_ATTRIBUTES_KEY with
     | Some l => ∃ v : gmap DataIndex DataValue, decode l = Ok v
     | None => True
     end).

Lemma counters_ok_view s : counters_ok s ↔ counters_ok_of (view s).
Proof.
  unfold counters_ok, counters_ok_of, data_attributes. rewrite nb_events_view, store_get_view.
  cbn [mbind outcome_bind]. unfold decode_unwrap.
  destruct (view s !! DATA_ATTRIBUTES_KEY) as [l|]; [|naive_solver].
  destruct (decode l) eqn:E; naive_solver.
Qed.

(** Which writes matter to [counters_ok]. *)
Lemma counters_ok_insert m k v :
  counters_ok_of m → k ≠ EVENT_COUNT_ROOT → k ≠ DATA_ATTRIBUTES_KEY →
  counters_ok_of (<[k := v]> m).
Proof. intros [H1 H2] ??. unfold counters_ok_of. by rewrite !lookup_insert_ne. Qed.
Lemma counters_ok_count m n :
  counters_ok_of m → counters_ok_of (<[EVENT_COUNT_ROOT := be_bytes 8 n]> m).
Proof.
  intros [_ H2]. unfold counters_ok_of. rewrite lookup_insert_eq, lookup_insert_ne by key_discr.
  split; [|done]. rewrite read_be_be_bytes. eauto.
Qed.
Lemma counters_ok_data m (v : gmap DataIndex DataValue) :
  counters_ok_of m → counters_ok_of (<[DATA_ATTRIBUTES_KEY := to_vec v]> m).
Proof.
  intros [H1 _]. unfold counters_ok_of. rewrite lookup_insert_eq, lookup_insert_ne by key_discr.
  split; [done|]. exists v. by apply decode_to_vec.
Qed.

Lemma bal_insert_ne m k v a x :
  k ≠ key_for_account_balance a x → bal_of (<[k := v]> m) a x = bal_of m a x.
Proof. intros Hk. unfold bal_of. by rewrite lookup_insert_ne. Qed.
Lemma bal_insert_eq m n a x :
  bal_of (<[key_for_account_balance a x := to_bytes_be n]> m) a x = n.
Proof. unfold bal_of. rewrite lookup_insert_eq. apply to_bytes_be_value. Qed.

Lemma update_account_count_ok from to amount symbol s :
  counters_ok s →
  ∃ s', update_account_count from to amount symbol s = (s', Ok tt)
    ∧ counters_ok s' ∧ latest_tid s' = latest_tid s ∧ frame s s'
    ∧ (view s' = view s ∨ ∃ v : gmap DataIndex DataValue,
         view s' = <[DATA_ATTRIBUTES_KEY := to_vec v]> (view s)).
Proof.
  intros Hc. pose proof Hc as [_ [o Ho]]. unfold update_account_count.
  rewrite (bind_reads _ _ _ _ Ho). destruct o as [attributes|].
  - rewrite bind_get.
    rewrite bind_balance.
    rewrite bind_balance.
    set (v := updated_attributes _ _ _ _).
    destruct (store_apply_one DATA_ATTRIBUTES_KEY (Put (to_vec v)) s)
      as (s' & -> & Hv & _ & Ht & Hf).
    exists s'. split; [done|]. split; [|split; [done|split; [done|right; by exists v]]].
    rewrite counters_ok_view, Hv. apply counters_ok_data. by apply counters_ok_view.
  - exists s. split; [done|]. repeat split; auto; apply Hc.
Qed.

Lemma send_batch_ascending from to symbol v1 v2 :
  from ≠ to →
  let kf := key_for_account_balance from symbol in
  let kt := key_for_account_balance to symbol in
  keys_ascending (if bool_decide (key_le kf kt)
                  then [(kf, Put v1); (kt, Put v2)] else [(kt, Put v2); (kf, Put v1)]).
Proof.
  intros Hne kf kt. assert (kf ≠ kt) by (by intros [? _]%key_balance_inj).
  case_bool_decide as Hle; apply keys_ascending_pair.
  - apply key_le_lt_or_eq in Hle as [?|?]; done.
  - destruct (trichotomyT lexico kt kf) as [[?|?]|?]; [done|congruence|].
    destruct Hle. apply key_le_lt_or_eq. by left.
Qed.

(** The two ways the batch is ordered have the same effect. *)
Lemma send_batch_view m from to symbol v1 v2 :
  from ≠ to →
  let kf := key_for_account_balance from symbol in
  let kt := key_for_account_balance to symbol in
  apply_batch m (if bool_decide (key_le kf kt)
                 then [(kf, Put v1); (kt, Put v2)] else [(kt, Put v2); (kf, Put v1)])
  = <[kt := v2]> (<[kf := v1]> m).
Proof.
  intros Hne kf kt. assert (kf ≠ kt) by (by intros [? _]%key_balance_inj).
  case_bool_decide; [done|]. rewrite !apply_batch_cons. unfold apply_op; simpl.
  by rewrite insert_insert_ne.
Qed.

(** A write that no balance, and neither counter, is read from. *)
Definition transfer_view (m : gmap bytes bytes) (from to : Address) (symbol : Symbol)
    (v1 v2 : bytes) : gmap bytes bytes :=
  <[key_for_account_balance to symbol := v2]> (<[key_for_account_balance from symbol := v1]> m).

(** The run of a transfer that passes the checks: the state it ends in. *)
Lemma send_run from to symbol amount memo s :
  counters_ok s → from ≠ to → amount ≠ 0 → is_anonymous to || is_anonymous from = false →
  amount ≤ bal s from symbol →
  ∃ s' m e n, send from to symbol amount memo s
        = (s', Ok [key_for_account_balance from symbol; key_for_account_balance to symbol])
    ∧ frame s s' ∧ latest_tid s' = next_event_id s ∧ counters_ok_of m
    ∧ (m = view s ∨ ∃ v : gmap DataIndex DataValue, m = <[DATA_ATTRIBUTES_KEY := to_vec v]> (view s))
    ∧ view s' = <[EVENT_COUNT_ROOT := be_bytes 8 n]> (<[key_for_event (next_event_id s) := e]>
        (transfer_view m from to symbol (to_bytes_be (bal s from symbol - amount))
           (to_bytes_be (bal s to symbol + amount)))).
Proof.
  intros Hc Hne Hamt Hanon Hle. pose proof Hanon as [Hto Hfrom]%orb_false_iff. unfold send.
  rewrite bool_decide_eq_false_2 by done. unfold token_is_zero.
  apply N.eqb_neq in Hamt as ->. rewrite Hanon, bind_balance, Hfrom.
  destruct (N.ltb_spec (bal s from symbol) amount); [lia|].
  rewrite bind_balance, Hto.
  rewrite (bind_lift _ _ _ (bal s from symbol - amount))
    by (unfold token_sub; by apply N.leb_le in Hle as ->).
  destruct (update_account_count_ok from to amount symbol s Hc) as (s1 & Hs1 & Hc1 & Ht1 & Hf1 & Hv1).
  rewrite (bind_ok _ _ _ _ _ Hs1).
  destruct (store_apply_with_ok storage_apply_failed _ s1
    (send_batch_ascending from to symbol (to_bytes_be (bal s from symbol - amount))
       (to_bytes_be (bal s to symbol + amount)) Hne)) as (s2 & Hs2 & Hv2 & _ & Ht2 & Hf2).
  rewrite (bind_ok (store_apply _) _ _ _ _ Hs2). rewrite send_batch_view in Hv2 by done.
  assert (nb_events s2 = nb_events s1) as Hn2.
  { by rewrite !nb_events_view, Hv2, !lookup_insert_ne by key_discr. }
  pose proof Hc1 as [[n Hn] _]. rewrite <-Hn2 in Hn.
  destruct (log_event_ok (E_Send from to symbol amount memo) s2 n Hn) as (s3 & Hs3 & Hv3 & Ht3 & Hf3).
  rewrite (bind_ok _ _ _ _ _ Hs3).
  destruct (maybe_commit_ok s3) as (s4 & Hs4 & Hv4 & Ht4 & Hf4).
  rewrite (bind_ok _ _ _ _ _ Hs4).
  assert (next_event_id s2 = next_event_id s) as Ht by (unfold next_event_id; by rewrite Ht2, Ht1).
  rewrite Ht, Hv2 in Hv3. exists s4, (view s1). do 2 eexists. split; [done|].
  split; [by trans s1; [|trans s2; [|trans s3]]|]. split; [congruence|].
  split; [by apply counters_ok_view|]. split; [done|]. rewrite Hv4, Hv3. done.
Qed.

Lemma bal_transfer_view m e n i from to symbol c1 c2 a x :
  from ≠ to →
  bal_of (<[EVENT_COUNT_ROOT := n]> (<[key_for_event i := e]>
    (transfer_view m from to symbol (to_bytes_be c1) (to_bytes_be c2)))) a x =
  if bool_decide (x = symbol) then
    if bool_decide (a = to) then c2 else if bool_decide (a = from) then c1 else bal_of m a x
  else bal_of m a x.
Proof.
  intros Hne. rewrite !bal_insert_ne by key_discr. unfold transfer_view.
  case_bool_decide as Hx; [subst x|rewrite !bal_insert_ne; [done|by intros [_ ?]%key_balance_inj..]].
  case_bool_decide as Ha; [subst a; apply bal_insert_eq|].
  rewrite bal_insert_ne by (intros [? _]%key_balance_inj; congruence).
  case_bool_decide as Ha'; [subst a; apply bal_insert_eq|].
  by rewrite bal_insert_ne by (intros [? _]%key_balance_inj; congruence).
Qed.

(** What a successful transfer does. *)
Lemma send_ok from to symbol amount memo s :
  counters_ok s → from ≠ to → amount ≠ 0 → is_anonymous to || is_anonymous from = false →
  amount ≤ bal s from symbol →
  ∃ s', send from to symbol amount memo s
        = (s', Ok [key_for_account_balance from symbol; key_for_account_balance to symbol])
    ∧ counters_ok s' ∧ frame s s' ∧ latest_tid s' = next_event_id s
    ∧ ∀ a x, bal s' a x =
        if bool_decide (x = symbol) then
          if bool_decide (a = to) then bal s to symbol + amount
          else if bool_decide (a = from) then bal s from symbol - amount else bal s a x
        else bal s a x.
Proof.
  intros Hc Hne Hamt Hanon Hle.
  destruct (send_run from to symbol amount memo s) as (s' & m & e & n & Hs & Hf & Ht & Hm & Hms & Hv); auto.
  exists s'. split; [done|]. split.
  { rewrite counters_ok_view, Hv. unfold transfer_view.
    apply counters_ok_count. repeat (apply counters_ok_insert; [|key_discr..]). done. }
  split; [done|]. split; [done|]. intros a x. unfold bal at 1. rewrite Hv, bal_transfer_view by done.
  assert (∀ a x, bal_of m a x = bal s a x) as Hb; [|by rewrite !Hb].
  intros a' x'. destruct Hms as [->|[v ->]]; [done|]. by rewrite bal_insert_ne by key_discr.
Qed.

(** A transfer is refused and changes nothing, or succeeds. *)
Lemma send_cases from to symbol amount memo s :
  counters_ok s →
  (∃ e, send from to symbol amount memo s = (s, Err e))
  ∨ ∃ s', send from to symbol amount memo s
          = (s', Ok [key_for_account_balance from symbol; key_for_account_balance to symbol])
    ∧ from ≠ to ∧ amount ≤ bal s from symbol ∧ counters_ok s'
    ∧ ∀ a x, bal s' a x =
        if bool_decide (x = symbol) then
          if bool_decide (a = to) then bal s to symbol + amount
          else if bool_decide (a = from) then bal s from symbol - amount else bal s a x
        else bal s a x.
Proof.
  intros Hc. destruct (decide (from = to)) as [Hft|Hft].
  { left. unfold send. rewrite bool_decide_eq_true_2 by done. by eexists. }
  destruct (N.eqb_spec amount 0) as [Hz|Hz].
  { left. unfold send, token_is_zero. rewrite bool_decide_eq_false_2, (proj2 (N.eqb_eq _ _) Hz) by done.
    by eexists. }
  destruct (is_anonymous to || is_anonymous from) eqn:Hanon.
  { left. unfold send, token_is_zero.
    rewrite bool_decide_eq_false_2, (proj2 (N.eqb_neq _ _) Hz), Hanon by done. by eexists. }
  destruct (N.ltb_spec (bal s from symbol) amount) as [Hlt|Hle].
  { left. unfold send, token_is_zero.
    rewrite bool_decide_eq_false_2, (proj2 (N.eqb_neq _ _) Hz), Hanon, bind_balance by done.
    apply orb_false_iff in Hanon as [_ ->]. apply N.ltb_lt in Hlt as ->. by eexists. }
  right. destruct (send_ok from to symbol amount memo s) as (s' & Hs & Hc' & _ & _ & Hb); eauto 10.
Qed.

(** C2: [send] on every branch. With a readable store it never panics; it refuses a
    transfer to oneself, of nothing, from or to the anonymous address, or of more than
    the sender has, and then changes nothing; otherwise it succeeds, moves exactly the
    amount from the one balance to the other, and changes no other balance of any
    account in any token. *)
Theorem send_spec from to symbol amount memo s :
  counters_ok s →
  if bool_decide (from = to) then
    send from to symbol amount memo s = (s, Err destination_is_source)
  else if amount =? 0 then send from to symbol amount memo s = (s, Err amount_is_zero)
  else if is_anonymous to || is_anonymous from then
    send from to symbol amount memo s = (s, Err anonymous_cannot_hold_funds)
  else if bal s from symbol <? amount then
    send from to symbol amount memo s = (s, Err insufficient_funds)
  else ∃ s', send from to symbol amount memo s
             = (s', Ok [key_for_account_balance from symbol; key_for_account_balance to symbol])
    ∧ counters_ok s'
    ∧ bal s' from symbol = bal s from symbol - amount
    ∧ bal s' to symbol = bal s to symbol + amount
    ∧ ∀ a x, (a ≠ from ∧ a ≠ to) ∨ x ≠ symbol → bal s' a x = bal s a x.
Proof.
  intros Hc. case_bool_decide as Hne; [by unfold send; rewrite bool_decide_eq_true_2|].
  destruct (N.eqb_spec amount 0) as [->|Hamt]; [by unfold send; rewrite bool_decide_eq_false_2|].
  destruct (is_anonymous to || is_anonymous from) eqn:Hanon.
  { unfold send. rewrite bool_decide_eq_false_2 by done. unfold token_is_zero.
    apply N.eqb_neq in Hamt as ->. by rewrite Hanon. }
  destruct (N.ltb_spec (bal s from symbol) amount) as [Hlt|Hle].
  { unfold send. rewrite bool_decide_eq_false_2 by done. unfold token_is_zero.
    apply N.eqb_neq in Hamt as ->. rewrite Hanon, bind_balance.
    apply orb_false_iff in Hanon as [_ ->]. by apply N.ltb_lt in Hlt as ->. }
  destruct (send_ok from to symbol amount memo s) as (s' & Hs & Hc' & _ & _ & Hb); auto.
  exists s'. split; [done|]. split; [done|]. rewrite !Hb.
  split; [by repeat case_bool_decide|]. split; [by repeat case_bool_decide|].
  intros a x Hax. rewrite Hb. repeat case_bool_decide; naive_solver.
Qed.

(** *** Sums over accounts *)

Definition set_total (X : gset Address) (f : Address → N) : N :=
  foldr N.add 0 (f <$> elements X).

Lemma set_total_empty f : set_total ∅ f = 0.
Proof. done. Qed.
Lemma foldr_add_perm (l l' : list N) : l ≡ₚ l' → foldr N.add 0 l = foldr N.add 0 l'.
Proof. induction 1; simpl; lia. Qed.
Lemma set_total_insert X f a : a ∉ X → set_total ({[a]} ∪ X) f = f a + set_total X f.
Proof.
  intros Ha. unfold set_total.
  rewrite (foldr_add_perm _ (f <$> a :: elements X)); [done|].
  by rewrite elements_union_singleton.
Qed.
Lemma set_total_ext X f g : (∀ a, a ∈ X → f a = g a) → set_total X f = set_total X g.
Proof.
  intros Hfg. unfold set_total. f_equal. apply list_fmap_ext. intros i a Ha. apply Hfg.
  apply elem_of_elements. by eapply list_elem_of_lookup_2.
Qed.
Lemma set_total_remove X f a : a ∈ X → set_total X f = f a + set_total (X ∖ {[a]}) f.
Proof.
  intros Ha. rewrite <-set_total_insert by set_solver. f_equal.
  apply set_eq. intros y. destruct (decide (y = a)); set_solver.
Qed.

(** Moving an amount from one element of a set to another keeps the total. *)
Lemma set_total_move X f g from to amount :
  from ∈ X → to ∈ X → from ≠ to → amount ≤ f from →
  g from = f from - amount → g to = f to + amount → (∀ a, a ≠ from → a ≠ to → g a = f a) →
  set_total X g = set_total X f.
Proof.
  intros Hf Ht Hne Hle Hgf Hgt Ho.
  rewrite (set_total_remove X f from), (set_total_remove X g from) by done.
  rewrite (set_total_remove (X ∖ {[from]}) f to), (set_total_remove (X ∖ {[from]}) g to) by set_solver.
  rewrite (set_total_ext (X ∖ {[from]} ∖ {[to]}) g f) by (intros; apply Ho; set_solver). lia.
Qed.

(** no transfer, whatever its outcome, creates or destroys tokens: over any set of
    accounts that holds the two parties, the total of every token is the same before
    and after. *)
Theorem send_conserves from to symbol amount memo s X x :
  counters_ok s → from ∈ X → to ∈ X →
  set_total X (λ a, bal (send from to symbol amount memo s).1 a x) = set_total X (λ a, bal s a x).
Proof.
  intros Hc Hf Ht.
  destruct (send_cases from to symbol amount memo s Hc) as [(e & ->)|(s' & -> & Hne & Hle & _ & Hb)];
    [done|]. simpl. destruct (decide (x = symbol)) as [->|Hx].
  - apply (set_total_move X _ _ from to amount); auto.
    + rewrite Hb. by repeat case_bool_decide.
    + rewrite Hb. by repeat case_bool_decide.
    + intros a ??. rewrite Hb. by repeat case_bool_decide.
  - apply set_total_ext. intros a _. rewrite Hb. by repeat case_bool_decide.
Qed.
End ledger_laws.
