(* ===== verification/Tokens.v ===== *)
(** * many-ledger: tokens, minting and burning

    Models [many-ledger/src/storage/ledger_tokens.rs] (token metadata: [with_tokens],
    [get_owner], [create_token], [info_token], [update_token], [add_extended_info],
    [remove_extended_info]) and [storage/ledger_mintburn.rs] ([mint_token],
    [burn_token]). *)
From S2P Require Import Prelude Error External Address Types Account Events Migration Storage.
From S2P Require Import StorageLaws LedgerEvent Ledger.

#[local] Open Scope string_scope.
#[local] Open Scope list_scope.
#[local] Open Scope N_scope.

Record SymbolMeta : Type := mkSymbolMeta {
  sm_name : string;
  sm_decimals : N;
  sm_owner : option Address;
  sm_maximum : option TokenAmount;
}.

Record TokenInfoReturns : Type := mkTokenInfoReturns {
  tir_info : TokenInfo;
  tir_extended_info : TokenExtendedInfo;
}.

Definition verify_tokens_sender (sender token_identity : Address) : outcome ManyError unit :=
  if bool_decide (sender ≠ token_identity) then Err invalid_sender else Ok tt.

Section tokens.
Context `{LedgerEnv}.

(** ** Initial tokens *)

(** [*total_supply.entry(symbol).or_default() += tokens]. *)
Definition add_supply (m : gmap Symbol TokenAmount) (kv : Symbol * TokenAmount) :
    gmap Symbol TokenAmount :=
  <[kv.1 := default 0 (m !! kv.1) + kv.2]> m.
Definition _total_supply (initial : gmap Address (gmap Symbol TokenAmount)) :
    gmap Symbol TokenAmount :=
  foldl (λ m v, foldl add_supply m (btree_iter v)) ∅ (btree_iter initial).*2.

Definition _token_info (sym : Symbol) (tick : string) (meta : SymbolMeta) (total_supply : TokenAmount) :
    TokenInfo :=
  mkTokenInfo sym (mkSummary (sm_name meta) tick (sm_decimals meta))
    (mkSupply total_supply total_supply (sm_maximum meta)) (sm_owner meta).

(** [map[&k]], which panics when the key is missing. *)
Definition index_or_panic {V} (m : gmap Symbol V) (k : Symbol) : outcome ManyError V :=
  match m !! k with Some v => Ok v | None => Panic "no entry found for key" end.

Fixpoint check_symbols {V} (l : list Symbol) (symbols_meta : gmap Symbol V)
    (total_supply : gmap Symbol TokenAmount) : outcome ManyError unit :=
  match l with
  | [] => Ok tt
  | x :: l =>
      if bool_decide (symbols_meta !! x = None)
      then Err (unknown ("Symbol " +:+ address_to_string x +:+ " missing metadata"))
      else if bool_decide (total_supply !! x = None)
      then Err (unknown ("Symbol " +:+ address_to_string x +:+ " missing total supply"))
      else check_symbols l symbols_meta total_supply
  end.
Fixpoint tokens_batch (l : list (Symbol * SymbolMeta)) (symbols : gmap Symbol string)
    (total_supply : gmap Symbol TokenAmount) : outcome ManyError (list BatchEntry) :=
  match l with
  | [] => Ok []
  | (k, meta) :: l =>
      t ← index_or_panic total_supply k;
      tick ← index_or_panic symbols k;
      r ← tokens_batch l symbols total_supply;
      Ok ([(key_for_ext_info k, Put (to_vec ext_new));
           (key_for_symbol k, Put (to_vec (_token_info k tick meta t)))] ++ r)
  end.

Definition with_tokens (symbols : gmap Symbol string) (symbols_meta : option (gmap Symbol SymbolMeta))
    (token_identity : option Address) (token_next_subresource : option N)
    (initial : gmap Address (gmap Symbol TokenAmount)) : LedgerM unit :=
  active ← reads (λ s, Ok (migration_active s TOKEN_MIGRATION));
  if (active : bool) then
    meta ← lift (ok_or symbols_meta (unknown "Symbols metadata needs to be provided"));
    let total_supply := _total_supply initial in
    lift (check_symbols (btree_iter symbols).*1 meta total_supply);;
    batch ← lift (tokens_batch (btree_iter meta) symbols total_supply);
    store_apply (sort_by_key batch);;
    (* [unwrap_or] evaluates its argument, and the [?] in it, in every case. *)
    identity ← reads (λ s, get_identity s IDENTITY_ROOT);
    let token_identity := default identity token_identity in
    key ← reads (λ s, Ok (counter_key s token_identity));
    store_apply [(key, Put (be_bytes 4 (default 0 token_next_subresource)));
                 (b TOKEN_IDENTITY_ROOT, Put (address_to_vec token_identity))];;
    commit_storage
  else mret tt.

(** ** Reading token information *)

Definition get_owner (s : LedgerStorage) (symbol : Symbol) :
    outcome ManyError (option Address * bytes) :=
  o ← store_get s (key_for_symbol symbol);
  enc ← ok_or o (token_info_not_found (address_to_string symbol));
  info ← decode_or (A := TokenInfo) enc;
  Ok (owner info, key_for_symbol symbol).

Fixpoint collect_summaries (l : list (outcome string (bytes * bytes)))
    (acc : gmap Symbol TokenInfoSummary) : outcome ManyError (gmap Symbol TokenInfoSummary) :=
  match l with
  | [] => Ok acc
  | i :: l =>
      kv ← map_err unknown i;
      info ← decode_or (A := TokenInfo) kv.2;
      sym ← symbol_of_key kv.1;
      collect_summaries l (<[sym := summary info]> acc)
  end.
Definition get_token_info_summary (s : LedgerStorage) :
    outcome ManyError (gmap Symbol TokenInfoSummary) :=
  if migration_active s TOKEN_MIGRATION
  then collect_summaries (all_symbols (persistent_store s) Indeterminate) ∅
  else Ok ∅.

Definition info_token (s : LedgerStorage) (args : TokenInfoArgs) : outcome ManyError TokenInfoReturns :=
  o ← map_err unknown (merk_get (persistent_store s) (key_for_symbol (ti_symbol args)));
  info_enc ← ok_or o (token_info_not_found (address_to_string (ti_symbol args)));
  o ← store_get s (key_for_ext_info (ti_symbol args));
  ext_enc ← ok_or o (ext_info_not_found (address_to_string (ti_symbol args)));
  ext ← decode_or (A := TokenExtendedInfo) ext_enc;
  ext ← match ti_extended_info args with
        | Some indices => ext_retain ext indices
        | None => Ok ext
        end;
  info ← decode_or (A := TokenInfo) info_enc;
  Ok (mkTokenInfoReturns info ext).

(** ** Changing tokens *)

Definition update_symbols (symbol : Symbol) (tick : string) : LedgerM (list bytes) :=
  symbols ← reads get_symbols_and_tickers;
  store_apply [(b SYMBOLS_ROOT, Put (to_vec (<[symbol := tick]> symbols)))];;
  mret [b SYMBOLS_ROOT].

Definition distribution_total (l : list (Address * TokenAmount)) : TokenAmount :=
  foldl (λ t kv, t + kv.2) token_zero l.

Definition create_token (sender : Address) (args : TokenCreateArgs) :
    LedgerM (TokenInfo * list bytes) :=
  r ← get_next_subresource TOKEN_IDENTITY_ROOT;
  let symbol := r.1 in
  keys2 ← update_symbols symbol (ticker (tc_summary args));
  let dist := match tc_initial_distribution args with Some d => btree_iter d | None => [] end in
  let balances := (λ kv, (key_for_account_balance kv.1 symbol, Put (to_bytes_be kv.2))) <$> dist in
  let total_supply := distribution_total dist in
  let maybe_owner := match tc_owner args with
                     | None => Some sender
                     | Some (OwnerLeft a) => Some a
                     | Some OwnerNull => None
                     end in
  let info := mkTokenInfo symbol (tc_summary args)
                (mkSupply total_supply total_supply (tc_maximum_supply args)) maybe_owner in
  let ext_info := default ext_new (tc_extended_info args) in
  let batch := balances ++ [(key_for_symbol symbol, Put (to_vec info));
                            (key_for_ext_info symbol, Put (to_vec ext_info))] in
  log_event (E_TokenCreate (tc_summary args) symbol (tc_owner args) (tc_initial_distribution args)
               (tc_maximum_supply args) (tc_extended_info args) (tc_memo args));;
  store_apply (sort_by_key batch);;
  maybe_commit;;
  mret (info, [b SYMBOLS_ROOT] ++ r.2 ++ keys2 ++ balances.*1
              ++ [key_for_symbol symbol; key_for_ext_info symbol]).

Definition updated_info (info : TokenInfo) (args : TokenUpdateArgs) : TokenInfo :=
  mkTokenInfo (symbol info)
    (mkSummary (default (name (summary info)) (tu_name args))
       (default (ticker (summary info)) (tu_ticker args))
       (default (decimals (summary info)) (tu_decimals args)))
    (supply info)
    match tu_owner args with
    | None => owner info
    | Some (OwnerLeft a) => Some a
    | Some OwnerNull => None
    end.

Definition update_token (args : TokenUpdateArgs) : LedgerM (list bytes) :=
  let sym := tu_symbol args in
  o ← reads (λ s, map_err unknown (merk_get (persistent_store s) (key_for_symbol sym)));
  match o with
  | Some enc =>
      info ← lift (decode_unwrap (A := TokenInfo) enc);
      keys ← match tu_ticker args with
             | Some t =>
                 tickers ← reads get_symbols_and_tickers;
                 if bool_decide (t ∈ (btree_iter tickers).*2) then fails (ticker_exists t)
                 else update_symbols sym t
             | None => mret []
             end;
      store_apply [(key_for_symbol sym, Put (to_vec (updated_info info args)))];;
      log_event (E_TokenUpdate sym (tu_name args) (tu_ticker args) (tu_decimals args)
                   (tu_owner args) (tu_memo args));;
      maybe_commit;;
      mret ([b SYMBOLS_ROOT; key_for_symbol sym] ++ keys)
  | None => fails (unknown ("Symbol " +:+ address_to_string sym +:+ " not found in persistent storage"))
  end.

Definition add_extended_info (args : TokenAddExtendedInfoArgs) : LedgerM bytes :=
  let key := key_for_ext_info (tae_symbol args) in
  o ← reads (λ s, store_get s key);
  ext ← lift match o with Some enc => decode_or enc | None => Ok ext_new end;
  let new := tae_extended_info args in
  let ext := match ext_memo new with Some m => ext_with_memo ext m | None => ext end in
  let ext := match ext_visual_logo new with Some l => ext_with_visual_logo ext l | None => ext end in
  let indices :=
    match ext_memo new with Some _ => [key_to_index KeyMemo] | None => [] end ++
    match ext_visual_logo new with Some _ => [key_to_index KeyVisualLogo] | None => [] end in
  store_apply [(key, Put (to_vec ext))];;
  log_event (E_TokenAddExtendedInfo (tae_symbol args) indices (tae_memo args));;
  maybe_commit;;
  mret key.

(** [for index in .. { if ext_info.contains_index(index)? { ext_info.remove(index)?; } }]. *)
Fixpoint remove_indices (ext : TokenExtendedInfo) (l : list AttributeRelatedIndex) :
    outcome ManyError TokenExtendedInfo :=
  match l with
  | [] => Ok ext
  | x :: l =>
      c ← ext_contains_index ext x;
      ext ← (if (c : bool) then ext_remove ext x else Ok ext);
      remove_indices ext l
  end.
Definition remove_extended_info (args : TokenRemoveExtendedInfoArgs) : LedgerM bytes :=
  let key := key_for_ext_info (tre_symbol args) in
  o ← reads (λ s, store_get s key);
  enc ← lift (ok_or o (ext_info_not_found (address_to_string (tre_symbol args))));
  ext ← lift (decode_or enc);
  ext ← lift (remove_indices ext (tre_extended_info args));
  store_apply [(key, Put (to_vec ext))];;
  log_event (E_TokenRemoveExtendedInfo (tre_symbol args) (tre_extended_info args) (tre_memo args));;
  maybe_commit;;
  mret key.

(** ** Minting and burning *)

Definition get_token_supply (s : LedgerStorage) (symbol : Symbol) : outcome ManyError TokenInfoSupply :=
  r ← info_token s (mkTokenInfoArgs symbol None); Ok (supply (tir_info r)).

Definition over_maximum (current : TokenInfoSupply) (circ : TokenAmount) : option TokenAmount :=
  match maximum current with
  | Some x => if x <? circulating current + circ then Some x else None
  | None => None
  end.

Fixpoint mint_loop (s : LedgerStorage) (symbol : Symbol) (current : TokenInfoSupply)
    (l : list (Address * TokenAmount)) (circ : TokenAmount) :
    outcome ManyError (TokenAmount * list BatchEntry * list bytes) :=
  match l with
  | [] => Ok (circ, [], [])
  | (address, amount) :: l =>
      if token_is_zero amount then Err (unable_to_distribute_zero (address_to_string address))
      else
        let circ := circ + amount in
        match over_maximum current circ with
        | Some x => Err (over_maximum_supply (address_to_string symbol) (pretty circ) (pretty x))
        | None =>
            r ← get_multiple_balances s address {[symbol]};
            let new_balance := match r.1 !! symbol with Some x => x + amount | None => amount end in
            let key := key_for_account_balance address symbol in
            t ← mint_loop s symbol current l circ;
            Ok (t.1.1, (key, Put (to_bytes_be new_balance)) :: t.1.2, r.2 ++ [key] ++ t.2)
        end
  end.

Definition with_supply (info : TokenInfo) (sup : TokenInfoSupply) : TokenInfo :=
  mkTokenInfo (symbol info) (summary info) sup (owner info).

Definition mint_token (symbol : Symbol) (distribution : LedgerTokensAddressMap) : LedgerM (list bytes) :=
  current ← reads (λ s, get_token_supply s symbol);
  t ← reads (λ s, mint_loop s symbol current (btree_iter distribution) token_zero);
  r ← reads (λ s, info_token s (mkTokenInfoArgs symbol None));
  let info := tir_info r in
  let info := with_supply info (mkSupply (total (supply info) + t.1.1)
                (circulating (supply info) + t.1.1) (maximum (supply info))) in
  let batch := t.1.2 ++ [(key_for_symbol symbol, Put (to_vec info))] in
  store_apply (sort_by_key batch);;
  maybe_commit;;
  mret (t.2 ++ [key_for_symbol symbol]).

Fixpoint burn_loop (s : LedgerStorage) (symbol : Symbol)
    (l : list (Address * TokenAmount)) (circ : TokenAmount) :
    outcome ManyError (TokenAmount * list BatchEntry * list bytes) :=
  match l with
  | [] => Ok (circ, [], [])
  | (address, amount) :: l =>
      if token_is_zero amount then Err (unable_to_distribute_zero (address_to_string address))
      else
        r ← get_multiple_balances s address {[symbol]};
        balance ← match r.1 !! symbol with
                  | Some x =>
                      if x <? amount
                      then Err (missing_funds (address_to_string symbol) (pretty amount) (pretty x))
                      else Ok x
                  | None => Err (missing_funds (address_to_string symbol) (pretty amount) (pretty 0))
                  end;
        new_balance ← token_sub balance amount;
        let key := key_for_account_balance address symbol in
        t ← burn_loop s symbol l (circ + amount);
        Ok (t.1.1, (key, Put (to_bytes_be new_balance)) :: t.1.2, r.2 ++ [key] ++ t.2)
  end.

Definition burn_token (symbol : Symbol) (distribution : LedgerTokensAddressMap) : LedgerM (list bytes) :=
  t ← reads (λ s, burn_loop s symbol (btree_iter distribution) token_zero);
  r ← reads (λ s, info_token s (mkTokenInfoArgs symbol None));
  let info := tir_info r in
  circ ← lift (token_sub (circulating (supply info)) t.1.1);
  tot ← lift (token_sub (total (supply info)) t.1.1);
  let info := with_supply info (mkSupply tot circ (maximum (supply info))) in
  let batch := t.1.2 ++ [(key_for_symbol symbol, Put (to_vec info))] in
  store_apply (sort_by_key batch);;
  maybe_commit;;
  mret (t.2 ++ [key_for_symbol symbol]).
End tokens.

(** ** Laws: balances of a distribution *)

Section distribution_laws.
Context `{LedgerEnv, !LedgerEnvLaws}.
Implicit Types (s : LedgerStorage) (m : gmap bytes bytes).

Definition dist_sum (l : list (Address * TokenAmount)) : TokenAmount :=
  foldr (λ kv t, kv.2 + t) 0 l.

Lemma distribution_total_sum l : distribution_total l = dist_sum l.
Proof.
  unfold distribution_total, token_zero.
  assert (∀ t, foldl (λ t kv, t + kv.2) t l = t + dist_sum l) as ->; [|lia].
  induction l as [|[a c] l IH]; intros t; simpl; [lia|]. rewrite IH. lia.
Qed.

(** A batch that gives each address of a distribution a new balance. *)
Definition dist_batch (f : Address → TokenAmount → TokenAmount) (x : Symbol)
    (l : list (Address * TokenAmount)) : list BatchEntry :=
  (λ kv, (key_for_account_balance kv.1 x, Put (to_bytes_be (f kv.1 kv.2)))) <$> l.

Lemma dist_batch_NoDup f x l : NoDup l.*1 → NoDup (dist_batch f x l).*1.
Proof.
  induction l as [|[a c] l IH]; csimpl; [constructor|].
  intros [Hnin Hnd]%NoDup_cons. constructor; [|by apply IH]. simpl.
  intros ([k o] & Hk & ([a' c'] & Heq & Hin)%list_elem_of_fmap)%list_elem_of_fmap.
  injection Heq as -> ->. simpl in Hk.
  apply key_balance_inj in Hk as [-> _]. apply Hnin. by apply (list_elem_of_fmap_2 fst) in Hin.
Qed.

Lemma elem_of_dist_batch_keys f x l k :
  k ∈ (dist_batch f x l).*1 → ∃ a, a ∈ l.*1 ∧ k = key_for_account_balance a x.
Proof.
  intros ([k' o] & -> & ([a c] & Heq & Hin)%list_elem_of_fmap)%list_elem_of_fmap.
  simplify_eq/=. exists a. split; [|done]. by apply (list_elem_of_fmap_2 fst) in Hin.
Qed.

(** A key that is no balance. *)
Definition not_balance (k : bytes) : Prop := ∀ a x, k ≠ key_for_account_balance a x.

Lemma dist_batch_app_NoDup f x l (E : list BatchEntry) :
  NoDup l.*1 → NoDup E.*1 → Forall (λ e, not_balance e.1) E →
  NoDup (dist_batch f x l ++ E).*1.
Proof.
  intros Hl HE Hnb. rewrite fmap_app. apply NoDup_app. split; [by apply dist_batch_NoDup|].
  split; [|done]. intros k (a & _ & ->)%elem_of_dist_batch_keys (e & He & Hin)%list_elem_of_fmap.
  rewrite Forall_forall in Hnb. by apply (Hnb e Hin a x).
Qed.

Lemma dist_batch_view f x (dist : LedgerTokensAddressMap) (E : list BatchEntry) m :
  NoDup E.*1 → Forall (λ e, not_balance e.1) E →
  let l := sort_by_key (dist_batch f x (btree_iter dist) ++ E) in
  keys_ascending l
  ∧ (∀ a y, bal_of (apply_batch m l) a y =
       if bool_decide (y = x) then
         match dist !! a with Some c => f a c | None => bal_of m a y end
       else bal_of m a y)
  ∧ (∀ k v, (k, Put v) ∈ E → apply_batch m l !! k = Some v)
  ∧ (∀ k, not_balance k → k ∉ E.*1 → apply_batch m l !! k = m !! k).
Proof.
  intros HE Hnb l.
  assert (NoDup (dist_batch f x (btree_iter dist) ++ E).*1) as Hnd.
  { apply dist_batch_app_NoDup; auto. apply NoDup_fst_btree_iter. }
  assert (NoDup l.*1) as Hndl by (unfold l; by rewrite sort_by_key_perm).
  assert (∀ k o, (k, o) ∈ l ↔ (k, o) ∈ dist_batch f x (btree_iter dist) ∨ (k, o) ∈ E) as Hin.
  { intros k o. unfold l. by rewrite sort_by_key_perm, elem_of_app. }
  assert (∀ k, k ∈ l.*1 → (∃ a, is_Some (dist !! a) ∧ k = key_for_account_balance a x) ∨ k ∈ E.*1) as Hkeys.
  { intros k. unfold l. rewrite sort_by_key_perm, fmap_app, elem_of_app.
    intros [(a & Ha & ->)%elem_of_dist_batch_keys|?]; [left|by right]. exists a. split; [|done].
    apply list_elem_of_fmap in Ha as ([a' c] & -> & Hc). apply elem_of_btree_iter in Hc. eauto. }
  split; [by apply sort_by_key_ascending|]. split; [|split].
  - intros a y. destruct (dist !! a) as [c|] eqn:Ha.
    + case_bool_decide as Hy; [subst y|].
      * unfold bal_of. erewrite lookup_apply_batch_put; [apply to_bytes_be_value|done|].
        apply Hin. left. apply list_elem_of_fmap. exists (a, c). split; [done|].
        by apply elem_of_btree_iter.
      * unfold bal_of. rewrite lookup_apply_batch_ne; [done|].
        intros [(a' & _ & [_ ?]%key_balance_inj)|(e & He & Hi)%list_elem_of_fmap]%Hkeys; [done|].
        rewrite Forall_forall in Hnb. by apply (Hnb e Hi a y).
    + assert (bal_of (apply_batch m l) a y = bal_of m a y) as ->; [|by case_bool_decide].
      unfold bal_of. rewrite lookup_apply_batch_ne; [done|].
      intros [(a' & Ha' & [-> _]%key_balance_inj)|(e & He & Hi)%list_elem_of_fmap]%Hkeys.
      * rewrite Ha in Ha'. by destruct Ha'.
      * rewrite Forall_forall in Hnb. by apply (Hnb e Hi a y).
  - intros k v Hk. apply lookup_apply_batch_put; [done|]. apply Hin. by right.
  - intros k Hk HkE. apply lookup_apply_batch_ne.
    intros [(a & _ & ->)|?]%Hkeys; [|done]. by apply (Hk a x).
Qed.

Lemma not_balance_symbol x : not_balance (key_for_symbol x).
Proof. intros a y. key_discr. Qed.
Lemma not_balance_ext_info x : not_balance (key_for_ext_info x).
Proof. intros a y. key_discr. Qed.

(** ** Laws: reading balances of several tokens *)

Lemma read_balances_ok s i l acc :
  ∃ r, read_balances s i l acc = Ok r ∧ ∀ x,
    r !! x = if bool_decide (x ∈ l) then
               match view s !! key_for_account_balance i x with
               | Some v => Some (be_value v)
               | None => acc !! x
               end
             else acc !! x.
Proof.
  revert acc. induction l as [|y l IH]; intros acc; cbn [read_balances].
  - exists acc. split; [done|]. intros x. by rewrite bool_decide_eq_false_2 by apply not_elem_of_nil.
  - rewrite store_get_view. cbn [mbind outcome_bind].
    destruct (IH match view s !! key_for_account_balance i y with
                 | Some v => <[y := from_bytes_be v]> acc | None => acc end) as (r & -> & Hr).
    exists r. split; [done|]. intros x. rewrite Hr.
    destruct (decide (x = y)) as [->|Hxy].
    + rewrite (bool_decide_eq_true_2 (y ∈ y :: l)) by (by left).
      destruct (view s !! key_for_account_balance i y) as [v|] eqn:Hv; [|by case_bool_decide].
      rewrite lookup_insert_eq, from_bytes_be_value. by case_bool_decide.
    + rewrite (bool_decide_ext (x ∈ y :: l) (x ∈ l)) by (rewrite elem_of_cons; naive_solver).
      assert (match view s !! key_for_account_balance i y with
              | Some v => <[y := from_bytes_be v]> acc | None => acc end !! x = acc !! x) as ->; [|done].
      destruct (view s !! key_for_account_balance i y); [by rewrite lookup_insert_ne|done].
Qed.

Lemma elem_of_set_iter (X : gset Symbol) x : x ∈ set_iter X ↔ x ∈ X.
Proof.
  unfold set_iter. rewrite list_elem_of_fmap. split.
  - intros ([y []] & -> & Hy%elem_of_btree_iter). by apply lookup_gset_to_gmap_Some in Hy as [? _].
  - intros Hx. exists (x, tt). split; [done|]. apply elem_of_btree_iter.
    by apply lookup_gset_to_gmap_Some.
Qed.

(** The token is one [get_symbols] lists. *)
Definition tracked s (x : Symbol) : Prop := ∃ X, get_symbols s = Ok X ∧ x ∈ X.

Lemma get_multiple_balances_one s a x :
  tracked s x →
  ∃ r ks, get_multiple_balances s a {[x]} = Ok (r, ks) ∧
    r !! x = if is_anonymous a then None else be_value <$> view s !! key_for_account_balance a x.
Proof.
  intros (X & HX & Hx). unfold get_multiple_balances, get_all_balances.
  destruct (is_anonymous a).
  - cbn [mbind outcome_bind]. eexists _, _. split; [done|].
    rewrite bool_decide_eq_false_2 by set_solver. apply map_lookup_filter_None. by left.
  - rewrite HX. cbn [mbind outcome_bind].
    destruct (read_balances_ok s a (set_iter X) ∅) as (r & -> & Hr). cbn [mbind outcome_bind].
    eexists _, _. split; [done|]. rewrite bool_decide_eq_false_2 by set_solver. simpl.
    assert (r !! x = be_value <$> view s !! key_for_account_balance a x) as Hrx.
    { rewrite Hr, bool_decide_eq_true_2 by (by apply elem_of_set_iter).
      rewrite lookup_empty. by destruct (view s !! _). }
    rewrite <-Hrx. destruct (r !! x) as [v|] eqn:E.
    + apply map_lookup_filter_Some. split; [done|]. simpl. set_solver.
    + apply map_lookup_filter_None. by left.
Qed.
End distribution_laws.

(** ** Laws: totals *)

Section totals.
Implicit Types (X Y : gset Address) (f g : Address → N).

Lemma set_total_add X f g : set_total X (λ a, f a + g a) = set_total X f + set_total X g.
Proof. unfold set_total. induction (elements X) as [|a l IH]; csimpl; lia. Qed.

Lemma set_total_zero X f : (∀ a, a ∈ X → f a = 0) → set_total X f = 0.
Proof.
  intros Hf. rewrite (set_total_ext X f (λ _, 0)) by done. unfold set_total.
  induction (elements X); csimpl; lia.
Qed.

Lemma set_total_disj X Y f : X ## Y → set_total (X ∪ Y) f = set_total X f + set_total Y f.
Proof.
  revert Y. induction X as [|a X Ha IH] using set_ind_L; intros Y HXY.
  - rewrite set_total_empty. by replace (∅ ∪ Y) with Y by set_solver.
  - rewrite <-(assoc_L (∪)), !set_total_insert, IH by set_solver. lia.
Qed.

(** Elements where the function is zero do not count. *)
Lemma set_total_support X Y f :
  X ⊆ Y → (∀ a, a ∉ X → f a = 0) → set_total Y f = set_total X f.
Proof.
  intros HXY Hf. rewrite (union_difference_L X Y HXY), set_total_disj by set_solver.
  rewrite (set_total_zero (Y ∖ X)); [lia|]. intros a Ha. apply Hf. set_solver.
Qed.

Lemma dist_sum_perm (l l' : list (Address * TokenAmount)) : l ≡ₚ l' → dist_sum l = dist_sum l'.
Proof. unfold dist_sum. induction 1; simpl; lia. Qed.

Lemma set_total_dist X (dist : LedgerTokensAddressMap) :
  dom dist ⊆ X → set_total X (λ a, default 0 (dist !! a)) = dist_sum (btree_iter dist).
Proof.
  rewrite (dist_sum_perm _ _ (btree_iter_perm dist)).
  induction dist as [|i c dist Hi IH] using map_ind; intros Hsub.
  - rewrite map_to_list_empty. apply set_total_zero. intros a _. by rewrite lookup_empty.
  - rewrite (dist_sum_perm _ _ (map_to_list_insert _ _ _ Hi)). simpl.
    rewrite <-IH by set_solver.
    rewrite (set_total_remove X _ i), (set_total_remove X (λ a, default 0 (dist !! a)) i) by set_solver.
    rewrite lookup_insert_eq, Hi. simpl. f_equal.
    apply set_total_ext. intros a Ha. by rewrite lookup_insert_ne by set_solver.
Qed.
End totals.

(** ** Laws: minting and burning *)

Section mintburn_laws.
Context `{LedgerEnv, !LedgerEnvLaws}.
Implicit Types (s : LedgerStorage) (x : Symbol) (dist : LedgerTokensAddressMap).

(** The metadata of a token, as [info_token] reads it. *)
Definition token_info s x (info : TokenInfo) : Prop :=
  ∃ ext, info_token s (mkTokenInfoArgs x None) = Ok (mkTokenInfoReturns info ext).

Lemma token_info_view s x info :
  token_info s x info ↔ ∃ e1 e2 (ext : TokenExtendedInfo),
    view s !! key_for_symbol x = Some e1 ∧ decode e1 = Ok info
    ∧ view s !! key_for_ext_info x = Some e2 ∧ decode e2 = Ok ext.
Proof.
  unfold token_info, info_token. simpl ti_symbol. rewrite merk_get_view, store_get_view.
  change (merk_view (persistent_store s)) with (view s). unfold decode_or. split.
  - intros (ext & Hi). destruct (view s !! key_for_symbol x) as [e1|]; [|done].
    destruct (view s !! key_for_ext_info x) as [e2|]; [|done]. simpl in Hi.
    destruct (decode e2) as [ext'| | |] eqn:E2; try done. simpl in Hi.
    destruct (decode e1) as [info'| | |] eqn:E1; try done. simpl in Hi. simplify_eq. eauto 10.
  - intros (e1 & e2 & ext & -> & E1 & -> & E2). exists ext. simpl. rewrite E2. simpl. by rewrite E1.
Qed.

Definition nonzero (l : list (Address * TokenAmount)) : Prop := Forall (λ kv, kv.2 ≠ 0) l.
Definition within (current : TokenInfoSupply) (c : TokenAmount) : Prop :=
  match maximum current with Some y => circulating current + c ≤ y | None => True end.

#[global] Instance within_dec current c : Decision (within current c).
Proof. unfold within. destruct (maximum current); apply _. Defined.

Lemma over_maximum_None current c : over_maximum current c = None ↔ within current c.
Proof.
  unfold over_maximum, within. destruct (maximum current) as [y|]; [|done].
  destruct (N.ltb_spec y (circulating current + c)); split; intros; try done; lia.
Qed.

Lemma within_mono current c c' : c ≤ c' → within current c' → within current c.
Proof. unfold within. destruct (maximum current); [lia|done]. Qed.

(** The balance [mint] and [burn] start from: none for the anonymous address. *)
Definition held s x (a : Address) : TokenAmount := if is_anonymous a then 0 else bal s a x.

Lemma mint_loop_spec s x current l c :
  tracked s x →
  if decide (nonzero l ∧ (l = [] ∨ within current (c + dist_sum l)))
  then ∃ ks, mint_loop s x current l c
             = Ok (c + dist_sum l, dist_batch (λ a d, held s x a + d) x l, ks)
  else ∃ e, mint_loop s x current l c = Err e.
Proof.
  intros Hx. revert c. induction l as [|[a d] l IH]; intros c; cbn [mint_loop].
  - rewrite decide_True by (split; [constructor|by left]). simpl. rewrite N.add_0_r. eauto.
  - unfold token_is_zero. destruct (N.eqb_spec d 0) as [->|Hd].
    { rewrite decide_False; [eauto|]. intros [Hnz _]. by apply Forall_cons in Hnz as [? _]. }
    destruct (over_maximum current (c + d)) as [y|] eqn:Ho.
    { rewrite decide_False; [eauto|]. intros [_ [?|Hw]]; [done|].
      assert (over_maximum current (c + d) = None); [|congruence].
      apply over_maximum_None. eapply within_mono; [|done]. simpl. lia. }
    apply over_maximum_None in Ho.
    destruct (get_multiple_balances_one s a x Hx) as (r & ks & -> & Hr). cbn [mbind outcome_bind].
    specialize (IH (c + d)). simpl dist_sum. rewrite N.add_assoc.
    destruct (decide (nonzero l ∧ (l = [] ∨ within current (c + d + dist_sum l)))) as [[Hnz Hw]|Hn].
    + destruct IH as (ks' & ->). cbn [mbind outcome_bind].
      rewrite decide_True; [|split; [by constructor|right]].
      * eexists. simpl. do 3 f_equal. unfold dist_batch. csimpl. do 4 f_equal.
        rewrite Hr. unfold held, bal, bal_of. destruct (is_anonymous a); [done|].
        by destruct (view s !! _).
      * destruct Hw as [->|?]; [|done]. simpl. by rewrite N.add_0_r.
    + destruct IH as (e & ->). cbn [mbind outcome_bind]. rewrite decide_False; [eauto|].
      intros [[_ Hnz]%Forall_cons [?|Hw]]; [done|]. apply Hn. auto.
Qed.

(** Keys an operation on token [x] may write. *)
Definition balance_key (x : Symbol) (k : bytes) : Prop := ∃ a, k = key_for_account_balance a x.
Definition supply_key (x : Symbol) (k : bytes) : Prop := balance_key x k ∨ k = key_for_symbol x.

Lemma supply_batch_writes f x l v (ks : list bytes) :
  only_writes (supply_key x)
    (store_apply (sort_by_key (dist_batch f x l ++ [(key_for_symbol x, Put v)]));;
     maybe_commit;; mret ks).
Proof.
  apply only_writes_bind; [apply only_writes_apply|auto with writes].
  rewrite sort_by_key_perm, Forall_app. split; [|repeat constructor; by right].
  apply Forall_fmap, Forall_forall. intros [a c] _. left. by exists a.
Qed.

(** What writing the new balances [g] and the new metadata of [x] amounts to. *)
Record supplied s x (info : TokenInfo) (g : Address → TokenAmount) s' : Prop := {
  supplied_frame : frame s s';
  supplied_tid : latest_tid s' = latest_tid s;
  supplied_info : token_info s' x info;
  supplied_committed :
    is_Some (committed s !! key_for_symbol x) → is_Some (committed s' !! key_for_symbol x);
  supplied_bal a y : bal s' a y = if bool_decide (y = x) then g a else bal s a y;
  supplied_untouched k : ¬ supply_key x k → untouched s s' k;
}.

Lemma supply_batch_ok f x dist info s ks :
  (∃ e (ext : TokenExtendedInfo), view s !! key_for_ext_info x = Some e ∧ decode e = Ok ext) →
  ∃ s', (store_apply (sort_by_key (dist_batch f x (btree_iter dist)
                        ++ [(key_for_symbol x, Put (to_vec info))]));;
         maybe_commit;; mret ks) s = (s', Ok (ks : list bytes))
    ∧ supplied s x info (λ a, match dist !! a with Some c => f a c | None => bal s a x end) s'.
Proof.
  intros (e & ext & He & Hext).
  destruct (supply_batch_writes f x (btree_iter dist) (to_vec info) ks s) as [Hfr Hun].
  destruct (dist_batch_view f x dist [(key_for_symbol x, Put (to_vec info))] (view s))
    as (Hasc & Hbal & Hput & Hother).
  { apply NoDup_singleton. }
  { constructor; [apply not_balance_symbol|constructor]. }
  destruct (store_apply_with_ok storage_apply_failed _ s Hasc) as (s1 & Hs1 & Hv1 & Hc1 & Ht1 & Hf1).
  rewrite (bind_ok (store_apply _) _ _ _ _ Hs1) in *.
  pose proof (maybe_commit_committed s1) as Hc2.
  destruct (maybe_commit_ok s1) as (s2 & Hs2 & Hv2 & Ht2 & Hf2). rewrite Hs2 in Hc2.
  rewrite (bind_ok _ _ _ _ _ Hs2) in *. exists s2. simpl in *. rewrite Hc1, Hv1 in Hc2.
  split; [done|]. split; [done|congruence| | | |done].
  - apply token_info_view. exists (to_vec info), e, ext. rewrite Hv2, Hv1.
    split; [apply Hput; by left|]. split; [by apply decode_to_vec|].
    rewrite Hother; [done|apply not_balance_ext_info|].
    simpl. rewrite list_elem_of_singleton. key_discr.
  - intros Hs. destruct Hc2 as [-> | ->]; [done|]. eexists. apply Hput. by left.
  - intros a y. unfold bal. rewrite Hv2, Hv1, Hbal. case_bool_decide; [by subst|done].
Qed.

(** The balance after minting: the amount is added to what [held] reads, which is nothing
    for the anonymous address, so that its stored balance is replaced. *)
Definition minted_bal s x dist (a : Address) : TokenAmount :=
  match dist !! a with Some c => held s x a + c | None => bal s a x end.
(** What a mint writes over: the balance stored for the anonymous address. *)
Definition overwritten s x dist : TokenAmount :=
  match dist !! ANONYMOUS with Some _ => bal s ANONYMOUS x | None => 0 end.

Lemma held_real s x a : a ≠ ANONYMOUS → held s x a = bal s a x.
Proof.
  intros Ha. unfold held. destruct (is_anonymous a) eqn:Han; [|done].
  by apply is_anonymous_true in Han.
Qed.

Lemma held_anonymous s x : held s x ANONYMOUS = 0.
Proof. reflexivity. Qed.

Lemma minted_bal_real s x dist a :
  a ≠ ANONYMOUS → minted_bal s x dist a = bal s a x + default 0 (dist !! a).
Proof.
  intros Ha. unfold minted_bal. rewrite held_real by done.
  destruct (dist !! a); simpl; lia.
Qed.

(** Nothing is lost but what is written over. *)
Lemma minted_bal_overwritten s x dist a :
  minted_bal s x dist a + (if bool_decide (a = ANONYMOUS) then overwritten s x dist else 0)
  = bal s a x + default 0 (dist !! a).
Proof.
  case_bool_decide as Ha; [subst a|by rewrite minted_bal_real, N.add_0_r].
  unfold minted_bal, overwritten. rewrite held_anonymous.
  destruct (dist !! ANONYMOUS); simpl; lia.
Qed.

Definition minted (info : TokenInfo) (c : TokenAmount) : TokenInfo :=
  with_supply info (mkSupply (total (supply info) + c) (circulating (supply info) + c)
                      (maximum (supply info))).

Lemma supplied_ext s x info g g' s' :
  (∀ a, g a = g' a) → supplied s x info g s' → supplied s x info g' s'.
Proof.
  intros Hg []. split; auto. intros a y. rewrite supplied_bal0. case_bool_decide; auto.
Qed.

Lemma mint_token_run x dist info s :
  tracked s x → token_info s x info →
  let sum := dist_sum (btree_iter dist) in
  if decide (nonzero (btree_iter dist) ∧ (btree_iter dist = [] ∨ within (supply info) sum))
  then ∃ s' ks, mint_token x dist s = (s', Ok ks)
       ∧ supplied s x (minted info sum) (minted_bal s x dist) s'
  else ∃ e, mint_token x dist s = (s, Err e).
Proof.
  intros Hx Hinfo sum. pose proof Hinfo as (ext0 & Hi).
  assert (get_token_supply s x = Ok (supply info)) as Hsup.
  { unfold get_token_supply. by rewrite Hi. }
  pose proof (mint_loop_spec s x (supply info) (btree_iter dist) 0 Hx) as Hloop.
  rewrite N.add_0_l in Hloop. unfold mint_token.
  erewrite (bind_reads _ _ s) by exact Hsup.
  change (dist_sum (btree_iter dist)) with sum in Hloop.
  destruct (decide _) as [Hcond|_].
  - destruct Hloop as (ks & Hl). unfold token_zero.
    erewrite (bind_reads _ _ s) by exact Hl. erewrite (bind_reads _ _ s) by exact Hi.
    apply token_info_view in Hinfo as (e1 & e2 & ext & _ & _ & He2 & Hext).
    simpl tir_info. cbn [fst snd].
    destruct (supply_batch_ok (λ a d, held s x a + d) x dist (minted info sum) s
      (ks ++ [key_for_symbol x])) as (s' & Hs' & Hsup'); [eauto|].
    exists s', (ks ++ [key_for_symbol x]). split; [exact Hs'|exact Hsup'].
  - destruct Hloop as (e & He). exists e. by apply (bind_reads_err (λ s, mint_loop _ _ _ _ _)).
Qed.

(** *** Burning *)

Definition covered s x (l : list (Address * TokenAmount)) : Prop :=
  Forall (λ kv, kv.2 ≠ 0 ∧ kv.2 ≤ held s x kv.1) l.

Lemma burn_loop_spec s x l c :
  tracked s x →
  if decide (covered s x l)
  then ∃ ks, burn_loop s x l c = Ok (c + dist_sum l, dist_batch (λ a d, held s x a - d) x l, ks)
  else ∃ e, burn_loop s x l c = Err e.
Proof.
  intros Hx. revert c. induction l as [|[a d] l IH]; intros c; cbn [burn_loop].
  - rewrite decide_True by constructor. simpl. rewrite N.add_0_r. eauto.
  - unfold token_is_zero. destruct (N.eqb_spec d 0) as [->|Hd].
    { rewrite decide_False; [eauto|]. by intros [[??] _]%Forall_cons. }
    destruct (get_multiple_balances_one s a x Hx) as (r & ks & -> & Hr). cbn [mbind outcome_bind fst snd].
    assert (default 0 (r !! x) = held s x a) as Hh.
    { rewrite Hr. unfold held, bal, bal_of. destruct (is_anonymous a); [done|]. by destruct (view s !! _). }
    destruct (decide (d ≤ held s x a)) as [Hle|Hlt]; last first.
    { rewrite decide_False by (intros [[??] _]%Forall_cons; done).
      destruct (r !! x) as [y|]; simpl in Hh; [|eauto].
      rewrite (proj2 (N.ltb_lt y d)) by lia. eauto. }
    destruct (r !! x) as [y|]; simpl in Hh; [|lia]. rewrite (proj2 (N.ltb_ge y d)) by lia.
    cbn [mbind outcome_bind]. unfold token_sub. rewrite (proj2 (N.leb_le d y)) by lia.
    cbn [mbind outcome_bind]. specialize (IH (c + d)). simpl dist_sum. rewrite N.add_assoc.
    destruct (decide (covered s x l)) as [Hc|Hn].
    + destruct IH as (ks' & ->). rewrite decide_True by (by constructor).
      eexists. cbn [mbind outcome_bind fst snd]. unfold dist_batch. csimpl. by rewrite Hh.
    + destruct IH as (e & ->). rewrite decide_False by (by intros [_ ?]%Forall_cons). eauto.
Qed.

Definition burned (info : TokenInfo) (c : TokenAmount) : TokenInfo :=
  with_supply info (mkSupply (total (supply info) - c) (circulating (supply info) - c)
                      (maximum (supply info))).

Lemma burn_token_run x dist info s :
  let sum := dist_sum (btree_iter dist) in
  tracked s x → token_info s x info →
  (covered s x (btree_iter dist) → sum ≤ circulating (supply info) ∧ sum ≤ total (supply info)) →
  if decide (covered s x (btree_iter dist))
  then ∃ s' ks, burn_token x dist s = (s', Ok ks)
       ∧ supplied s x (burned info sum) (λ a, bal s a x - default 0 (dist !! a)) s'
  else ∃ e, burn_token x dist s = (s, Err e).
Proof.
  intros sum Hx Hinfo Hle. pose proof Hinfo as (ext0 & Hi). unfold burn_token.
  pose proof (burn_loop_spec s x (btree_iter dist) 0 Hx) as Hloop. rewrite N.add_0_l in Hloop.
  change (dist_sum (btree_iter dist)) with sum in Hloop.
  destruct (decide _) as [Hcov|_].
  - destruct Hloop as (ks & Hl). specialize (Hle Hcov) as [Hc Ht]. unfold token_zero.
    erewrite (bind_reads _ _ s) by exact Hl. erewrite (bind_reads _ _ s) by exact Hi.
    apply token_info_view in Hinfo as (e1 & e2 & ext & _ & _ & He2 & Hext).
    simpl tir_info. cbn [fst snd].
    rewrite (bind_lift _ _ _ (circulating (supply info) - sum))
      by (unfold token_sub; by apply N.leb_le in Hc as ->).
    rewrite (bind_lift _ _ _ (total (supply info) - sum))
      by (unfold token_sub; by apply N.leb_le in Ht as ->).
    destruct (supply_batch_ok (λ a d, held s x a - d) x dist (burned info sum) s
      (ks ++ [key_for_symbol x])) as (s' & Hs' & Hsup'); [eauto|].
    exists s', (ks ++ [key_for_symbol x]). split; [exact Hs'|].
    eapply supplied_ext; [|done]. intros a. simpl.
    destruct (dist !! a) as [c|] eqn:Ha; simpl; [|lia].
    apply elem_of_btree_iter in Ha. unfold covered in Hcov. rewrite Forall_forall in Hcov.
    apply Hcov in Ha as [Hne Hc']. simpl in *. unfold held in *. destruct (is_anonymous a); lia.
  - destruct Hloop as (e & He). exists e. by apply (bind_reads_err (λ s, burn_loop _ _ _ _)).
Qed.
End mintburn_laws.
