(* ===== verification/Supply.v ===== *)
(** * many-ledger: the supply of a token

    The claims on [mint_token] and [burn_token], and the invariant that ties the
    metadata of a token to the balances of the accounts: over any sequence of transfers,
    mints and burns, the recorded circulating supply is the sum of all balances, but for
    what mints to the anonymous address write over. *)
From S2P Require Import Prelude Error External Address Types Account Events Migration Storage.
From S2P Require Import StorageLaws LedgerEvent Ledger Tokens.

#[local] Open Scope string_scope.
#[local] Open Scope list_scope.
#[local] Open Scope N_scope.

(** ** The symbol table *)

Section symbol_table.
Context `{LedgerEnv, !LedgerEnvLaws}.
Implicit Types (s : LedgerStorage) (x : Symbol).

Lemma utf8_ascii l : Forall (λ c, Byte.to_N c < 128) l → utf8_from 0 0 0 l = true.
Proof.
  induction 1 as [|c l Hc Hl IH]; [done|]. cbn [utf8_from].
  by rewrite (proj2 (N.ltb_lt _ _)) by done.
Qed.

Lemma ab_ascii a : Forall (λ c, Byte.to_N c < 128) (ab a).
Proof.
  unfold ab. pose proof (address_to_string_text a) as Ht. revert Ht.
  generalize (address_to_string a). intros s. induction s as [|c s IH]; [constructor|].
  simpl. intros [Hc Hs]%andb_true_iff. constructor; [|by apply IH].
  clear -Hc. destruct c as [[] [] [] [] [] [] [] []]; vm_compute in Hc |- *; done.
Qed.

Lemma symbol_of_key_symbol x : symbol_of_key (key_for_symbol x) = Ok x.
Proof.
  unfold symbol_of_key, key_for_symbol, SYMBOLS_ROOT_DASH.
  change (String.length "/config/symbols/") with (length (b "/config/symbols/")).
  rewrite drop_app_length. unfold from_utf8. rewrite utf8_ascii by apply ab_ascii.
  cbn [map_err mbind outcome_bind]. unfold ab, b. rewrite String.string_of_list_byte_of_string.
  apply from_str_to_string.
Qed.

(** Every key below [/config/symbols/] is that of a token. *)
Definition symbols_wf (m : gmap bytes bytes) : Prop :=
  ∀ k, is_Some (m !! k) → b SYMBOLS_ROOT_DASH `prefix_of` k → ∃ y, k = key_for_symbol y.

Lemma collect_symbols_ok l acc :
  (∀ k v, (k, v) ∈ l → ∃ y, k = key_for_symbol y) →
  ∃ X, collect_symbols (Ok <$> l) acc = Ok X
    ∧ ∀ x, x ∈ X ↔ x ∈ acc ∨ key_for_symbol x ∈ l.*1.
Proof.
  revert acc. induction l as [|[k v] l IH]; intros acc Hl.
  - exists acc. split; [done|]. intros x. rewrite elem_of_nil. naive_solver.
  - destruct (Hl k v) as [y ->]; [by left|].
    destruct (IH ({[y]} ∪ acc)) as (X & HX & HxX); [intros; eapply Hl; by right|].
    exists X. csimpl. cbn [collect_symbols]. cbn [map_err mbind outcome_bind fst].
    rewrite symbol_of_key_symbol. cbn [mbind outcome_bind]. split; [exact HX|].
    intros x. rewrite HxX, elem_of_union, elem_of_singleton, elem_of_cons.
    split; [|intros [?|[?%key_symbol_inj|?]]; auto].
    intros [[->|?]|?]; auto.
Qed.

Lemma symbol_key_prefix x : b SYMBOLS_ROOT_DASH `prefix_of` key_for_symbol x.
Proof. by exists (ab x). Qed.

Lemma _get_symbols_ok s :
  symbols_wf (committed s) →
  ∃ X, _get_symbols s = Ok X ∧ ∀ x, x ∈ X ↔ is_Some (committed s !! key_for_symbol x).
Proof.
  intros Hwf. unfold _get_symbols, all_symbols, ledger_iter.
  rewrite merk_iter_ok. change (merk_db (persistent_store s)) with (committed s).
  cbn [iter_mode iter_entries]. unfold range_entries.
  destruct (collect_symbols_ok
    (btree_iter (filter (λ kv, in_iter_range (PrefixRange (b SYMBOLS_ROOT_DASH)) kv.1) (committed s))) ∅)
    as (X & HX & Hx).
  { intros k v. rewrite elem_of_btree_iter, map_lookup_filter_Some. intros [Hk Hp].
    apply Hwf; eauto. }
  exists X. split; [done|]. intros x. rewrite Hx, list_elem_of_fmap. split.
  - intros [?%elem_of_empty|([k v] & Hk & Hin)]; [done|]. simpl in Hk. subst k.
    apply elem_of_btree_iter, map_lookup_filter_Some in Hin as [??]. eauto.
  - intros [v Hv]. right. exists (key_for_symbol x, v). split; [done|].
    apply elem_of_btree_iter, map_lookup_filter_Some. split; [done|]. apply symbol_key_prefix.
Qed.

(** The symbol table can be read. *)
Record symbols_readable s : Prop := {
  readable_view : symbols_wf (view s);
  readable_committed : symbols_wf (committed s);
  readable_tickers : migration_active s TOKEN_MIGRATION = false →
    ∃ m, get_symbols_and_tickers s = Ok m;
}.

Lemma symbols_readable_get s : symbols_readable s → ∃ X, get_symbols s = Ok X.
Proof.
  intros [_ Hc Ht]. unfold get_symbols. destruct (migration_active s TOKEN_MIGRATION).
  - destruct (_get_symbols_ok s Hc) as (X & -> & _). eauto.
  - destruct (Ht eq_refl) as [m ->]. by eexists.
Qed.

(** The symbol table lists [x]. *)
Record symbols_ok s x : Prop := {
  symbols_view : symbols_wf (view s);
  symbols_committed : symbols_wf (committed s);
  symbols_listed :
    if migration_active s TOKEN_MIGRATION then is_Some (committed s !! key_for_symbol x)
    else ∃ m, get_symbols_and_tickers s = Ok m ∧ x ∈ dom m;
}.

Lemma symbols_ok_tracked s x : symbols_ok s x → tracked s x.
Proof.
  intros [_ Hc Hl]. unfold tracked, get_symbols.
  destruct (migration_active s TOKEN_MIGRATION).
  - destruct (_get_symbols_ok s Hc) as (X & -> & HX). exists X. split; [done|]. by apply HX.
  - destruct Hl as (m & -> & Hm). by exists (dom m).
Qed.

Lemma symbols_wf_step s s' x :
  symbols_wf (view s) → symbols_wf (committed s) →
  (∀ k, b SYMBOLS_ROOT_DASH `prefix_of` k → k ≠ key_for_symbol x → untouched s s' k) →
  symbols_wf (view s') ∧ symbols_wf (committed s').
Proof.
  intros Hv Hc Hu. split; intros k Hk Hp.
  all: destruct (decide (k = key_for_symbol x)) as [->|Hne]; [by eexists|].
  all: destruct (Hu k Hp Hne) as [Hvk [Hck|Hck]].
  all: rewrite ?Hvk, ?Hck in Hk; auto.
Qed.

(** An operation that leaves the symbol table alone, but for the metadata of a listed
    token [y], keeps it. *)
Lemma symbols_ok_step s s' x y :
  symbols_ok s x → frame s s' → is_Some (view s !! key_for_symbol x) →
  (∀ k, b "/config/symbols" `prefix_of` k → k ≠ key_for_symbol y → untouched s s' k) →
  (is_Some (committed s !! key_for_symbol y) → is_Some (committed s' !! key_for_symbol y)) →
  symbols_ok s' x.
Proof.
  intros [Hv Hc Hl] Hf Hvx Hu Hy.
  assert (∀ k, b SYMBOLS_ROOT_DASH `prefix_of` k → b "/config/symbols" `prefix_of` k) as Hp.
  { intros k [r ->]. by exists (Byte.x2f :: r). }
  destruct (symbols_wf_step s s' y) as [??]; auto. split; [done..|].
  unfold migration_active in *. rewrite (frame_migrations _ _ Hf).
  destruct (is_active _ _).
  - destruct (decide (x = y)) as [->|Hne]; [by apply Hy|].
    destruct (Hu (key_for_symbol x)) as [_ [-> | ->]]; [|..|done|done].
    + apply Hp, symbol_key_prefix.
    + by intros ?%key_symbol_inj.
  - revert Hl. unfold get_symbols_and_tickers. rewrite !store_get_view.
    destruct (Hu (b SYMBOLS_ROOT)) as [-> _]; [by exists []|key_discr|done].
Qed.

Lemma symbols_readable_step s s' :
  symbols_readable s → frame s s' →
  (∀ k, b "/config/symbols" `prefix_of` k → untouched s s' k) → symbols_readable s'.
Proof.
  intros [Hv Hc Ht] Hf Hu. destruct (symbols_wf_step s s' ANONYMOUS) as [??]; auto.
  { intros k [r ->] _. apply Hu. by exists (Byte.x2f :: r). }
  split; [done..|]. unfold migration_active in *. rewrite (frame_migrations _ _ Hf).
  unfold get_symbols_and_tickers in *. rewrite !store_get_view in *.
  destruct (Hu (b SYMBOLS_ROOT)) as [-> _]; [by exists []|done].
Qed.
End symbol_table.

(** ** The invariant *)

Section supply.
Context `{LedgerEnv, !LedgerEnvLaws}.
Implicit Types (s : LedgerStorage) (x : Symbol) (dist : LedgerTokensAddressMap).

(** The recorded supply of a token is the sum of its balances, the total supply covers
    it, and so does the maximum if there is one. *)
Definition supply_sound s x (info : TokenInfo) : Prop :=
  (∃ X : gset Address, (∀ a, a ∉ X → bal s a x = 0)
     ∧ circulating (supply info) = set_total X (λ a, bal s a x))
  ∧ circulating (supply info) ≤ total (supply info) ∧ within (supply info) 0.

(** The same, when [o] units are recorded that no balance holds any more. *)
Definition supply_short s x (info : TokenInfo) (o : TokenAmount) : Prop :=
  (∃ X : gset Address, (∀ a, a ∉ X → bal s a x = 0)
     ∧ circulating (supply info) = set_total X (λ a, bal s a x) + o)
  ∧ circulating (supply info) ≤ total (supply info) ∧ within (supply info) 0.

Record token_short s x (o : TokenAmount) : Prop := {
  short_symbols : symbols_ok s x;
  short_supply : ∃ info, token_info s x info ∧ supply_short s x info o;
}.
(** The tokens [T] are in order but for [O x] units of each token [x]. *)
Definition supply_inv_short s (T : gset Symbol) (O : Symbol → TokenAmount) : Prop :=
  counters_ok s ∧ ∀ x, x ∈ T → token_short s x (O x).

Record token_inv s x : Prop := {
  inv_symbols : symbols_ok s x;
  inv_supply : ∃ info, token_info s x info ∧ supply_sound s x info;
}.
(** The tokens [T] are in order. *)
Definition supply_inv s (T : gset Symbol) : Prop :=
  counters_ok s ∧ ∀ x, x ∈ T → token_inv s x.

Lemma supply_sound_short s x info : supply_sound s x info ↔ supply_short s x info 0.
Proof. unfold supply_sound, supply_short. by setoid_rewrite N.add_0_r. Qed.

Lemma supply_inv_short_0 s T O :
  (∀ x, O x = 0) → supply_inv s T ↔ supply_inv_short s T O.
Proof.
  intros HO. unfold supply_inv, supply_inv_short. f_equiv. do 2 (apply forall_proper; intros).
  rewrite HO. split; intros [? (info & ? & ?%supply_sound_short)]; split; eauto.
Qed.

Lemma set_total_sub X f g :
  (∀ a, a ∈ X → g a ≤ f a) → set_total X (λ a, f a - g a) + set_total X g = set_total X f.
Proof.
  intros Hle. rewrite <-set_total_add. apply set_total_ext. intros a Ha.
  specialize (Hle a Ha). lia.
Qed.

Lemma covered_lookup s x dist a :
  covered s x (btree_iter dist) → default 0 (dist !! a) ≤ bal s a x.
Proof.
  intros Hc. destruct (dist !! a) as [c|] eqn:Ha; simpl; [|lia].
  apply elem_of_btree_iter in Ha. unfold covered in Hc. rewrite Forall_forall in Hc.
  apply Hc in Ha as [? Hle]. simpl in *. unfold held in Hle. destruct (is_anonymous a); lia.
Qed.

(** Nobody burns more than there is. *)
Lemma burn_le_circulating s x info dist o :
  supply_short s x info o → covered s x (btree_iter dist) →
  let sum := dist_sum (btree_iter dist) in
  sum ≤ circulating (supply info) ∧ sum ≤ total (supply info).
Proof.
  intros ((X & Hout & Hc) & Ht & _) Hcov sum.
  assert (sum ≤ circulating (supply info)); [|lia].
  rewrite Hc, <-(set_total_support X (X ∪ dom dist)) by set_solver.
  unfold sum. rewrite <-(set_total_dist (X ∪ dom dist)) by set_solver.
  pose proof (set_total_sub (X ∪ dom dist) (λ a, bal s a x) (λ a, default 0 (dist !! a))) as Hsub.
  rewrite <-Hsub by (intros; by apply covered_lookup). lia.
Qed.

Lemma set_total_single (X : gset Address) a c :
  a ∈ X → set_total X (λ a', if bool_decide (a' = a) then c else 0) = c.
Proof.
  intros Ha. rewrite (set_total_remove X _ a) by done. rewrite bool_decide_eq_true_2 by done.
  rewrite set_total_zero; [lia|]. intros a' Ha'. rewrite bool_decide_eq_false_2; set_solver.
Qed.

Lemma mint_sound s s' x info dist o :
  supply_short s x info o →
  btree_iter dist = [] ∨ within (supply info) (dist_sum (btree_iter dist)) →
  (∀ a, bal s' a x = minted_bal s x dist a) →
  supply_short s' x (minted info (dist_sum (btree_iter dist))) (o + overwritten s x dist).
Proof.
  intros ((X & Hout & Hc) & Ht & Hw) Hcond Hb. split; [|split; [simpl; lia|]].
  - set (Y := X ∪ dom dist ∪ {[ANONYMOUS]}). exists Y. split.
    + intros a [[Hx Hd]%not_elem_of_union Han]%not_elem_of_union.
      rewrite Hb, minted_bal_real, Hout by set_solver. by apply not_elem_of_dom in Hd as ->.
    + simpl. rewrite Hc, <-(set_total_dist Y), <-(set_total_support X Y) by set_solver.
      assert (set_total Y (λ a, bal s' a x) + overwritten s x dist
              = set_total Y (λ a, bal s a x) + set_total Y (λ a, default 0 (dist !! a))) as Hy.
      { rewrite <-(set_total_single Y ANONYMOUS (overwritten s x dist)) by set_solver.
        rewrite <-!set_total_add. apply set_total_ext. intros a _. rewrite Hb.
        apply minted_bal_overwritten. }
      lia.
  - revert Hcond Hw. unfold within. simpl. destruct (maximum _); [|done].
    intros [->|?] ?; simpl; lia.
Qed.

Lemma burn_sound s s' x info dist o :
  supply_short s x info o → covered s x (btree_iter dist) →
  (∀ a, bal s' a x = bal s a x - default 0 (dist !! a)) →
  supply_short s' x (burned info (dist_sum (btree_iter dist))) o.
Proof.
  intros Hsound Hcov Hb. destruct (burn_le_circulating s x info dist o Hsound Hcov) as [Hle1 Hle2].
  destruct Hsound as ((X & Hout & Hc) & Ht & Hw). split; [|split; [simpl; lia|]].
  - exists (X ∪ dom dist). split.
    + intros a [Hx _]%not_elem_of_union. rewrite Hb, Hout by done. lia.
    + simpl. rewrite Hc, <-(set_total_support X (X ∪ dom dist)) by set_solver.
      rewrite <-(set_total_dist (X ∪ dom dist)) by set_solver.
      rewrite (set_total_ext _ (λ a, bal s' a x) (λ a, bal s a x - default 0 (dist !! a)))
        by (intros; apply Hb).
      rewrite <-(set_total_sub _ (λ a, bal s a x) (λ a, default 0 (dist !! a)))
        by (intros; by apply covered_lookup). lia.
  - revert Hw. unfold within. simpl. destruct (maximum _); [|done]. lia.
Qed.

(** *** Preservation *)

Lemma not_supply_key x k : not_balance k → k ≠ key_for_symbol x → ¬ supply_key x k.
Proof. intros Hn Hne [[a ->]| ->]; [by apply (Hn a x)|done]. Qed.

Lemma prefix_not_balance k : b "/config/symbols" `prefix_of` k → not_balance k.
Proof. intros [r ->] a y. key_discr. Qed.

Lemma token_info_symbol s x info : token_info s x info → is_Some (view s !! key_for_symbol x).
Proof. intros (e1 & ? & ? & ? & _)%token_info_view. eauto. Qed.

Lemma supplied_counters_ok s x info g s' : counters_ok s → supplied s x info g s' → counters_ok s'.
Proof.
  intros Hs [_ _ _ _ _ Hu]. rewrite counters_ok_view in *. unfold counters_ok_of in *.
  destruct (Hu EVENT_COUNT_ROOT) as [-> _].
  { apply not_supply_key; [intros a y|]; key_discr. }
  destruct (Hu DATA_ATTRIBUTES_KEY) as [-> _]; [|done].
  apply not_supply_key; [intros a y|]; key_discr.
Qed.

Definition send_key (k : bytes) : Prop :=
  event_key k ∨ k = DATA_ATTRIBUTES_KEY ∨ ∃ x, balance_key x k.

Lemma send_writes from to symbol amount memo :
  only_writes send_key (send from to symbol amount memo).
Proof.
  assert (∀ a x, send_key (key_for_account_balance a x)) by (intros a x; right; right; by exists x, a).
  assert (send_key DATA_ATTRIBUTES_KEY) by (right; by left).
  assert (∀ c, only_writes send_key (log_event c)).
  { intros c. eapply only_writes_mono; [apply log_event_writes|by left]. }
  unfold send, update_account_count. auto 20 with writes.
Qed.

(** A token whose balances and metadata are left alone stays as it is. *)
Lemma token_short_untouched s s' x y o :
  token_short s x o → frame s s' →
  (∀ k, b "/config/symbols" `prefix_of` k → k ≠ key_for_symbol y → untouched s s' k) →
  (is_Some (committed s !! key_for_symbol y) → is_Some (committed s' !! key_for_symbol y)) →
  view s' !! key_for_symbol x = view s !! key_for_symbol x →
  view s' !! key_for_ext_info x = view s !! key_for_ext_info x →
  (∀ a, bal s' a x = bal s a x) →
  token_short s' x o.
Proof.
  intros [Hsym (info & Hi & (X & Hout & Hc) & Hrest)] Hf Hu Hy Hv1 Hv2 Hb. split.
  - eapply symbols_ok_step; eauto using token_info_symbol.
  - exists info. split; [by rewrite token_info_view, Hv1, Hv2, <-token_info_view|].
    split; [|done]. exists X. split; [intros; rewrite Hb; auto|].
    rewrite Hc. f_equal. apply set_total_ext. intros a _. by rewrite Hb.
Qed.

(** Minting or burning one token leaves the others as they are. *)
Lemma supplied_short s s' T x info g O O' :
  supply_inv_short s T O → x ∈ T → supplied s x info g s' → supply_short s' x info (O' x) →
  (∀ z, z ≠ x → O' z = O z) → supply_inv_short s' T O'.
Proof.
  intros [Hc HT] Hx Hsup Hsound HO. split; [by eapply supplied_counters_ok|].
  pose proof Hsup as [Hf _ Hi Hcom Hb Hu].
  assert (∀ k, b "/config/symbols" `prefix_of` k → k ≠ key_for_symbol x → untouched s s' k) as Hu'.
  { intros k Hp Hne. apply Hu, not_supply_key; auto using prefix_not_balance. }
  intros z Hz. destruct (decide (z = x)) as [->|Hne].
  - split; [|by exists info]. destruct (HT x Hx) as [Hsym (i & Hi0 & _)].
    eapply symbols_ok_step; eauto using token_info_symbol.
  - rewrite HO by done. eapply (token_short_untouched s s' z x); eauto.
    + apply Hu, not_supply_key; [apply not_balance_symbol|]. by intros ?%key_symbol_inj.
    + apply Hu, not_supply_key; [apply not_balance_ext_info|key_discr].
    + intros a. rewrite Hb. by rewrite bool_decide_eq_false_2.
Qed.

(** A transfer keeps them in order. *)
Lemma send_sound s s' x info o from to symbol amount :
  supply_short s x info o → from ≠ to → amount ≤ bal s from symbol →
  (∀ a y, bal s' a y =
     if bool_decide (y = symbol) then
       if bool_decide (a = to) then bal s to symbol + amount
       else if bool_decide (a = from) then bal s from symbol - amount else bal s a y
     else bal s a y) →
  supply_short s' x info o.
Proof.
  intros ((X & Hout & Hc) & Hrest) Hne Hle Hb. split; [|done].
  exists (X ∪ {[from; to]}). split.
  - intros a Ha. rewrite Hb, Hout by set_solver.
    repeat case_bool_decide; subst; set_solver.
  - rewrite Hc, <-(set_total_support X (X ∪ {[from; to]})) by set_solver. f_equal.
    destruct (decide (x = symbol)) as [->|Hx].
    + symmetry. apply (set_total_move _ _ _ from to amount); try set_solver.
      * rewrite Hb. by repeat case_bool_decide.
      * rewrite Hb. by repeat case_bool_decide.
      * intros a ??. rewrite Hb. by repeat case_bool_decide.
    + apply set_total_ext. intros a _. rewrite Hb. by repeat case_bool_decide.
Qed.

Lemma send_key_not_symbols k : b "/config/" `prefix_of` k → ¬ send_key k.
Proof. intros [r ->] [[r' Hr]|[Hk|(x & a & Hk)]]; key_discr. Qed.

Lemma send_inv s T O from to symbol amount memo :
  supply_inv_short s T O →
  supply_inv_short (send from to symbol amount memo s).1 T O
  ∧ answers (send from to symbol amount memo s).2 = true.
Proof.
  intros [Hc HT]. destruct (send_writes from to symbol amount memo s) as [Hf Hu].
  destruct (send_cases from to symbol amount memo s Hc) as
    [(e & ->)|(s' & Hs & Hne & Hle & Hc' & Hb)]; [done|].
  rewrite Hs in *. simpl in *. split; [|done]. split; [done|].
  intros x Hx. destruct (HT x Hx) as [Hsym (info & Hi & Hsound)].
  assert (∀ k, b "/config/" `prefix_of` k → untouched s s' k) as Hu'
    by (intros; by apply Hu, send_key_not_symbols).
  assert (untouched s s' (key_for_symbol x)) as [Hvx Hcx].
  { apply Hu'. by exists (b "symbols/" ++ ab x). }
  split.
  - apply (symbols_ok_step s s' x x); auto.
    + by eapply token_info_symbol.
    + intros k [r ->] _. apply Hu'. by exists (b "symbols" ++ r).
    + intros Hs'. destruct Hcx as [-> | ->]; [done|]. by eapply token_info_symbol.
  - exists info. split; [|by eapply send_sound].
    rewrite token_info_view, Hvx. destruct (Hu' (key_for_ext_info x)) as [-> _].
    { by exists (b "ext_info/" ++ ab x). } by rewrite <-token_info_view.
Qed.

(** What a command writes over when it succeeds: mints to the anonymous address only. *)
Definition written_over x (o : outcome ManyError (list bytes)) s (y : Symbol) dist : TokenAmount :=
  if bool_decide (y = x) && (if o is Ok _ then true else false) then overwritten s x dist else 0.

Lemma mint_inv s T O y dist :
  supply_inv_short s T O → y ∈ T →
  let r := mint_token y dist s in
  supply_inv_short r.1 T (λ x, O x + written_over x r.2 s y dist) ∧ answers r.2 = true.
Proof.
  intros Hinv Hy r. pose proof Hinv as [_ HT]. subst r.
  destruct (HT y Hy) as [Hsym (info & Hi & Hsound)].
  pose proof (mint_token_run y dist info s (symbols_ok_tracked s y Hsym) Hi) as Hm. simpl in Hm.
  destruct (decide _) as [[_ Hcond]|_]; unfold written_over.
  - destruct Hm as (s' & ks & -> & Hsup). cbn [fst snd]. split; [|done].
    eapply supplied_short; eauto.
    + rewrite bool_decide_eq_true_2 by done. eapply mint_sound; eauto.
      intros a. rewrite (supplied_bal _ _ _ _ _ Hsup). by rewrite bool_decide_eq_true_2.
    + intros z Hz. rewrite bool_decide_eq_false_2 by done. simpl. lia.
  - destruct Hm as (e & ->). cbn [fst snd]. split; [|done].
    destruct Hinv as [? _]. split; [done|]. intros z Hz. rewrite andb_false_r, N.add_0_r. auto.
Qed.

Lemma burn_inv s T O x dist :
  supply_inv_short s T O → x ∈ T →
  supply_inv_short (burn_token x dist s).1 T O ∧ answers (burn_token x dist s).2 = true.
Proof.
  intros Hinv Hx. pose proof Hinv as [_ HT].
  destruct (HT x Hx) as [Hsym (info & Hi & Hsound)].
  pose proof (burn_token_run x dist info s (symbols_ok_tracked s x Hsym) Hi
    (burn_le_circulating s x info dist _ Hsound)) as Hb.
  destruct (decide _) as [Hcov|_]; [|by destruct Hb as (e & ->)].
  destruct Hb as (s' & ks & -> & Hsup). split; [|done].
  eapply supplied_short; eauto. eapply burn_sound; eauto.
  intros a. rewrite (supplied_bal _ _ _ _ _ Hsup). by rewrite bool_decide_eq_true_2.
Qed.

(** *** Sequences of operations *)

Inductive token_cmd : Type :=
| CSend (from to : Address) (x : Symbol) (amount : TokenAmount) (memo : option Memo)
| CMint (x : Symbol) (dist : LedgerTokensAddressMap)
| CBurn (x : Symbol) (dist : LedgerTokensAddressMap).

Definition run_cmd (c : token_cmd) : LedgerM (list bytes) :=
  match c with
  | CSend from to x amount memo => send from to x amount memo
  | CMint x dist => mint_token x dist
  | CBurn x dist => burn_token x dist
  end.
(** One after the other, whatever the outcome of each. *)
Fixpoint run_cmds (l : list token_cmd) (s : LedgerStorage) :
    LedgerStorage * list (outcome ManyError (list bytes)) :=
  match l with
  | [] => (s, [])
  | c :: l => let r := run_cmd c s in let rs := run_cmds l r.1 in (rs.1, r.2 :: rs.2)
  end.

(** Mints and burns concern the known tokens. *)
Definition cmd_ok (T : gset Symbol) (c : token_cmd) : Prop :=
  match c with
  | CSend _ _ _ _ _ => True
  | CMint x _ | CBurn x _ => x ∈ T
  end.

(** What a run writes over of token [x]: at every mint that succeeds and that names the
    anonymous address, the balance which is stored for that address at that time. *)
Fixpoint lost_in_run (x : Symbol) (l : list token_cmd) (s : LedgerStorage) : TokenAmount :=
  match l with
  | [] => 0
  | c :: l =>
      let r := run_cmd c s in
      (if c is CMint y dist then written_over x r.2 s y dist else 0) + lost_in_run x l r.1
  end.

Definition mints_to_anonymous (c : token_cmd) : bool :=
  if c is CMint _ dist then bool_decide (is_Some (dist !! ANONYMOUS)) else false.

Lemma lost_in_run_none x l s :
  Forall (λ c, mints_to_anonymous c = false) l → lost_in_run x l s = 0.
Proof.
  intros Hl. revert s. induction Hl as [|c l Hc Hl IH]; intros s; [done|].
  cbn [lost_in_run]. rewrite IH, N.add_0_r. destruct c as [|y dist|]; [done| |done].
  unfold written_over, overwritten. simpl in Hc. apply bool_decide_eq_false in Hc.
  apply eq_None_not_Some in Hc as ->. by destruct (_ && _).
Qed.

Lemma run_cmd_inv s T O c :
  supply_inv_short s T O → cmd_ok T c →
  supply_inv_short (run_cmd c s).1 T
    (λ x, O x + if c is CMint y dist then written_over x (run_cmd c s).2 s y dist else 0)
  ∧ answers (run_cmd c s).2 = true.
Proof.
  destruct c as [from to x amount memo|x dist|x dist]; cbn [run_cmd cmd_ok].
  - intros [Hc HT]%(send_inv _ _ _ from to x amount memo) _. split; [|done].
    destruct Hc as [Hc HT']. split; [done|]. intros. rewrite N.add_0_r. auto.
  - apply mint_inv.
  - intros Hs Hx. destruct (burn_inv s T O x dist Hs Hx) as [[Hc HT'] Ha]. split; [|done].
    split; [done|]. intros. rewrite N.add_0_r. auto.
Qed.

Lemma run_cmds_inv s T O l :
  supply_inv_short s T O → Forall (cmd_ok T) l →
  supply_inv_short (run_cmds l s).1 T (λ x, O x + lost_in_run x l s)
  ∧ Forall (λ o, answers o = true) (run_cmds l s).2.
Proof.
  intros Hinv Hl. revert s O Hinv. induction Hl as [|c l Hc Hl IH]; intros s O Hinv.
  - split; [|constructor]. destruct Hinv as [? HT]. split; [done|]. intros x Hx.
    cbn [lost_in_run]. rewrite N.add_0_r. auto.
  - destruct (run_cmd_inv s T O c Hinv Hc) as [Hinv' Ho].
    destruct (IH _ _ Hinv') as [[Hc' HT'] Hl']. cbn [run_cmds fst snd lost_in_run].
    split; [|by constructor]. split; [done|]. intros x Hx. rewrite N.add_assoc. auto.
Qed.

(** C1: from a state in which the tokens [T] are in order (the recorded circulating supply
    is the sum of all balances, the total supply covers it and the maximum bounds it), any
    sequence of transfers, and of mints and burns of tokens of [T], each of which may
    succeed or fail, never panics. Afterwards the recorded circulating supply of each token
    is the sum of the balances of all addresses plus exactly what was written over in the
    run, is covered by the total supply and within the maximum. Only mints to the anonymous
    address write over: its balance reads as empty, so that a second mint replaces what the
    first one stored. When no mint names the anonymous address nothing is lost, and the
    circulating supply is exactly the sum of the balances. *)
Theorem supply_invariant s T l :
  supply_inv s T → Forall (cmd_ok T) l →
  supply_inv_short (run_cmds l s).1 T (λ x, lost_in_run x l s)
  ∧ Forall (λ o, answers o = true) (run_cmds l s).2
  ∧ (Forall (λ c, mints_to_anonymous c = false) l → supply_inv (run_cmds l s).1 T).
Proof.
  intros Hinv Hl. apply (supply_inv_short_0 s T (λ _, 0) (λ _, eq_refl)) in Hinv.
  destruct (run_cmds_inv s T _ l Hinv Hl) as [Hr Ho]. split; [exact Hr|]. split; [done|].
  intros Hna. apply (supply_inv_short_0 _ T (λ x, lost_in_run x l s)); [|exact Hr].
  intros x. by apply lost_in_run_none.
Qed.

(** C8: minting a token of the table adds the sum of the distribution to the circulating
    and to the total supply. Every address of the distribution other than the anonymous
    one gets its amount on top of its balance, exactly; the balance of the anonymous
    address, when it is named, is replaced by its amount, whatever it was; no other
    balance changes. A mint is refused, with nothing changed, exactly when an amount is
    zero or, for a distribution that is not empty, the circulating supply would exceed
    the maximum. *)
Theorem mint_token_spec x dist info s :
  tracked s x → token_info s x info →
  let sum := dist_sum (btree_iter dist) in
  if decide (nonzero (btree_iter dist) ∧ (btree_iter dist = [] ∨ within (supply info) sum))
  then ∃ s' ks, mint_token x dist s = (s', Ok ks)
       ∧ token_info s' x (minted info sum)
       ∧ (∀ a, a ≠ ANONYMOUS → bal s' a x = bal s a x + default 0 (dist !! a))
       ∧ bal s' ANONYMOUS x = default (bal s ANONYMOUS x) (dist !! ANONYMOUS)
       ∧ ∀ a y, y ≠ x → bal s' a y = bal s a y
  else ∃ e, mint_token x dist s = (s, Err e).
Proof.
  intros Hx Hi sum. pose proof (mint_token_run x dist info s Hx Hi) as Hm. simpl in Hm.
  fold sum in Hm. destruct (decide _) as [_|_]; [|done].
  destruct Hm as (s' & ks & Hs & Hsup). exists s', ks. split; [done|].
  split; [apply Hsup|]. split_and!; intros; rewrite (supplied_bal _ _ _ _ _ Hsup).
  - rewrite bool_decide_eq_true_2 by done. by apply minted_bal_real.
  - rewrite bool_decide_eq_true_2 by done. unfold minted_bal. rewrite held_anonymous.
    by destruct (dist !! ANONYMOUS).
  - by rewrite bool_decide_eq_false_2.
Qed.

End supply.
