(* ===== verification/Subresource.v ===== *)
(** * many-ledger: allocation of subresource ids

    Laws of [get_next_subresource] ([storage.rs]): the loop that skips the ids of
    existing tokens terminates, and the id it ends with is the first one, from the
    counter on, that is not a token; the counter then points past it. *)
From S2P Require Import Prelude Error External Address Types Account Events Migration Storage.
From S2P Require Import StorageLaws LedgerEvent Ledger Tokens Supply.

#[local] Open Scope string_scope.
#[local] Open Scope list_scope.
#[local] Open Scope N_scope.

(** [a] is subresource [n] of [i]. *)
Definition subresource (i : Address) (n : N) (a : Address) : Prop := with_subresource_id i n = Ok a.

Lemma subresource_total i n :
  can_sign i = true → n ≤ MAX_SUBRESOURCE_ID → ∃ a, subresource i n a.
Proof.
  intros [h Hh]%inner_hash_can_sign Hn.
  destruct (with_subresource_id_ok i n h Hh Hn) as (a & Ha & _). by exists a.
Qed.

Lemma subresource_id_of i n a : subresource i n a → subresource_id a = Some n ∧ n ≤ MAX_SUBRESOURCE_ID.
Proof.
  unfold subresource. intros Ha. pose proof Ha as Ha'. revert Ha'.
  unfold with_subresource_id, with_subresource_id_by, u32_try_into_subid.
  destruct (inner_hash (inner i)) as [h|] eqn:Hh; [|done].
  destruct (N.ltb_spec MAX_SUBRESOURCE_ID n) as [|Hn]; [done|]. intros _. split; [|done].
  destruct (with_subresource_id_ok i n h Hh Hn) as (a' & Ha' & Hin & Hl).
  rewrite Ha in Ha'. injection Ha' as <-.
  unfold subresource_id. rewrite Hin, subresource_id_unchecked by done. f_equal.
  apply N.mod_small. unfold MAX_SUBRESOURCE_ID in Hn. change (2 ^ 31) with 2147483648. lia.
Qed.

Lemma subresource_inj i j n m a : subresource i n a → subresource j m a → n = m.
Proof. intros [Hn _]%subresource_id_of [Hm _]%subresource_id_of. congruence. Qed.

Lemma with_subresource_id_cases i n :
  (∃ a, with_subresource_id i n = Ok a) ∨ (∃ e, with_subresource_id i n = Err e).
Proof.
  destruct (can_sign i) eqn:Hc.
  - destruct (N.le_gt_cases n MAX_SUBRESOURCE_ID) as [Hn|Hn]; [left; by apply subresource_total|right].
    apply inner_hash_can_sign in Hc as [h Hh].
    unfold with_subresource_id, with_subresource_id_by, u32_try_into_subid. rewrite Hh.
    apply N.ltb_lt in Hn. rewrite Hn. by eexists.
  - right. assert (inner_hash (inner i) = None) as Hh.
    { destruct (inner_hash (inner i)) eqn:E; [|done].
      assert (can_sign i = true) by (apply inner_hash_can_sign; rewrite E; eauto). congruence. }
    unfold with_subresource_id, with_subresource_id_by. rewrite Hh. by eexists.
Qed.

Section next_free.
Context `{LedgerEnv}.

(** The ids from [lo] up to [hi], [hi] excluded, are all those of tokens. *)
Definition taken (X : gset Symbol) (i : Address) (lo hi : N) : Prop :=
  ∀ m, lo ≤ m → m < hi → ∃ a, subresource i m a ∧ a ∈ X.

(** [seen] are the tokens the loop went past. *)
Lemma next_free_spec fuel X seen i c a :
  can_sign i = true → subresource i c a → seen ⊆ X →
  (∀ x, x ∈ seen → ∃ m, m < c ∧ subresource i m x) →
  (size X ≤ size seen + fuel)%nat →
  (∃ n a', next_free fuel X i c a = Ok n ∧ c ≤ n ∧ subresource i n a' ∧ (a' ∉ X) ∧ taken X i c n)
  ∨ (next_free fuel X i c a = Err (subresource_exhausted (address_to_string i))
     ∧ taken X i c (MAX_SUBRESOURCE_ID + 1)).
Proof.
  intros Hi. revert seen c a. induction fuel as [|fuel IH]; intros seen c a Ha Hseen Hlt Hsize.
  all: assert (a ∉ seen) as Hns
    by (intros (m & Hm & Hx)%Hlt; pose proof (subresource_inj _ _ _ _ _ Ha Hx); lia).
  all: cbn [next_free]; case_bool_decide as HaX;
    [|left; exists c, a; split_and!; [done|lia|done|done|intros m ??; lia]].
  - exfalso. assert (size ({[a]} ∪ seen) ≤ size X)%nat as Hle by (apply subseteq_size; set_solver).
    rewrite size_union_alt, size_singleton in Hle.
    replace (seen ∖ {[a]}) with seen in Hle by set_solver. lia.
  - pose proof (subresource_id_of _ _ _ Ha) as [_ Hmax].
    assert (wrap32 (c + 1) = c + 1) as ->.
    { unfold wrap32. apply N.mod_small. unfold MAX_SUBRESOURCE_ID in Hmax.
      change (2 ^ 32) with 4294967296. lia. }
    assert (∀ hi, taken X i (c + 1) hi → taken X i c hi) as Htake.
    { intros hi Ht m Hlo Hhi. destruct (decide (m = c)) as [->|]; [eauto|apply Ht; lia]. }
    destruct (N.ltb_spec MAX_SUBRESOURCE_ID (c + 1)) as [Hgt|Hle].
    + right. split; [done|]. apply Htake. intros m ??. lia.
    + destruct (subresource_total i (c + 1) Hi Hle) as [a' Ha'].
      assert (with_subresource_id i (c + 1) = Ok a') as -> by exact Ha'.
      cbn [mbind outcome_bind].
      destruct (IH ({[a]} ∪ seen) (c + 1) a') as [(n & a2 & -> & Hn & Hs & Hx & Ht)|[-> Ht]]; [done|..|by auto].
      * set_solver.
      * intros x [->%elem_of_singleton|Hx]%elem_of_union; [exists c; split; [lia|done]|].
        apply Hlt in Hx as (m & ? & ?). exists m. split; [lia|done].
      * rewrite size_union_alt, size_singleton.
        replace (seen ∖ {[a]}) with seen by set_solver. lia.
      * left. exists n, a2. split; [done|]. split; [lia|]. auto.
Qed.
End next_free.

(** ** [get_next_subresource] *)

Section next_subresource.
Context `{LedgerEnv, !LedgerEnvLaws}.
Implicit Types s : LedgerStorage.

(** The id the counter of [i] stands at is [c], and [X] are the tokens. *)
Record allocates s (root : string) (i : Address) (c : N) (X : gset Symbol) : Prop := {
  alloc_root : root = ACCOUNT_IDENTITY_ROOT ∨ root = TOKEN_IDENTITY_ROOT;
  alloc_identity : subresource_identity s root = Ok i;
  alloc_sign : can_sign i = true;
  alloc_counter : get_subresource_counter s i = Ok c;
  alloc_symbols : get_symbols s = Ok X;
}.

Lemma find_subresource_spec s root i c X :
  allocates s root i c X →
  (∃ n a, find_subresource s i = Ok n ∧ c ≤ n ∧ subresource i n a ∧ (a ∉ X) ∧ taken X i c n)
  ∨ (find_subresource s i = Err (subresource_exhausted (address_to_string i))
     ∧ taken X i c (MAX_SUBRESOURCE_ID + 1)).
Proof.
  intros [_ Hid Hi Hc HX]. unfold find_subresource. rewrite Hc. cbn [mbind outcome_bind].
  destruct (N.ltb_spec MAX_SUBRESOURCE_ID c) as [Hgt|Hle].
  { right. split; [done|]. intros m ??. lia. }
  rewrite HX. cbn [mbind outcome_bind]. destruct (subresource_total i c Hi Hle) as [a Ha].
  assert (with_subresource_id i c = Ok a) as -> by exact Ha. cbn [mbind outcome_bind].
  apply (next_free_spec (size X) X ∅); auto; set_solver.
Qed.

Lemma counter_key_ne s i root :
  root = ACCOUNT_IDENTITY_ROOT ∨ root = TOKEN_IDENTITY_ROOT ∨ root = IDENTITY_ROOT →
  b root ≠ counter_key s i.
Proof.
  unfold counter_key. destruct (migration_active s TOKEN_MIGRATION).
  all: intros [->|[->| ->]]; key_discr.
Qed.

Lemma subresource_identity_view s root :
  subresource_identity s root =
    match view s !! b root with
    | Some l => from_bytes l
    | None => l ← ok_or (view s !! b IDENTITY_ROOT) (storage_key_not_found IDENTITY_ROOT); from_bytes l
    end.
Proof. unfold subresource_identity, get_identity. by rewrite !store_get_view. Qed.

Lemma get_next_subresource_spec s root i c X :
  allocates s root i c X →
  (∃ n a s' ks, get_next_subresource root s = (s', Ok (a, ks))
     ∧ c ≤ n ∧ subresource i n a ∧ (a ∉ X) ∧ taken X i c n
     ∧ view s' = <[counter_key s i := be_bytes 4 (n + 1)]> (view s)
     ∧ committed s' = committed s ∧ latest_tid s' = latest_tid s ∧ frame s s')
  ∨ (get_next_subresource root s = (s, Err (subresource_exhausted (address_to_string i)))
     ∧ taken X i c (MAX_SUBRESOURCE_ID + 1)).
Proof.
  intros Ha. pose proof Ha as [Hroot Hid _ _ _]. unfold get_next_subresource.
  erewrite (bind_reads _ _ s) by exact Hid.
  destruct (find_subresource_spec s root i c X Ha) as [(n & a & Hf & Hn & Hsub & Hx & Ht)|[He Ht]].
  - left. erewrite (bind_reads _ _ s) by exact Hf. erewrite (bind_reads _ _ s) by done.
    destruct (store_apply_one (counter_key s i) (Put (be_bytes 4 (n + 1))) s)
      as (s1 & Hs1 & Hv1 & Hc1 & Ht1 & Hf1).
    rewrite (bind_ok _ _ _ _ _ Hs1), bind_get.
    unfold apply_op in Hv1. simpl in Hv1. rewrite Hv1.
    rewrite lookup_insert_ne by (intros ?; eapply (counter_key_ne s i root); naive_solver).
    erewrite (bind_reads _ _ s1).
    2:{ rewrite subresource_identity_view in Hid. rewrite <-Hid. unfold get_identity.
        rewrite store_get_view, Hv1, lookup_insert_ne; [done|].
        intros ?; eapply (counter_key_ne s i IDENTITY_ROOT); naive_solver. }
    rewrite (bind_lift _ _ _ a) by done. exists n, a, s1. eexists. split; [done|]. split_and!; auto.
  - right. split; [|done]. by apply (bind_reads_err (λ s, find_subresource s i)).
Qed.

(** The counter afterwards. *)
Lemma counter_after s s' i n :
  n ≤ MAX_SUBRESOURCE_ID → frame s s' →
  view s' !! counter_key s i = Some (be_bytes 4 (n + 1)) →
  get_subresource_counter s' i = Ok (n + 1).
Proof.
  intros Hn Hf Hv. unfold get_subresource_counter, counter_key, migration_active in *.
  rewrite (frame_migrations _ _ Hf), store_get_view, Hv. cbn [mbind outcome_bind read_be_or_zero].
  unfold read_be. rewrite length_be_bytes, be_value_be_bytes. simpl Nat.eqb. f_equal.
  apply N.mod_small. unfold MAX_SUBRESOURCE_ID in Hn.
  change (256 ^ N.of_nat 4) with 4294967296. lia.
Qed.

(** C35: allocating a subresource always answers: the loop that skips
    taken ids ends, and it does not panic. It gives the first id, from the counter on, that no token
    has, and moves the counter just past it, changing nothing else; it is refused, with
    nothing changed, exactly when every id from the counter to the largest (2^31 - 1) is
    taken by a token. *)
Theorem next_subresource_spec s root i c X :
  allocates s root i c X →
  (∃ n a s' ks, get_next_subresource root s = (s', Ok (a, ks))
     ∧ with_subresource_id i n = Ok a ∧ c ≤ n ∧ (a ∉ X)
     ∧ (∀ m, c ≤ m → m < n → ∃ a', with_subresource_id i m = Ok a' ∧ a' ∈ X)
     ∧ get_subresource_counter s' i = Ok (n + 1)
     ∧ ∀ k, k ≠ counter_key s i → view s' !! k = view s !! k)
  ∨ (get_next_subresource root s = (s, Err (subresource_exhausted (address_to_string i)))
     ∧ ∀ m, c ≤ m → m ≤ MAX_SUBRESOURCE_ID → ∃ a', with_subresource_id i m = Ok a' ∧ a' ∈ X).
Proof.
  intros Ha. destruct (get_next_subresource_spec s root i c X Ha)
    as [(n & a & s' & ks & Hg & Hn & Hsub & Hx & Ht & Hv & _ & _ & Hf)|[He Ht]].
  - left. exists n, a, s', ks. split_and!; auto.
    + eapply counter_after; [by eapply subresource_id_of|done|]. rewrite Hv. by simplify_map_eq.
    + intros k Hk. by rewrite Hv, lookup_insert_ne.
  - right. split; [done|]. intros m ??. apply Ht; [done|]. lia.
Qed.
End next_subresource.
