(* ===== verification/AccountStorage.v ===== *)
(** * many-ledger: accounts in the storage

    Models [many-ledger/src/storage/account.rs] (creation, roles, features, descriptions,
    disabling, [verify_acl]) and the functions of [module/account.rs] that validate an
    account and check the rights of a sender. *)
From S2P Require Import Prelude Error External Address Types Account Events Migration Storage.
From S2P Require Import StorageLaws LedgerEvent Ledger Tokens Supply.

#[local] Open Scope string_scope.
#[local] Open Scope list_scope.
#[local] Open Scope N_scope.

Definition MULTISIG_DEFAULT_THRESHOLD : N := 1.
Definition MULTISIG_DEFAULT_TIMEOUT_IN_SECS : N := 60 * 60 * 24.
Definition MULTISIG_DEFAULT_EXECUTE_AUTOMATICALLY : bool := false.
Definition MULTISIG_MAXIMUM_TIMEOUT_IN_SECS : N := 185 * 60 * 60 * 24.

Record AccountMeta : Type := mkAccountMeta {
  am_id : option Address;
  am_subresource_id : option N;
  am_description : option string;
  am_roles : AddressRoleMap;
  am_features : FeatureSet;
}.

(** The elements of a [BTreeSet<Role>], in order. *)
Definition role_iter (v : gset Role) : list Role := filter (.∈ v) all_roles.

(** ** Validation ([module/account.rs]) *)

Definition get_roles_for_account (a : Account) : gset Role :=
  (if FeatureSet_has_id (features a) (ID MultisigAccountFeature)
   then feature_roles MultisigAccountFeature else ∅)
  ∪ (if FeatureSet_has_id (features a) (ID AccountLedger) then feature_roles AccountLedger else ∅)
  ∪ (if FeatureSet_has_id (features a) (ID TokenAccountLedger)
     then feature_roles TokenAccountLedger else ∅).

(** [if let Err(e) = features.get::<F>() { if e.code() != AttributeNotFound { return Err(e) } }]. *)
Definition feature_error {F} (m : outcome ManyError F) : outcome ManyError unit :=
  match m with
  | Ok _ => Ok tt
  | Err e => if bool_decide (Error.code e ≠ AttributeNotFound) then Err e else Ok tt
  | Panic t => Panic t
  | OutOfFuel => OutOfFuel
  end.
Definition validate_features_for_account (a : Account) : outcome ManyError unit :=
  feature_error (FeatureSet_get MultisigAccountFeature (features a));;
  feature_error (FeatureSet_get AccountLedger (features a));;
  feature_error (FeatureSet_get TokenAccountLedger (features a)).

Definition roles_if_feature (F : Type) `{TryCreateFeature F, FeatureInfo F} (a : Account) : gset Role :=
  if is_ok (FeatureSet_get F (features a)) then feature_roles F else ∅.
Definition allowed_roles (a : Account) : gset Role :=
  {[Owner]} ∪ roles_if_feature MultisigAccountFeature a ∪ roles_if_feature AccountLedger a
  ∪ roles_if_feature TokenAccountLedger a.
Definition account_roles (a : Account) : gset Role := ⋃ (btree_iter (roles a)).*2.
Fixpoint check_roles (allowed : gset Role) (l : list Role) : outcome ManyError unit :=
  match l with
  | [] => Ok tt
  | r :: l =>
      if bool_decide (r ∈ allowed) then check_roles allowed l
      else Err (unknown_role (role_to_string r))
  end.
Definition validate_roles_for_account (a : Account) : outcome ManyError unit :=
  check_roles (allowed_roles a) (role_iter (account_roles a)).

Definition validate_account (a : Account) : outcome ManyError unit :=
  validate_features_for_account a;; validate_roles_for_account a.

Definition verify_account_role (a : Account) (sender : Address) (feature_id : N) (role : list Role) :
    outcome ManyError unit :=
  if negb (has_role a sender Owner) then
    if FeatureSet_has_id (features a) feature_id then needs_role a sender role
    else Err unauthorized
  else Ok tt.

(** ** Loops over role maps *)

(** [for (id, roles) in m { for r in roles { .. } }]: the pairs, in order. *)
Definition role_pairs (m : AddressRoleMap) : list (Address * Role) :=
  kv ← btree_iter m; (λ r, (kv.1, r)) <$> role_iter kv.2.

Definition add_role_pairs (a : Account) (l : list (Address * Role)) : Account :=
  foldl (λ a p, add_role a p.1 p.2) a l.
(** With the legacy trigger an entry that becomes empty stays in the map. *)
Definition legacy_remove_role (a : Account) (i : Address) (r : Role) : Account :=
  let a := remove_role a i r in
  if bool_decide (get_roles a i = ∅) then account_with_roles a (<[i := ∅]> (roles a)) else a.
Definition remove_role_pairs (legacy : bool) (a : Account) (l : list (Address * Role)) : Account :=
  foldl (λ a p, if legacy then legacy_remove_role a p.1 p.2 else remove_role a p.1 p.2) a l.

Fixpoint insert_features (s : FeatureSet) (l : list Feature) : outcome ManyError FeatureSet :=
  match l with
  | [] => Ok s
  | f :: l =>
      let r := FeatureSet_insert s f in
      if r.2 : bool then Err (unknown "Feature already part of the account.")
      else insert_features r.1 l
  end.

(** Number of addresses that may take part in a multisig transaction. *)
Definition multisig_members (a : Account) : N :=
  N.of_nat (length (filter (λ kv : Address * gset Role,
    Owner ∈ kv.2 ∨ CanMultisigApprove ∈ kv.2 ∨ CanMultisigSubmit ∈ kv.2) (btree_iter (roles a)))).

(** The multisig part of [_add_account]: fills in the defaults. *)
Definition set_multisig_arg (a : Account) : Account :=
  match FeatureSet_get MultisigAccountFeature (features a) with
  | Ok f =>
      let threshold := default (wrap64 (multisig_members a + U64_MAX)) (arg_threshold (arg f)) in
      let timeout := match arg_timeout_in_secs (arg f) with
                     | None => MULTISIG_DEFAULT_TIMEOUT_IN_SECS
                     | Some v => N.min MULTISIG_MAXIMUM_TIMEOUT_IN_SECS v
                     end in
      let automatic := default MULTISIG_DEFAULT_EXECUTE_AUTOMATICALLY
                         (arg_execute_automatically (arg f)) in
      account_with_features a (FeatureSet_insert (features a)
        (as_feature (mkMultisigFeature (mkMultisigArg (Some threshold) (Some timeout) (Some automatic))))).1
  | _ => a
  end.

(** [disabled.is_none() || disabled == Some(Either::Left(false))]. *)
Definition is_enabled (a : Account) : bool :=
  match disabled a with
  | None => true
  | Some (DisabledBool false) => true
  | _ => false
  end.

(** ** Storage operations *)

Section account_storage.
Context `{LedgerEnv}.

(** An error of the store counts as a missing account. *)
Definition get_account_even_disabled (s : LedgerStorage) (i : Address) :
    outcome ManyError (Account * list bytes) :=
  match merk_get (persistent_store s) (key_for_account i) with
  | Ok (Some l) => a ← decode_or l; Ok (a, [key_for_account i])
  | Panic t => Panic t
  | _ => Err (unknown_account (address_to_string i))
  end.
Definition get_account (s : LedgerStorage) (i : Address) : outcome ManyError (Account * list bytes) :=
  r ← get_account_even_disabled s i;
  if is_enabled r.1 then Ok r else Err (unknown_account (address_to_string i)).

Definition commit_account (i : Address) (a : Account) : LedgerM bytes :=
  store_apply_with unknown [(key_for_account i, Put (to_vec a))];;
  maybe_commit;;
  mret (key_for_account i).

Definition _add_account (a : Account) (add_event : bool) : LedgerM (Address * list bytes) :=
  r ← get_next_subresource ACCOUNT_IDENTITY_ROOT;
  let i := r.1 in
  let a := set_multisig_arg (add_role a i Owner) in
  (if add_event then log_event (E_AccountCreate i (description a) (roles a) (features a))
   else mret tt);;
  key ← commit_account i a;
  mret (i, r.2 ++ [key]).
Definition add_account (a : Account) : LedgerM (Address * list bytes) := _add_account a true.

Fixpoint add_account_metas (l : list AccountMeta) : LedgerM unit :=
  match l with
  | [] => mret tt
  | m :: l =>
      r ← _add_account (mkAccount (am_description m) (am_roles m) (am_features m) None) false;
      let i := r.1 in
      match am_subresource_id m, subresource_id i with
      | Some e, Some x =>
          if bool_decide (x ≠ e) then fails (unexpected_subresource_id (pretty x) (pretty e))
          else mret tt
      | _, _ => mret tt
      end;;
      match am_id m with
      | Some self =>
          if bool_decide (i ≠ self)
          then fails (unexpected_account_id (address_to_string i) (address_to_string self))
          else mret tt
      | None => mret tt
      end;;
      add_account_metas l
  end.
Definition with_account (identity : option Address) (accounts : option (list AccountMeta)) :
    LedgerM unit :=
  active ← reads (λ s, Ok (migration_active s TOKEN_MIGRATION));
  (if (active : bool) then
     default_identity ← reads (λ s, get_identity s IDENTITY_ROOT);
     store_apply [(b ACCOUNT_IDENTITY_ROOT, Put (address_to_vec (default default_identity identity)))]
   else mret tt);;
  match accounts with Some l => add_account_metas l | None => mret tt end.

Definition disable_account (i : Address) : LedgerM (list bytes) :=
  r ← reads (λ s, get_account_even_disabled s i);
  if is_enabled r.1 then
    key ← commit_account i (account_with_disabled r.1 (Some (DisabledBool true)));
    log_event (E_AccountDisable i);;
    maybe_commit;;
    mret (r.2 ++ [key])
  else fails (unknown_account (address_to_string i)).

Definition set_description (a : Account) (args : SetDescriptionArgs) : LedgerM bytes :=
  let a := Account_set_description a (Some (sd_description args)) in
  log_event (E_AccountSetDescription (sd_account args) (sd_description args));;
  commit_account (sd_account args) a.

Definition add_roles (a : Account) (args : AddRolesArgs) : LedgerM bytes :=
  let a := add_role_pairs a (role_pairs (ar_roles args)) in
  log_event (E_AccountAddRoles (ar_account args) (ar_roles args));;
  commit_account (ar_account args) a.

Definition remove_roles (a : Account) (args : RemoveRolesArgs) : LedgerM bytes :=
  if match rr_roles args !! rr_account args with
     | Some v => bool_decide (Owner ∈ v)
     | None => false
     end
  then fails account_must_own_itself
  else
    legacy ← reads (λ s, Ok (migration_active s LEGACY_REMOVE_ROLES_TRIGGER));
    let a := remove_role_pairs legacy a (role_pairs (rr_roles args)) in
    log_event (E_AccountRemoveRoles (rr_account args) (rr_roles args));;
    commit_account (rr_account args) a.

Definition add_features (a : Account) (args : AddFeaturesArgs) : LedgerM bytes :=
  fs ← lift (insert_features (features a) (FeatureSet_iter (af_features args)));
  let a := account_with_features a fs in
  let a := match af_roles args with
           | Some m => add_role_pairs a (role_pairs m)
           | None => a
           end in
  lift (validate_account a);;
  log_event (E_AccountAddFeatures (af_account args) (default ∅ (af_roles args)) (af_features args));;
  commit_account (af_account args) a.

Definition verify_acl (s : LedgerStorage) (sender addr : Address) (roles : list Role)
    (feature_id : N) : outcome ManyError (list bytes) :=
  if bool_decide (addr ≠ sender) then
    r ← map_err (λ _, unauthorized) (get_account s addr);
    verify_account_role r.1 sender feature_id roles;;
    Ok r.2
  else Ok [].
End account_storage.

(** ** Laws: loops over roles *)

Lemma elem_of_role_iter r v : r ∈ role_iter v ↔ r ∈ v.
Proof.
  unfold role_iter. rewrite list_elem_of_filter. split; [tauto|]. split; [done|].
  destruct r; compute_done.
Qed.

Lemma elem_of_role_pairs m i r : (i, r) ∈ role_pairs m ↔ ∃ v, m !! i = Some v ∧ r ∈ v.
Proof.
  unfold role_pairs. rewrite list_elem_of_bind. split.
  - intros ([j v] & (r' & Heq & Hr)%list_elem_of_fmap & Hj). simplify_eq/=.
    exists v. by rewrite <-elem_of_btree_iter, <-elem_of_role_iter.
  - intros (v & Hv & Hr). exists (i, v). rewrite elem_of_btree_iter. split; [|done].
    apply list_elem_of_fmap. exists r. by rewrite elem_of_role_iter.
Qed.

Lemma holds_add_role_pairs a l i r :
  holds (add_role_pairs a l) i r ↔ holds a i r ∨ (i, r) ∈ l.
Proof.
  revert a. induction l as [|[j q] l IH]; intros a; simpl.
  - rewrite elem_of_nil. tauto.
  - rewrite IH, holds_add_role, elem_of_cons. naive_solver.
Qed.

Lemma holds_legacy_remove_role a i r j q :
  holds (legacy_remove_role a i r) j q ↔ holds (remove_role a i r) j q.
Proof.
  unfold legacy_remove_role, get_roles. set (a' := remove_role a i r). clearbody a'.
  case_bool_decide as Hr; [|done]. unfold holds. simpl. destruct (decide (j = i)) as [->|Hne].
  - rewrite lookup_insert_eq. split; [intros (? & [= <-] & ?); set_solver|].
    intros (v & Hv & Hq). rewrite Hv in Hr. simpl in Hr. set_solver.
  - by rewrite lookup_insert_ne.
Qed.

Lemma holds_remove_role_pairs legacy a l i r :
  holds (remove_role_pairs legacy a l) i r ↔ holds a i r ∧ (i, r) ∉ l.
Proof.
  revert a. induction l as [|[j q] l IH]; intros a; simpl.
  - rewrite elem_of_nil. tauto.
  - rewrite IH, not_elem_of_cons. destruct legacy; rewrite ?holds_legacy_remove_role, holds_remove_role;
      naive_solver.
Qed.

Lemma roles_set_multisig_arg a : roles (set_multisig_arg a) = roles a.
Proof. unfold set_multisig_arg. by destruct (FeatureSet_get _ _). Qed.
Lemma disabled_set_multisig_arg a : disabled (set_multisig_arg a) = disabled a.
Proof. unfold set_multisig_arg. by destruct (FeatureSet_get _ _). Qed.
Lemma holds_set_multisig_arg a i r : holds (set_multisig_arg a) i r ↔ holds a i r.
Proof. unfold holds. by rewrite roles_set_multisig_arg. Qed.

Lemma disabled_add_role_pairs a l : disabled (add_role_pairs a l) = disabled a.
Proof. revert a. induction l as [|p l IH]; intros a; simpl; [done|]. by rewrite IH. Qed.

(** ** Laws: reading and writing accounts *)

Section account_laws.
Context `{LedgerEnv, !LedgerEnvLaws}.
Implicit Types (s : LedgerStorage) (i : Address) (a : Account).

(** The account stored under an id. *)
Definition stored s i a : Prop :=
  ∃ l, view s !! key_for_account i = Some l ∧ decode l = Ok a.

Lemma stored_inj s i a a' : stored s i a → stored s i a' → a = a'.
Proof. intros (l & ? & ?) (l' & ? & ?). congruence. Qed.

Lemma get_account_even_disabled_ok s i a ks :
  get_account_even_disabled s i = Ok (a, ks) ↔ stored s i a ∧ ks = [key_for_account i].
Proof.
  unfold get_account_even_disabled, stored. rewrite merk_get_view.
  change (merk_view (persistent_store s)) with (view s). unfold decode_or. split.
  - destruct (view s !! key_for_account i) as [l|]; [|done].
    destruct (decode l) as [a'| | |] eqn:E; simpl; try done. intros [= -> <-]. eauto.
  - intros [(l & -> & Hl) ->]. rewrite Hl. done.
Qed.

Lemma get_account_ok s i a ks :
  get_account s i = Ok (a, ks) ↔ stored s i a ∧ is_enabled a = true ∧ ks = [key_for_account i].
Proof.
  unfold get_account. split.
  - destruct (get_account_even_disabled s i) as [[a' ks']| | |] eqn:E; simpl; try done.
    apply get_account_even_disabled_ok in E as [? ->].
    destruct (is_enabled a') eqn:Ha; [|done]. intros [= -> <-]. auto.
  - intros (Ha & He & ->).
    rewrite (proj2 (get_account_even_disabled_ok s i a _) (conj Ha eq_refl)). simpl. by rewrite He.
Qed.

(** Accounts can be read: what is stored under an account key decodes. *)
Definition accounts_readable s : Prop :=
  ∀ i l, view s !! key_for_account i = Some l → ∃ a, decode l = Ok (a : Account).

Lemma get_account_cases s i :
  accounts_readable s →
  (∃ a, get_account s i = Ok (a, [key_for_account i]) ∧ stored s i a ∧ is_enabled a = true)
  ∨ (get_account s i = Err (unknown_account (address_to_string i))
     ∧ ∀ a, stored s i a → is_enabled a = false).
Proof.
  intros Hr. unfold get_account, get_account_even_disabled. rewrite merk_get_view.
  change (merk_view (persistent_store s)) with (view s). unfold decode_or.
  destruct (view s !! key_for_account i) as [l|] eqn:Hl.
  - destruct (Hr i l Hl) as [a Ha]. rewrite Ha. simpl.
    assert (stored s i a) as Hst by (exists l; auto).
    destruct (is_enabled a) eqn:He; [left; eauto|right].
    split; [done|]. intros a' Ha'. by rewrite (stored_inj s i a' a).
  - right. split; [done|]. intros a (l & ? & _). congruence.
Qed.

Lemma commit_account_ok i a s :
  ∃ s', commit_account i a s = (s', Ok (key_for_account i))
    ∧ view s' = <[key_for_account i := to_vec a]> (view s)
    ∧ latest_tid s' = latest_tid s ∧ frame s s'.
Proof.
  unfold commit_account.
  destruct (store_apply_with_ok unknown [(key_for_account i, Put (to_vec a))] s
    (keys_ascending_singleton _ _)) as (s1 & Hs1 & Hv1 & _ & Ht1 & Hf1).
  rewrite (bind_ok _ _ _ _ _ Hs1).
  destruct (maybe_commit_ok s1) as (s2 & Hs2 & Hv2 & Ht2 & Hf2).
  rewrite (bind_ok _ _ _ _ _ Hs2). exists s2. split; [done|].
  split; [by rewrite Hv2, Hv1|]. split; [congruence|by trans s1].
Qed.

Lemma commit_account_writes i a : only_writes (λ k, k = key_for_account i) (commit_account i a).
Proof. unfold commit_account. auto 10 with writes. Qed.

(** ** Changing one account *)

Definition account_write_key i (k : bytes) : Prop := k = key_for_account i ∨ event_key k.

(** Account [i] becomes [a], one or more events are logged, and nothing else changes. *)
Record updated s i a s' : Prop := {
  updated_stored : stored s' i a;
  updated_frame : frame s s';
  updated_events : ∃ n, nb_events s' = Ok n;
  updated_untouched k : ¬ account_write_key i k → untouched s s' k;
}.

Lemma account_key_not_event i k : event_key k → k ≠ key_for_account i.
Proof. intros [r ->]. key_discr. Qed.

Lemma nb_events_after s n : view s !! EVENT_COUNT_ROOT = Some (be_bytes 8 n) → ∃ n', nb_events s = Ok n'.
Proof. intros Hv. rewrite nb_events_view, Hv, read_be_be_bytes. eauto. Qed.

Lemma event_writes {A} i (m : LedgerM A) : only_writes event_key m → only_writes (account_write_key i) m.
Proof. intros Hm. eapply only_writes_mono; [done|by right]. Qed.
Lemma commit_writes i a : only_writes (account_write_key i) (commit_account i a).
Proof. eapply only_writes_mono; [apply commit_account_writes|by left]. Qed.

(** [log_event(..).and_then(|_| self.commit_account(..))]. *)
Lemma log_commit_ok e i a s n :
  nb_events s = Ok n →
  ∃ s', (log_event e;; commit_account i a) s = (s', Ok (key_for_account i)) ∧ updated s i a s'.
Proof.
  intros Hn.
  assert (only_writes (account_write_key i) (log_event e;; commit_account i a)) as Hw.
  { apply only_writes_bind; [apply event_writes; auto with writes|]. intros. apply commit_writes. }
  destruct (Hw s) as [Hf Hu]. clear Hw.
  destruct (log_event_ok e s n Hn) as (s1 & Hs1 & Hv1 & Ht1 & Hf1).
  rewrite (bind_ok _ _ _ _ _ Hs1) in *.
  destruct (commit_account_ok i a s1) as (s2 & Hs2 & Hv2 & Ht2 & Hf2).
  rewrite Hs2 in *. exists s2. split; [done|].
  split; [|done| |done].
  - exists (to_vec a). rewrite Hv2, lookup_insert_eq. split; [done|by apply decode_to_vec].
  - eapply nb_events_after. rewrite Hv2, lookup_insert_ne, Hv1 by key_discr. by simplify_map_eq.
Qed.

(** The order of [disable_account]. *)
Lemma commit_log_ok {C} e i a s n (r : C) :
  nb_events s = Ok n →
  ∃ s', (commit_account i a;; log_event e;; maybe_commit;; mret r) s = (s', Ok r) ∧ updated s i a s'.
Proof.
  intros Hn.
  assert (only_writes (account_write_key i)
    (commit_account i a;; log_event e;; maybe_commit;; mret r)) as Hw.
  { apply only_writes_bind; [apply commit_writes|]. intros. apply event_writes. auto 10 with writes. }
  destruct (Hw s) as [Hf Hu]. clear Hw.
  destruct (commit_account_ok i a s) as (s1 & Hs1 & Hv1 & Ht1 & Hf1).
  rewrite (bind_ok _ _ _ _ _ Hs1) in *.
  assert (nb_events s1 = Ok n) as Hn1 by (by rewrite nb_events_view, Hv1, lookup_insert_ne, <-nb_events_view by key_discr).
  destruct (log_event_ok e s1 n Hn1) as (s2 & Hs2 & Hv2 & Ht2 & Hf2).
  rewrite (bind_ok _ _ _ _ _ Hs2) in *.
  destruct (maybe_commit_ok s2) as (s3 & Hs3 & Hv3 & Ht3 & Hf3).
  rewrite (bind_ok _ _ _ _ _ Hs3) in *. exists s3. split; [done|]. split; [|done| |done].
  - exists (to_vec a). rewrite Hv3, Hv2. split; [|by apply decode_to_vec].
    rewrite !lookup_insert_ne by key_discr. by rewrite Hv1, lookup_insert_eq.
  - eapply nb_events_after. rewrite Hv3, Hv2. by simplify_map_eq.
Qed.
End account_laws.
