(* ===== verification/AccountModule.v ===== *)
(** * many-ledger: the account endpoints

    Models the [AccountModuleBackend] of [many-ledger/src/module/account.rs]: the handlers
    of [account.create], [setDescription], [listRoles], [getRoles], [addRoles],
    [removeRoles], [info], [disable] and [addFeatures]; and proves the invariant of the
    stored accounts over any sequence of commands.

    A [Context] stands for the request context a handler hands its keys to
    ([prove_state]): what it answers to the keys. *)
From S2P Require Import Prelude Error External Address Types Account Events Migration Storage.
From S2P Require Import StorageLaws LedgerEvent Ledger Tokens Supply Subresource AccountStorage.

#[local] Open Scope string_scope.
#[local] Open Scope list_scope.
#[local] Open Scope N_scope.

Abbreviation Context := (list bytes → outcome ManyError unit).

Module AccountBackend.
Section handlers.
Context `{LedgerEnv}.

Definition create (sender : Address) (args : CreateArgs) : LedgerM Address :=
  if FeatureSet_is_empty (ca_features args) then fails empty_feature
  else
    let a := Account_create sender args in
    lift (validate_account a);;
    r ← add_account a;
    mret r.1.

Definition set_description (sender : Address) (args : SetDescriptionArgs) : LedgerM unit :=
  r ← reads (λ s, get_account s (sd_account args));
  if negb (has_role r.1 sender Owner) then fails (user_needs_role "owner")
  else AccountStorage.set_description r.1 args;; mret tt.

Definition list_roles (s : LedgerStorage) (account : Address) (context : Context) :
    outcome ManyError (gset Role) :=
  r ← get_account s account;
  context r.2;;
  Ok (get_roles_for_account r.1).

Definition get_roles (s : LedgerStorage) (args : GetRolesArgs) (context : Context) :
    outcome ManyError AddressRoleMap :=
  r ← get_account s (gr_account args);
  context r.2;;
  Ok (list_to_map (reverse ((λ i, (i, Account.get_roles r.1 i)) <$> gr_identities args))).

Definition add_roles (sender : Address) (args : AddRolesArgs) : LedgerM unit :=
  r ← reads (λ s, get_account s (ar_account args));
  if negb (has_role r.1 sender Owner) then fails (user_needs_role "owner")
  else AccountStorage.add_roles r.1 args;; mret tt.

Definition remove_roles (sender : Address) (args : RemoveRolesArgs) : LedgerM unit :=
  r ← reads (λ s, get_account s (rr_account args));
  if negb (has_role r.1 sender Owner) then fails (user_needs_role (role_to_string Owner))
  else AccountStorage.remove_roles r.1 args;; mret tt.

Definition info (s : LedgerStorage) (account : Address) (context : Context) :
    outcome ManyError Account :=
  r ← get_account_even_disabled s account;
  context r.2;;
  Ok r.1.

Definition disable (sender : Address) (args : DisableArgs) : LedgerM unit :=
  r ← reads (λ s, get_account s (di_account args));
  if negb (has_role r.1 sender Owner) then fails (user_needs_role (role_to_string Owner))
  else disable_account (di_account args);; mret tt.

Definition add_features (sender : Address) (args : AddFeaturesArgs) : LedgerM unit :=
  if FeatureSet_is_empty (af_features args) then fails empty_feature
  else
    r ← reads (λ s, get_account s (af_account args));
    lift (needs_role r.1 sender [Owner]);;
    AccountStorage.add_features r.1 args;; mret tt.
End handlers.
End AccountBackend.

(** ** Commands *)

Inductive account_cmd : Type :=
| ACreate (args : CreateArgs)
| ASetDescription (args : SetDescriptionArgs)
| AAddRoles (args : AddRolesArgs)
| ARemoveRoles (args : RemoveRolesArgs)
| ADisable (args : DisableArgs)
| AAddFeatures (args : AddFeaturesArgs).

(** The account a command is about; [create] has none yet. *)
Definition cmd_target (c : account_cmd) : option Address :=
  match c with
  | ACreate _ => None
  | ASetDescription args => Some (sd_account args)
  | AAddRoles args => Some (ar_account args)
  | ARemoveRoles args => Some (rr_account args)
  | ADisable args => Some (di_account args)
  | AAddFeatures args => Some (af_account args)
  end.

Section commands.
Context `{LedgerEnv}.

Definition account_step (sender : Address) (c : account_cmd) : LedgerM unit :=
  match c with
  | ACreate args => AccountBackend.create sender args;; mret tt
  | ASetDescription args => AccountBackend.set_description sender args
  | AAddRoles args => AccountBackend.add_roles sender args
  | ARemoveRoles args => AccountBackend.remove_roles sender args
  | ADisable args => AccountBackend.disable sender args
  | AAddFeatures args => AccountBackend.add_features sender args
  end.

Fixpoint account_steps (l : list (Address * account_cmd)) (s : LedgerStorage) :
    LedgerStorage * list (outcome ManyError unit) :=
  match l with
  | [] => (s, [])
  | c :: l =>
      let r := account_step c.1 c.2 s in
      let rs := account_steps l r.1 in (rs.1, r.2 :: rs.2)
  end.
End commands.

(** ** The invariant of the stored accounts *)

Section account_invariant.
Context `{LedgerEnv, !LedgerEnvLaws}.
Implicit Types (s : LedgerStorage) (i base : Address) (a : Account).

(** Every account owns itself; its id is a subresource of [base] below the counter; what
    the operations read can be read. *)
Record accounts_inv s base : Prop := {
  inv_owned i a : stored s i a → holds a i Owner;
  inv_readable : accounts_readable s;
  inv_identity : subresource_identity s ACCOUNT_IDENTITY_ROOT = Ok base;
  inv_base : can_sign base = true;
  inv_ids : ∃ c, get_subresource_counter s base = Ok c ∧
    ∀ i, is_Some (view s !! key_for_account i) → ∃ n, n < c ∧ subresource base n i;
  inv_table : symbols_readable s;
  inv_events : ∃ n, nb_events s = Ok n;
}.

Lemma counter_key_frame s s' i : frame s s' → counter_key s' i = counter_key s i.
Proof. intros Hf. unfold counter_key, migration_active. by rewrite (frame_migrations _ _ Hf). Qed.

Lemma counter_key_config s i : b "/config/" `prefix_of` counter_key s i.
Proof.
  unfold counter_key, key_for_subresource_counter. destruct (migration_active _ _).
  - by exists (b "subresource_counter/" ++ ab i).
  - by exists (b "account_id").
Qed.

Lemma config_not_account i k : b "/config/" `prefix_of` k → ¬ account_write_key i k.
Proof. intros [r ->] [Hk|[r' Hr]]; key_discr. Qed.

(** What the configuration says does not change when the accounts do. *)
Lemma config_step s s' base :
  frame s s' → (∀ k, b "/config/" `prefix_of` k → untouched s s' k) →
  subresource_identity s' ACCOUNT_IDENTITY_ROOT = subresource_identity s ACCOUNT_IDENTITY_ROOT
  ∧ get_subresource_counter s' base = get_subresource_counter s base
  ∧ (symbols_readable s → symbols_readable s').
Proof.
  intros Hf Hu. split; [|split].
  - rewrite !subresource_identity_view.
    destruct (Hu (b ACCOUNT_IDENTITY_ROOT)) as [-> _]; [by exists (b "account_identity")|].
    destruct (Hu (b IDENTITY_ROOT)) as [-> _]; [by exists (b "identity")|done].
  - unfold get_subresource_counter. rewrite !store_get_view, (counter_key_frame s s') by done.
    by destruct (Hu (counter_key s base) (counter_key_config s base)) as [-> _].
  - intros Hs. eapply symbols_readable_step; eauto. intros k [r ->]. apply Hu.
    by exists (b "symbols" ++ r).
Qed.

Lemma account_key_untouched s i a s' j :
  updated s i a s' → j ≠ i → view s' !! key_for_account j = view s !! key_for_account j.
Proof.
  intros Hup Hne. apply (updated_untouched _ _ _ _ Hup).
  intros [?%key_account_inj|[r Hr]]; [done|]. key_discr.
Qed.

Lemma updated_other s i a s' j c : updated s i a s' → j ≠ i → stored s' j c ↔ stored s j c.
Proof. intros Hup Hne. unfold stored. by rewrite (account_key_untouched s i a s'). Qed.

(** Writing an account under an id already given out keeps the invariant. *)
Lemma updated_inv s base i a s' :
  accounts_inv s base →
  (∀ c, get_subresource_counter s base = Ok c → ∃ n, n < c ∧ subresource base n i) →
  holds a i Owner → updated s i a s' → accounts_inv s' base.
Proof.
  intros [Ho Hr Hid Hb (c & Hc & Hids) Htab _] Hgiven Hown Hup.
  destruct (config_step s s' base (updated_frame _ _ _ _ Hup)) as (Hid' & Hc' & Htab').
  { intros k Hk. apply (updated_untouched _ _ _ _ Hup). by apply config_not_account. }
  split; [..|by apply Htab'|apply Hup]; [| |congruence|done|].
  - intros j x Hj. destruct (decide (j = i)) as [->|Hne].
    + by rewrite (stored_inj s' i x a Hj (updated_stored _ _ _ _ Hup)).
    + apply Ho. by rewrite <-updated_other.
  - intros j l Hl. destruct (decide (j = i)) as [->|Hne].
    + destruct (updated_stored _ _ _ _ Hup) as (l' & Hl' & Hd). simplify_eq. eauto.
    + apply (Hr j). by rewrite <-(account_key_untouched s i a s').
  - exists c. split; [congruence|]. intros j Hj. destruct (decide (j = i)) as [->|Hne]; [by apply Hgiven|].
    apply Hids. by rewrite <-(account_key_untouched s i a s').
Qed.

(** *** Commands on an existing account *)

(** Success changes [i] from [a0], which [sender] owns, to [a]; otherwise there is an error
    and no change. *)
Definition changes {A} (m : LedgerM A) s i (sender : Address) : Prop :=
  (∃ e, m s = (s, Err e))
  ∨ ∃ s' r a0 a, m s = (s', Ok r) ∧ stored s i a0 ∧ is_enabled a0 = true
      ∧ has_role a0 sender Owner = true ∧ updated s i a s' ∧ (holds a0 i Owner → holds a i Owner).

Lemma changes_inv {A} (m : LedgerM A) s i sender base :
  accounts_inv s base → changes m s i sender → accounts_inv (m s).1 base ∧ answers (m s).2 = true.
Proof.
  intros Hinv [(e & ->)|(s' & r & a0 & a & -> & Hst & He & _ & Hup & Hown)]; [done|].
  split; [|done]. eapply updated_inv; eauto.
  - intros c Hc. destruct (inv_ids _ _ Hinv) as (c' & Hc' & Hids).
    rewrite Hc in Hc'. injection Hc' as <-. apply Hids. destruct Hst as (l & -> & _). eauto.
  - apply Hown. by eapply inv_owned.
Qed.

Definition op_changes {A} (m : LedgerM A) s i a0 : Prop :=
  (∃ e, m s = (s, Err e))
  ∨ ∃ s' r a, m s = (s', Ok r) ∧ updated s i a s' ∧ (holds a0 i Owner → holds a i Owner).

Lemma op_changes_ok {A} (m : LedgerM A) s i a0 a s' r :
  m s = (s', Ok r) → updated s i a s' → (holds a0 i Owner → holds a i Owner) → op_changes m s i a0.
Proof. intros. right. eauto 10. Qed.

Lemma op_changes_then {A} (m : LedgerM A) s i a0 : op_changes m s i a0 → op_changes (m;; mret tt) s i a0.
Proof.
  intros [(e & He)|(s' & r & a & Hm & Hup & Ho)].
  - left. exists e. by rewrite (bind_err _ _ _ _ _ He).
  - right. exists s', tt, a. by rewrite (bind_ok _ _ _ _ _ Hm).
Qed.

(** A handler first reads the account and checks the sender. *)
Lemma owner_handler_changes {A} (f : Account → LedgerM A) e s i sender :
  accounts_readable s →
  (∀ a0, stored s i a0 → is_enabled a0 = true → has_role a0 sender Owner = true →
     op_changes (f a0) s i a0) →
  changes (r ← reads (λ s, get_account s i);
           if negb (has_role r.1 sender Owner) then fails e else f r.1;; mret tt) s i sender.
Proof.
  intros Hr Hf. unfold changes. destruct (get_account_cases s i Hr) as [(a0 & Hg & Hst & He)|[Hg _]].
  - erewrite (bind_reads _ _ s) by exact Hg. simpl. destruct (has_role a0 sender Owner) eqn:Hown; simpl.
    + destruct (op_changes_then _ _ _ _ (Hf a0 Hst He Hown)) as [?|(s' & r & a & ? & ? & ?)];
        [by left|right]. eauto 10.
    + left. by eexists.
  - left. eexists. by apply (bind_reads_err (λ s, get_account s i)).
Qed.

Lemma set_description_changes s base sender args :
  accounts_inv s base → changes (AccountBackend.set_description sender args) s (sd_account args) sender.
Proof.
  intros [_ Hr _ _ _ _ [n Hn]]. apply (owner_handler_changes (λ a, AccountStorage.set_description a args)); [done|]. intros a0 _ _ _.
  destruct (log_commit_ok (E_AccountSetDescription (sd_account args) (sd_description args))
    (sd_account args) (Account_set_description a0 (Some (sd_description args))) s n Hn) as (s' & Hs & Hup).
  eapply op_changes_ok; [exact Hs|done|done].
Qed.

Lemma add_roles_changes s base sender args :
  accounts_inv s base → changes (AccountBackend.add_roles sender args) s (ar_account args) sender.
Proof.
  intros [_ Hr _ _ _ _ [n Hn]]. apply (owner_handler_changes (λ a, AccountStorage.add_roles a args)); [done|]. intros a0 _ _ _.
  destruct (log_commit_ok (E_AccountAddRoles (ar_account args) (ar_roles args)) (ar_account args)
    (add_role_pairs a0 (role_pairs (ar_roles args))) s n Hn) as (s' & Hs & Hup).
  eapply op_changes_ok; [exact Hs|done|]. rewrite holds_add_role_pairs. by left.
Qed.

Lemma remove_roles_changes s base sender args :
  accounts_inv s base → changes (AccountBackend.remove_roles sender args) s (rr_account args) sender.
Proof.
  intros [_ Hr _ _ _ _ [n Hn]]. apply (owner_handler_changes (λ a, AccountStorage.remove_roles a args)); [done|]. intros a0 _ _ _.
  unfold remove_roles. destruct (match rr_roles args !! rr_account args with
    Some v => bool_decide (Owner ∈ v) | None => false end) eqn:Hself; [left; by eexists|].
  destruct (log_commit_ok (E_AccountRemoveRoles (rr_account args) (rr_roles args)) (rr_account args)
    (remove_role_pairs (migration_active s LEGACY_REMOVE_ROLES_TRIGGER) a0 (role_pairs (rr_roles args)))
    s n Hn) as (s' & Hs & Hup).
  eapply op_changes_ok; [exact Hs|done|]. rewrite holds_remove_role_pairs. intros Hh. split; [done|].
  intros (v & Hv & Hin)%elem_of_role_pairs. rewrite Hv in Hself. by apply bool_decide_eq_false in Hself.
Qed.

Lemma disable_changes s base sender args :
  accounts_inv s base → changes (AccountBackend.disable sender args) s (di_account args) sender.
Proof.
  intros [_ Hr _ _ _ _ [n Hn]].
  apply (owner_handler_changes (λ _, disable_account (di_account args))); [done|].
  intros a0 Hst He _. unfold disable_account.
  assert (get_account_even_disabled s (di_account args) = Ok (a0, [key_for_account (di_account args)])) as Hg
    by (by apply get_account_even_disabled_ok).
  destruct (commit_log_ok (E_AccountDisable (di_account args)) (di_account args)
    (account_with_disabled a0 (Some (DisabledBool true))) s n
    ([key_for_account (di_account args)] ++ [key_for_account (di_account args)]) Hn) as (s' & Hs & Hup).
  eapply op_changes_ok; [|done|done].
  erewrite (bind_reads _ _ s) by exact Hg. simpl. rewrite He.
  destruct (commit_account_ok (di_account args) (account_with_disabled a0 (Some (DisabledBool true))) s)
    as (s1 & Hs1 & _).
  rewrite (bind_ok _ _ _ _ _ Hs1). rewrite (bind_ok _ _ _ _ _ Hs1) in Hs. exact Hs.
Qed.

(** *** Features *)

Lemma FeatureSet_get_answers F `{TryCreateFeature F} (fs : FeatureSet) :
  (∀ f, answers (try_create F f) = true) → answers (FeatureSet_get F fs) = true.
Proof. intros Hf. unfold FeatureSet_get. by destruct (get_feature fs (ID F)). Qed.

Lemma try_create_multisig_answers f : answers (try_create MultisigAccountFeature f) = true.
Proof. simpl. destruct (attr_arguments f) as [|[] [|]]; done. Qed.

Lemma feature_error_answers {F} (m : outcome ManyError F) :
  answers m = true → answers (feature_error m) = true.
Proof. destruct m; simpl; try done. by case_bool_decide. Qed.

Lemma bind_answers {A B} (m : outcome ManyError A) (f : A → outcome ManyError B) :
  answers m = true → (∀ x, answers (f x) = true) → answers (m ≫= f) = true.
Proof. by destruct m; simpl. Qed.

Lemma check_roles_answers X l : answers (check_roles X l) = true.
Proof. induction l; simpl; [done|]. by case_bool_decide. Qed.

Lemma validate_account_answers a : answers (validate_account a) = true.
Proof.
  unfold validate_account, validate_features_for_account, validate_roles_for_account.
  repeat (apply bind_answers; intros).
  all: try apply feature_error_answers; auto using FeatureSet_get_answers, try_create_multisig_answers,
    check_roles_answers.
Qed.

Lemma insert_features_answers fs l : answers (insert_features fs l) = true.
Proof. revert fs. induction l; intros fs; simpl; [done|]. by case_bool_decide. Qed.

Lemma answers_cases {A} (m : outcome ManyError A) :
  answers m = true → (∃ x, m = Ok x) ∨ (∃ e, m = Err e).
Proof. destruct m; simpl; try done; eauto. Qed.

Lemma add_features_changes s base sender args :
  accounts_inv s base → changes (AccountBackend.add_features sender args) s (af_account args) sender.
Proof.
  intros [_ Hr _ _ _ _ [n Hn]]. unfold AccountBackend.add_features, changes.
  destruct (FeatureSet_is_empty (af_features args)); [left; by eexists|].
  destruct (get_account_cases s (af_account args) Hr) as [(a0 & Hg & Hst & He)|[Hg _]].
  2:{ left. eexists. by apply (bind_reads_err (λ s, get_account s (af_account args))). }
  erewrite (bind_reads _ _ s) by exact Hg. cbn [fst].
  destruct (needs_role_cases a0 sender [Owner]) as [Hrole|[e ->]]; [rewrite Hrole|left; by eexists].
  erewrite (bind_lift _ _ s) by done. unfold add_features.
  destruct (answers_cases _ (insert_features_answers (features a0) (FeatureSet_iter (af_features args))))
    as [[fs ->]|[e ->]]; [|left; by eexists].
  set (a := match af_roles args with
            | Some m => add_role_pairs (account_with_features a0 fs) (role_pairs m)
            | None => account_with_features a0 fs end).
  destruct (answers_cases _ (validate_account_answers a)) as [[[] Hv]|[e Hv]].
  - destruct (log_commit_ok (E_AccountAddFeatures (af_account args) (default ∅ (af_roles args))
      (af_features args)) (af_account args) a s n Hn) as (s' & Hs & Hup).
    right. exists s', tt, a0, a. split; [|split_and!; try done].
    + unfold mbind, st_bind, lift, mret, st_ret in *. fold a. rewrite Hv.
      by rewrite Hs.
    + apply needs_role_ok, Exists_cons in Hrole as [?|Hrole]; [by apply has_role_holds|inversion Hrole].
    + unfold a. destruct (af_roles args); [|done]. rewrite holds_add_role_pairs. by left.
  - left. exists e. unfold mbind, st_bind, lift. fold a. by rewrite Hv.
Qed.

(** *** Creation *)

Lemma accounts_inv_allocates s base :
  accounts_inv s base → ∃ c X, allocates s ACCOUNT_IDENTITY_ROOT base c X.
Proof.
  intros [_ _ Hid Hb (c & Hc & _) Htab _]. destruct (symbols_readable_get s Htab) as [X HX].
  exists c, X. split; auto.
Qed.

(** Moving the counter on keeps the invariant. *)
Lemma allocated_inv s s' base c n :
  accounts_inv s base → get_subresource_counter s base = Ok c → c ≤ n → n ≤ MAX_SUBRESOURCE_ID →
  view s' = <[counter_key s base := be_bytes 4 (n + 1)]> (view s) →
  committed s' = committed s → frame s s' → accounts_inv s' base.
Proof.
  intros [Ho Hr Hid Hb (c' & Hc' & Hids) Htab (m & Hm)] Hc Hle Hmax Hv Hcom Hf.
  assert (∀ k, k ≠ counter_key s base → untouched s s' k) as Hu.
  { intros k Hk. split; [by rewrite Hv, lookup_insert_ne|left; by rewrite Hcom]. }
  assert (∀ i, untouched s s' (key_for_account i)) as Hacc.
  { intros i. apply Hu. destruct (counter_key_config s base) as [r ->]. key_discr. }
  rewrite Hc in Hc'. injection Hc' as <-. split.
  - intros i a Hst. apply Ho. unfold stored in *. by rewrite (proj1 (Hacc i)) in Hst.
  - intros i l Hl. rewrite (proj1 (Hacc i)) in Hl. by apply (Hr i).
  - rewrite subresource_identity_view in *.
    rewrite (proj1 (Hu _ (counter_key_ne s base ACCOUNT_IDENTITY_ROOT (or_introl eq_refl)))).
    by rewrite (proj1 (Hu _ (counter_key_ne s base IDENTITY_ROOT (or_intror (or_intror eq_refl))))).
  - done.
  - exists (n + 1). split.
    + eapply counter_after; eauto. by rewrite Hv, lookup_insert_eq.
    + intros i Hi. rewrite (proj1 (Hacc i)) in Hi. destruct (Hids i Hi) as (x & ? & ?).
      exists x. split; [lia|done].
  - eapply symbols_readable_step; eauto. intros k [r ->]. apply Hu.
    unfold counter_key. destruct (migration_active s TOKEN_MIGRATION); key_discr.
  - exists m. rewrite nb_events_view. destruct (Hu EVENT_COUNT_ROOT) as [-> _]; [|by rewrite <-nb_events_view].
    destruct (counter_key_config s base) as [r ->]. key_discr.
Qed.

(** The account that [create] stores. *)
Definition new_account (sender : Address) (args : CreateArgs) i : Account :=
  set_multisig_arg (add_role (Account_create sender args) i Owner).

Lemma holds_new_account sender args i :
  holds (new_account sender args i) i Owner ∧ holds (new_account sender args i) sender Owner.
Proof.
  unfold new_account. rewrite !holds_set_multisig_arg, !holds_add_role. split; [by right|].
  left. unfold Account_create, holds, insert_role. simpl. rewrite lookup_insert_eq.
  eexists. split; [done|]. set_solver.
Qed.

Lemma create_run s base sender args :
  accounts_inv s base →
  (∃ e, AccountBackend.create sender args s = (s, Err e))
  ∨ ∃ s' i, AccountBackend.create sender args s = (s', Ok i)
      ∧ view s !! key_for_account i = None ∧ (∃ n, subresource base n i)
      ∧ stored s' i (new_account sender args i)
      ∧ (∀ j, j ≠ i → view s' !! key_for_account j = view s !! key_for_account j)
      ∧ accounts_inv s' base.
Proof.
  intros Hinv. unfold AccountBackend.create.
  destruct (FeatureSet_is_empty (ca_features args)); [left; by eexists|].
  destruct (answers_cases _ (validate_account_answers (Account_create sender args)))
    as [[[] Hv]|[e Hv]]; rewrite Hv; [|left; by eexists].
  rewrite (bind_lift _ _ s tt) by done. unfold add_account, _add_account.
  destruct (accounts_inv_allocates s base Hinv) as (c & X & Halloc).
  destruct (get_next_subresource_spec s _ base c X Halloc)
    as [(n & i & s1 & ks & Hg & Hcn & Hsub & _ & _ & Hv1 & Hcom1 & _ & Hf1)|[He _]].
  2:{ left. eexists. erewrite bind_err; [done|]. by erewrite bind_err. }
  pose proof (subresource_id_of _ _ _ Hsub) as [_ Hmax].
  assert (accounts_inv s1 base) as Hinv1 by (apply (allocated_inv s s1 base c n); auto; apply Halloc).
  destruct (inv_events _ _ Hinv1) as [m Hm].
  destruct (log_commit_ok (E_AccountCreate i (description (new_account sender args i))
    (roles (new_account sender args i)) (features (new_account sender args i))) i
    (new_account sender args i) s1 m Hm) as (s2 & Hs2 & Hup).
  right. exists s2, i. split_and!.
  - unfold mbind, st_bind in *. rewrite Hg. cbn [fst snd]. fold (new_account sender args i).
    destruct (log_event _ s1) as [s3 [?|?|?|]]; try done. by rewrite Hs2.
  - destruct (view s !! key_for_account i) as [l|] eqn:Hl; [|done]. exfalso.
    destruct (inv_ids _ _ Hinv) as (c' & Hc' & Hids).
    rewrite (alloc_counter _ _ _ _ _ Halloc) in Hc'. injection Hc' as <-.
    destruct (Hids i) as (x & Hx & Hsx); [eauto|].
    pose proof (subresource_inj _ _ _ _ _ Hsub Hsx). lia.
  - by exists n.
  - apply Hup.
  - intros j Hj. rewrite (account_key_untouched s1 i _ s2 j Hup Hj), Hv1, lookup_insert_ne; [done|].
    destruct (counter_key_config s base) as [r ->]. key_discr.
  - apply (updated_inv s1 base i (new_account sender args i)); [done| |apply holds_new_account|done].
    intros c' Hc'. exists n. split; [|done].
    rewrite (counter_after s s1 base n Hmax Hf1) in Hc' by (by rewrite Hv1, lookup_insert_eq).
    injection Hc' as <-. lia.
Qed.

(** *** Sequences of commands *)

Lemma step_changes s base sender c i :
  accounts_inv s base → cmd_target c = Some i → changes (account_step sender c) s i sender.
Proof.
  intros Hinv Hc. destruct c; simpl in Hc; simplify_eq; simpl;
    eauto using set_description_changes, add_roles_changes, remove_roles_changes, disable_changes,
      add_features_changes.
Qed.

Lemma create_step s base sender args :
  accounts_inv s base →
  accounts_inv (account_step sender (ACreate args) s).1 base
  ∧ answers (account_step sender (ACreate args) s).2 = true
  ∧ ∀ i a, stored s i a → stored (account_step sender (ACreate args) s).1 i a.
Proof.
  intros Hinv. simpl.
  destruct (create_run s base sender args Hinv) as [(e & He)|(s' & i & Hs & Hnone & _ & _ & Ho & Hinv')].
  - by rewrite (bind_err _ _ _ _ _ He).
  - rewrite (bind_ok _ _ _ _ _ Hs). split; [done|]. split; [done|]. intros j a (l & Hl & Hd).
    exists l. split; [|done]. simpl. rewrite Ho; [done|]. intros ->. congruence.
Qed.

Lemma step_inv s base sender c :
  accounts_inv s base →
  accounts_inv (account_step sender c s).1 base ∧ answers (account_step sender c s).2 = true.
Proof.
  intros Hinv. destruct (cmd_target c) as [i|] eqn:Ht.
  - eapply changes_inv; eauto using step_changes.
  - destruct c; simpl in Ht; try done. destruct (create_step s base sender args Hinv) as (? & ? & _). done.
Qed.

(** A disabled account is not changed any more. *)
Lemma step_disabled s base sender c i a :
  accounts_inv s base → stored s i a → is_enabled a = false →
  stored (account_step sender c s).1 i a.
Proof.
  intros Hinv Hst Hdis. destruct (cmd_target c) as [j|] eqn:Ht.
  - destruct (step_changes s base sender c j Hinv Ht) as [(e & ->)|(s' & r & a0 & a1 & -> & Hst0 & He & _ & Hup & _)];
      [done|]. simpl. rewrite (updated_other s j a1 s'); [done|done|].
    intros ->. by rewrite (stored_inj s j a0 a Hst0 Hst), Hdis in He.
  - destruct c; simpl in Ht; try done. by apply (create_step s base sender args Hinv).
Qed.

(** C5: over any sequence of account commands by any senders, each of which may
    fail, none panics, and afterwards every stored account still owns itself, has an id that is a
    subresource of the ledger's account identity below the counter, and can be decoded;
    and an account that was disabled is stored exactly as it was. *)
Theorem accounts_invariant s base l :
  accounts_inv s base →
  accounts_inv (account_steps l s).1 base
  ∧ Forall (λ o, answers o = true) (account_steps l s).2
  ∧ ∀ i a, stored s i a → is_enabled a = false → stored (account_steps l s).1 i a.
Proof.
  revert s. induction l as [|[sender c] l IH]; intros s Hinv; [done|]. cbn [account_steps fst snd].
  destruct (step_inv s base sender c Hinv) as [Hinv' Hans].
  destruct (IH _ Hinv') as (? & ? & Hdis). split; [done|]. split; [by constructor|].
  intros i a Hst He. apply Hdis; [|done]. by eapply step_disabled.
Qed.

(** C10: only an owner changes an account. A command on an existing account
    either is refused and changes nothing, or the account is stored and enabled, the sender is
    one of its owners, and no other account changes. *)
Theorem account_access_control s base sender c i :
  accounts_inv s base → cmd_target c = Some i →
  (∃ e, account_step sender c s = (s, Err e))
  ∨ ∃ s' a, account_step sender c s = (s', Ok tt)
      ∧ get_account s i = Ok (a, [key_for_account i]) ∧ has_role a sender Owner = true
      ∧ ∀ j, j ≠ i → view s' !! key_for_account j = view s !! key_for_account j.
Proof.
  intros Hinv Ht.
  destruct (step_changes s base sender c i Hinv Ht) as
    [?|(s' & [] & a0 & a & Hs & Hst & He & Hown & Hup & _)]; [by left|right].
  exists s', a0. split; [done|]. split; [by apply get_account_ok|]. split; [done|].
  intros j Hj. by eapply account_key_untouched.
Qed.

(** [account.create] either is refused and changes nothing, or stores a new
    account under an id that no account had: a subresource of the ledger's account identity.
    The new account is owned by itself and by its creator, and no other account changes. *)
Theorem create_account_spec s base sender args :
  accounts_inv s base →
  (∃ e, AccountBackend.create sender args s = (s, Err e))
  ∨ ∃ s' i a n, AccountBackend.create sender args s = (s', Ok i)
      ∧ with_subresource_id base n = Ok i ∧ view s !! key_for_account i = None
      ∧ get_account s' i = Ok (a, [key_for_account i])
      ∧ has_role a i Owner = true ∧ has_role a sender Owner = true
      ∧ ∀ j, j ≠ i → view s' !! key_for_account j = view s !! key_for_account j.
Proof.
  intros Hinv. destruct (create_run s base sender args Hinv)
    as [?|(s' & i & Hs & Hnone & (n & Hn) & Hst & Ho & _)]; [by left|right].
  exists s', i, (new_account sender args i), n. split_and!; auto.
  - apply get_account_ok. split; [done|]. split; [|done].
    unfold new_account, is_enabled. by rewrite disabled_set_multisig_arg.
  - apply has_role_holds, holds_new_account.
  - apply has_role_holds, holds_new_account.
Qed.
End account_invariant.
