(* ===== verification/Multisig.v ===== *)
(** * many-ledger: multisig transactions

    Models [many-ledger/src/storage/multisig.rs]: submission, approval, revocation,
    execution, withdrawal and expiry of the transactions of multisig accounts, and the
    handlers of [module/multisig.rs] that call them.

    Executing a transaction may approve or execute another one, without a bound in the
    code. [_execute_multisig_tx] takes the depth of nested executions that is allowed;
    beyond it the outcome is [OutOfFuel]. *)
From S2P Require Import Prelude Error External Address Types Account Events Migration Storage.
From S2P Require Import StorageLaws LedgerEvent Ledger Tokens Supply Subresource AccountStorage.

#[local] Open Scope string_scope.
#[local] Open Scope list_scope.
#[local] Open Scope N_scope.

(** ** [MultisigTransactionStorage] *)

Definition info_with_approvers (i : MultisigInfo) (m : gmap Address bool) : MultisigInfo :=
  mkMultisigInfo (mi_memo_ i) (mi_transaction i) (mi_submitter i) m (mi_threshold i)
    (mi_execute_automatically i) (mi_timeout i) (mi_data_ i) (mi_state i) (mi_memo i).
Definition info_with_state (i : MultisigInfo) (st : MultisigTransactionState) : MultisigInfo :=
  mkMultisigInfo (mi_memo_ i) (mi_transaction i) (mi_submitter i) (mi_approvers i) (mi_threshold i)
    (mi_execute_automatically i) (mi_timeout i) (mi_data_ i) st (mi_memo i).

(** [storage.info.approvers.entry(sender).or_default().approved = x]. *)
Definition set_approved (t : MultisigTransactionStorage) (sender : Address) (x : bool) :
    MultisigTransactionStorage :=
  mkMultisigStorage (ms_account t)
    (info_with_approvers (ms_info t) (<[sender := x]> (mi_approvers (ms_info t))))
    (ms_creation t) (ms_disabled t).

Definition ms_disable (t : MultisigTransactionStorage) (st : MultisigTransactionState) :
    MultisigTransactionStorage :=
  mkMultisigStorage (ms_account t) (info_with_state (ms_info t) st) (ms_creation t) true.

Definition approvals (t : MultisigTransactionStorage) : N :=
  N.of_nat (length (filter (λ x, x = true) (btree_iter (mi_approvers (ms_info t))).*2)).
Definition should_execute (t : MultisigTransactionStorage) : bool :=
  mi_threshold (ms_info t) <=? approvals t.

Section multisig.
Context `{LedgerEnv}.

Definition commit_multisig_transaction (tx_id : bytes) (tx : MultisigTransactionStorage) : LedgerM unit :=
  store_apply [(key_for_multisig_transaction tx_id, Put (to_vec tx))];;
  maybe_commit.

Definition get_multisig_info (s : LedgerStorage) (tx_id : bytes) :
    outcome ManyError MultisigTransactionStorage :=
  match merk_get (persistent_store s) (key_for_multisig_transaction tx_id) with
  | Ok (Some l) => decode_or l
  | Panic t => Panic t
  | _ => Err transaction_cannot_be_found
  end.

(** ** Expiry *)

(** The loop of [check_timed_out_multisig_transactions]: the writes, in the order of
    the iteration. *)
Fixpoint expired_batch (now : Timestamp) (l : list (outcome string (bytes * bytes))) :
    outcome ManyError (list BatchEntry) :=
  match l with
  | [] => Ok []
  | i :: l =>
      kv ← map_err unknown i;
      t ← decode_or (A := MultisigTransactionStorage) kv.2;
      if mi_timeout (ms_info t) <=? now then
        r ← expired_batch now l;
        Ok (if ms_disabled t then r else (kv.1, Put (to_vec (ms_disable t Expired))) :: r)
      else
        time ← as_system_time now;
        if (ms_creation t <=? time) && (MULTISIG_MAXIMUM_TIMEOUT_IN_SECS <? time - ms_creation t)
        then Ok []
        else expired_batch now l
  end.

Definition check_timed_out_multisig_transactions : LedgerM unit :=
  batch ← reads (λ s, expired_batch (now s) (iter_multisig s Descending));
  (if bool_decide (batch = []) then mret tt else store_apply (reverse batch));;
  maybe_commit.

(** ** Defaults and submission *)

Definition set_multisig_defaults (sender : Address) (args : SetDefaultsArgs) : LedgerM unit :=
  r ← reads (λ s, get_account s (msd_account args));
  let a := r.1 in
  lift (needs_role a sender [Owner]);;
  match FeatureSet_get MultisigAccountFeature (features a) with
  | Ok f =>
      let timeout := N.min MULTISIG_MAXIMUM_TIMEOUT_IN_SECS <$> msd_timeout_in_secs args in
      let pick {A} (new old : option A) := match new with Some x => Some x | None => old end in
      let f := mkMultisigFeature (mkMultisigArg
                 (pick (msd_threshold args) (arg_threshold (arg f)))
                 (pick timeout (arg_timeout_in_secs (arg f)))
                 (pick (msd_execute_automatically args) (arg_execute_automatically (arg f)))) in
      let a := account_with_features a (FeatureSet_insert (features a) (as_feature f)).1 in
      log_event (E_AccountMultisigSetDefaults sender (msd_account args) (msd_threshold args)
                   timeout (msd_execute_automatically args));;
      commit_account (msd_account args) a;;
      mret tt
  | Panic t => panics t
  | _ => mret tt
  end.

(** [Some(t) if is_owner => t, Some(_) => return Err(..), _ => default]. *)
Definition owner_choice {A} (is_owner : bool) (o : option A) (d : A) : outcome ManyError A :=
  match o with
  | Some x => if is_owner then Ok x else Err (user_needs_role "owner")
  | None => Ok d
  end.

(** [SystemTime::checked_add]. *)
Definition checked_add (time secs : N) : outcome ManyError Timestamp :=
  if time + secs <=? I64_MAX then Ok (time + secs) else Err (unknown "Invalid time.").

Definition create_multisig_transaction (sender : Address)
    (args : SubmitTransactionArgs AccountMultisigTransaction) : LedgerM bytes :=
  event_id ← new_event_id;
  let account_id := sub_account args in
  r ← reads (λ s, get_account s account_id);
  let a := r.1 in
  let is_owner := has_role a sender Owner in
  lift (needs_role a sender [CanMultisigSubmit; Owner]);;
  f ← lift (FeatureSet_get MultisigAccountFeature (features a));
  threshold ← lift (owner_choice is_owner (sub_threshold args)
                      (default MULTISIG_DEFAULT_THRESHOLD (arg_threshold (arg f))));
  timeout_in_secs ← lift (owner_choice is_owner (sub_timeout_in_secs args)
                      (default MULTISIG_DEFAULT_TIMEOUT_IN_SECS (arg_timeout_in_secs (arg f))));
  let timeout_in_secs := N.min timeout_in_secs MULTISIG_MAXIMUM_TIMEOUT_IN_SECS in
  automatic ← lift (owner_choice is_owner (sub_execute_automatically args)
                      (default MULTISIG_DEFAULT_EXECUTE_AUTOMATICALLY (arg_execute_automatically (arg f))));
  time ← reads (λ s, as_system_time (now s));
  timeout ← lift (checked_add time timeout_in_secs);
  migrated ← reads (λ s, Ok (migration_active s MEMO_MIGRATION));
  let memo_ := if (migrated : bool) then None else sub_memo_ args in
  let data_ := if (migrated : bool) then None else sub_data_ args in
  let memo := if (migrated : bool) then sub_memo args else None in
  let t := mkMultisigStorage account_id
             (mkMultisigInfo memo_ (sub_transaction args) sender {[sender := true]} threshold
                automatic timeout data_ Pending memo)
             time false in
  commit_multisig_transaction event_id t;;
  log_event (E_AccountMultisigSubmit sender account_id memo_ (sub_transaction args) (Some event_id)
               threshold timeout automatic data_ memo);;
  mret event_id.

(** ** Ending a transaction *)

Definition disable_multisig_transaction (tx_id : bytes) (st : MultisigTransactionState) : LedgerM unit :=
  t ← reads (λ s, get_multisig_info s tx_id);
  if ms_disabled t then fails transaction_expired_or_withdrawn
  else
    store_apply [(key_for_multisig_transaction tx_id, Put (to_vec (ms_disable t st)))];;
    maybe_commit.

Definition withdraw_multisig (sender : Address) (tx_id : bytes) : LedgerM unit :=
  t ← reads (λ s, get_multisig_info s tx_id);
  if ms_disabled t then fails transaction_expired_or_withdrawn
  else
    r ← reads (λ s, get_account s (ms_account t));
    if negb (has_role r.1 sender Owner || bool_decide (mi_submitter (ms_info t) = sender))
    then fails cannot_execute_transaction
    else
      disable_multisig_transaction tx_id Withdrawn;;
      log_event (E_AccountMultisigWithdraw (ms_account t) tx_id sender).

Definition revoke_multisig (sender : Address) (tx_id : bytes) : LedgerM bool :=
  t ← reads (λ s, get_multisig_info s tx_id);
  if ms_disabled t then fails transaction_expired_or_withdrawn
  else
    r ← reads (λ s, get_account s (ms_account t));
    let a := r.1 in
    if bool_decide (is_Some (mi_approvers (ms_info t) !! sender))
       || has_role a sender CanMultisigSubmit || has_role a sender CanMultisigApprove
       || has_role a sender Owner
    then
      commit_multisig_transaction tx_id (set_approved t sender false);;
      log_event (E_AccountMultisigRevoke (ms_account t) tx_id sender);;
      mret false
    else fails user_cannot_approve_transaction.

(** ** Execution *)

Section execution.
(** [_execute_multisig_tx], one level down. *)
Variable exec : bytes → MultisigTransactionStorage → LedgerM bytes.

Definition execute_multisig_transaction_internal (tx_id : bytes) (t : MultisigTransactionStorage)
    (automatic : bool) : LedgerM ResponseMessage :=
  result ← catch (exec tx_id t);
  disable_multisig_transaction tx_id (if automatic then ExecutedAutomatically else ExecutedManually);;
  time ← reads (λ s, Ok (now s));
  let response := mkResponse None (ms_account t) None result (Some time) None ∅ in
  o ← reads (block_hotfix "Block 9400" (mkBlock9400 tx_id response));
  mret (default response o).

Definition approve_multisig (sender : Address) (tx_id : bytes) : LedgerM bool :=
  t ← reads (λ s, get_multisig_info s tx_id);
  if ms_disabled t then fails transaction_expired_or_withdrawn
  else
    r ← reads (λ s, get_account s (ms_account t));
    let a := r.1 in
    if negb (has_role a sender CanMultisigApprove) && negb (has_role a sender CanMultisigSubmit)
       && negb (has_role a sender Owner)
    then fails user_cannot_approve_transaction
    else
      let t := set_approved t sender true in
      commit_multisig_transaction tx_id t;;
      log_event (E_AccountMultisigApprove (ms_account t) tx_id sender);;
      if mi_execute_automatically (ms_info t) && should_execute t then
        response ← execute_multisig_transaction_internal tx_id t true;
        log_event (E_AccountMultisigExecute (ms_account t) tx_id None response);;
        mret true
      else mret false.

Definition execute_multisig (sender : Address) (tx_id : bytes) : LedgerM ResponseMessage :=
  t ← reads (λ s, get_multisig_info s tx_id);
  if ms_disabled t then fails transaction_expired_or_withdrawn
  else
    r ← reads (λ s, get_account s (ms_account t));
    if negb (has_role r.1 sender Owner || bool_decide (mi_submitter (ms_info t) = sender))
    then fails cannot_execute_transaction
    else if should_execute t then
      response ← execute_multisig_transaction_internal tx_id t false;
      log_event (E_AccountMultisigExecute (ms_account t) tx_id (Some sender) response);;
      mret response
    else fails cannot_execute_transaction.
End execution.

(** [minicbor::to_vec(EmptyReturn)]. *)
Definition empty_return : bytes := to_vec tt.

Fixpoint _execute_multisig_tx (fuel : nat) (tx_id : bytes) (t : MultisigTransactionStorage) :
    LedgerM bytes :=
  match fuel with
  | O => λ s, (s, OutOfFuel)
  | S fuel =>
      let sender := ms_account t in
      match mi_transaction (ms_info t) with
      | T_Send args =>
          from ← lift (ok_or (send_from args) invalid_from_identity);
          r ← reads (λ s, get_account s from);
          lift (needs_role r.1 sender [CanLedgerTransact; Owner]);;
          send from (send_to args) (send_symbol args) (send_amount args) (send_memo args);;
          mret empty_return
      | T_AccountCreate args =>
          let a := Account_create sender args in
          lift (validate_account a);;
          r ← add_account a;
          mret (to_vec r.1)
      | T_AccountDisable args =>
          r ← reads (λ s, get_account s (di_account args));
          lift (needs_role r.1 sender [Owner]);;
          disable_account (di_account args);;
          mret empty_return
      | T_AccountSetDescription args =>
          r ← reads (λ s, get_account s (sd_account args));
          lift (needs_role r.1 sender [Owner]);;
          set_description r.1 args;;
          mret empty_return
      | T_AccountAddRoles args =>
          r ← reads (λ s, get_account s (ar_account args));
          lift (needs_role r.1 sender [Owner]);;
          add_roles r.1 args;;
          mret empty_return
      | T_AccountRemoveRoles args =>
          r ← reads (λ s, get_account s (rr_account args));
          lift (needs_role r.1 sender [Owner]);;
          remove_roles r.1 args;;
          mret empty_return
      | T_AccountAddFeatures args =>
          r ← reads (λ s, get_account s (af_account args));
          lift (needs_role r.1 sender [Owner]);;
          add_features r.1 args;;
          mret empty_return
      | T_AccountMultisigSubmit args =>
          token ← create_multisig_transaction sender args;
          mret (to_vec token)
      | T_AccountMultisigSetDefaults args =>
          set_multisig_defaults sender args;;
          mret empty_return
      | T_AccountMultisigApprove token =>
          approve_multisig (_execute_multisig_tx fuel) sender token;;
          mret empty_return
      | T_AccountMultisigRevoke token =>
          revoke_multisig sender token;;
          mret empty_return
      | T_AccountMultisigExecute token =>
          execute_multisig (_execute_multisig_tx fuel) sender token;;
          mret empty_return
      | T_AccountMultisigWithdraw token =>
          withdraw_multisig sender token;;
          mret empty_return
      | _ => fails transaction_type_unsupported
      end
  end.

(** ** Endpoints ([module/multisig.rs]) *)

Definition multisig_submit_transaction (sender : Address)
    (args : SubmitTransactionArgs AccountMultisigTransaction) : LedgerM bytes :=
  create_multisig_transaction sender args.
Definition multisig_info (s : LedgerStorage) (token : bytes) : outcome ManyError MultisigInfo :=
  t ← get_multisig_info s token; Ok (ms_info t).
Definition multisig_set_defaults (sender : Address) (args : SetDefaultsArgs) : LedgerM unit :=
  set_multisig_defaults sender args.
Definition multisig_approve (fuel : nat) (sender : Address) (token : bytes) : LedgerM unit :=
  approve_multisig (_execute_multisig_tx fuel) sender token;; mret tt.
Definition multisig_revoke (sender : Address) (token : bytes) : LedgerM unit :=
  revoke_multisig sender token;; mret tt.
Definition multisig_execute (fuel : nat) (sender : Address) (token : bytes) : LedgerM ResponseMessage :=
  execute_multisig (_execute_multisig_tx fuel) sender token.
Definition multisig_withdraw (sender : Address) (token : bytes) : LedgerM unit :=
  withdraw_multisig sender token.
End multisig.
