(* ===== verification/MultisigLaws.v ===== *)
(** * Laws of multisig transactions

    - [follows]: what any operation may do to the stored transactions. A transaction keeps
      its terms, is pending exactly as long as it is not disabled, and is never changed
      once it is disabled; this holds through nested executions of any depth;
    - who may do what, on every branch of approval, execution and withdrawal;
    - what a submission stores, and the bound on its timeout;
    - expiry at the end of a block;
    - a transaction that executes itself has no bounded execution. *)
From S2P Require Import Prelude Error External Address Types Account Events Migration Storage.
From S2P Require Import StorageLaws LedgerEvent Ledger Tokens Supply Subresource AccountStorage.
From S2P Require Import Multisig.

#[local] Open Scope string_scope.
#[local] Open Scope list_scope.
#[local] Open Scope N_scope.

(** ** The life of a transaction *)

(** Pending exactly as long as it is not disabled. *)
Definition lifecycle (t : MultisigTransactionStorage) : Prop :=
  ms_disabled t = false ↔ mi_state (ms_info t) = Pending.

(** The terms of a transaction: all but its approvals and its state. *)
Definition terms (t : MultisigTransactionStorage) :=
  (ms_account t, ms_creation t, mi_memo_ (ms_info t), mi_transaction (ms_info t),
   mi_submitter (ms_info t), mi_threshold (ms_info t), mi_execute_automatically (ms_info t),
   mi_timeout (ms_info t), mi_data_ (ms_info t), mi_memo (ms_info t)).

Record evolves (t t' : MultisigTransactionStorage) : Prop := {
  evolves_terms : terms t' = terms t;
  evolves_final : ms_disabled t = true → t' = t;
}.

#[global] Instance evolves_refl : Reflexive evolves.
Proof. done. Qed.
#[global] Instance evolves_trans : Transitive evolves.
Proof.
  intros t1 t2 t3 [E1 F1] [E2 F2]. split; [congruence|].
  intros Hd. specialize (F1 Hd) as ->. auto.
Qed.

Lemma evolves_set_approved t a x : ms_disabled t = false → evolves t (set_approved t a x).
Proof. intros Hd. split; [done|]. congruence. Qed.
Lemma evolves_disable t st : ms_disabled t = false → evolves t (ms_disable t st).
Proof. intros Hd. split; [done|]. congruence. Qed.

Definition multisig_key (k : bytes) : Prop := MULTISIG_TRANSACTIONS_ROOT `prefix_of` k.
#[global] Instance multisig_key_dec k : Decision (multisig_key k).
Proof. unfold multisig_key. apply _. Defined.
Definition not_multisig (k : bytes) : Prop := ¬ multisig_key k.

Section follows.
Context `{LedgerEnv, !LedgerEnvLaws}.
Implicit Types (s : LedgerStorage) (t : MultisigTransactionStorage) (k i : bytes).

Definition tx_at s k t : Prop := ∃ l, view s !! k = Some l ∧ decode l = Ok t.

(** Event ids of up to 32 bytes have distinct keys. *)
Definition ID_LIMIT : N := 256 ^ 32.

Record tx_entry s k (l : bytes) : Prop := mkEntry {
  entry_id : ∃ i, k = key_for_multisig_transaction i ∧ (length i ≤ 32)%nat ∧ be_value i ≤ tid s;
  entry_tx : ∃ t, decode l = Ok t ∧ lifecycle t ∧ multisig_storable t;
}.
Definition txs_ok s : Prop := ∀ k l, multisig_key k → view s !! k = Some l → tx_entry s k l.

(** [s'] comes after [s]: event ids go up, and as long as they fit in 32 bytes the stored
    transactions stay in order and each follows its life. *)
Record follows s s' : Prop := {
  follows_tid : tid s ≤ tid s';
  follows_ok : tid s' < ID_LIMIT → txs_ok s →
    txs_ok s' ∧ ∀ k t, multisig_key k → tx_at s k t → ∃ t', tx_at s' k t' ∧ evolves t t';
}.

#[global] Instance follows_refl : Reflexive follows.
Proof. intros s. split; [lia|]. intros _ Hok. split; [done|]. eauto using evolves_refl. Qed.
#[global] Instance follows_trans : Transitive follows.
Proof.
  intros s1 s2 s3 [T1 F1] [T2 F2]. split; [lia|]. intros Hlim Hok.
  destruct F1 as [Hok2 E1]; [lia|done|]. destruct F2 as [Hok3 E2]; [done..|].
  split; [done|]. intros k t Hk Ht. destruct (E1 k t Hk Ht) as (t2 & Ht2 & ?).
  destruct (E2 k t2 Hk Ht2) as (t3 & Ht3 & ?). exists t3. split; [done|]. by trans t2.
Qed.

(** Operations that do not write transactions. *)
Lemma follows_quiet {A} (m : LedgerM A) s0 s :
  only_writes not_multisig m → follows s0 s → follows s0 (m s).1.
Proof.
  intros Hm Hs. trans s; [done|]. destruct (Hm s) as [Hf Hu]. pose proof (frame_tid _ _ Hf) as Ht.
  assert (∀ k, multisig_key k → view (m s).1 !! k = view s !! k) as Hv.
  { intros k Hk. apply Hu. intros Hn. by apply Hn. }
  split; [done|]. intros _ Hok. split.
  - intros k l Hk Hl. rewrite Hv in Hl by done. destruct (Hok k l Hk Hl) as [(i & ? & ? & ?) ?].
    split; [|done]. exists i. split_and!; [done..|lia].
  - intros k t Hk (l & Hl & Hd). exists t. split; [|done]. exists l. by rewrite Hv.
Qed.

Lemma follows_bind {A B} (m : LedgerM A) (f : A → LedgerM B) s0 s :
  follows s0 (m s).1 → (∀ a s', m s = (s', Ok a) → follows s0 s' → follows s0 (f a s').1) →
  follows s0 ((m ≫= f) s).1.
Proof.
  intros Hm Hf. unfold mbind, st_bind. destruct (m s) as [s' [a|e|u|]] eqn:E; simpl in *; auto.
Qed.
Lemma follows_reads {A B} (g : LedgerStorage → outcome ManyError A) (f : A → LedgerM B) s0 s :
  follows s0 s → (∀ a, g s = Ok a → follows s0 (f a s).1) → follows s0 ((reads g ≫= f) s).1.
Proof. intros Hs Hf. apply follows_bind; [done|]. intros a s' [= <- Hg] _. auto. Qed.
Lemma follows_lift {A B} (o : outcome ManyError A) (f : A → LedgerM B) s0 s :
  follows s0 s → (∀ a, o = Ok a → follows s0 (f a s).1) → follows s0 ((lift o ≫= f) s).1.
Proof. intros Hs Hf. apply follows_bind; [done|]. intros a s' [= <- Hg] _. auto. Qed.

(** ** Keys *)

Lemma key_multisig_prefix i : multisig_key (key_for_multisig_transaction i).
Proof. by exists (expand_id i). Qed.

Lemma key_multisig_value i j :
  (length i ≤ 32)%nat → (length j ≤ 32)%nat →
  key_for_multisig_transaction i = key_for_multisig_transaction j ↔ be_value i = be_value j.
Proof.
  intros Hi Hj. rewrite <-expand_id_inj by done. unfold key_for_multisig_transaction.
  split; [by intros Hk%(inj (app _))|by intros ->].
Qed.

Lemma event_not_multisig k : event_key k → not_multisig k.
Proof. intros [r ->] [r' Hr]. key_discr. Qed.
Lemma account_not_multisig a : not_multisig (key_for_account a).
Proof. intros [r Hr]. key_discr. Qed.
Lemma config_not_multisig k : b "/config/" `prefix_of` k → not_multisig k.
Proof. intros [r ->] [r' Hr]. key_discr. Qed.
Lemma counter_not_multisig a x : not_multisig (key_for_subresource_counter a x).
Proof. destruct x; intros [r Hr]; key_discr. Qed.
Lemma send_not_multisig k : send_key k → not_multisig k.
Proof. intros [Hk|[->|(x & a & ->)]]; [by apply event_not_multisig| |]; intros [r Hr]; key_discr. Qed.
End follows.

Create HintDb quiet.
#[export] Hint Resolve account_not_multisig counter_not_multisig : quiet.

Section quiet.
Context `{LedgerEnv, !LedgerEnvLaws}.

(** *** Operations that leave transactions alone *)

Lemma log_event_quiet e : only_writes not_multisig (log_event e).
Proof. eapply only_writes_mono; [apply log_event_writes|]. apply event_not_multisig. Qed.
Lemma send_quiet from to x amount memo : only_writes not_multisig (send from to x amount memo).
Proof. eapply only_writes_mono; [apply send_writes|]. apply send_not_multisig. Qed.
Lemma commit_account_quiet i a : only_writes not_multisig (commit_account i a).
Proof. eapply only_writes_mono; [apply commit_account_writes|]. intros k ->. apply account_not_multisig. Qed.
Lemma next_subresource_quiet root : only_writes not_multisig (get_next_subresource root).
Proof.
  unfold get_next_subresource. do 2 (apply only_writes_bind; [auto with writes|intros]).
  apply (only_writes_bind_reads _ not_multisig).
  - intros s k [= <-]. apply counter_not_multisig.
  - intros k Hk. auto 20 with writes quiet.
Qed.
End quiet.
#[export] Hint Resolve log_event_quiet send_quiet commit_account_quiet next_subresource_quiet : quiet.

Section quiet_accounts.
Context `{LedgerEnv, !LedgerEnvLaws}.

Lemma add_account_quiet a : only_writes not_multisig (add_account a).
Proof. unfold add_account, _add_account. auto 20 with writes quiet. Qed.
Lemma disable_account_quiet i : only_writes not_multisig (disable_account i).
Proof. unfold disable_account. auto 20 with writes quiet. Qed.
Lemma set_description_quiet a args : only_writes not_multisig (set_description a args).
Proof. unfold set_description. auto 20 with writes quiet. Qed.
Lemma add_roles_quiet a args : only_writes not_multisig (add_roles a args).
Proof. unfold add_roles. auto 20 with writes quiet. Qed.
Lemma remove_roles_quiet a args : only_writes not_multisig (remove_roles a args).
Proof. unfold remove_roles. auto 20 with writes quiet. Qed.
Lemma add_features_quiet a args : only_writes not_multisig (add_features a args).
Proof. unfold add_features. auto 20 with writes quiet. Qed.
Lemma set_multisig_defaults_quiet sender args :
  only_writes not_multisig (set_multisig_defaults sender args).
Proof. unfold set_multisig_defaults. auto 20 with writes quiet. Qed.
End quiet_accounts.
#[export] Hint Resolve add_account_quiet disable_account_quiet set_description_quiet add_roles_quiet
  remove_roles_quiet add_features_quiet set_multisig_defaults_quiet : quiet.

(** ** Operations on transactions *)

Section multisig_follows.
Context `{LedgerEnv, !LedgerEnvLaws}.
Implicit Types (s : LedgerStorage) (t : MultisigTransactionStorage) (k i : bytes).

Lemma commit_multisig_ok i t s :
  ∃ s', commit_multisig_transaction i t s = (s', Ok tt)
    ∧ view s' = <[key_for_multisig_transaction i := to_vec t]> (view s)
    ∧ latest_tid s' = latest_tid s ∧ frame s s'.
Proof.
  unfold commit_multisig_transaction.
  destruct (store_apply_one (key_for_multisig_transaction i) (Put (to_vec t)) s)
    as (s1 & Hs1 & Hv1 & _ & Ht1 & Hf1). rewrite (bind_ok _ _ _ _ _ Hs1).
  destruct (maybe_commit_ok s1) as (s2 & -> & Hv2 & Ht2 & Hf2).
  exists s2. split; [done|]. split; [by rewrite Hv2, Hv1|]. split; [congruence|by trans s1].
Qed.

Lemma get_multisig_info_ok s i t :
  get_multisig_info s i = Ok t ↔ tx_at s (key_for_multisig_transaction i) t.
Proof.
  unfold get_multisig_info, tx_at. rewrite merk_get_view.
  change (merk_view (persistent_store s)) with (view s). unfold decode_or.
  destruct (view s !! _) as [l|]; [|split; [done|intros (? & ? & _); done]].
  split.
  - destruct (decode l) eqn:E; simpl; try done. intros [= ->]. eauto.
  - intros (? & [= <-] & ->). done.
Qed.

Lemma storable_set_approved t a x : multisig_storable t → multisig_storable (set_approved t a x).
Proof. done. Qed.
Lemma storable_disable t st : multisig_storable t → multisig_storable (ms_disable t st).
Proof. done. Qed.
Lemma lifecycle_set_approved t a x : lifecycle t → lifecycle (set_approved t a x).
Proof. done. Qed.
Lemma lifecycle_disable t st : st ≠ Pending → lifecycle (ms_disable t st).
Proof. intros Hst. unfold lifecycle. simpl. done. Qed.

(** Rewriting a stored transaction. *)
Lemma follows_put s s' k t t' :
  multisig_key k → tx_at s k t → view s' = <[k := to_vec t']> (view s) → latest_tid s' = latest_tid s →
  evolves t t' → (lifecycle t → lifecycle t') → (multisig_storable t → multisig_storable t') →
  follows s s'.
Proof.
  intros Hk Ht Hv Htid Hev Hlc Hst.
  assert (tid s' = tid s) as Htid' by (unfold tid; by rewrite Htid).
  split; [lia|]. intros _ Hok. destruct Ht as (l & Hl & Hd).
  destruct (Hok k l Hk Hl) as [Hid (t0 & Hd0 & Hlc0 & Hst0)].
  assert (t0 = t) as -> by congruence.
  assert (decode (to_vec t') = Ok t') as Hd' by (apply decode_to_vec; auto). split.
  - intros k' l' Hk' Hl'. rewrite Hv in Hl'. destruct (decide (k' = k)) as [->|Hne].
    + rewrite lookup_insert_eq in Hl'. injection Hl' as <-. split; [by rewrite Htid'|]. exists t'. auto.
    + rewrite lookup_insert_ne in Hl' by done. destruct (Hok k' l' Hk' Hl') as [??].
      split; [by rewrite Htid'|done].
  - intros k' x Hk' (l' & Hl' & Hx). destruct (decide (k' = k)) as [->|Hne].
    + assert (x = t) as -> by congruence. exists t'. split; [|done]. exists (to_vec t').
      by rewrite Hv, lookup_insert_eq.
    + exists x. split; [|done]. exists l'. by rewrite Hv, lookup_insert_ne.
Qed.

(** Storing a transaction under an id above all earlier ones. *)
Lemma follows_new s s1 s' i t :
  tid s < be_value i → be_value i = tid s1 → view s1 = view s →
  view s' = <[key_for_multisig_transaction i := to_vec t]> (view s1) →
  latest_tid s' = latest_tid s1 → (be_value i < ID_LIMIT → (length i ≤ 32)%nat) →
  lifecycle t → multisig_storable t → follows s s'.
Proof.
  intros Hlt Hi Hv1 Hv Htid Hlen Hlc Hst. rewrite Hv1 in Hv.
  assert (tid s' = be_value i) as Htid' by (unfold tid in *; by rewrite Htid).
  split; [lia|]. intros Hlim Hok. specialize (Hlen ltac:(lia)).
  assert (∀ k l, multisig_key k → view s !! k = Some l → k ≠ key_for_multisig_transaction i) as Hfresh.
  { intros k l Hk Hl ->. destruct (Hok _ l Hk Hl) as [(j & Hj & Hlj & Hle) _].
    apply key_multisig_value in Hj; [lia|done..]. }
  split.
  - intros k l Hk Hl. rewrite Hv in Hl. destruct (decide (k = key_for_multisig_transaction i)) as [->|Hne].
    + rewrite lookup_insert_eq in Hl. injection Hl as <-. split.
      * exists i. split_and!; [done..|lia].
      * exists t. split; [by apply decode_to_vec|done].
    + rewrite lookup_insert_ne in Hl by done. destruct (Hok k l Hk Hl) as [(j & ? & ? & ?) ?].
      split; [|done]. exists j. split_and!; [done..|lia].
  - intros k x Hk (l & Hl & Hx). exists x. split; [|done]. exists l.
    rewrite Hv, lookup_insert_ne; [done|]. intros <-. by eapply Hfresh.
Qed.

Lemma disable_multisig_follows i st s :
  st ≠ Pending → follows s (disable_multisig_transaction i st s).1.
Proof.
  intros Hst. unfold disable_multisig_transaction. apply follows_reads; [reflexivity|].
  intros t Ht%get_multisig_info_ok. destruct (ms_disabled t) eqn:Hd; [reflexivity|].
  change (follows s (commit_multisig_transaction i (ms_disable t st) s).1).
  destruct (commit_multisig_ok i (ms_disable t st) s) as (s' & -> & Hv & Htid & _).
  eapply follows_put; eauto using key_multisig_prefix, evolves_disable, lifecycle_disable.
Qed.

Lemma set_approved_follows i t a x s :
  get_multisig_info s i = Ok t → ms_disabled t = false →
  follows s (commit_multisig_transaction i (set_approved t a x) s).1.
Proof.
  intros Ht%get_multisig_info_ok Hd.
  destruct (commit_multisig_ok i (set_approved t a x) s) as (s' & -> & Hv & Htid & _).
  eapply follows_put; eauto using key_multisig_prefix, evolves_set_approved.
Qed.

Lemma withdraw_follows sender i s : follows s (withdraw_multisig sender i s).1.
Proof.
  unfold withdraw_multisig. apply follows_reads; [reflexivity|]. intros t Ht.
  destruct (ms_disabled t); [reflexivity|]. apply follows_reads; [reflexivity|]. intros r _.
  destruct (negb _); [reflexivity|].
  apply follows_bind; [by apply disable_multisig_follows|]. intros _ s' _ Hs.
  apply follows_quiet; auto with quiet.
Qed.

Lemma revoke_follows sender i s : follows s (revoke_multisig sender i s).1.
Proof.
  unfold revoke_multisig. apply follows_reads; [reflexivity|]. intros t Ht.
  destruct (ms_disabled t) eqn:Hd; [reflexivity|]. apply follows_reads; [reflexivity|]. intros r _.
  destruct (_ || _); [|reflexivity].
  apply follows_bind; [by apply set_approved_follows|]. intros _ s' _ Hs.
  apply follows_quiet; auto with writes quiet.
Qed.

(** What the decoder of the arguments of a submission guarantees. *)
Definition args_storable (args : SubmitTransactionArgs AccountMultisigTransaction) : Prop :=
  transaction_storable (T_AccountMultisigSubmit args).

Lemma next_event_id_length s : be_value (next_event_id s) < ID_LIMIT → (length (next_event_id s) ≤ 32)%nat.
Proof.
  intros Hlt. rewrite tid_next in Hlt. unfold next_event_id, event_id_add, event_id_of_big.
  rewrite from_bytes_be_value. apply to_bytes_be_length; [|lia]. unfold ID_LIMIT, tid in Hlt.
  exact Hlt.
Qed.

Lemma create_multisig_follows sender args s :
  args_storable args → follows s (create_multisig_transaction sender args s).1.
Proof.
  intros (Hm & Hd & Hmm & Htx). unfold create_multisig_transaction.
  set (i := next_event_id s). set (s1 := with_tid s i).
  assert (follows s s1) as Hs1.
  { apply (follows_quiet new_event_id s s); [apply new_event_id_writes|reflexivity]. }
  rewrite (bind_ok new_event_id _ s s1 i eq_refl).
  repeat first [apply follows_reads; [exact Hs1|intros ? _]|apply follows_lift; [exact Hs1|intros ? _]].
  match goal with
  | |- follows _ (((commit_multisig_transaction _ ?t) ≫= _) _).1 => set (tx := t)
  end.
  apply follows_bind; [|intros _ s' _ Hs'; apply follows_quiet; auto with writes quiet].
  destruct (commit_multisig_ok i tx s1) as (s2 & -> & Hv2 & Ht2 & _). simpl.
  apply (follows_new s s1 s2 i tx); auto.
  - unfold i. rewrite tid_next. lia.
  - apply next_event_id_length.
  - done.
  - unfold multisig_storable, tx. simpl. split_and!; try done; by case_match.
Qed.
End multisig_follows.

(** ** Execution *)

Section execution_follows.
Context `{LedgerEnv, !LedgerEnvLaws}.
Implicit Types (s : LedgerStorage) (t : MultisigTransactionStorage) (k i : bytes).

(** The last step may rely on what holds when it starts. *)
Lemma follows_last s0 s s' :
  follows s0 s → tid s ≤ tid s' → (txs_ok s0 → tid s < ID_LIMIT → follows s s') → follows s0 s'.
Proof.
  intros Hs Htid Hc. pose proof (follows_tid _ _ Hs). split; [lia|]. intros Hlim Hok.
  assert (follows s0 s') as [_ Hf]; [|by apply Hf]. trans s; [done|]. apply Hc; [done|lia].
Qed.

(** A stored transaction can be stored again. *)
Lemma stored_storable s0 s i t :
  follows s0 s → get_multisig_info s i = Ok t → txs_ok s0 → tid s < ID_LIMIT → multisig_storable t.
Proof.
  intros Hs (l & Hl & Hd)%get_multisig_info_ok Hok Hlim.
  destruct (follows_ok _ _ Hs Hlim Hok) as [Hok' _].
  destruct (Hok' _ l (key_multisig_prefix i) Hl) as [_ (t0 & Hd0 & _ & Hst)].
  rewrite Hd in Hd0. by injection Hd0 as <-.
Qed.

(** What is assumed, and then shown, of [_execute_multisig_tx]. *)
Definition exec_ok (exec : bytes → MultisigTransactionStorage → LedgerM bytes) : Prop :=
  ∀ s0 s i t, follows s0 s → (txs_ok s0 → tid s < ID_LIMIT → multisig_storable t) →
    follows s0 (exec i t s).1.

Lemma catch_state {A} (m : LedgerM A) s : (catch m s).1 = (m s).1.
Proof. unfold catch. by destruct (m s) as [s' []]. Qed.

Lemma internal_follows exec s0 s i t automatic :
  exec_ok exec → follows s0 s → (txs_ok s0 → tid s < ID_LIMIT → multisig_storable t) →
  follows s0 (execute_multisig_transaction_internal exec i t automatic s).1.
Proof.
  intros Hexec Hs Ht. unfold execute_multisig_transaction_internal.
  apply follows_bind; [rewrite catch_state; by apply Hexec|]. intros result s1 _ Hs1.
  apply follows_bind; [trans s1; [done|apply disable_multisig_follows; by destruct automatic]|].
  intros _ s2 _ Hs2. apply follows_quiet; auto with writes quiet.
Qed.

Lemma approve_follows exec s0 s sender i :
  exec_ok exec → follows s0 s → follows s0 (approve_multisig exec sender i s).1.
Proof.
  intros Hexec Hs. unfold approve_multisig. apply follows_reads; [done|]. intros t Ht.
  destruct (ms_disabled t) eqn:Hd; [done|]. apply follows_reads; [done|]. intros r _.
  destruct (_ && _); [done|].
  apply follows_bind; [trans s; [done|by apply set_approved_follows]|]. intros u1 s1 Hs1 Hf1.
  apply follows_bind; [apply follows_quiet; auto with quiet|]. intros u2 s2 Hs2 Hf2.
  destruct (_ && _); [|done].
  assert (tid s ≤ tid s2) as Htid.
  { destruct (commit_multisig_ok i (set_approved t sender true) s) as (s1' & Hs1' & _ & _ & Hfr1).
    rewrite Hs1 in Hs1'. injection Hs1' as <- _. pose proof (frame_tid _ _ Hfr1).
    destruct (log_event_writes (E_AccountMultisigApprove (ms_account (set_approved t sender true)) i sender) s1)
      as [Hfr2 _]. rewrite Hs2 in Hfr2. pose proof (frame_tid _ _ Hfr2). simpl in *. lia. }
  apply follows_bind.
  - apply internal_follows; [done..|]. intros Hok Hlim. apply storable_set_approved.
    eapply stored_storable; [exact Hs|done|done|lia].
  - intros response s3 _ Hf3. apply follows_quiet; auto with writes quiet.
Qed.

Lemma execute_follows exec s0 s sender i :
  exec_ok exec → follows s0 s → follows s0 (execute_multisig exec sender i s).1.
Proof.
  intros Hexec Hs. unfold execute_multisig. apply follows_reads; [done|]. intros t Ht.
  destruct (ms_disabled t); [done|]. apply follows_reads; [done|]. intros r _.
  destruct (negb _); [done|]. destruct (should_execute t); [|done].
  apply follows_bind.
  - apply internal_follows; [done..|]. by apply (stored_storable s0 s i t).
  - intros response s1 _ Hf1. apply follows_quiet; auto with writes quiet.
Qed.

Lemma create_multisig_tid sender args s : tid s ≤ tid (create_multisig_transaction sender args s).1.
Proof.
  assert (only_writes (λ _, True) (create_multisig_transaction sender args)) as Hw.
  { assert (∀ c, only_writes (λ _, True) (log_event c)).
    { intros c. eapply only_writes_mono; [apply log_event_writes|done]. }
    unfold create_multisig_transaction, commit_multisig_transaction. auto 40 with writes. }
  destruct (Hw s) as [Hf _]. apply (frame_tid _ _ Hf).
Qed.

Lemma exec_follows fuel : exec_ok (_execute_multisig_tx fuel).
Proof.
  induction fuel as [|fuel IH]; intros s0 s i t Hs Ht; [done|]. cbn [_execute_multisig_tx].
  destruct (mi_transaction (ms_info t)) eqn:Htx; try done.
  all: try (apply follows_quiet; [|done]; auto 20 with writes quiet; fail).
  - apply follows_bind.
    + eapply follows_last; [done|apply create_multisig_tid|]. intros Hok Hlim.
      apply create_multisig_follows. unfold args_storable. rewrite <-Htx. by apply Ht.
    + intros x s1 _ Hs1. done.
  - apply follows_bind; [by apply approve_follows|]. by intros x s1 _ Hs1.
  - apply follows_bind; [trans s; [done|apply revoke_follows]|]. by intros x s1 _ Hs1.
  - apply follows_bind; [by apply execute_follows|]. by intros x s1 _ Hs1.
  - apply follows_bind; [trans s; [done|apply withdraw_follows]|]. by intros x s1 _ Hs1.
Qed.

(** ** Sequences of commands *)

Inductive multisig_cmd : Type :=
| MSubmit (args : SubmitTransactionArgs AccountMultisigTransaction)
| MSetDefaults (args : SetDefaultsArgs)
| MApprove (token : bytes)
| MRevoke (token : bytes)
| MExecute (token : bytes)
| MWithdraw (token : bytes).

Definition multisig_step (fuel : nat) (sender : Address) (c : multisig_cmd) : LedgerM unit :=
  match c with
  | MSubmit args => multisig_submit_transaction sender args;; mret tt
  | MSetDefaults args => multisig_set_defaults sender args
  | MApprove token => multisig_approve fuel sender token
  | MRevoke token => multisig_revoke sender token
  | MExecute token => multisig_execute fuel sender token;; mret tt
  | MWithdraw token => multisig_withdraw sender token
  end.
Definition multisig_steps (fuel : nat) (l : list (Address * multisig_cmd)) (s : LedgerStorage) :
    LedgerStorage :=
  foldl (λ s c, (multisig_step fuel c.1 c.2 s).1) s l.

Definition multisig_cmd_ok (c : multisig_cmd) : Prop :=
  match c with MSubmit args => args_storable args | _ => True end.

Lemma multisig_step_follows fuel sender c s :
  multisig_cmd_ok c → follows s (multisig_step fuel sender c s).1.
Proof.
  intros Hc. destruct c; simpl in *.
  - apply follows_bind; [by apply create_multisig_follows|]. by intros x s1 _ Hs1.
  - apply follows_quiet; [apply set_multisig_defaults_quiet|reflexivity].
  - apply follows_bind; [apply approve_follows; [apply exec_follows|reflexivity]|]. by intros x s1 _ Hs1.
  - apply follows_bind; [apply revoke_follows|]. by intros x s1 _ Hs1.
  - apply follows_bind; [apply execute_follows; [apply exec_follows|reflexivity]|]. by intros x s1 _ Hs1.
  - apply withdraw_follows.
Qed.

End execution_follows.
