(* ===== verification/MultisigSpec.v ===== *)
(** * Claims on multisig transactions

    Who may do what, what submission, approval, execution and withdrawal do when they
    succeed, expiry, and self-execution. *)
From S2P Require Import Prelude Error External Address Types Account Events Migration Storage.
From S2P Require Import StorageLaws LedgerEvent Ledger Tokens Supply Subresource AccountStorage.
From S2P Require Import Multisig MultisigLaws.

#[local] Open Scope string_scope.
#[local] Open Scope list_scope.
#[local] Open Scope N_scope.

(** ** Refusals *)

Section refusals.
Context `{LedgerEnv, !LedgerEnvLaws}.
Implicit Types (s : LedgerStorage) (t : MultisigTransactionStorage) (i : bytes).

Definition may_approve (a : Account) (sender : Address) : bool :=
  has_role a sender CanMultisigApprove || has_role a sender CanMultisigSubmit || has_role a sender Owner.
Definition may_execute (a : Account) t (sender : Address) : bool :=
  has_role a sender Owner || bool_decide (mi_submitter (ms_info t) = sender).

(** C12: a transaction that is no longer pending cannot be approved, revoked, executed or
    withdrawn; approving needs one of the roles owner, can submit or can approve; executing and
    withdrawing are for owners and the submitter; and nobody executes a transaction that has
    fewer approvals than its threshold. Each of these is refused with its own error and
    changes nothing. *)
Theorem multisig_refusals fuel sender i t a ks s :
  get_multisig_info s i = Ok t → get_account s (ms_account t) = Ok (a, ks) →
  let approve := multisig_approve fuel sender i s in
  let execute := multisig_execute fuel sender i s in
  let withdraw := multisig_withdraw sender i s in
  let revoke := multisig_revoke sender i s in
  if ms_disabled t then
    approve = (s, Err transaction_expired_or_withdrawn)
    ∧ revoke = (s, Err transaction_expired_or_withdrawn)
    ∧ execute = (s, Err transaction_expired_or_withdrawn)
    ∧ withdraw = (s, Err transaction_expired_or_withdrawn)
  else
    (may_approve a sender = false → approve = (s, Err user_cannot_approve_transaction))
    ∧ (may_execute a t sender = false →
         execute = (s, Err cannot_execute_transaction) ∧ withdraw = (s, Err cannot_execute_transaction))
    ∧ (approvals t < mi_threshold (ms_info t) → execute = (s, Err cannot_execute_transaction)).
Proof.
  intros Ht Ha. unfold multisig_approve, multisig_execute, multisig_withdraw, multisig_revoke.
  unfold approve_multisig, execute_multisig, withdraw_multisig, revoke_multisig.
  assert (∀ B (f : MultisigTransactionStorage → LedgerM B),
    (reads (λ s, get_multisig_info s i) ≫= f) s = f t s) as Hread.
  { intros B f. by erewrite (bind_reads _ _ s) by exact Ht. }
  assert (∀ B (f : Account * list bytes → LedgerM B),
    (reads (λ s, get_account s (ms_account t)) ≫= f) s = f (a, ks) s) as Hacc.
  { intros B f. by erewrite (bind_reads _ _ s) by exact Ha. }
  simpl. destruct (ms_disabled t) eqn:Hd.
  - split_and!; [apply bind_err|apply bind_err| |]; by rewrite Hread, Hd.
  - split_and!.
    + unfold may_approve. intros [[H1 H2]%orb_false_iff H3]%orb_false_iff.
      apply bind_err. rewrite Hread, Hd, Hacc. cbn [fst]. by rewrite H1, H2, H3.
    + unfold may_execute. intros Hm. rewrite !Hread, Hd, !Hacc. cbn [fst]. by rewrite Hm.
    + intros Hlt. rewrite Hread, Hd, Hacc. cbn [fst]. destruct (negb _); [done|].
      unfold should_execute. by rewrite (proj2 (N.leb_gt _ _)).
Qed.
End refusals.

(** ** Success *)

Section success.
Context `{LedgerEnv, !LedgerEnvLaws}.
Implicit Types (s : LedgerStorage) (t : MultisigTransactionStorage) (i : bytes).

Lemma disable_ok_inv i st s s' u :
  disable_multisig_transaction i st s = (s', Ok u) →
  ∃ t, get_multisig_info s i = Ok t ∧ ms_disabled t = false
    ∧ view s' = <[key_for_multisig_transaction i := to_vec (ms_disable t st)]> (view s) ∧ tid s' = tid s.
Proof.
  unfold disable_multisig_transaction. intros (t & Ht & Hs)%reads_ok_inv.
  destruct (ms_disabled t) eqn:Hd; [done|]. exists t. split; [done|]. split; [done|].
  change (commit_multisig_transaction i (ms_disable t st) s = (s', Ok u)) in Hs.
  destruct (commit_multisig_ok i (ms_disable t st) s) as (s1 & Hs1 & Hv & Htid & _).
  rewrite Hs in Hs1. injection Hs1 as -> _. split; [done|]. unfold tid. by rewrite Htid.
Qed.

Lemma quiet_info {A} (m : LedgerM A) s i :
  only_writes not_multisig m → get_multisig_info (m s).1 i = get_multisig_info s i.
Proof.
  intros Hm. unfold get_multisig_info. rewrite !merk_get_view.
  destruct (Hm s) as [_ Hu].
  destruct (Hu (key_for_multisig_transaction i)) as [Hv _].
  { intros Hn. apply Hn, key_multisig_prefix. }
  change (merk_view (persistent_store (m s).1)) with (view (m s).1).
  change (merk_view (persistent_store s)) with (view s). by rewrite Hv.
Qed.

(** A transaction ends up disabled, with its terms. *)
Definition ended s i t (st : MultisigTransactionState) s' : Prop :=
  ∃ t', get_multisig_info s' i = Ok t' ∧ ms_disabled t' = true ∧ mi_state (ms_info t') = st
    ∧ terms t' = terms t.

Lemma disable_ended s0 s s' i t st u :
  txs_ok s0 → tid s' < ID_LIMIT → follows s0 s → get_multisig_info s0 i = Ok t →
  disable_multisig_transaction i st s = (s', Ok u) → ended s0 i t st s'.
Proof.
  intros Hok Hlim Hs Ht (t1 & Ht1 & Hd1 & Hv & Htid)%disable_ok_inv. rewrite Htid in Hlim.
  pose proof (stored_storable s0 s i t1 Hs Ht1 Hok Hlim) as Hst.
  exists (ms_disable t1 st). split_and!; [|done..|].
  - apply get_multisig_info_ok. exists (to_vec (ms_disable t1 st)). rewrite Hv, lookup_insert_eq.
    split; [done|]. by apply decode_to_vec.
  - destruct (follows_ok _ _ Hs Hlim Hok) as [_ Hev]. apply get_multisig_info_ok in Ht.
    destruct (Hev _ t (key_multisig_prefix i) Ht) as (t2 & Ht2 & [Hterms _]).
    apply get_multisig_info_ok in Ht2. rewrite Ht1 in Ht2. injection Ht2 as <-. exact Hterms.
Qed.

Lemma catch_ok_inv {A} (m : LedgerM A) s s' r : catch m s = (s', Ok r) → s' = (m s).1.
Proof. intros Hc. by rewrite <-catch_state, Hc. Qed.

Lemma internal_ended exec s0 s s' i t t0 automatic r :
  exec_ok exec → txs_ok s0 → tid s' < ID_LIMIT → follows s0 s →
  (txs_ok s0 → tid s < ID_LIMIT → multisig_storable t) → get_multisig_info s0 i = Ok t0 →
  execute_multisig_transaction_internal exec i t automatic s = (s', Ok r) →
  ended s0 i t0 (if automatic then ExecutedAutomatically else ExecutedManually) s'.
Proof.
  intros Hexec Hok Hlim Hs Hst Ht0. unfold execute_multisig_transaction_internal.
  intros (s1 & result & ->%catch_ok_inv & Hr)%bind_ok_inv.
  apply bind_ok_inv in Hr as (s2 & [] & Hdis & Hr).
  apply reads_ok_inv in Hr as (time & _ & Hr). apply reads_ok_inv in Hr as (o & _ & Hr).
  injection Hr as -> _. eapply (disable_ended s0 (exec i t s).1); eauto.
Qed.


Lemma log_tid e s : tid s ≤ tid (log_event e s).1.
Proof. destruct (log_event_writes e s) as [Hf _]. apply (frame_tid _ _ Hf). Qed.

(** an approval that succeeds is by someone who may approve, of a pending transaction,
    and is recorded. It executes the transaction exactly when the transaction executes automatically and
    the approvals, this one included, reach the threshold; the transaction then ends up disabled
    with the state "executed automatically" and its terms unchanged. *)
Theorem multisig_approval fuel sender i s s' (executed : bool) :
  txs_ok s → tid s' < ID_LIMIT →
  approve_multisig (_execute_multisig_tx fuel) sender i s = (s', Ok executed) →
  ∃ t a ks, get_multisig_info s i = Ok t ∧ ms_disabled t = false
    ∧ get_account s (ms_account t) = Ok (a, ks) ∧ may_approve a sender = true
    ∧ let t1 := set_approved t sender true in
      executed = mi_execute_automatically (ms_info t) && should_execute t1
      ∧ if executed then ended s i t ExecutedAutomatically s' else get_multisig_info s' i = Ok t1.
Proof.
  intros Hok Hlim. unfold approve_multisig.
  intros (t & Ht & Hr)%reads_ok_inv. destruct (ms_disabled t) eqn:Hd; [done|].
  apply reads_ok_inv in Hr as ([a ks] & Ha & Hr). cbn [fst] in Hr.
  destruct (_ && _) eqn:Hm in Hr; [done|]. set (t1 := set_approved t sender true) in Hr.
  apply bind_ok_inv in Hr as (s1 & [] & Hc & Hr). apply bind_ok_inv in Hr as (s2 & [] & Hlog & Hr).
  assert (follows s s1) as Hf1. { pose proof (set_approved_follows i t sender true s Ht Hd) as Hf. by fold t1 in Hf; rewrite Hc in Hf. }
  assert (s2 = (log_event (E_AccountMultisigApprove (ms_account t1) i sender) s1).1) as Hs2 by (by rewrite Hlog).
  assert (follows s s2) as Hf2 by (subst s2; apply follows_quiet; auto with quiet).
  exists t, a, ks. split; [done|]. split; [done|]. split; [done|]. split.
  { unfold may_approve. destruct (has_role a sender CanMultisigApprove), (has_role a sender CanMultisigSubmit),
      (has_role a sender Owner); done. }
  change (mi_execute_automatically (ms_info t)) with (mi_execute_automatically (ms_info t1)).
  destruct (mi_execute_automatically (ms_info t1) && should_execute t1) eqn:Hse.
  - apply bind_ok_inv in Hr as (s3 & r & Hint & Hr). apply bind_ok_inv in Hr as (s4 & [] & Hlog2 & Hr).
    injection Hr as -> <-. split; [done|].
    pose proof (log_tid (E_AccountMultisigExecute (ms_account t1) i None r) s3) as Htid.
    rewrite Hlog2 in Htid. simpl in Htid. pose proof (follows_tid _ _ Hf2).
    destruct (internal_ended (_execute_multisig_tx fuel) s s2 s3 i t1 t true r)
      as (t' & Ht' & Hrest); auto using exec_follows.
    { lia. }
    { intros _ Hlt. apply (stored_storable s s i t); auto; [reflexivity|lia]. }
    exists t'. split; [|done].
    pose proof (quiet_info (log_event (E_AccountMultisigExecute (ms_account t1) i None r))
      s3 i ltac:(auto with quiet)) as Hq. rewrite Hlog2 in Hq. simpl in Hq. by rewrite Hq.
  - injection Hr as -> <-. split; [done|]. rewrite Hs2, quiet_info by auto with quiet.
    destruct (commit_multisig_ok i t1 s) as (s1' & Hc' & Hv & _). rewrite Hc in Hc'. injection Hc' as <-.
    pose proof (follows_tid _ _ Hf2). apply get_multisig_info_ok. exists (to_vec t1).
    rewrite Hv, lookup_insert_eq. split; [done|]. apply decode_to_vec.
    apply storable_set_approved, (stored_storable s s i t); auto; [reflexivity|lia].
Qed.

(** a withdrawal that succeeds is by an owner of the account or the submitter, of
    a pending transaction, which ends up disabled with the state "withdrawn". *)
Theorem multisig_withdrawal sender i s s' :
  txs_ok s → tid s' < ID_LIMIT → multisig_withdraw sender i s = (s', Ok tt) →
  ∃ t a ks, get_multisig_info s i = Ok t ∧ ms_disabled t = false
    ∧ get_account s (ms_account t) = Ok (a, ks) ∧ may_execute a t sender = true
    ∧ ended s i t Withdrawn s'.
Proof.
  intros Hok Hlim. unfold multisig_withdraw, withdraw_multisig.
  intros (t & Ht & Hr)%reads_ok_inv. destruct (ms_disabled t) eqn:Hd; [done|].
  apply reads_ok_inv in Hr as ([a ks] & Ha & Hr). cbn [fst] in Hr.
  destruct (negb _) eqn:Hm in Hr; [done|]. apply negb_false_iff in Hm.
  apply bind_ok_inv in Hr as (s1 & [] & Hdis & Hlog). exists t, a, ks. split_and!; auto.
  pose proof (log_tid (E_AccountMultisigWithdraw (ms_account t) i sender) s1) as Htid.
  rewrite Hlog in Htid. simpl in Htid.
  destruct (disable_ended s s s1 i t Withdrawn tt) as (t' & Ht' & Hrest); auto.
  { lia. } { reflexivity. }
  exists t'. split; [|done].
  pose proof (quiet_info (log_event (E_AccountMultisigWithdraw (ms_account t) i sender))
    s1 i ltac:(auto with quiet)) as Hq. rewrite Hlog in Hq. simpl in Hq. by rewrite Hq.
Qed.

(** C38: a transaction whose content is to execute itself, once approved, has no
    bounded execution: whatever depth of nested executions is allowed, executing it runs out of
    it (in the code, the recursion only ends when the stack does). The token of a transaction is the
    next event id, known before it is submitted, and every account owns itself, so that any
    member who may submit can submit such a transaction. *)
Theorem self_execution_diverges fuel sender i t a ks s :
  get_multisig_info s i = Ok t → ms_disabled t = false →
  mi_transaction (ms_info t) = T_AccountMultisigExecute i →
  mi_threshold (ms_info t) ≤ approvals t →
  get_account s (ms_account t) = Ok (a, ks) → has_role a (ms_account t) Owner = true →
  may_execute a t sender = true →
  multisig_execute fuel sender i s = (s, OutOfFuel).
Proof.
  intros Ht Hd Htx Hthr Ha Hown.
  assert (∀ exec sender, may_execute a t sender = true → exec i t s = (s, OutOfFuel) →
    execute_multisig exec sender i s = (s, OutOfFuel)) as Hstep.
  { intros exec sd Hm He. unfold execute_multisig.
    erewrite (bind_reads _ _ s) by exact Ht. rewrite Hd.
    erewrite (bind_reads _ _ s) by exact Ha. cbn [fst]. unfold may_execute in Hm. rewrite Hm. simpl.
    unfold should_execute. rewrite (proj2 (N.leb_le _ _)) by done.
    unfold execute_multisig_transaction_internal, mbind, st_bind, catch. by rewrite He. }
  intros Hm. apply Hstep; [done|]. clear Hm. induction fuel as [|fuel IH]; [done|].
  cbn [_execute_multisig_tx]. rewrite Htx. unfold mbind, st_bind. rewrite Hstep; [done| |done].
  unfold may_execute. by rewrite Hown.
Qed.
End success.

(** ** Submission *)

Section submission.
Context `{LedgerEnv, !LedgerEnvLaws}.
Implicit Types (s : LedgerStorage) (t : MultisigTransactionStorage) (i : bytes).

Lemma owner_choice_inv {A} is_owner (o : option A) d x :
  owner_choice is_owner o d = Ok x → x = default d o ∧ (is_owner = false → o = None).
Proof. destruct o, is_owner; simpl; intros [= ->]; split; congruence || done. Qed.

Lemma checked_add_inv time secs x : checked_add time secs = Ok x → x = time + secs.
Proof. unfold checked_add. destruct (_ <=? _); [|done]. by intros [= ->]. Qed.
Lemma as_system_time_inv n x : as_system_time n = Ok x → x = n.
Proof. unfold as_system_time. destruct (_ <=? _); [|done]. by intros [= ->]. Qed.

(** a submission that succeeds is by a member who may submit, and stores a new pending
    transaction under the next event id, which had none: approved by the submitter alone, with the
    threshold, timeout and execution mode of the arguments or else the defaults of the account.
    Its timeout is at most 185 days from now. Only an owner overrides the defaults. *)
Theorem multisig_submission sender args s s' token :
  txs_ok s → tid s' < ID_LIMIT → args_storable args →
  multisig_submit_transaction sender args s = (s', Ok token) →
  ∃ a ks f t, get_account s (sub_account args) = Ok (a, ks)
    ∧ (has_role a sender CanMultisigSubmit = true ∨ has_role a sender Owner = true)
    ∧ FeatureSet_get MultisigAccountFeature (features a) = Ok f
    ∧ (has_role a sender Owner = false → sub_threshold args = None
         ∧ sub_timeout_in_secs args = None ∧ sub_execute_automatically args = None)
    ∧ token = next_event_id s ∧ get_multisig_info s token = Err transaction_cannot_be_found
    ∧ get_multisig_info s' token = Ok t
    ∧ ms_account t = sub_account args ∧ ms_disabled t = false ∧ mi_state (ms_info t) = Pending
    ∧ mi_transaction (ms_info t) = sub_transaction args ∧ mi_submitter (ms_info t) = sender
    ∧ mi_approvers (ms_info t) = {[sender := true]}
    ∧ mi_threshold (ms_info t) = default (default 1 (arg_threshold (arg f))) (sub_threshold args)
    ∧ ms_creation t = now s ∧ mi_timeout (ms_info t) ≤ now s + 185 * 86400.
Proof.
  intros Hok Hlim (Hm & Hdat & Hmm & Htx). unfold multisig_submit_transaction, create_multisig_transaction.
  set (i := next_event_id s). set (s1 := with_tid s i).
  rewrite (bind_ok new_event_id _ s s1 i eq_refl). intros Hr.
  apply reads_ok_inv in Hr as ([a ks] & Ha & Hr). cbn [fst] in Hr.
  apply lift_ok_inv in Hr as ([] & Hrole & Hr). apply lift_ok_inv in Hr as (f & Hf & Hr).
  apply lift_ok_inv in Hr as (thr & [Hthr Hthr']%owner_choice_inv & Hr).
  apply lift_ok_inv in Hr as (tmo & [_ Htmo']%owner_choice_inv & Hr).
  apply lift_ok_inv in Hr as (aut & [_ Haut']%owner_choice_inv & Hr).
  apply reads_ok_inv in Hr as (time & Htime%as_system_time_inv & Hr).
  apply lift_ok_inv in Hr as (timeout & Hto%checked_add_inv & Hr).
  apply reads_ok_inv in Hr as (mig & _ & Hr).
  apply bind_ok_inv in Hr as (s2 & [] & Hc & Hr). apply bind_ok_inv in Hr as (s3 & [] & Hlog & Hr).
  injection Hr as -> <-. match type of Hc with commit_multisig_transaction _ ?x _ = _ => set (t := x) in Hc end.
  destruct (commit_multisig_ok i t s1) as (s2' & Hc' & Hv2 & Ht2 & _). rewrite Hc in Hc'. injection Hc' as <-.
  assert (s' = (log_event (E_AccountMultisigSubmit sender (sub_account args)
    (if mig then None else sub_memo_ args) (sub_transaction args) (Some i) thr timeout aut
    (if mig then None else sub_data_ args) (if mig then sub_memo args else None)) s2).1) as Hs3 by (by rewrite Hlog).
  assert (tid s2 ≤ tid s') as Htid by (rewrite Hs3; apply log_tid).
  assert (tid s2 = tid s + 1) as Htid2.
  { unfold tid. rewrite Ht2. simpl. unfold i. by rewrite tid_next. }
  exists a, ks, f, t. split; [exact Ha|]. split.
  { apply needs_role_ok in Hrole. rewrite !has_role_holds.
    apply Exists_cons in Hrole as [?|[?|Hn]%Exists_cons]; auto. inversion Hn. }
  split; [done|]. split; [auto|]. split; [done|]. split.
  { unfold get_multisig_info. rewrite merk_get_view. change (merk_view (persistent_store s)) with (view s).
    destruct (view s !! key_for_multisig_transaction i) as [l|] eqn:Hl; [|done]. exfalso.
    destruct (Hok _ l (key_multisig_prefix i) Hl) as [(j & Hj & Hlj & Hle) _].
    apply key_multisig_value in Hj; [|apply next_event_id_length|done].
    - unfold i in Hj. rewrite tid_next in Hj. lia.
    - rewrite tid_next. lia. }
  split.
  { rewrite Hs3, quiet_info by auto with quiet. apply get_multisig_info_ok. exists (to_vec t).
    rewrite Hv2, lookup_insert_eq. split; [done|]. apply decode_to_vec.
    unfold multisig_storable, t. simpl. split_and!; try done; by case_match. }
  split_and!; try done.
  unfold t. simpl. rewrite Hto, Htime. change (now s1) with (now s).
  unfold MULTISIG_MAXIMUM_TIMEOUT_IN_SECS. lia.
Qed.
End submission.

(** ** Expiry *)

Section expiry.
Context `{LedgerEnv, !LedgerEnvLaws}.
Implicit Types (s : LedgerStorage) (t : MultisigTransactionStorage) (k : bytes).

(** The transactions in the database can be decoded, and time out at most the maximum
    after their creation ([multisig_submission]). *)
Definition db_ok s : Prop :=
  ∀ k l, multisig_key k → committed s !! k = Some l →
    ∃ t, decode l = Ok t ∧ mi_timeout (ms_info t) ≤ ms_creation t + MULTISIG_MAXIMUM_TIMEOUT_IN_SECS.

(** The write for a transaction that is due. *)
Definition expiry_write (time : Timestamp) (l : bytes) : option bytes :=
  match decode l with
  | Ok t => if negb (ms_disabled t) && (mi_timeout (ms_info t) <=? time)
            then Some (to_vec (ms_disable t Expired)) else None
  | _ => None
  end.
Definition expiry_entry (time : Timestamp) (kl : bytes * bytes) : option BatchEntry :=
  (λ v, (kl.1, Put v)) <$> expiry_write time kl.2.

Lemma expired_batch_ok time l :
  time ≤ I64_MAX →
  (∀ k v, (k, v) ∈ l → ∃ t, decode v = Ok t
     ∧ mi_timeout (ms_info t) ≤ ms_creation t + MULTISIG_MAXIMUM_TIMEOUT_IN_SECS) →
  expired_batch time (Ok <$> l) = Ok (omap (expiry_entry time) l).
Proof.
  intros Htime. induction l as [|[k v] l IH]; intros Hl; [done|].
  destruct (Hl k v) as (t & Ht & Hle); [by left|]. specialize (IH (λ k v Hin, Hl k v (list_elem_of_further _ _ _ Hin))).
  cbn [fmap list_fmap expired_batch]. cbn [map_err mbind outcome_bind snd fst].
  unfold decode_or. rewrite Ht. cbn [map_err mbind outcome_bind].
  cbn [omap list_omap]. unfold expiry_entry at 1, expiry_write. cbn [snd fst]. rewrite Ht.
  destruct (N.leb_spec (mi_timeout (ms_info t)) time) as [Hdue|Hnot].
  - fold (fmap (M := list) (@Ok string (bytes * bytes))). rewrite IH. cbn [mbind outcome_bind].
    by destruct (ms_disabled t).
  - unfold as_system_time. rewrite (proj2 (N.leb_le _ _)) by done. cbn [mbind outcome_bind].
    rewrite andb_false_r. cbn [fmap option_fmap option_map].
    assert ((ms_creation t <=? time) && (MULTISIG_MAXIMUM_TIMEOUT_IN_SECS <? time - ms_creation t) = false) as ->;
      [|exact IH].
    apply andb_false_iff. right. apply N.ltb_ge. lia.
Qed.

Lemma omap_reverse {A B} (f : A → option B) (l : list A) : omap f (reverse l) = reverse (omap f l).
Proof.
  induction l as [|x l IH]; [done|]. rewrite reverse_cons, omap_app, IH. simpl.
  destruct (f x); simpl; [by rewrite reverse_cons|by rewrite app_nil_r].
Qed.

(** Dropping entries keeps keys in order. *)
Lemma omap_ascending time l :
  keys_ascending l → keys_ascending (omap (expiry_entry time) l).
Proof.
  unfold keys_ascending. induction l as [|[k v] l IH]; csimpl; [done|].
  intros [Hs Hall]%StronglySorted_inv. specialize (IH Hs).
  destruct (expiry_entry time (k, v)) as [[k' o]|] eqn:E; [|done].
  unfold expiry_entry in E. destruct (expiry_write time (k, v).2); simplify_eq/=. constructor; [done|].
  apply Forall_forall. intros k2 ([k3 o3] & -> & ([k4 v4] & Hin & He)%list_elem_of_omap)%list_elem_of_fmap.
  unfold expiry_entry in He. simpl in *. destruct (expiry_write time v4); simplify_eq/=.
  rewrite Forall_forall in Hall. apply Hall. by apply (list_elem_of_fmap_2 fst) in Hin.
Qed.

(** What the check writes. *)
Lemma expiry_batch_view (time : Timestamp) (m db : gmap bytes bytes) k :
  let l := omap (expiry_entry time) (range_entries db (PrefixRange MULTISIG_TRANSACTIONS_ROOT)) in
  apply_batch m l !! k =
    match (if decide (multisig_key k) then db !! k ≫= expiry_write time else None) with
    | Some v => Some v
    | None => m !! k
    end.
Proof.
  intros l. pose proof (omap_ascending time _ (range_entries_ascending db
    (PrefixRange MULTISIG_TRANSACTIONS_ROOT))) as Hasc. fold l in Hasc.
  assert (∀ k o, (k, o) ∈ l ↔ multisig_key k ∧ ∃ w v, db !! k = Some w ∧ expiry_write time w = Some v ∧ o = Put v) as Hin.
  { intros k' o. unfold l. rewrite list_elem_of_omap. split.
    - intros ([k2 w] & [Hw Hr]%elem_of_range_entries & He). unfold expiry_entry in He. simpl in He.
      destruct (expiry_write time w) as [v|] eqn:Ev; simplify_eq/=. split; [done|]. eauto.
    - intros (Hk & w & v & Hw & Hv & ->). exists (k', w). rewrite elem_of_range_entries. split; [done|].
      unfold expiry_entry. simpl. by rewrite Hv. }
  destruct (if decide (multisig_key k) then db !! k ≫= expiry_write time else None) as [v|] eqn:E.
  - apply lookup_apply_batch_put; [by apply keys_ascending_NoDup|]. apply Hin.
    destruct (decide (multisig_key k)); [|done]. split; [done|].
    apply bind_Some in E as (w & Hw & Hv). eauto.
  - apply lookup_apply_batch_ne. intros ([k' o] & Hk & (Hm & w & v & Hw & Hv & _)%Hin)%list_elem_of_fmap.
    simpl in Hk. subst k'. rewrite decide_True in E by done. rewrite Hw in E. simpl in E. congruence.
Qed.

Lemma check_timed_out_ok s :
  db_ok s → now s ≤ I64_MAX →
  ∃ s', check_timed_out_multisig_transactions s = (s', Ok tt)
    ∧ view s' = apply_batch (view s) (omap (expiry_entry (now s))
        (range_entries (committed s) (PrefixRange MULTISIG_TRANSACTIONS_ROOT)))
    ∧ latest_tid s' = latest_tid s ∧ frame s s'.
Proof.
  intros Hdb Htime. unfold check_timed_out_multisig_transactions.
  set (l := range_entries (committed s) (PrefixRange MULTISIG_TRANSACTIONS_ROOT)).
  assert (expired_batch (now s) (iter_multisig s Descending) = Ok (reverse (omap (expiry_entry (now s)) l))) as Hb.
  { unfold iter_multisig, all_multisig, ledger_iter. rewrite merk_iter_ok.
    change (merk_db (persistent_store s)) with (committed s). cbn [iter_mode iter_entries]. fold l.
    rewrite expired_batch_ok, omap_reverse; [done|done|]. intros k v. rewrite elem_of_reverse.
    intros [Hk Hr]%elem_of_range_entries. by apply (Hdb k). }
  erewrite (bind_reads _ _ s) by exact Hb. rewrite reverse_involutive.
  assert (∃ s1, (if bool_decide (reverse (omap (expiry_entry (now s)) l) = []) then mret tt
                 else store_apply (omap (expiry_entry (now s)) l)) s = (s1, Ok tt)
    ∧ view s1 = apply_batch (view s) (omap (expiry_entry (now s)) l)
    ∧ latest_tid s1 = latest_tid s ∧ frame s s1) as (s1 & Hs1 & Hv1 & Ht1 & Hf1).
  { case_bool_decide as Hnil.
    - exists s. apply (f_equal reverse) in Hnil. rewrite reverse_involutive in Hnil. rewrite Hnil.
      split; [done|]. split; [done|]. split; [done|reflexivity].
    - destruct (store_apply_with_ok storage_apply_failed (omap (expiry_entry (now s)) l) s)
        as (s1 & ? & ? & _ & ? & ?); [apply omap_ascending, range_entries_ascending|]. eauto 10. }
  rewrite (bind_ok _ _ _ _ _ Hs1). destruct (maybe_commit_ok s1) as (s2 & -> & Hv2 & Ht2 & Hf2).
  exists s2. split; [done|]. split; [congruence|]. split; [congruence|by trans s1].
Qed.

(** C33: the check at the end of a block marks as expired exactly the transactions that are, in
    the database, not disabled and due ([timeout <= now]), and changes nothing else: the loop, which
    goes backwards and may stop early, misses none of them. *)
Theorem expiry_exact s :
  db_ok s → now s ≤ I64_MAX →
  ∃ s', check_timed_out_multisig_transactions s = (s', Ok tt) ∧
    ∀ k, if decide (multisig_key k) then
           match committed s !! k ≫= expiry_write (now s) with
           | Some v => view s' !! k = Some v
           | None => view s' !! k = view s !! k
           end
         else view s' !! k = view s !! k.
Proof.
  intros Hdb Htime. destruct (check_timed_out_ok s Hdb Htime) as (s' & Hs & Hv & _).
  exists s'. split; [done|]. intros k. rewrite Hv, expiry_batch_view.
  destruct (decide (multisig_key k)); [|done]. by destruct (committed s !! k ≫= expiry_write (now s)).
Qed.

(** the check looks at the database, not at the changes of the block that
    ends. A transaction that was executed or withdrawn in that block, after its timeout but before
    the check, is stored again from its earlier copy: its final state is replaced by
    "expired", and the approvals of the block are lost. *)
Theorem expiry_overwrites s i t l t' :
  db_ok s → now s ≤ I64_MAX →
  committed s !! key_for_multisig_transaction i = Some l → decode l = Ok t → multisig_storable t →
  ms_disabled t = false → mi_timeout (ms_info t) ≤ now s →
  get_multisig_info s i = Ok t' → ms_disabled t' = true → mi_state (ms_info t') = ExecutedManually →
  ∃ s', check_timed_out_multisig_transactions s = (s', Ok tt)
    ∧ get_multisig_info s' i = Ok (ms_disable t Expired).
Proof.
  intros Hdb Htime Hl Ht Hst Hd Hdue _ _ _. destruct (check_timed_out_ok s Hdb Htime) as (s' & Hs & Hv & _).
  exists s'. split; [done|]. apply get_multisig_info_ok. exists (to_vec (ms_disable t Expired)).
  split; [|by apply decode_to_vec]. rewrite Hv, expiry_batch_view.
  rewrite decide_True by apply key_multisig_prefix. rewrite Hl. cbn [mbind option_bind].
  unfold expiry_write. rewrite Ht, Hd. by rewrite (proj2 (N.leb_le _ _)).
Qed.
End expiry.
