(* ===== verification/Abci.v ===== *)
(** * many-ledger: blocks

    Models [many-ledger/src/storage/abci.rs] ([commit]) and [module/abci.rs] (the
    [ManyAbciModuleBackend]: [init], [init_chain], [begin_block], [info], [commit]), and
    proves what the end of a block does to the height, the database, the hash and the
    numbering of events. *)
From S2P Require Import Prelude Error External Address Types Account Events Migration Storage.
From S2P Require Import StorageLaws LedgerEvent Ledger Tokens Supply Subresource AccountStorage.
From S2P Require Import Multisig MultisigLaws MultisigSpec.

#[local] Open Scope string_scope.
#[local] Open Scope list_scope.
#[local] Open Scope N_scope.

(** [init]: the endpoints, and whether each is a command. *)
Definition endpoints : gmap string bool := list_to_map
  [("ledger.info", false); ("ledger.balance", false); ("ledger.send", true);
   ("events.info", false); ("events.list", false);
   ("idstore.store", true); ("idstore.getFromRecallPhrase", false); ("idstore.getFromAddress", false);
   ("account.create", true); ("account.setDescription", true); ("account.listRoles", false);
   ("account.getRoles", false); ("account.addRoles", true); ("account.removeRoles", true);
   ("account.info", false); ("account.disable", true); ("account.addFeatures", true);
   ("account.multisigSetDefaults", true); ("account.multisigSubmitTransaction", true);
   ("account.multisigInfo", false); ("account.multisigApprove", true);
   ("account.multisigRevoke", true); ("account.multisigExecute", true);
   ("account.multisigWithdraw", true);
   ("data.info", false); ("data.getInfo", false); ("data.query", false);
   ("tokens.create", true); ("tokens.update", true); ("tokens.info", false);
   ("tokens.addExtendedInfo", true); ("tokens.removeExtendedInfo", true);
   ("tokens.mint", true); ("tokens.burn", true)].

Section abci.
Context `{LedgerEnv}.

(** [.expect(msg)]. *)
Definition expect {A} (msg : string) (m : LedgerM A) : LedgerM A := λ s,
  match m s with
  | (s', Err _) => (s', Panic msg)
  | r => r
  end.

(** [self.migrations.update_at_height(&mut self.persistent_store, height)]. *)
Definition run_migrations (height : N) : LedgerM unit := λ s,
  let '(ms, m, r) := update_at_height (migrations s) (persistent_store s) height in
  (set_migrations (with_store s m) ms, r).

Definition commit : LedgerM AbciCommitInfo :=
  catch check_timed_out_multisig_transactions;;
  height ← expect "Unable to increment height." inc_height;
  expect "Unable to commit to storage." commit_storage;;
  expect "Unable to run migrations" (run_migrations (wrap64 (height + 1)));;
  expect "Unable to commit to storage." commit_storage;;
  hash ← reads (λ s, Ok (merk_root_hash (persistent_store s)));
  modify_state (λ s, with_tid (with_hash s hash)
                       (event_id_of_u64 (wrap64 (N.shiftl height HEIGHT_EVENTID_SHIFT))));;
  mret (mkCommitInfo 0 hash).

(** ** [module/abci.rs] *)

Definition abci_init : LedgerM (gmap string bool) := mret endpoints.
Definition init_chain : LedgerM unit := mret tt.
Definition begin_block (i : AbciBlock) : LedgerM unit :=
  reads get_height;;
  match block_time i with
  | Some time => modify_state (λ s, set_time s time)
  | None => mret tt
  end.
Definition abci_info (s : LedgerStorage) : outcome ManyError AbciInfo :=
  height ← get_height s; Ok (mkAbciInfo height (hash s)).
End abci.

Section abci_laws.
Context `{LedgerEnv, !LedgerEnvLaws}.
Implicit Types s : LedgerStorage.

Lemma get_height_view s : get_height s = read_be_or_zero 8 (view s !! b HEIGHT_ROOT).
Proof. unfold get_height. by rewrite store_get_view. Qed.

(** No migration does anything at this height. *)
Definition no_migration s (height : N) : Prop :=
  ∀ m, update_at_height (migrations s) m height = (migrations s, m, Ok tt).

Lemma expect_ok {A} msg (m : LedgerM A) s s' a : m s = (s', Ok a) → expect msg m s = (s', Ok a).
Proof. intros Hm. unfold expect. by rewrite Hm. Qed.

Lemma inc_height_ok s h :
  get_height s = Ok h →
  ∃ s', inc_height s = (s', Ok h) ∧ view s' = <[b HEIGHT_ROOT := be_bytes 8 (h + 1)]> (view s)
    ∧ frame s s'.
Proof.
  intros Hh. unfold inc_height. rewrite (bind_reads _ _ _ _ Hh).
  destruct (store_apply_one (b HEIGHT_ROOT) (Put (be_bytes 8 (h + 1))) s) as (s1 & Hs1 & Hv1 & _ & _ & Hf1).
  rewrite (bind_ok _ _ _ _ _ Hs1). eauto.
Qed.

(** Everything [commit] does, in order. *)
Lemma commit_ok s h :
  db_ok s → now s ≤ I64_MAX → get_height s = Ok h → no_migration s (wrap64 (h + 1)) →
  ∃ s', commit s = (s', Ok (mkCommitInfo 0 (hash s')))
    ∧ view s' = <[b HEIGHT_ROOT := be_bytes 8 (h + 1)]>
                (apply_batch (view s) (omap (expiry_entry (now s))
                   (range_entries (committed s) (PrefixRange MULTISIG_TRANSACTIONS_ROOT))))
    ∧ committed s' = view s' ∧ hash s' = merk_root_hash (persistent_store s')
    ∧ latest_tid s' = event_id_of_u64 (wrap64 (N.shiftl h HEIGHT_EVENTID_SHIFT))
    ∧ blockchain s' = blockchain s ∧ current_time s' = current_time s ∧ migrations s' = migrations s.
Proof.
  intros Hdb Htime Hh Hmig. unfold commit.
  destruct (check_timed_out_ok s Hdb Htime) as (s1 & Hs1 & Hv1 & _ & Hf1).
  rewrite (bind_ok (catch _) _ s s1 (Ok tt)) by (unfold catch; by rewrite Hs1).
  assert (get_height s1 = Ok h) as Hh1.
  { rewrite get_height_view, Hv1, expiry_batch_view, decide_False, <-get_height_view; [done|].
    intros [r Hr]. cbv in Hr. discriminate Hr. }
  destruct (inc_height_ok s1 h Hh1) as (s2 & Hs2 & Hv2 & Hf2).
  rewrite (bind_ok _ _ _ _ _ (expect_ok _ _ _ _ _ Hs2)).
  destruct (commit_storage_ok s2) as (s3 & Hs3 & Hv3 & _ & _ & Hf3).
  rewrite (bind_ok _ _ _ _ _ (expect_ok _ _ _ _ _ Hs3)).
  assert (migrations s3 = migrations s) as Hm3.
  { by rewrite (frame_migrations _ _ Hf3), (frame_migrations _ _ Hf2), (frame_migrations _ _ Hf1). }
  assert (run_migrations (wrap64 (h + 1)) s3 = (s3, Ok tt)) as Hs4.
  { unfold run_migrations. rewrite Hm3, Hmig, <-Hm3. by destruct s3. }
  rewrite (bind_ok _ _ _ _ _ (expect_ok _ _ _ _ _ Hs4)).
  destruct (commit_storage_ok s3) as (s5 & Hs5 & Hv5 & Hc5 & _ & Hf5).
  rewrite (bind_ok _ _ _ _ _ (expect_ok _ _ _ _ _ Hs5)).
  erewrite (bind_reads _ _ s5) by done.
  exists (with_tid (with_hash s5 (merk_root_hash (persistent_store s5)))
           (event_id_of_u64 (wrap64 (N.shiftl h HEIGHT_EVENTID_SHIFT)))).
  split; [done|]. change (view (with_tid _ _)) with (view s5).
  change (committed (with_tid _ _)) with (committed s5).
  split; [by rewrite Hv5, Hv3, Hv2, Hv1|]. split; [congruence|]. split; [done|]. split; [done|].
  simpl. split_and!.
  - by rewrite (frame_blockchain _ _ Hf5), (frame_blockchain _ _ Hf3), (frame_blockchain _ _ Hf2),
      (frame_blockchain _ _ Hf1).
  - by rewrite (frame_time _ _ Hf5), (frame_time _ _ Hf3), (frame_time _ _ Hf2), (frame_time _ _ Hf1).
  - by rewrite (frame_migrations _ _ Hf5), Hm3.
Qed.

(** C29: ending a block (at a height where no migration runs) always succeeds: it expires the due
    transactions, increases the height by one, brings the database up to date with everything
    written, and publishes the root hash of the result; nothing else of the state that reads
    see changes. *)
Theorem commit_spec s h :
  db_ok s → now s ≤ I64_MAX → get_height s = Ok h → h + 1 < 2 ^ 64 → no_migration s (wrap64 (h + 1)) →
  ∃ s', commit s = (s', Ok (mkCommitInfo 0 (hash s')))
    ∧ abci_info s' = Ok (mkAbciInfo (h + 1) (merk_root_hash (persistent_store s')))
    ∧ committed s' = view s'
    ∧ ∀ k, k ≠ b HEIGHT_ROOT →
        view s' !! k = match (if decide (multisig_key k)
                              then committed s !! k ≫= expiry_write (now s) else None) with
                       | Some v => Some v
                       | None => view s !! k
                       end.
Proof.
  intros Hdb Htime Hh Hlt Hmig.
  destruct (commit_ok s h Hdb Htime Hh Hmig) as (s' & Hs & Hv & Hc & Hhash & _).
  exists s'. split; [done|]. split; [|split; [done|]].
  - unfold abci_info. rewrite get_height_view, Hv, lookup_insert_eq, read_be_be_bytes.
    cbn [mbind outcome_bind]. by rewrite N.mod_small, Hhash.
  - intros k Hk. by rewrite Hv, lookup_insert_ne, expiry_batch_view.
Qed.

Lemma tid_of_u64 n : n < 2 ^ 64 → be_value (event_id_of_u64 n) = n.
Proof.
  intros Hn. unfold event_id_of_u64. rewrite be_value_be_bytes. by apply N.mod_small.
Qed.

(** after the first block, event ids never go back: at the end of the block of height [h],
    events are numbered from [h * 2^32] on, which is above every id given so far as long as a block
    has at most 2^32 events. *)
Theorem block_event_ids s h :
  db_ok s → now s ≤ I64_MAX → get_height s = Ok h → no_migration s (wrap64 (h + 1)) →
  0 < h → h < 2 ^ 32 → tid s ≤ (h - 1) * 2 ^ 32 + 2 ^ 32 →
  ∃ s' info, commit s = (s', Ok info) ∧ tid s' = h * 2 ^ 32 ∧ tid s ≤ tid s'
    ∧ be_value (next_event_id s') = h * 2 ^ 32 + 1.
Proof.
  intros Hdb Htime Hh Hmig Hpos Hlt Htid.
  destruct (commit_ok s h Hdb Htime Hh Hmig) as (s' & Hs & _ & _ & _ & Ht & _).
  assert (tid s' = h * 2 ^ 32) as Htid'.
  { unfold tid. rewrite Ht. unfold HEIGHT_EVENTID_SHIFT, wrap64. rewrite N.shiftl_mul_pow2.
    assert (h * 2 ^ 32 < 2 ^ 64) as Hb by (change (2 ^ 64) with (2 ^ 32 * 2 ^ 32); apply N.mul_lt_mono_pos_r; done).
    rewrite (N.mod_small _ _ Hb), tid_of_u64; done. }
  exists s'. eexists. split; [exact Hs|]. split; [done|]. rewrite tid_next, Htid'. split; [|done].
  replace h with (h - 1 + 1) at 2 by lia. lia.
Qed.

(** the first block is different. Its events are numbered from 0 on, and so are those of
    the second block: [commit] at height 0 sets the last id back to 0. An event logged in the second
    block is stored under the key of one logged in the first block, which it replaces, while the
    event counter says that there are two. *)
Theorem first_block_ids_reused s e1 e2 s1 :
  get_height s = Ok 0 → tid s = 0 → nb_events s = Ok 0 → log_event e1 s = (s1, Ok tt) →
  db_ok s1 → now s1 ≤ I64_MAX → no_migration s1 1 →
  ∃ s2 info s3, commit s1 = (s2, Ok info) ∧ log_event e2 s2 = (s3, Ok tt)
    ∧ nb_events s3 = Ok 2
    ∧ view s1 !! key_for_event (latest_tid s1) = Some (to_vec (mkEventLog (latest_tid s1) (now s) e1))
    ∧ view s3 !! key_for_event (latest_tid s1) = Some (to_vec (mkEventLog (latest_tid s3) (now s2) e2)).
Proof.
  intros Hh Htid Hn Hlog Hdb Htime Hmig.
  destruct (log_event_ok e1 s 0 Hn) as (s1' & Hs1 & Hv1 & Ht1 & Hf1).
  rewrite Hlog in Hs1. injection Hs1 as <-.
  assert (get_height s1 = Ok 0) as Hh1.
  { by rewrite get_height_view, Hv1, !lookup_insert_ne, <-get_height_view by key_discr. }
  destruct (commit_ok s1 0 Hdb Htime Hh1 Hmig) as (s2 & Hs2 & Hv2 & _ & _ & Ht2 & _).
  assert (nb_events s2 = Ok 1) as Hn2.
  { rewrite nb_events_view, Hv2, lookup_insert_ne by key_discr. rewrite expiry_batch_view, decide_False.
    - by rewrite Hv1, lookup_insert_eq, read_be_be_bytes.
    - intros [r Hr]. cbv in Hr. discriminate Hr. }
  destruct (log_event_ok e2 s2 1 Hn2) as (s3 & Hs3 & Hv3 & Ht3 & Hf3).
  exists s2. eexists. exists s3. split; [exact Hs2|]. split; [done|].
  assert (be_value (next_event_id s2) = be_value (latest_tid s1)) as Heq.
  { rewrite tid_next, Ht1, tid_next, Htid. unfold tid. by rewrite Ht2. }
  assert (∀ s, be_value (next_event_id s) = 1 → (length (next_event_id s) ≤ 32)%nat) as Hlen.
  { intros s0 Hs0. apply next_event_id_length. by rewrite Hs0. }
  assert (key_for_event (latest_tid s1) = key_for_event (next_event_id s2)) as Hkey.
  { unfold key_for_event. f_equal. apply expand_id_inj; [| |done].
    - rewrite Ht1. apply Hlen. by rewrite tid_next, Htid.
    - apply Hlen. by rewrite Heq, Ht1, tid_next, Htid. }
  split_and!.
  - rewrite nb_events_view, Hv3, lookup_insert_eq, read_be_be_bytes. done.
  - rewrite Hv1, Ht1, lookup_insert_ne, lookup_insert_eq; [done|]. key_discr.
  - rewrite Hv3, Ht3, Hkey, lookup_insert_ne, lookup_insert_eq; [done|]. key_discr.
Qed.
End abci_laws.
