(* ===== verification/LedgerModule.v ===== *)
(** * many-ledger: the ledger, token and data endpoints

    Models the backends of [many-ledger/src/module/ledger.rs] ([info], [balance]),
    [ledger_commands.rs] ([send]), [ledger_tokens.rs] ([create], [info], [update],
    [addExtendedInfo], [removeExtendedInfo]), [ledger_mintburn.rs] ([mint], [burn]),
    [data.rs] and the wrapper of [allow_addrs.rs]; and proves who may send, mint and burn. *)
From S2P Require Import Prelude Error External Address Types Account Events Migration Storage.
From S2P Require Import StorageLaws LedgerEvent Ledger Tokens Supply Subresource AccountStorage.
From S2P Require Import AccountModule.

#[local] Open Scope string_scope.
#[local] Open Scope list_scope.
#[local] Open Scope N_scope.

Definition DISABLE_TOKEN_CREATE_MIGRATION : string := "Disable Token Create Migration".
Definition DISABLE_TOKEN_MINT_MIGRATION : string := "Disable Token Mint Migration".
Definition TOKEN_CREATE_MIGRATION : string := "Token Create Migration".

Record LedgerInfoReturns : Type := mkLedgerInfo {
  li_symbols : list Symbol;
  li_hash : bytes;
  li_local_names : gmap Address string;
  li_tokens : gmap Symbol TokenInfoSummary;
}.

Module LedgerBackend.
Section handlers.
Context `{LedgerEnv}.

(** ** [ledger.rs] *)

Definition info (s : LedgerStorage) (context : Context) : outcome ManyError LedgerInfoReturns :=
  let h := hash s in
  symbols ← get_symbols_and_tickers s;
  context [h; b SYMBOLS_ROOT];;
  tokens ← get_token_info_summary s;
  Ok (mkLedgerInfo (btree_iter symbols).*1 h symbols tokens).

Definition balance (s : LedgerStorage) (sender : Address) (account : option Address)
    (symbols : option (list Symbol)) (context : Context) :
    outcome ManyError (gmap Symbol TokenAmount) :=
  r ← get_multiple_balances s (default sender account) (list_to_set (default [] symbols));
  context r.2;;
  Ok r.1.

(** ** [ledger_commands.rs] *)

Definition send (sender : Address) (args : SendArgs) : LedgerM unit :=
  let from := default sender (send_from args) in
  if is_illegal from then fails unauthorized
  else
    (if bool_decide (from ≠ sender) then
       r ← reads (λ s, map_err (λ _, unauthorized) (get_account s from));
       lift (verify_account_role r.1 sender (ID AccountLedger) [CanLedgerTransact])
     else mret tt);;
    Ledger.send from (send_to args) (send_symbol args) (send_amount args) (send_memo args);;
    mret tt.

(** [AllowAddrsModule::execute]: only listed senders reach the module. *)
Definition allow_addrs (allowed : gset Address) (sender : Address) (args : SendArgs) : LedgerM unit :=
  if bool_decide (sender ∈ allowed) then send sender args else fails invalid_from_identity.

(** ** [data.rs] *)

Definition data_info_indices (s : LedgerStorage) (context : Context) : outcome ManyError (list DataIndex) :=
  context [DATA_ATTRIBUTES_KEY];;
  o ← data_attributes s;
  Ok (map_to_list (default ∅ o)).*1.
Definition data_get_info (s : LedgerStorage) (indices : list DataIndex) (context : Context) :
    outcome ManyError (gmap DataIndex DataInfo) :=
  o ← data_info s;
  context [DATA_INFO_KEY];;
  Ok (filter (λ kv, kv.1 ∈ indices) (default ∅ o)).
Definition data_query (s : LedgerStorage) (indices : list DataIndex) (context : Context) :
    outcome ManyError (gmap DataIndex DataValue) :=
  o ← data_attributes s;
  context [DATA_ATTRIBUTES_KEY];;
  Ok (filter (λ kv, kv.1 ∈ indices) (default ∅ o)).
End handlers.
End LedgerBackend.

Module TokenBackend.
Section handlers.
Context `{LedgerEnv}.

Definition active (s : LedgerStorage) (n : string) : bool := migration_active s n.

(** [if !migrations.is_active(&TOKEN_MIGRATION) { return Err(invalid_method_name(..)) }]. *)
Definition needs_token_migration (method : string) (s : LedgerStorage) : outcome ManyError unit :=
  if active s TOKEN_MIGRATION then Ok tt else Err (invalid_method_name method).

Definition token_identity (s : LedgerStorage) : outcome ManyError Address :=
  or_else (get_identity s TOKEN_IDENTITY_ROOT) (λ _, get_identity s IDENTITY_ROOT).

(** [ticker.len()] counts bytes. *)
Definition check_ticker_length (t : string) : outcome ManyError unit :=
  if (3 <=? String.length t)%nat && (String.length t <=? 5)%nat then Ok tt
  else Err (invalid_ticker_length t).

(** ** [ledger_tokens.rs] *)

Definition create (sender : Address) (args : TokenCreateArgs) : LedgerM TokenInfo :=
  reads (needs_token_migration "tokens.create");;
  disabled ← reads (λ s, Ok (active s DISABLE_TOKEN_CREATE_MIGRATION));
  if disabled : bool then fails (unknown "Token creation is disabled on this network")
  else
    for_all ← reads (λ s, Ok (active s TOKEN_CREATE_MIGRATION));
    (if for_all : bool then mret tt
     else i ← reads token_identity; lift (verify_tokens_sender sender i));;
    match tc_owner args with
    | Some (OwnerLeft addr) =>
        reads (λ s, verify_acl s sender addr [CanTokensCreate] (ID TokenAccountLedger));; mret tt
    | _ => mret tt
    end;;
    let t := ticker (tc_summary args) in
    lift (check_ticker_length t);;
    symbols ← reads get_symbols_and_tickers;
    if bool_decide (t ∈ (btree_iter symbols).*2)
    then fails (unknown ("The ticker " +:+ t +:+ " already exists on this network"))
    else r ← create_token sender args; mret r.1.

Definition symbol_must_exist (s : LedgerStorage) (x : Symbol) : outcome ManyError unit :=
  X ← get_symbols s;
  if bool_decide (x ∈ X) then Ok tt
  else Err (unknown ("The symbol " +:+ address_to_string x +:+ " was not found")).

Definition info (s : LedgerStorage) (args : TokenInfoArgs) : outcome ManyError TokenInfoReturns :=
  needs_token_migration "tokens.info" s;;
  symbol_must_exist s (ti_symbol args);;
  info_token s args.

(** The owner of a token, or an account that grants the role, may change it. *)
Definition verify_owner (s : LedgerStorage) (sender : Address) (x : Symbol) (r : Role) :
    outcome ManyError unit :=
  o ← get_owner s x;
  match o.1 with
  | Some addr => verify_acl s sender addr [r] (ID TokenAccountLedger);; Ok tt
  | None => Err (unknown "Unable to update, this token is immutable")
  end.

Definition update (sender : Address) (args : TokenUpdateArgs) : LedgerM unit :=
  reads (needs_token_migration "tokens.update");;
  reads (λ s, verify_owner s sender (tu_symbol args) CanTokensUpdate);;
  reads (λ s, symbol_must_exist s (tu_symbol args));;
  match tu_ticker args with Some t => lift (check_ticker_length t) | None => mret tt end;;
  update_token args;;
  mret tt.

Definition add_extended_info (sender : Address) (args : TokenAddExtendedInfoArgs) : LedgerM unit :=
  reads (needs_token_migration "tokens.addExtendedInfo");;
  reads (λ s, verify_owner s sender (tae_symbol args) CanTokensAddExtendedInfo);;
  Tokens.add_extended_info args;;
  mret tt.

Definition remove_extended_info (sender : Address) (args : TokenRemoveExtendedInfoArgs) : LedgerM unit :=
  reads (needs_token_migration "tokens.removeExtendedInfo");;
  reads (λ s, verify_owner s sender (tre_symbol args) CanTokensRemoveExtendedInfo);;
  Tokens.remove_extended_info args;;
  mret tt.

(** ** [ledger_mintburn.rs] *)

Definition check_symbol_exists (x : Symbol) (X : gset Symbol) : outcome ManyError unit :=
  if bool_decide (x ∈ X) then Ok tt else Err (symbol_not_found (address_to_string x)).

Definition verify_mint_burn_identity (s : LedgerStorage) (sender : Address) (x : Symbol) :
    outcome ManyError unit :=
  i ← token_identity s;
  or_else (verify_tokens_sender sender i) (λ _,
    match get_owner s x with
    | Ok (Some token_owner, _) => verify_tokens_sender sender token_owner
    | Panic t => Panic t
    | _ => Err no_token_owner
    end).

Definition mint (sender : Address) (args : TokenMintArgs) : LedgerM unit :=
  reads (needs_token_migration "tokens.mint");;
  disabled ← reads (λ s, Ok (active s DISABLE_TOKEN_MINT_MIGRATION));
  if disabled : bool then fails (unknown "Token minting is disabled on this network")
  else
    reads (λ s, verify_mint_burn_identity s sender (tm_symbol args));;
    X ← reads get_symbols;
    lift (check_symbol_exists (tm_symbol args) X);;
    mint_token (tm_symbol args) (tm_distribution args);;
    log_event (E_TokenMint (tm_symbol args) (tm_distribution args) (tm_memo args)).

Definition burn (sender : Address) (args : TokenBurnArgs) : LedgerM LedgerTokensAddressMap :=
  reads (needs_token_migration "tokens.burn");;
  reads (λ s, verify_mint_burn_identity s sender (tb_symbol args));;
  X ← reads get_symbols;
  lift (check_symbol_exists (tb_symbol args) X);;
  lift match tb_error_on_under_burn args with
       | Some false => Err partial_burn_disabled
       | _ => Ok tt
       end;;
  burn_token (tb_symbol args) (tb_distribution args);;
  log_event (E_TokenBurn (tb_symbol args) (tb_distribution args) (tb_memo args));;
  mret (tb_distribution args).
End handlers.
End TokenBackend.

(** ** Who may send *)

Section send_handler.
Context `{LedgerEnv, !LedgerEnvLaws}.
Implicit Types s : LedgerStorage.

(** The sender itself, an owner of the account, or who may transact for it. *)
Definition may_send s (sender from : Address) : bool :=
  negb (is_illegal from) &&
  (bool_decide (from = sender)
   || match get_account s from with
      | Ok (a, _) => has_role a sender Owner
                     || (FeatureSet_has_id (features a) (ID AccountLedger)
                         && has_role a sender CanLedgerTransact)
      | _ => false
      end).

Lemma verify_account_role_single a sender f r :
  (∃ e, verify_account_role a sender f [r]
        = if has_role a sender Owner || (FeatureSet_has_id (features a) f && has_role a sender r)
          then Ok tt else Err e).
Proof.
  exists (if FeatureSet_has_id (features a) f then user_needs_role (role_to_string r) else unauthorized).
  unfold verify_account_role, needs_role. simpl. destruct (has_role a sender Owner); [done|].
  destruct (FeatureSet_has_id _ _); [|done]. by destruct (has_role a sender r).
Qed.

(** C11: [ledger.send] moves funds only from the sender's own address, or from an account
    that is enabled and of which the sender is an owner or, with the ledger feature, holds the role
    to transact. In every other case it is refused and changes nothing; otherwise it does
    what the transfer of the storage does. *)
Theorem send_authorised s sender args :
  accounts_readable s →
  let from := default sender (send_from args) in
  if may_send s sender from
  then LedgerBackend.send sender args s
       = (send from (send_to args) (send_symbol args) (send_amount args) (send_memo args);; mret tt) s
  else ∃ e, LedgerBackend.send sender args s = (s, Err e).
Proof.
  intros Hr from. unfold may_send, LedgerBackend.send. fold from.
  destruct (is_illegal from); simpl; [by eexists|].
  destruct (decide (from = sender)) as [Heq|Hne].
  { rewrite (bool_decide_eq_true_2 (from = sender)) by done.
    rewrite (bool_decide_eq_false_2 (from ≠ sender)) by naive_solver. done. }
  rewrite (bool_decide_eq_false_2 (from = sender)) by done.
  rewrite (bool_decide_eq_true_2 (from ≠ sender)) by done. simpl.
  destruct (get_account_cases s from Hr) as [(a & Hg & _)|[Hg _]]; rewrite Hg.
  - destruct (verify_account_role_single a sender (ID AccountLedger) CanLedgerTransact) as [e He].
    assert ((r ← reads (λ s, map_err (λ _, unauthorized) (get_account s from));
             lift (verify_account_role r.1 sender (ID AccountLedger) [CanLedgerTransact])) s
            = (s, verify_account_role a sender (ID AccountLedger) [CanLedgerTransact])) as Hguard.
    { rewrite (bind_reads _ _ s (a, [key_for_account from])); [done|]. by rewrite Hg. }
    rewrite He in Hguard. destruct (_ || _).
    + by rewrite (bind_ok _ _ _ _ _ Hguard).
    + exists e. by rewrite (bind_err _ _ _ _ _ Hguard).
  - exists unauthorized. apply bind_err.
    apply (bind_reads_err (λ s, map_err (λ _, unauthorized) (get_account s from))). by rewrite Hg.
Qed.
End send_handler.

(** ** Who may mint and burn *)

Section mint_burn_handlers.
Context `{LedgerEnv, !LedgerEnvLaws}.
Implicit Types s : LedgerStorage.

Lemma verify_tokens_sender_ok sender i : verify_tokens_sender sender i = Ok tt ↔ sender = i.
Proof. unfold verify_tokens_sender. case_bool_decide; naive_solver. Qed.

Lemma verify_mint_burn_identity_ok s sender x :
  TokenBackend.verify_mint_burn_identity s sender x = Ok tt →
  TokenBackend.token_identity s = Ok sender ∨ ∃ k, get_owner s x = Ok (Some sender, k).
Proof.
  unfold TokenBackend.verify_mint_burn_identity.
  intros (i & -> & Hv)%bind_Ok_inv. revert Hv. unfold verify_tokens_sender. unfold or_else.
  case_bool_decide as Hne; simpl.
  - destruct (get_owner s x) as [[[o|] k]| | |]; try done.
    case_bool_decide as Ho; [done|]. intros _. right. exists k.
    assert (sender = o) as -> by (destruct (decide (sender = o)); [done|by destruct Ho]). done.
  - intros _. left. destruct (decide (sender = i)) as [->|]; [done|by destruct Hne].
Qed.

(** minting and burning succeed only for the token identity of the network (the server
    identity when there is none) or the owner of the token, for a token the ledger knows, and only
    once the token migration is active; minting only as long as it is not disabled. *)
Theorem mint_burn_authorised s sender margs bargs :
  (∀ s', TokenBackend.mint sender margs s = (s', Ok tt) →
     (TokenBackend.token_identity s = Ok sender ∨ ∃ k, get_owner s (tm_symbol margs) = Ok (Some sender, k))
     ∧ tracked s (tm_symbol margs) ∧ migration_active s TOKEN_MIGRATION = true
     ∧ migration_active s DISABLE_TOKEN_MINT_MIGRATION = false)
  ∧ (∀ s' d, TokenBackend.burn sender bargs s = (s', Ok d) →
     (TokenBackend.token_identity s = Ok sender ∨ ∃ k, get_owner s (tb_symbol bargs) = Ok (Some sender, k))
     ∧ tracked s (tb_symbol bargs) ∧ migration_active s TOKEN_MIGRATION = true
     ∧ d = tb_distribution bargs).
Proof.
  assert (∀ m, TokenBackend.needs_token_migration m s = Ok tt → migration_active s TOKEN_MIGRATION = true) as Hmig.
  { intros m. unfold TokenBackend.needs_token_migration, TokenBackend.active. by destruct (migration_active _ _). }
  assert (∀ x X, get_symbols s = Ok X → TokenBackend.check_symbol_exists x X = Ok tt → tracked s x) as Hsym.
  { intros x X HX. unfold TokenBackend.check_symbol_exists. case_bool_decide; [|done]. intros _. by exists X. }
  split.
  - intros s' Hr. unfold TokenBackend.mint in Hr.
    apply reads_ok_inv in Hr as ([] & Hm & Hr). apply reads_ok_inv in Hr as (d & Hd & Hr).
    destruct d; [done|]. injection Hd as Hd.
    apply reads_ok_inv in Hr as ([] & Hv & Hr). apply reads_ok_inv in Hr as (X & HX & Hr).
    apply lift_ok_inv in Hr as ([] & Hx & _).
    eauto 10 using verify_mint_burn_identity_ok.
  - intros s' d Hr. unfold TokenBackend.burn in Hr.
    apply reads_ok_inv in Hr as ([] & Hm & Hr). apply reads_ok_inv in Hr as ([] & Hv & Hr).
    apply reads_ok_inv in Hr as (X & HX & Hr). apply lift_ok_inv in Hr as ([] & Hx & Hr).
    apply lift_ok_inv in Hr as (u & _ & Hr). apply bind_ok_inv in Hr as (s1 & ks & _ & Hr).
    apply bind_ok_inv in Hr as (s2 & u' & _ & Hr). injection Hr as _ <-.
    eauto 10 using verify_mint_burn_identity_ok.
Qed.
End mint_burn_handlers.
