(* ===== verification/EventsModule.v ===== *)
(** * many-ledger: the event endpoints

    Models [many-ledger/src/module/event.rs]: the filters over the event log, [events.info]
    and [events.list]; and proves that [events.list] gives exactly the first events, in the
    order of their ids, that the filter lets through. *)
From S2P Require Import Prelude Error External Address Types Account Events Migration Storage.
From S2P Require Import StorageLaws LedgerEvent MultisigSpec.

#[local] Open Scope string_scope.
#[local] Open Scope list_scope.
#[local] Open Scope N_scope.

Definition MAXIMUM_EVENT_COUNT : nat := 100.

Record ListArgs : Type := mkListArgs {
  la_count : option N;
  la_order : option SortOrder;
  la_filter : option EventFilter;
}.
Record ListReturns : Type := mkListReturns { lr_nb_events : N; lr_events : list EventLog }.

Abbreviation EventLogResult := (outcome ManyError EventLog).

(** [it.filter(|t| match t { Err(_) => true, Ok(t) => p(t) })]. *)
Definition keep (p : EventLog → bool) (r : EventLogResult) : Prop :=
  match r with Ok t => p t = true | _ => True end.
#[global] Instance keep_dec p r : Decision (keep p r).
Proof. destruct r; simpl; apply _. Defined.

Definition account_test (account : option (list Address)) (t : EventLog) : bool :=
  match account with Some l => existsb (log_is_about t) l | None => true end.
Definition kind_test (kinds : option (list EventKind)) (t : EventLog) : bool :=
  match kinds with Some l => bool_decide (log_kind t ∈ l) | None => true end.
Definition date_test (r : CborRange Timestamp) (t : EventLog) : bool :=
  range_contains N.leb r (log_time t).
Definition state_test (states : list MultisigTransactionState) (t : EventLog) : bool :=
  match log_content t with
  | E_AccountMultisigSubmit _ _ _ _ _ _ _ _ _ _ | E_AccountMultisigApprove _ _ _ =>
      bool_decide (Pending ∈ states)
  | E_AccountMultisigExecute _ _ _ _ =>
      bool_decide (ExecutedAutomatically ∈ states) || bool_decide (ExecutedManually ∈ states)
  | E_AccountMultisigWithdraw _ _ _ => bool_decide (Withdrawn ∈ states)
  | E_AccountMultisigExpired _ _ _ => bool_decide (Expired ∈ states)
  | _ => false
  end.

Definition filter_account (it : list EventLogResult) (account : option (list Address)) : list EventLogResult :=
  match account with Some l => filter (keep (account_test (Some l))) it | None => it end.
Definition filter_event_kind (it : list EventLogResult) (kinds : option (list EventKind)) : list EventLogResult :=
  match kinds with Some l => filter (keep (kind_test (Some l))) it | None => it end.
Definition filter_date (it : list EventLogResult) (r : CborRange Timestamp) : list EventLogResult :=
  filter (keep (date_test r)) it.
Definition filter_attribute_specific (it : list EventLogResult)
    (states : option (list MultisigTransactionState)) : list EventLogResult :=
  match states with Some l => filter (keep (state_test l)) it | None => it end.

(** [.collect::<Result<Vec<_>, _>>()]. *)
Fixpoint collect_events (l : list EventLogResult) : outcome ManyError (list EventLog) :=
  match l with
  | [] => Ok []
  | r :: l => t ← r; ts ← collect_events l; Ok (t :: ts)
  end.

Section events_module.
Context `{LedgerEnv}.

Definition events_info (s : LedgerStorage) : outcome ManyError (N * list EventKind) :=
  total ← nb_events s; Ok (total, all_kinds).

Definition decode_item (item : outcome string (bytes * bytes)) : EventLogResult :=
  kv ← map_err unknown item; decode_or kv.2.

Definition events_list (s : LedgerStorage) (args : ListArgs) : outcome ManyError ListReturns :=
  let f := default filter_default (la_filter args) in
  let count := match la_count args with
               | None => MAXIMUM_EVENT_COUNT
               | Some c => N.to_nat (N.min c (N.of_nat MAXIMUM_EVENT_COUNT))
               end in
  nb ← nb_events s;
  let it := decode_item <$> iter_events s (default range_default (ef_id_range f))
                              (default Indeterminate (la_order args)) in
  let it := filter_account it (ef_account f) in
  let it := filter_event_kind it (ef_kind f) in
  let it := filter_date it (default range_default (ef_date_range f)) in
  let it := filter_attribute_specific it (ef_multisig_state f) in
  events ← collect_events (take count it);
  Ok (mkListReturns nb events).
End events_module.

(** ** Laws *)

Lemma collect_events_ok l : collect_events (Ok <$> l) = Ok l.
Proof. induction l as [|t l IH]; [done|]. csimpl. cbn [collect_events]. by rewrite IH. Qed.

Lemma filter_keep p (l : list EventLog) :
  filter (keep p) (Ok <$> l : list EventLogResult) = Ok <$> filter (λ t, p t = true) l.
Proof.
  induction l as [|t l IH]; [done|]. csimpl. rewrite !filter_cons. simpl.
  destruct (decide (p t = true)) as [Hp|Hp]; csimpl; by rewrite IH.
Qed.

(** All the filters as one test. *)
Definition passes (f : EventFilter) (t : EventLog) : bool :=
  account_test (ef_account f) t && (kind_test (ef_kind f) t
  && (date_test (default range_default (ef_date_range f)) t
  && match ef_multisig_state f with Some l => state_test l t | None => true end)).

Lemma filters_ok f (l : list EventLog) :
  filter_attribute_specific (filter_date (filter_event_kind (filter_account (Ok <$> l) (ef_account f))
    (ef_kind f)) (default range_default (ef_date_range f))) (ef_multisig_state f)
  = Ok <$> filter (λ t, passes f t = true) l.
Proof.
  assert (filter_account (Ok <$> l) (ef_account f)
    = Ok <$> filter (λ t, account_test (ef_account f) t = true) l) as ->.
  { destruct (ef_account f); simpl; [apply filter_keep|]. by rewrite filter_true. }
  assert (∀ l, filter_event_kind (Ok <$> l) (ef_kind f)
    = Ok <$> filter (λ t, kind_test (ef_kind f) t = true) l) as ->.
  { intros l'. destruct (ef_kind f); simpl; [apply filter_keep|]. by rewrite filter_true. }
  unfold filter_date. rewrite filter_keep.
  assert (∀ l, filter_attribute_specific (Ok <$> l) (ef_multisig_state f)
    = Ok <$> filter (λ t, match ef_multisig_state f with Some l => state_test l t | None => true end = true) l) as ->.
  { intros l'. destruct (ef_multisig_state f); simpl; [apply filter_keep|]. by rewrite filter_true. }
  by rewrite !filter_and.
Qed.

(** *** Ranges of keys *)

Section ranges.
Context `{LedgerEnv, !LedgerEnvLaws}.
Implicit Types (s : LedgerStorage) (i : EventId).

(** The keys between [c x] and [c y] where [y] is the byte after [x] start with [c x]. *)
Lemma between_prefix (c : bytes) (x y : u8) (k : bytes) :
  Byte.to_N y = Byte.to_N x + 1 → key_le (c ++ [x]) k → lexico k (c ++ [y]) → (c ++ [x]) `prefix_of` k.
Proof.
  intros Hxy. revert k. induction c as [|z c IH]; intros k.
  - destruct k as [|w k]; simpl.
    + intros Hle _. exfalso. apply Hle. done.
    + unfold key_le. change (lexico (w :: k) [x]) with (Byte.to_N w < Byte.to_N x ∨ w = x ∧ lexico k []).
      change (lexico (w :: k) [y]) with (Byte.to_N w < Byte.to_N y ∨ w = y ∧ lexico k []).
      intros Hle [Hlt|[_ Hk]]; [|by destruct k].
      assert (w = x) as -> by (apply to_N_inj; assert (¬ Byte.to_N w < Byte.to_N x) by auto; lia).
      by exists k.
  - destruct k as [|w k]; simpl.
    + intros Hle _. exfalso. apply Hle. done.
    + unfold key_le. change (lexico (w :: k) (z :: c ++ [x])) with
        (Byte.to_N w < Byte.to_N z ∨ w = z ∧ lexico k (c ++ [x])).
      change (lexico (w :: k) (z :: c ++ [y])) with (Byte.to_N w < Byte.to_N z ∨ w = z ∧ lexico k (c ++ [y])).
      intros Hle [Hlt|[-> Hk]]; [naive_solver|].
      destruct (IH k) as [r ->]; [unfold key_le; naive_solver|done|]. by exists r.
Qed.

Lemma events_root_le i : key_le EVENTS_ROOT (key_for_event i).
Proof.
  unfold key_for_event. apply key_le_lt_or_eq. left. rewrite <-(app_nil_r EVENTS_ROOT) at 1.
  apply lexico_app. pose proof (length_expand_id i) as Hl. by destruct (expand_id i).
Qed.

Lemma events_end_lt i : lexico (key_for_event i) (b "/events0").
Proof.
  unfold key_for_event, EVENTS_ROOT. change (b "/events/") with (b "/events" ++ [Byte.x2f]).
  change (b "/events0") with (b "/events" ++ [Byte.x30]). rewrite <-app_assoc, lexico_app. by left.
Qed.

Lemma lt_le_trans (x y z : bytes) : lexico x y → key_le y z → lexico x z.
Proof. intros Hxy [?| <-]%key_le_lt_or_eq; [by trans y|done]. Qed.

(** A key in the range of an event query is an event key. *)
Definition range_lower (r : CborRange EventId) : bytes :=
  match start r with
  | Included x => key_for_event x
  | Excluded x => key_for_event (event_id_add x 1)
  | Unbounded => EVENTS_ROOT
  end.
Definition range_upper (r : CborRange EventId) : bytes :=
  match end_ r with
  | Included x => key_for_event (event_id_add x 1)
  | Excluded x => key_for_event x
  | Unbounded => b "/events0"
  end.

Lemma in_range_event r k :
  in_iter_range (BoundRange (range_lower r) (range_upper r)) k → EVENTS_ROOT `prefix_of` k.
Proof.
  intros [Hlo Hhi]. apply (between_prefix (b "/events") Byte.x2f Byte.x30); [done| |].
  - change (b "/events" ++ [Byte.x2f]) with EVENTS_ROOT. etrans; [|exact Hlo].
    unfold range_lower. destruct (start r); [apply events_root_le..|]. apply key_le_lt_or_eq. by right.
  - change (b "/events" ++ [Byte.x30]) with (b "/events0"). unfold range_upper in Hhi.
    destruct (end_ r) as [x|x|]; [| |exact Hhi].
    + exact (transitivity (R := lexico) Hhi (events_end_lt (event_id_add x 1))).
    + exact (transitivity (R := lexico) Hhi (events_end_lt x)).
Qed.

(** The ids of a range, as numbers. *)
Definition id_in_range (r : CborRange EventId) i : Prop :=
  match start r with
  | Included x => be_value x ≤ be_value i
  | Excluded x => be_value x < be_value i
  | Unbounded => True
  end ∧
  match end_ r with
  | Included x => be_value i ≤ be_value x
  | Excluded x => be_value i < be_value x
  | Unbounded => True
  end.

(** Bounds have at most 31 bytes (the ids of events have 8). *)
Definition bound_ok (x : Bound EventId) : Prop :=
  match x with Included i | Excluded i => (length i ≤ 31)%nat | Unbounded => True end.

Lemma next_length i : (length i ≤ 31)%nat → (length (event_id_add i 1) ≤ 32)%nat.
Proof.
  intros Hi. unfold event_id_add, event_id_of_big. rewrite from_bytes_be_value.
  apply to_bytes_be_length; [|lia]. pose proof (be_value_lt i) as Hlt.
  assert (256 ^ N.of_nat (length i) ≤ 256 ^ 31) by (apply N.pow_le_mono_r; lia).
  assert (256 ^ 31 < 256 ^ 32) by (apply N.pow_lt_mono_r; lia).
  change (N.of_nat 32) with 32. lia.
Qed.

(** The number of the key of an id: an id of more than 32 bytes is cut to its first 32. *)
Definition key_value (i : EventId) : N := be_value (take 32 i).

(** The ids that a query selects: the bounds are those of the keys, and a bound that is excluded
    below or included above is the next id. *)
Definition id_selected (r : CborRange EventId) i : Prop :=
  match start r with
  | Included x => key_value x ≤ be_value i
  | Excluded x => key_value (event_id_add x 1) ≤ be_value i
  | Unbounded => True
  end ∧
  match end_ r with
  | Included x => be_value i < key_value (event_id_add x 1)
  | Excluded x => be_value i < key_value x
  | Unbounded => True
  end.

Lemma expand_id_take i : expand_id (take 32 i) = expand_id i.
Proof.
  unfold expand_id, EVENT_ID_KEY_SIZE_IN_BYTES. rewrite length_take.
  destruct (Nat.ltb_spec 32 (length i)).
  - rewrite (proj2 (Nat.ltb_ge _ _)) by lia. done.
  - rewrite (proj2 (Nat.ltb_ge _ _)) by lia. by rewrite take_ge.
Qed.

Lemma key_event_take i : key_for_event i = key_for_event (take 32 i).
Proof. unfold key_for_event. by rewrite expand_id_take. Qed.

Lemma key_value_short i : (length i ≤ 32)%nat → key_value i = be_value i.
Proof. intros Hi. unfold key_value. by rewrite take_ge. Qed.

Lemma key_event_lt_value i x :
  (length i ≤ 32)%nat → lexico (key_for_event i) (key_for_event x) ↔ be_value i < key_value x.
Proof.
  intros Hi. rewrite (key_event_take x), key_event_lt; [done|done|].
  rewrite length_take. unfold EVENT_ID_KEY_SIZE_IN_BYTES. lia.
Qed.

Lemma key_event_le_value i x :
  (length i ≤ 32)%nat → key_le (key_for_event x) (key_for_event i) ↔ key_value x ≤ be_value i.
Proof. intros Hi. unfold key_le. rewrite key_event_lt_value by done. lia. Qed.

Lemma in_range_id r i :
  (length i ≤ 32)%nat →
  in_iter_range (BoundRange (range_lower r) (range_upper r)) (key_for_event i) ↔ id_selected r i.
Proof.
  intros Hi. unfold in_iter_range, id_selected, range_lower, range_upper. f_equiv.
  - destruct (start r) as [x|x|]; [by apply key_event_le_value..|].
    split; [done|]. intros _. apply events_root_le.
  - destruct (end_ r) as [x|x|]; [by apply key_event_lt_value..|].
    split; [done|]. intros _. apply events_end_lt.
Qed.

(** Bounds that are not cut select the range they name. *)
Lemma id_selected_range r i :
  bound_ok (start r) → bound_ok (end_ r) → id_selected r i ↔ id_in_range r i.
Proof.
  intros Hlo Hhi. unfold id_selected, id_in_range. f_equiv.
  - destruct (start r) as [x|x|]; simpl in Hlo; [| |done].
    + rewrite key_value_short by lia. done.
    + rewrite key_value_short, event_id_add_value by auto using next_length. lia.
  - destruct (end_ r) as [x|x|]; simpl in Hhi; [| |done].
    + rewrite key_value_short, event_id_add_value by auto using next_length. lia.
    + rewrite key_value_short by lia. done.
Qed.
End ranges.

(** ** [events.list] *)

Section events_list.
Context `{LedgerEnv, !LedgerEnvLaws}.
Implicit Types (s : LedgerStorage) (e : EventLog).

(** The database has well-formed events under its event keys. *)
Definition events_ok s : Prop :=
  ∀ k v, EVENTS_ROOT `prefix_of` k → committed s !! k = Some v →
    ∃ e, decode v = Ok e ∧ k = key_for_event (log_id e) ∧ (length (log_id e) ≤ 32)%nat.
Definition stored_event s e : Prop :=
  (length (log_id e) ≤ 32)%nat ∧ ∃ v, committed s !! key_for_event (log_id e) = Some v ∧ decode v = Ok e.

Definition log_of (kv : bytes * bytes) : option EventLog :=
  match decode kv.2 with Ok e => Some e | _ => None end.

Definition id_lt e1 e2 : Prop := be_value (log_id e1) < be_value (log_id e2).

(** Entries whose values decode to the event their key names. *)
Definition entry_ok (kv : bytes * bytes) : Prop :=
  ∃ e, log_of kv = Some e ∧ kv.1 = key_for_event (log_id e) ∧ (length (log_id e) ≤ 32)%nat.

Lemma decode_items l :
  Forall entry_ok l → decode_item <$> (Ok <$> l) = Ok <$> omap log_of l.
Proof.
  induction 1 as [|[k v] l (e & He & _) _ IH]; [done|]. csimpl. rewrite He. csimpl. f_equal; [|exact IH].
  unfold log_of in He. simpl in He. unfold decode_item, decode_or. cbn [map_err mbind outcome_bind snd].
  destruct (decode v); simplify_eq. done.
Qed.

Lemma logs_sorted l :
  Forall entry_ok l → keys_ascending l → StronglySorted id_lt (omap log_of l).
Proof.
  induction 1 as [|[k v] l (e & He & Hk & Hlen) Hok IH]; [constructor|].
  unfold keys_ascending. csimpl. intros [Hs Hall]%StronglySorted_inv. rewrite He.
  constructor; [by apply IH|]. apply Forall_forall.
  intros e' ([k' v'] & Hin & He')%list_elem_of_omap.
  rewrite Forall_forall in Hok. destruct (Hok _ Hin) as (e2 & He2 & Hk2 & Hlen2).
  rewrite He' in He2. injection He2 as <-. simpl in *. subst.
  rewrite Forall_forall in Hall. apply (list_elem_of_fmap_2 fst) in Hin. apply Hall in Hin. simpl in Hin.
  by apply key_event_lt in Hin.
Qed.

Definition before (o : SortOrder) : EventLog → EventLog → Prop :=
  match o with Descending => flip id_lt | _ => id_lt end.

Lemma iter_logs s r o :
  events_ok s →
  ∃ logs, decode_item <$> iter_events s r o = Ok <$> logs
    ∧ (∀ e, e ∈ logs ↔ stored_event s e ∧ id_selected r (log_id e))
    ∧ StronglySorted (before o) logs.
Proof.
  intros Hev. set (l := range_entries (committed s) (BoundRange (range_lower r) (range_upper r))).
  assert (Forall entry_ok l) as Hok.
  { apply Forall_forall. intros [k v] [Hk Hr]%elem_of_range_entries.
    destruct (Hev k v) as (e & He & -> & Hlen); [by eapply in_range_event|done|].
    exists e. unfold log_of. simpl. by rewrite He. }
  assert (∀ e, e ∈ omap log_of l ↔ stored_event s e ∧ id_selected r (log_id e)) as Hin.
  { intros e. rewrite list_elem_of_omap. split.
    - intros ([k v] & Hkv & He). rewrite Forall_forall in Hok.
      destruct (Hok _ Hkv) as (e' & He' & Hk & Hlen). rewrite He in He'. injection He' as <-. simpl in Hk. subst k.
      apply elem_of_range_entries in Hkv as [Hc Hr]. rewrite in_range_id in Hr by done.
      split; [|done]. split; [done|]. exists v. split; [done|]. unfold log_of in He. simpl in He.
      destruct (decode v); by simplify_eq.
    - intros [(Hlen & v & Hc & Hd) Hr]. exists (key_for_event (log_id e), v). split.
      + apply elem_of_range_entries. split; [done|]. by apply in_range_id.
      + unfold log_of. simpl. by rewrite Hd. }
  pose proof (logs_sorted l Hok (range_entries_ascending _ _)) as Hs.
  assert (iter_events s r o = Ok <$> iter_entries (committed s) (iter_mode o)
            (BoundRange (range_lower r) (range_upper r))) as ->.
  { unfold iter_events, events_scoped_by_id, ledger_iter. by rewrite merk_iter_ok. }
  destruct o; cbn [iter_mode iter_entries before]; fold l.
  - exists (omap log_of l). by rewrite decode_items.
  - exists (omap log_of l). by rewrite decode_items.
  - exists (reverse (omap log_of l)). rewrite decode_items by (by rewrite reverse_Permutation).
    rewrite omap_reverse. split; [done|]. split; [|by apply sorted_reverse].
    intros e. by rewrite elem_of_reverse.
Qed.

(** C34: on a well-formed log, [events.list] answers with the number of events and the first
    events, at most as many as asked for and at most 100, of those that are in the database, have
    an id that the range of the filter selects and pass its tests on accounts, kinds, dates and
    multisig states; in ascending order of ids, or in descending order if asked. The range selects
    by keys of 32 bytes: a bound of the request that is longer (or whose successor is, where the
    code takes the id after the bound) is cut to its first 32 bytes; bounds of at most 31 bytes
    select exactly the ids in the range that was asked for. *)
Theorem events_list_spec s args n :
  events_ok s → nb_events s = Ok n →
  let f := default filter_default (la_filter args) in
  let r := default range_default (ef_id_range f) in
  let o := default Indeterminate (la_order args) in
  let count := match la_count args with None => 100%nat | Some c => N.to_nat (N.min c 100) end in
  (∃ all, events_list s args = Ok (mkListReturns n (take count all))
    ∧ (∀ e, e ∈ all ↔ stored_event s e ∧ id_selected r (log_id e) ∧ passes f e = true)
    ∧ StronglySorted (before o) all)
  ∧ (bound_ok (start r) → bound_ok (end_ r) → ∀ i, id_selected r i ↔ id_in_range r i).
Proof.
  intros Hev Hn f r o count. split; [|intros; by apply id_selected_range].
  destruct (iter_logs s r o Hev) as (logs & Hit & Hin & Hs).
  exists (filter (λ e, passes f e = true) logs). split; [|split].
  - unfold events_list. rewrite Hn. cbn [mbind outcome_bind].
    change (default filter_default (la_filter args)) with f.
    change (default range_default (ef_id_range f)) with r.
    change (default Indeterminate (la_order args)) with o. rewrite Hit, filters_ok, <-fmap_take.
    rewrite collect_events_ok. done.
  - intros e. rewrite list_elem_of_filter, Hin. tauto.
  - by apply sorted_filter.
Qed.
End events_list.
