(* ===== verification/KvStore.v ===== *)
(** * many-kvstore: the key-value store

    Models [many-kvstore/src/storage.rs], [storage/account.rs], [storage/event.rs],
    [storage/iterator.rs], [module.rs], [module/account.rs], [module/event.rs],
    [module/allow_addrs.rs] and [error.rs], with the types of
    [many-modules/src/_3_kvstore.rs] and the feature of
    [many-modules/src/_9_account/features/kvstore.rs].

    A key has its value under [s<key>] and its metadata (owner, whether it is disabled, previous
    owner) under [a<key>]; accounts are under [/accounts/<id>]. *)
From S2P Require Import Prelude Error ErrorDisplay External Address Types Account Events Migration.
From S2P Require Import Storage StorageLaws AppStore.
From S2P Require AccountStorage AccountModule EventsModule.

#[local] Open Scope string_scope.
#[local] Open Scope list_scope.
#[local] Open Scope N_scope.

(** ** Errors *)

Definition permission_denied : ManyError :=
  attribute_specific 3 1 "You do not have the authorization to modify this key." [].
Definition kv_invalid_initial_hash (expected actual : string) : ManyError :=
  attribute_specific 3 2 "Invalid initial hash. Expected '{expected}', was '{actual}'."
    [("expected", expected); ("actual", actual)].
Definition key_disabled : ManyError :=
  attribute_specific 3 3 "The key was disabled by its owner." [].
Definition anon_alt_denied : ManyError :=
  attribute_specific 3 4 "Anonymous alternative owner denied." [].
Definition subres_alt_unsupported : ManyError :=
  attribute_specific 3 5 "Subresource alternative owner unsupported." [].
Definition kv_key_not_found : ManyError := attribute_specific 3 6 "The key was not found." [].
Definition cannot_disable_empty_key : ManyError :=
  attribute_specific 3 7 "Unable to disable an empty key." [].

(** ** Data *)

(** [KvStoreMetadata]; [QueryReturns] has the same fields. *)
Record KvStoreMetadata : Type := mkKvMeta {
  km_owner : Address;
  km_disabled : option DisabledFlag;
  km_previous_owner : option Address;
}.

Inductive KeyFilterType : Type :=
| FilterOwner (a : Address)
| FilterPreviousOwner (a : Address)
| FilterDisabled (d : bool).

(** [s.splitn(2, ':')]: the text before and after the first colon. *)
Fixpoint split_colon (s : string) : string * option string :=
  match s with
  | EmptyString => ("", None)
  | String c s =>
      if Ascii.eqb c ":" then ("", Some s)
      else let r := split_colon s in (String c r.1, r.2)
  end.
Definition bool_from_str (s : string) : outcome string bool :=
  if bool_decide (s = "true") then Ok true
  else if bool_decide (s = "false") then Ok false
  else Err "provided string was not `true` or `false`".
Definition KeyFilterType_from_str `{Base32, Crc16} (s : string) : outcome string KeyFilterType :=
  let r := split_colon s in
  value ← ok_or r.2 "missing value";
  if bool_decide (r.1 = "owner") then
    a ← map_err (λ e, "invalid address: " +:+ ManyError_to_string e) (address_from_str value);
    Ok (FilterOwner a)
  else if bool_decide (r.1 = "previous_owner") then
    a ← map_err (λ e, "invalid address: " +:+ ManyError_to_string e) (address_from_str value);
    Ok (FilterPreviousOwner a)
  else if bool_decide (r.1 = "disabled") then
    d ← map_err (λ e, "invalid bool: " +:+ e) (bool_from_str value);
    Ok (FilterDisabled d)
  else Err ("unknown tag: " +:+ r.1).

(** [matches!(disabled, Some(Either::Left(true)) | Some(Either::Right(_)))]. *)
Definition flag_disabled (d : option DisabledFlag) : bool :=
  match d with
  | None | Some (DisabledBool false) => false
  | Some (DisabledBool true) | Some (DisabledReason _) => true
  end.
Definition filter_key (f : KeyFilterType) (meta : KvStoreMetadata) : bool :=
  match f with
  | FilterOwner a => bool_decide (km_owner meta = a)
  | FilterPreviousOwner a => bool_decide (km_previous_owner meta = Some a)
  | FilterDisabled d => if d then flag_disabled (km_disabled meta) else negb (flag_disabled (km_disabled meta))
  end.

(** The account feature 2. *)
Inductive AccountKvStore : Type := mkAccountKvStore.
#[global] Instance AccountKvStore_try : TryCreateFeature AccountKvStore :=
  { ID := 2; try_create := λ _, Ok mkAccountKvStore }.
#[global] Instance AccountKvStore_info : FeatureInfo AccountKvStore :=
  { as_feature := λ _, attribute_id 2;
    feature_roles := list_to_set [CanKvStorePut; CanKvStoreDisable; CanKvStoreTransfer] }.

(** [InitialStateJson], read. *)
Record KvInitialState : Type := mkKvInitialState {
  ki_acl : gmap bytes KvStoreMetadata;
  ki_identity : Address;
  ki_hash : option string;
}.

Class KvEnv := { kv_app :: AppEnv; kv_cbor_meta :: Cbor KvStoreMetadata }.
Class KvEnvLaws `{KvEnv} := {
  kv_app_laws :: AppEnvLaws;
  kv_laws_meta :: CborLaws KvStoreMetadata (λ _, True);
}.

Definition KVSTORE_ROOT : bytes := b "s".
Definition KVSTORE_ACL_ROOT : bytes := b "a".
Definition SUBRESOURCE_KEY : bytes := b "/config/subresource_id".
Definition LATEST_EVENT_ID_KEY : bytes := b "/latest_event_id".

Section kv_storage.
Context `{KvEnv}.

Abbreviation KvStoreStorage := AppStorage.

Definition kv_set_time (s : KvStoreStorage) (t : Timestamp) : KvStoreStorage := app_with_time s (Some t).
Definition kv_now (s : KvStoreStorage) : Timestamp := app_now s.

(** The counter is moved on in memory before it is stored. *)
Definition new_subresource_id : AppM (Address * bytes) :=
  current ← reads (λ s, Ok (next_subresource s));
  modify_state (λ s, app_with_subresource s (wrap32 (current + 1)));;
  app_apply (raises storage_apply_failed) [(SUBRESOURCE_KEY, Put (be_bytes 4 (wrap32 (current + 1))))];;
  root ← reads (λ s, Ok (root_identity s));
  a ← lift (with_subresource_id root current);
  mret (a, SUBRESOURCE_KEY).

(** [.unwrap()] or [.expect(..)] on what the store gave. *)
Definition expect_get {A} (m : outcome string A) : outcome string A :=
  match m with Err e => Panic e | _ => m end.
Definition expect_some {A} (msg : string) (o : option A) : outcome string A :=
  match o with Some a => Ok a | None => Panic msg end.
Definition to_string_err {A} (m : outcome ManyError A) : outcome string A :=
  map_err ManyError_to_string m.

Definition kv_load (opened : outcome string merk) (is_blockchain : bool) : outcome string KvStoreStorage :=
  m ← opened;
  o ← expect_get (merk_get m SUBRESOURCE_KEY);
  next ← to_string_err (read_be_or_zero 4 o);
  o ← expect_get (merk_get m (b "/config/identity"));
  l ← expect_some "Could not find key '/config/identity' in storage." o;
  root ← to_string_err (from_bytes l);
  o ← expect_get (merk_get m LATEST_EVENT_ID_KEY);
  l ← expect_some "Could not find key '/latest_event_id'" o;
  i ← decode l;
  Ok (mkAppStorage _ m is_blockchain i None None next root).

Definition kv_new (acl : gmap bytes KvStoreMetadata) (identity : Address) (opened : outcome string merk)
    (is_blockchain : bool) : outcome string KvStoreStorage :=
  m ← opened;
  let batch := (b "/config/identity", Put (address_to_vec identity))
               :: ((λ kv, (KVSTORE_ACL_ROOT ++ kv.1, Put (to_vec kv.2))) <$> btree_iter acl) in
  m ← merk_apply m batch;
  let latest : EventId := [as_u8 0] in
  m ← expect_get (merk_apply m [(LATEST_EVENT_ID_KEY, Put (to_vec latest))]);
  m ← merk_commit m;
  Ok (mkAppStorage _ m is_blockchain latest None None 0 identity).

Definition kv_get_height (s : KvStoreStorage) : outcome ManyError N :=
  app_number unwraps 8 (b "/height") s.
Definition kv_inc_height : AppM N :=
  current ← reads kv_get_height;
  app_apply unwraps [(b "/height", Put (be_bytes 8 (current + 1)))];;
  mret current.

Definition kv_commit : AppM AbciCommitInfo :=
  kv_inc_height;;
  i ← reads (λ s, Ok (app_event_id s));
  app_apply unwraps [(LATEST_EVENT_ID_KEY, Put (to_vec i))];;
  app_commit unwraps;;
  h ← reads (λ s, Ok (merk_root_hash (app_store s)));
  modify_state (λ s, app_with_hash s (Some h));;
  mret (mkCommitInfo 0 h).

Definition kv_hash (s : KvStoreStorage) : bytes :=
  default (merk_root_hash (app_store s)) (app_hash s).

(** *** Events *)

Definition kv_new_event_id : AppM EventId := app_new_event_id.
Definition kv_nb_events (s : KvStoreStorage) : outcome ManyError N :=
  app_number unwraps 8 EVENT_COUNT_ROOT s.
Definition kv_log_event (content : EventInfo) : AppM unit :=
  app_log_event unwraps unwraps unwraps content.
Definition kv_iter_events (s : KvStoreStorage) (r : CborRange EventId) (o : SortOrder) :
    list (outcome string (bytes * bytes)) := app_events s r o.

(** *** Keys and values *)

Definition kv__get (s : KvStoreStorage) (key prefix : bytes) : outcome ManyError (option bytes) :=
  app_get (raises unknown) (prefix ++ key) s.

Definition kv_get (s : KvStoreStorage) (key : bytes) : outcome ManyError (option bytes) :=
  o ← kv__get s key KVSTORE_ACL_ROOT;
  match o with
  | Some cbor =>
      meta ← decode_or (A := KvStoreMetadata) cbor;
      if match km_disabled meta with Some (DisabledBool false) | None => false | _ => true end
      then Err key_disabled
      else kv__get s key KVSTORE_ROOT
  | None => kv__get s key KVSTORE_ROOT
  end.

Definition all_keys (s : KvStoreStorage) (o : SortOrder) : list (outcome string (bytes * bytes)) :=
  app_iter s o (PrefixRange KVSTORE_ACL_ROOT).

(** Items that cannot be read or decoded are left out. *)
Definition kv_list (s : KvStoreStorage) (order : SortOrder) (f : option (list KeyFilterType)) :
    list bytes :=
  omap (λ item,
    match item with
    | Ok (k, v) =>
        match f with
        | Some ((_ :: _) as fs) =>
            match decode (A := KvStoreMetadata) v with
            | Ok meta => if forallb (λ x, filter_key x meta) fs then Some k else None
            | _ => None
            end
        | _ => Some k
        end
    | _ => None
    end) (all_keys s order).

Definition get_metadata (s : KvStoreStorage) (key : bytes) : outcome ManyError (option bytes) :=
  kv__get s key KVSTORE_ACL_ROOT.

Definition kv_put (meta : KvStoreMetadata) (key value : bytes) : AppM unit :=
  app_apply (raises unknown)
    [(KVSTORE_ACL_ROOT ++ key, Put (to_vec meta)); (KVSTORE_ROOT ++ key, Put value)];;
  kv_log_event (E_KvStorePut key value (km_owner meta));;
  app_maybe_commit unwraps.

Definition kv_disable (meta : KvStoreMetadata) (key : bytes) : AppM unit :=
  app_apply (raises unknown) [(KVSTORE_ACL_ROOT ++ key, Put (to_vec meta))];;
  let reason := match km_disabled meta with Some (DisabledReason r) => Some r | _ => None end in
  kv_log_event (E_KvStoreDisable key reason);;
  app_maybe_commit unwraps.

Definition kv_transfer (key : bytes) (previous_owner : Address) (meta : KvStoreMetadata) : AppM unit :=
  app_apply (raises unknown) [(KVSTORE_ACL_ROOT ++ key, Put (to_vec meta))];;
  kv_log_event (E_KvStoreTransfer key previous_owner (km_owner meta));;
  app_maybe_commit unwraps.
End kv_storage.

(** ** Accounts ([storage/account.rs], [module/account.rs]) *)

Section kv_accounts.
Context `{KvEnv}.

Definition kv_key_for_account (i : Address) : bytes := b "/accounts/" ++ ab i.

Definition kv_validate_features (a : Account) : outcome ManyError unit :=
  AccountStorage.feature_error (FeatureSet_get AccountKvStore (features a)).
Definition kv_allowed_roles (a : Account) : gset Role :=
  {[Owner]} ∪ AccountStorage.roles_if_feature AccountKvStore a.
Definition kv_validate_roles (a : Account) : outcome ManyError unit :=
  AccountStorage.check_roles (kv_allowed_roles a)
    (AccountStorage.role_iter (AccountStorage.account_roles a)).
Definition kv_validate_account (a : Account) : outcome ManyError unit :=
  kv_validate_features a;; kv_validate_roles a.
Definition kv_get_roles_for_account (a : Account) : gset Role :=
  if FeatureSet_has_id (features a) (ID AccountKvStore) then feature_roles AccountKvStore else ∅.

(** An account that cannot be read or decoded counts as missing. *)
Definition kv_get_account_even_disabled (s : AppStorage) (i : Address) : option Account :=
  match merk_get (app_store s) (kv_key_for_account i) with
  | Ok (Some l) => match decode l with Ok a => Some a | _ => None end
  | _ => None
  end.
Definition kv_get_account (s : AppStorage) (i : Address) : option Account :=
  a ← kv_get_account_even_disabled s i;
  if AccountStorage.is_enabled a then Some a else None.

Definition kv_commit_account (i : Address) (a : Account) : AppM bytes :=
  app_apply (raises unknown) [(kv_key_for_account i, Put (to_vec a))];;
  app_maybe_commit unwraps;;
  mret (kv_key_for_account i).

Definition kv__add_account (a : Account) (add_event : bool) : AppM (Address * list bytes) :=
  r ← new_subresource_id;
  let a := add_role a r.1 Owner in
  (if add_event then kv_log_event (E_AccountCreate r.1 (description a) (roles a) (features a))
   else mret tt);;
  key ← kv_commit_account r.1 a;
  mret (r.1, [key; r.2]).
Definition kv_add_account (a : Account) : AppM (Address * list bytes) := kv__add_account a true.

Definition kv_store_description (a : Account) (args : SetDescriptionArgs) : AppM bytes :=
  let a := Account_set_description a (Some (sd_description args)) in
  kv_log_event (E_AccountSetDescription (sd_account args) (sd_description args));;
  kv_commit_account (sd_account args) a.
Definition kv_store_add_roles (a : Account) (args : AddRolesArgs) : AppM bytes :=
  let a := AccountStorage.add_role_pairs a (AccountStorage.role_pairs (ar_roles args)) in
  kv_log_event (E_AccountAddRoles (ar_account args) (ar_roles args));;
  kv_commit_account (ar_account args) a.
Definition kv_store_remove_roles (a : Account) (args : RemoveRolesArgs) : AppM bytes :=
  if match rr_roles args !! rr_account args with
     | Some v => bool_decide (Owner ∈ v)
     | None => false
     end
  then fails account_must_own_itself
  else
    let a := AccountStorage.remove_role_pairs false a (AccountStorage.role_pairs (rr_roles args)) in
    kv_log_event (E_AccountRemoveRoles (rr_account args) (rr_roles args));;
    kv_commit_account (rr_account args) a.
Definition kv_store_add_features (a : Account) (args : AddFeaturesArgs) : AppM bytes :=
  fs ← lift (AccountStorage.insert_features (features a) (FeatureSet_iter (af_features args)));
  let a := account_with_features a fs in
  let a := match af_roles args with
           | Some m => AccountStorage.add_role_pairs a (AccountStorage.role_pairs m)
           | None => a
           end in
  lift (kv_validate_account a);;
  kv_log_event (E_AccountAddFeatures (af_account args) (default ∅ (af_roles args)) (af_features args));;
  kv_commit_account (af_account args) a.
Definition kv_disable_account (i : Address) : AppM (list bytes) :=
  o ← reads (λ s, Ok (kv_get_account_even_disabled s i));
  a ← lift (ok_or o (unknown_account (address_to_string i)));
  if AccountStorage.is_enabled a then
    key ← kv_commit_account i (account_with_disabled a (Some (DisabledBool true)));
    kv_log_event (E_AccountDisable i);;
    app_maybe_commit (raises unknown);;
    mret [kv_key_for_account i; key]
  else fails (unknown_account (address_to_string i)).
End kv_accounts.
