(* ===== verification/KvModule.v ===== *)
(** * many-kvstore: the endpoints

    Models the back ends of [many-kvstore/src/module.rs] (construction, blocks, [kvstore.info],
    [get], [query], [list], [put], [disable], [transfer]), [module/account.rs] (the account
    endpoints, [validate_alternative_owner], [verify_acl]), [module/event.rs] and
    [module/allow_addrs.rs]. *)
From S2P Require Import Prelude Error ErrorDisplay External Address Types Account Events Migration.
From S2P Require Import Storage StorageLaws AppStore KvStore.
From S2P Require AccountStorage AccountModule EventsModule.

#[local] Open Scope string_scope.
#[local] Open Scope list_scope.
#[local] Open Scope N_scope.

(** [many-modules/src/_3_kvstore/list.rs]. *)
Record KvListArgs : Type := mkKvListArgs {
  kl_count : option N;
  kl_order : option SortOrder;
  kl_filter : option (list KeyFilterType);
}.

Section kv_module.
Context `{KvEnv}.

(** *** Construction and blocks *)

Definition kv_module_load (opened : outcome string merk) (is_blockchain : bool) :
    outcome ManyError AppStorage :=
  map_err unknown (kv_load opened is_blockchain).
Definition kv_module_new (initial : KvInitialState) (opened : outcome string merk)
    (is_blockchain : bool) : outcome ManyError AppStorage :=
  s ← map_err unknown (kv_new (ki_acl initial) (ki_identity initial) opened is_blockchain);
  match ki_hash initial with
  | Some h =>
      let actual := hex_encode (kv_hash s) in
      if bool_decide (actual ≠ h) then Err (kv_invalid_initial_hash h actual) else Ok s
  | None => Ok s
  end.

Definition kv_endpoints : gmap string bool := list_to_map
  [("kvstore.info", false); ("kvstore.get", false); ("kvstore.query", false);
   ("kvstore.put", true); ("kvstore.disable", true); ("kvstore.transfer", true);
   ("kvstore.list", false);
   ("account.create", true); ("account.setDescription", true); ("account.listRoles", false);
   ("account.getRoles", false); ("account.addRoles", true); ("account.removeRoles", true);
   ("account.info", false); ("account.disable", true); ("account.addFeatures", true);
   ("events.info", false); ("events.list", false)].
Definition kv_begin_block (block : AbciBlock) : AppM unit :=
  reads kv_get_height;;
  modify_state (λ s, match block_time block with Some t => kv_set_time s t | None => s end).
Definition kv_abci_info (s : AppStorage) : outcome ManyError AbciInfo :=
  h ← kv_get_height s; Ok (mkAbciInfo h (kv_hash s)).

(** *** Access to keys *)

Definition validate_alternative_owner (s : AppStorage) (sender alternative_owner : Address)
    (l : list Role) : outcome ManyError unit :=
  match kv_get_account s alternative_owner with
  | Some a => needs_role a sender l
  | None =>
      if is_subresource alternative_owner then Err subres_alt_unsupported
      else if is_anonymous alternative_owner then Err anon_alt_denied
      else Err permission_denied
  end.

Definition kv_verify_acl (s : AppStorage) (sender : Address) (key : bytes) : outcome ManyError unit :=
  o ← get_metadata s key;
  match o with
  | Some cbor =>
      meta ← decode_or (A := KvStoreMetadata) cbor;
      if bool_decide (km_owner meta = sender) then Ok tt else Err permission_denied
  | None => Ok tt
  end.

(** The owner a command acts for: the sender, or an account it may act for. *)
Definition acting_owner (s : AppStorage) (sender : Address) (alternative_owner : option Address)
    (role : Role) : outcome ManyError Address :=
  match alternative_owner with
  | Some a => validate_alternative_owner s sender a [role; Owner];; Ok a
  | None => Ok sender
  end.

(** *** [kvstore.*] *)

Definition kv_info (s : AppStorage) : outcome ManyError bytes := Ok (kv_hash s).
Definition kv_module_get (s : AppStorage) (key : bytes) : outcome ManyError (option bytes) := kv_get s key.
Definition kv_query (s : AppStorage) (key : bytes) : outcome ManyError KvStoreMetadata :=
  o ← get_metadata s key;
  l ← ok_or o kv_key_not_found;
  decode_or l.
(** The prefix of the stored key is left out; the count of the arguments is not used. *)
Definition kv_module_list (s : AppStorage) (args : KvListArgs) : outcome ManyError (list bytes) :=
  Ok (drop 1 <$> kv_list s (default Indeterminate (kl_order args)) (kl_filter args)).

Definition kv_module_put (sender : Address) (args : KvPutArgs) : AppM unit :=
  owner ← reads (λ s, acting_owner s sender (kv_put_alternative_owner args) CanKvStorePut);
  reads (λ s, kv_verify_acl s owner (kv_put_key args));;
  kv_put (mkKvMeta owner (Some (DisabledBool false)) None) (kv_put_key args) (kv_put_value args).

Definition kv_module_disable (sender : Address) (args : KvDisableArgs) : AppM unit :=
  v ← reads (λ s, kv_get s (kv_disable_key args));
  if bool_decide (v = None) then fails cannot_disable_empty_key
  else
    owner ← reads (λ s, acting_owner s sender (kv_disable_alternative_owner args) CanKvStoreDisable);
    reads (λ s, kv_verify_acl s owner (kv_disable_key args));;
    let maybe_reason := match kv_disable_reason args with
                        | Some r => DisabledReason r
                        | None => DisabledBool true
                        end in
    kv_disable (mkKvMeta owner (Some maybe_reason) None) (kv_disable_key args).

Definition kv_module_transfer (sender : Address) (args : KvTransferArgs) : AppM unit :=
  v ← reads (λ s, kv_get s (kv_transfer_key args));
  if bool_decide (v = None) then fails kv_key_not_found
  else if is_anonymous (kv_transfer_new_owner args) then fails anon_alt_denied
  else
    metadata ← reads (λ s, kv_query s (kv_transfer_key args));
    owner ← reads (λ s, acting_owner s sender (kv_transfer_alternative_owner args) CanKvStoreTransfer);
    reads (λ s, kv_verify_acl s owner (kv_transfer_key args));;
    kv_transfer (kv_transfer_key args) owner
      (mkKvMeta (kv_transfer_new_owner args) (km_disabled metadata) (Some (km_owner metadata))).

(** *** [account.*] *)

Definition kv_known_account (i : Address) : AppM Account :=
  reads (λ s, ok_or (kv_get_account s i) (unknown_account (address_to_string i))).
Definition kv_create (sender : Address) (args : CreateArgs) : AppM Address :=
  if FeatureSet_is_empty (ca_features args) then fails empty_feature
  else
    let a := Account_create sender args in
    lift (kv_validate_account a);;
    r ← kv_add_account a;
    mret r.1.
Definition kv_set_description (sender : Address) (args : SetDescriptionArgs) : AppM unit :=
  a ← kv_known_account (sd_account args);
  if negb (has_role a sender Owner) then fails (user_needs_role "owner")
  else kv_store_description a args;; mret tt.
Definition kv_list_roles (s : AppStorage) (account : Address) (context : AccountModule.Context) :
    outcome ManyError (gset Role) :=
  a ← ok_or (kv_get_account s account) (unknown_account (address_to_string account));
  context [kv_key_for_account account];;
  Ok (kv_get_roles_for_account a).
Definition kv_get_roles (s : AppStorage) (args : GetRolesArgs) (context : AccountModule.Context) :
    outcome ManyError AddressRoleMap :=
  a ← ok_or (kv_get_account s (gr_account args)) (unknown_account (address_to_string (gr_account args)));
  context [kv_key_for_account (gr_account args)];;
  Ok (list_to_map (reverse ((λ i, (i, Account.get_roles a i)) <$> gr_identities args))).
Definition kv_add_roles (sender : Address) (args : AddRolesArgs) : AppM unit :=
  a ← kv_known_account (ar_account args);
  if negb (has_role a sender Owner) then fails (user_needs_role "owner")
  else kv_store_add_roles a args;; mret tt.
Definition kv_remove_roles (sender : Address) (args : RemoveRolesArgs) : AppM unit :=
  a ← kv_known_account (rr_account args);
  if negb (has_role a sender Owner) then fails (user_needs_role (role_to_string Owner))
  else kv_store_remove_roles a args;; mret tt.
Definition kv_account_info (s : AppStorage) (account : Address) (context : AccountModule.Context) :
    outcome ManyError Account :=
  a ← ok_or (kv_get_account_even_disabled s account) (unknown_account (address_to_string account));
  context [kv_key_for_account account];;
  Ok a.
Definition kv_account_disable (sender : Address) (args : DisableArgs) : AppM unit :=
  a ← kv_known_account (di_account args);
  if negb (has_role a sender Owner) then fails (user_needs_role (role_to_string Owner))
  else kv_disable_account (di_account args);; mret tt.
Definition kv_add_features (sender : Address) (args : AddFeaturesArgs) : AppM unit :=
  if FeatureSet_is_empty (af_features args) then fails empty_feature
  else
    a ← kv_known_account (af_account args);
    lift (needs_role a sender [Owner]);;
    kv_store_add_features a args;; mret tt.

(** *** Events and the allow list *)

Definition KV_MAXIMUM_EVENT_COUNT : nat := 100.
Definition kv_events_info (s : AppStorage) : outcome ManyError (N * list EventKind) :=
  total ← kv_nb_events s; Ok (total, all_kinds).
Definition kv_decode_item (item : outcome string (bytes * bytes)) : EventsModule.EventLogResult :=
  kv ← map_err unknown item; decode_or kv.2.
(** As in the ledger, but without the filter on multisig states. *)
Definition kv_events_list (s : AppStorage) (args : EventsModule.ListArgs) :
    outcome ManyError EventsModule.ListReturns :=
  let f := default filter_default (EventsModule.la_filter args) in
  let count := match EventsModule.la_count args with
               | None => KV_MAXIMUM_EVENT_COUNT
               | Some c => N.to_nat (N.min c (N.of_nat KV_MAXIMUM_EVENT_COUNT))
               end in
  nb ← kv_nb_events s;
  let it := kv_decode_item <$> kv_iter_events s (default range_default (ef_id_range f))
                                 (default Indeterminate (EventsModule.la_order args)) in
  let it := EventsModule.filter_account it (ef_account f) in
  let it := EventsModule.filter_event_kind it (ef_kind f) in
  let it := EventsModule.filter_date it (default range_default (ef_date_range f)) in
  events ← EventsModule.collect_events (take count it);
  Ok (EventsModule.mkListReturns nb events).

(** The commands of the module [kvstore.put] and [kvstore.disable] behind the allow list;
    [kvstore.transfer] is another module, which the list does not guard. *)
Inductive kv_cmd : Type :=
| KvPut (args : KvPutArgs)
| KvDisable (args : KvDisableArgs)
| KvTransfer (args : KvTransferArgs).
Definition kv_step (sender : Address) (c : kv_cmd) : AppM unit :=
  match c with
  | KvPut args => kv_module_put sender args
  | KvDisable args => kv_module_disable sender args
  | KvTransfer args => kv_module_transfer sender args
  end.
Definition kv_allow_addrs (allowed : gset Address) (sender : Address) (c : kv_cmd) : AppM unit :=
  match c with
  | KvTransfer _ => kv_step sender c
  | _ => if bool_decide (sender ∈ allowed) then kv_step sender c else fails invalid_from_identity
  end.
End kv_module.
