(* ===== verification/KvLaws.v ===== *)
(** * many-kvstore: what the commands on keys guarantee

    The contents of the store as a map from keys to metadata ([meta_at]) and to values
    ([value_at]); what [kvstore.put], [disable] and [transfer] do to them on every branch; who may
    change a key; what a disabled key refuses; what [kvstore.list] returns; and what a
    restart finds. *)
From S2P Require Import Prelude Error ErrorDisplay External Address Types Account Events Migration.
From S2P Require Import Storage StorageLaws AppStore KvStore KvModule.
From S2P Require AccountStorage AccountModule EventsModule.

#[local] Open Scope string_scope.
#[local] Open Scope list_scope.
#[local] Open Scope N_scope.

(** Two stored keys of different families differ: the literals they start with do. *)
Ltac kv_discr :=
  let E := fresh in intros E;
  repeat unfold KVSTORE_ROOT, KVSTORE_ACL_ROOT, SUBRESOURCE_KEY, LATEST_EVENT_ID_KEY,
    kv_key_for_account, key_for_event, EVENTS_ROOT, EVENT_COUNT_ROOT in E;
  cbn [b String.list_byte_of_string String.list_ascii_of_string Ascii.byte_of_ascii map app
    Byte.of_bits] in E;
  discriminate E.

Section kv_laws.
Context `{KvEnv, !KvEnvLaws}.
Implicit Types (s : AppStorage) (k : bytes) (m : KvStoreMetadata).

(** ** The contents of the store *)

Definition meta_in (v : gmap bytes bytes) k : option KvStoreMetadata :=
  l ← v !! (KVSTORE_ACL_ROOT ++ k); match decode l with Ok m => Some m | _ => None end.
Definition meta_at s k : option KvStoreMetadata := meta_in (app_view s) k.
Definition value_at s k : option bytes := app_view s !! (KVSTORE_ROOT ++ k).

(** What the commands read can be read. *)
Record kv_ready s : Prop := {
  ready_meta k l : app_view s !! (KVSTORE_ACL_ROOT ++ k) = Some l → ∃ m, decode l = Ok m;
  ready_events : ∃ n, read_be_or_zero 8 (app_view s !! EVENT_COUNT_ROOT) = Ok n;
}.

(** Key [k] has metadata [m] and value [v]; any other key, and any account, is as it was. *)
Record key_becomes s k m (v : option bytes) s' : Prop := {
  becomes_meta : meta_at s' k = Some m;
  becomes_value : value_at s' k = v;
  becomes_other k' : k' ≠ k → meta_at s' k' = meta_at s k' ∧ value_at s' k' = value_at s k';
  becomes_accounts i : app_view s' !! kv_key_for_account i = app_view s !! kv_key_for_account i;
  becomes_ready : kv_ready s';
  becomes_frame : app_frame s s';
}.

Lemma not_event_acl k : ¬ b "/events" `prefix_of` KVSTORE_ACL_ROOT ++ k.
Proof. intros [r Hr]. revert Hr. kv_discr. Qed.
Lemma not_event_value k : ¬ b "/events" `prefix_of` KVSTORE_ROOT ++ k.
Proof. intros [r Hr]. revert Hr. kv_discr. Qed.
Lemma not_event_account i : ¬ b "/events" `prefix_of` kv_key_for_account i.
Proof. intros [r Hr]. revert Hr. kv_discr. Qed.

Lemma kv_get_account_view s i :
  kv_get_account s i =
    a ← (l ← app_view s !! kv_key_for_account i; match decode l with Ok a => Some a | _ => None end);
    if AccountStorage.is_enabled a then Some a else None.
Proof.
  unfold kv_get_account, kv_get_account_even_disabled. rewrite merk_get_view.
  change (merk_view (app_store s)) with (app_view s).
  by destruct (app_view s !! kv_key_for_account i).
Qed.

(** Reading metadata. *)
Lemma get_metadata_view s k : get_metadata s k = Ok (app_view s !! (KVSTORE_ACL_ROOT ++ k)).
Proof. apply app_get_view. Qed.

Lemma meta_cases s k :
  kv_ready s →
  (app_view s !! (KVSTORE_ACL_ROOT ++ k) = None ∧ meta_at s k = None)
  ∨ ∃ l m, app_view s !! (KVSTORE_ACL_ROOT ++ k) = Some l ∧ decode l = Ok m ∧ meta_at s k = Some m.
Proof.
  intros Hr. unfold meta_at, meta_in. destruct (app_view s !! _) as [l|] eqn:Hl; [right|by left].
  destruct (ready_meta s Hr k l Hl) as [m Hm]. exists l, m. simpl. by rewrite Hm.
Qed.

Lemma kv_verify_acl_spec s o k :
  kv_ready s →
  kv_verify_acl s o k =
    if match meta_at s k with Some m => bool_decide (km_owner m = o) | None => true end
    then Ok tt else Err permission_denied.
Proof.
  intros Hr. unfold kv_verify_acl. rewrite get_metadata_view. cbn [mbind outcome_bind].
  destruct (meta_cases s k Hr) as [[-> ->]|(l & m & -> & Hm & ->)]; [done|].
  unfold decode_or. rewrite Hm. done.
Qed.

Lemma kv_query_spec s k :
  kv_ready s → kv_query s k = match meta_at s k with Some m => Ok m | None => Err kv_key_not_found end.
Proof.
  intros Hr. unfold kv_query. rewrite get_metadata_view. cbn [mbind outcome_bind].
  destruct (meta_cases s k Hr) as [[-> ->]|(l & m & -> & Hm & ->)]; [done|].
  unfold decode_or. simpl. by rewrite Hm.
Qed.

Lemma kv_get_spec s k :
  kv_ready s →
  kv_get s k = if match meta_at s k with Some m => flag_disabled (km_disabled m) | None => false end
               then Err key_disabled else Ok (value_at s k).
Proof.
  intros Hr. unfold kv_get, kv__get. rewrite !app_get_view. cbn [mbind outcome_bind].
  destruct (meta_cases s k Hr) as [[-> ->]|(l & m & -> & Hm & ->)]; [done|].
  unfold decode_or. rewrite Hm. cbn [map_err mbind outcome_bind].
  by destruct (km_disabled m) as [[[]|]|].
Qed.

(** ** Writing *)

(** The three commands end alike: a batch on the key, an event, a commit. *)
Lemma kv_write_ok h l e s k m v :
  kv_ready s → keys_ascending l →
  (∀ w, apply_batch w l =
     match v with
     | Some x => <[KVSTORE_ROOT ++ k := x]> (<[KVSTORE_ACL_ROOT ++ k := to_vec m]> w)
     | None => <[KVSTORE_ACL_ROOT ++ k := to_vec m]> w
     end) →
  ∃ s', (app_apply h l;; kv_log_event e;; app_maybe_commit unwraps) s = (s', Ok tt)
    ∧ key_becomes s k m (match v with Some x => Some x | None => value_at s k end) s'
    ∧ (app_blockchain s = false → app_db s' = app_view s').
Proof.
  intros Hr Hl Hb. destruct (ready_events s Hr) as [n Hn].
  destruct (app_apply_ok h l s Hl) as (s1 & Hs1 & Hv1 & _ & _ & Hf1).
  rewrite (bind_ok _ _ _ _ _ Hs1). rewrite Hb in Hv1.
  assert (∀ k', k' ≠ KVSTORE_ROOT ++ k → k' ≠ KVSTORE_ACL_ROOT ++ k →
    app_view s1 !! k' = app_view s !! k') as Hne.
  { intros k' ??. rewrite Hv1. destruct v; by rewrite !lookup_insert_ne. }
  destruct (app_log_event_ok unwraps unwraps unwraps e s1 n) as (s2 & Hs2 & Hv2 & _ & _ & Hf2).
  { rewrite Hne; [done|kv_discr|kv_discr]. }
  rewrite (bind_ok _ _ _ _ _ Hs2).
  destruct (app_maybe_commit_ok unwraps s2) as (s3 & Hs3 & Hv3 & Hd3 & _ & Hf3).
  exists s3. split; [done|]. split; [|].
  2:{ rewrite Hv3, Hd3, (same_blockchain _ _ Hf2), (same_blockchain _ _ Hf1). by intros ->. }
  assert (∀ k', ¬ b "/events" `prefix_of` k' → app_view s3 !! k' = app_view s1 !! k') as Hev.
  { intros k' Hk'. rewrite Hv3, Hv2. by apply logged_view_ne. }
  assert (app_view s1 !! (KVSTORE_ACL_ROOT ++ k) = Some (to_vec m)) as Hacl.
  { rewrite Hv1. destruct v; [rewrite lookup_insert_ne by kv_discr|]; by rewrite lookup_insert_eq. }
  assert (∀ k', k' ≠ k → app_view s1 !! (KVSTORE_ACL_ROOT ++ k') = app_view s !! (KVSTORE_ACL_ROOT ++ k'))
    as Hacl'.
  { intros k' Hk'. apply Hne; [kv_discr|]. by intros ?%(inj (app _)). }
  split.
  - unfold meta_at, meta_in. rewrite Hev, Hacl by apply not_event_acl. simpl. by rewrite decode_to_vec.
  - unfold value_at. rewrite Hev by apply not_event_value. rewrite Hv1. destruct v as [x|].
    + by rewrite lookup_insert_eq.
    + by rewrite lookup_insert_ne by kv_discr.
  - intros k' Hk'. unfold meta_at, meta_in, value_at. rewrite !Hev by (apply not_event_acl || apply not_event_value).
    rewrite Hacl' by done. split; [done|]. apply Hne; [by intros ?%(inj (app _))|kv_discr].
  - intros i. rewrite Hev by apply not_event_account. apply Hne; kv_discr.
  - split.
    + intros k' l' Hl'. rewrite Hev in Hl' by apply not_event_acl.
      destruct (decide (k' = k)) as [->|Hk'].
      * rewrite Hacl in Hl'. simplify_eq. exists m. by apply decode_to_vec.
      * rewrite Hacl' in Hl' by done. by eapply ready_meta.
    + rewrite Hv3, Hv2. eexists. apply logged_view_count.
  - trans s1; [done|]. by trans s2.
Qed.

(** *** The commands *)

Lemma put_batch_ok k m (v : bytes) :
  let l := [(KVSTORE_ACL_ROOT ++ k, Put (to_vec m)); (KVSTORE_ROOT ++ k, Put v)] in
  keys_ascending l ∧ ∀ w, apply_batch w l =
    <[KVSTORE_ROOT ++ k := v]> (<[KVSTORE_ACL_ROOT ++ k := to_vec m]> w).
Proof. split; [|done]. apply keys_ascending_pair. by left. Qed.

Lemma kv_put_ok s k m v :
  kv_ready s → ∃ s', kv_put m k v s = (s', Ok tt) ∧ key_becomes s k m (Some v) s'
    ∧ (app_blockchain s = false → app_db s' = app_view s').
Proof.
  intros Hr. destruct (put_batch_ok k m v) as [Hl Hb]. by apply (kv_write_ok _ _ _ _ k m (Some v)).
Qed.
Lemma kv_disable_ok s k m :
  kv_ready s → ∃ s', kv_disable m k s = (s', Ok tt) ∧ key_becomes s k m (value_at s k) s'
    ∧ (app_blockchain s = false → app_db s' = app_view s').
Proof. intros Hr. apply (kv_write_ok _ _ _ _ k m None); [done|apply keys_ascending_singleton|done]. Qed.
Lemma kv_transfer_ok s k o m :
  kv_ready s → ∃ s', kv_transfer k o m s = (s', Ok tt) ∧ key_becomes s k m (value_at s k) s'
    ∧ (app_blockchain s = false → app_db s' = app_view s').
Proof. intros Hr. apply (kv_write_ok _ _ _ _ k m None); [done|apply keys_ascending_singleton|done]. Qed.

(** Who may act for an owner. *)
Definition may_act s (sender : Address) (alt : option Address) (r : Role) (o : Address) : Prop :=
  match alt with
  | None => o = sender
  | Some a => o = a ∧ ∃ acc, kv_get_account s a = Some acc
                ∧ (has_role acc sender r = true ∨ has_role acc sender Owner = true)
  end.

Lemma acting_owner_cases s sender alt r :
  (∃ o, acting_owner s sender alt r = Ok o ∧ may_act s sender alt r o)
  ∨ ((∃ e, acting_owner s sender alt r = Err e) ∧ ∀ o, ¬ may_act s sender alt r o).
Proof.
  unfold acting_owner, may_act, validate_alternative_owner. destruct alt as [a|]; [|left; eauto].
  destruct (kv_get_account s a) as [acc|].
  - destruct (needs_role_cases acc sender [r; Owner]) as [Hn|[e He]].
    + rewrite Hn. left. exists a. split; [done|]. split; [done|]. exists acc. split; [done|].
      apply needs_role_ok in Hn. rewrite !Exists_cons, Exists_nil in Hn. rewrite !has_role_holds. naive_solver.
    + rewrite He. right. split; [eauto|]. intros o [-> (acc' & [= <-] & Hh)].
      assert (needs_role acc sender [r; Owner] = Ok tt); [|congruence].
      apply needs_role_ok. rewrite !Exists_cons. rewrite !has_role_holds in Hh. naive_solver.
  - right. split; [|naive_solver]. repeat case_match; eauto.
Qed.

(** The owner recorded for a key, if any, is the one that acts. *)
Definition acl_allows s (o : Address) k : bool :=
  match meta_at s k with Some m => bool_decide (km_owner m = o) | None => true end.

(** [kvstore.put] on every branch. *)
Lemma kv_put_cases s sender args :
  kv_ready s →
  match acting_owner s sender (kv_put_alternative_owner args) CanKvStorePut with
  | Ok o =>
      if acl_allows s o (kv_put_key args) then
        ∃ s', kv_module_put sender args s = (s', Ok tt)
          ∧ key_becomes s (kv_put_key args) (mkKvMeta o (Some (DisabledBool false)) None)
              (Some (kv_put_value args)) s'
      else kv_module_put sender args s = (s, Err permission_denied)
  | Err e => kv_module_put sender args s = (s, Err e)
  | _ => False
  end.
Proof.
  intros Hr. unfold kv_module_put.
  destruct (acting_owner_cases s sender (kv_put_alternative_owner args) CanKvStorePut)
    as [(o & Ho & _)|[[e He] _]]; [rewrite Ho|by rewrite He; apply bind_reads_err].
  rewrite (bind_reads _ _ s o Ho). unfold acl_allows.
  pose proof (kv_verify_acl_spec s o (kv_put_key args) Hr) as Hacl.
  destruct (match meta_at s (kv_put_key args) with Some _ => _ | None => _ end);
    [|by apply bind_reads_err].
  rewrite (bind_reads _ _ s tt Hacl).
  destruct (kv_put_ok s (kv_put_key args) (mkKvMeta o (Some (DisabledBool false)) None)
    (kv_put_value args) Hr) as (s' & Hs & Hbec & _). eauto.
Qed.

(** What can be read of a key after a command. *)
Lemma becomes_readable s k m v s' :
  key_becomes s k m v s' →
  kv_module_get s' k = (if flag_disabled (km_disabled m) then Err key_disabled else Ok v)
  ∧ kv_query s' k = Ok m.
Proof.
  intros Hbec. unfold kv_module_get. rewrite kv_get_spec, kv_query_spec by apply Hbec.
  by rewrite (becomes_meta _ _ _ _ _ Hbec), (becomes_value _ _ _ _ _ Hbec).
Qed.

(** [kvstore.put] on every branch. The owner is the sender, or the account it acts for, of
    which it holds the role to put or the ownership. A key with another owner is refused, and
    nothing changes. Otherwise the value is stored and can be read back, the key is enabled
    and belongs to that owner, and no other key and no account changes. *)
Theorem kv_put_spec s sender args :
  kv_ready s →
  match acting_owner s sender (kv_put_alternative_owner args) CanKvStorePut with
  | Ok o =>
      if acl_allows s o (kv_put_key args) then
        ∃ s', kv_module_put sender args s = (s', Ok tt)
          ∧ kv_module_get s' (kv_put_key args) = Ok (Some (kv_put_value args))
          ∧ kv_query s' (kv_put_key args) = Ok (mkKvMeta o (Some (DisabledBool false)) None)
          ∧ key_becomes s (kv_put_key args) (mkKvMeta o (Some (DisabledBool false)) None)
              (Some (kv_put_value args)) s'
      else kv_module_put sender args s = (s, Err permission_denied)
  | Err e => kv_module_put sender args s = (s, Err e)
  | _ => False
  end.
Proof.
  intros Hr. pose proof (kv_put_cases s sender args Hr) as Hp. repeat case_match; try done.
  destruct Hp as (s' & Hs & Hbec). exists s'. by destruct (becomes_readable _ _ _ _ _ Hbec).
Qed.

(** [kvstore.transfer] on every branch. *)
Lemma kv_transfer_cases s sender args :
  kv_ready s →
  let k := kv_transfer_key args in
  match meta_at s k with
  | Some m =>
      if flag_disabled (km_disabled m) then kv_module_transfer sender args s = (s, Err key_disabled)
      else if bool_decide (value_at s k = None) then
        kv_module_transfer sender args s = (s, Err kv_key_not_found)
      else if is_anonymous (kv_transfer_new_owner args) then
        kv_module_transfer sender args s = (s, Err anon_alt_denied)
      else match acting_owner s sender (kv_transfer_alternative_owner args) CanKvStoreTransfer with
           | Ok o =>
               if bool_decide (km_owner m = o) then
                 ∃ s', kv_module_transfer sender args s = (s', Ok tt)
                   ∧ key_becomes s k (mkKvMeta (kv_transfer_new_owner args) (km_disabled m) (Some o))
                       (value_at s k) s'
               else kv_module_transfer sender args s = (s, Err permission_denied)
           | Err e => kv_module_transfer sender args s = (s, Err e)
           | _ => False
           end
  | None => ∃ e, kv_module_transfer sender args s = (s, Err e)
  end.
Proof.
  intros Hr. unfold kv_module_transfer. cbn zeta. set (k := kv_transfer_key args).
  pose proof (kv_get_spec s k Hr) as Hget. pose proof (kv_query_spec s k Hr) as Hq.
  destruct (meta_at s k) as [m|] eqn:Hm.
  - destruct (flag_disabled (km_disabled m)).
    { by erewrite (bind_reads_err (λ s, kv_get s k)). }
    rewrite (bind_reads _ _ s _ Hget). case_bool_decide as Hv; [done|].
    destruct (is_anonymous (kv_transfer_new_owner args)); [done|].
    rewrite (bind_reads _ _ s _ Hq).
    destruct (acting_owner_cases s sender (kv_transfer_alternative_owner args) CanKvStoreTransfer)
      as [(o & Ho & _)|[[e He] _]]; [rewrite Ho|by rewrite He; apply bind_reads_err].
    rewrite (bind_reads _ _ s o Ho).
    pose proof (kv_verify_acl_spec s o k Hr) as Hacl. rewrite Hm in Hacl.
    case_bool_decide as Hown; [|by apply bind_reads_err]. rewrite (bind_reads _ _ s tt Hacl), Hown.
    destruct (kv_transfer_ok s k o (mkKvMeta (kv_transfer_new_owner args) (km_disabled m) (Some o)) Hr)
      as (s' & Hs & Hbec & _). eauto.
  - rewrite (bind_reads _ _ s _ Hget). case_bool_decide; [by eexists|].
    destruct (is_anonymous (kv_transfer_new_owner args)); [by eexists|].
    eexists. by apply bind_reads_err.
Qed.

(** [kvstore.transfer] on every branch. It refuses a key that is disabled, has no value,
    or has no metadata, the anonymous address as the new owner, and a sender that does not act for
    the owner of the key; nothing changes then. Otherwise the key keeps its value and its flag, belongs
    to the new owner, records the previous one, and nothing else changes. *)
Theorem kv_transfer_spec s sender args :
  kv_ready s →
  let k := kv_transfer_key args in
  match meta_at s k with
  | Some m =>
      if flag_disabled (km_disabled m) then kv_module_transfer sender args s = (s, Err key_disabled)
      else if bool_decide (value_at s k = None) then
        kv_module_transfer sender args s = (s, Err kv_key_not_found)
      else if is_anonymous (kv_transfer_new_owner args) then
        kv_module_transfer sender args s = (s, Err anon_alt_denied)
      else match acting_owner s sender (kv_transfer_alternative_owner args) CanKvStoreTransfer with
           | Ok o =>
               if bool_decide (km_owner m = o) then
                 ∃ s', kv_module_transfer sender args s = (s', Ok tt)
                   ∧ kv_module_get s' k = Ok (value_at s k)
                   ∧ kv_query s' k = Ok (mkKvMeta (kv_transfer_new_owner args) (km_disabled m) (Some o))
                   ∧ key_becomes s k (mkKvMeta (kv_transfer_new_owner args) (km_disabled m) (Some o))
                       (value_at s k) s'
               else kv_module_transfer sender args s = (s, Err permission_denied)
           | Err e => kv_module_transfer sender args s = (s, Err e)
           | _ => False
           end
  | None => ∃ e, kv_module_transfer sender args s = (s, Err e)
  end.
Proof.
  intros Hr k. pose proof (kv_transfer_cases s sender args Hr) as Ht. cbn zeta in Ht. fold k in Ht.
  destruct (meta_at s k) as [m|]; [|done]. destruct (flag_disabled (km_disabled m)) eqn:Hd; [done|].
  repeat case_match; try done. destruct Ht as (s' & Hs & Hbec). exists s'.
  destruct (becomes_readable _ _ _ _ _ Hbec) as [Hg Hq]. cbn [km_disabled] in Hg. by rewrite Hd in Hg.
Qed.

Lemma kv_disable_cases s sender args :
  kv_ready s →
  let k := kv_disable_key args in
  (∃ e, kv_module_disable sender args s = (s, Err e))
  ∨ ∃ s' o d, kv_module_disable sender args s = (s', Ok tt)
      ∧ may_act s sender (kv_disable_alternative_owner args) CanKvStoreDisable o
      ∧ acl_allows s o k = true ∧ flag_disabled (Some d) = true ∧ is_Some (value_at s k)
      ∧ key_becomes s k (mkKvMeta o (Some d) None) (value_at s k) s'.
Proof.
  intros Hr. cbn zeta. unfold kv_module_disable. set (k := kv_disable_key args).
  pose proof (kv_get_spec s k Hr) as Hget.
  destruct (match meta_at s k with Some m => flag_disabled (km_disabled m) | None => false end).
  { left. eexists. by apply bind_reads_err. }
  rewrite (bind_reads _ _ s _ Hget). case_bool_decide as Hv; [left; by eexists|].
  destruct (acting_owner_cases s sender (kv_disable_alternative_owner args) CanKvStoreDisable)
    as [(o & Ho & Hact)|[[e He] _]]; [|left; eexists; by apply bind_reads_err].
  rewrite (bind_reads _ _ s o Ho). pose proof (kv_verify_acl_spec s o k Hr) as Hacl.
  change (match meta_at s k with Some m => bool_decide (km_owner m = o) | None => true end)
    with (acl_allows s o k) in Hacl.
  destruct (acl_allows s o k) eqn:Hall; [|left; eexists; by apply bind_reads_err].
  rewrite (bind_reads _ _ s tt Hacl). right.
  set (d := match kv_disable_reason args with Some r => DisabledReason r | None => DisabledBool true end).
  destruct (kv_disable_ok s k (mkKvMeta o (Some d) None) Hr) as (s' & Hs & Hbec & _).
  exists s', o, d. split_and!; try done.
  - unfold d. by destruct (kv_disable_reason args).
  - destruct (value_at s k); [eauto|done].
Qed.

(** after [kvstore.disable] the value of a key cannot be read, disabled again or
    transferred by anybody, and all of these are refused without a change (transferring too, although the
    code means to allow it); only a put by its owner makes the key readable again. *)
Theorem kv_disabled_key s sender args s' :
  kv_ready s → kv_module_disable sender args s = (s', Ok tt) →
  let k := kv_disable_key args in
  kv_ready s'
  ∧ kv_module_get s' k = Err key_disabled
  ∧ (∀ sender' args', kv_disable_key args' = k →
       kv_module_disable sender' args' s' = (s', Err key_disabled))
  ∧ (∀ sender' args', kv_transfer_key args' = k →
       kv_module_transfer sender' args' s' = (s', Err key_disabled))
  ∧ (∀ sender' v, km_owner <$> meta_at s' k = Some sender' →
       ∃ s'', kv_module_put sender' (mkKvPutArgs k v None) s' = (s'', Ok tt)
         ∧ kv_module_get s'' k = Ok (Some v)).
Proof.
  intros Hr Hs k.
  destruct (kv_disable_cases s sender args Hr) as [(e & He)|(s1 & o & d & Hs1 & _ & _ & Hd & _ & Hbec)];
    [congruence|]. rewrite Hs in Hs1. injection Hs1 as <-. fold k in Hbec.
  pose proof (becomes_ready _ _ _ _ _ Hbec) as Hr'. pose proof (becomes_meta _ _ _ _ _ Hbec) as Hm.
  assert (kv_get s' k = Err key_disabled) as Hget by (rewrite kv_get_spec, Hm by done; cbn [km_disabled]; by rewrite Hd).
  split_and!; [done|done| | |].
  - intros sender' args' Hk. unfold kv_module_disable. rewrite Hk. by apply bind_reads_err.
  - intros sender' args' Hk. unfold kv_module_transfer. rewrite Hk. by apply bind_reads_err.
  - intros sender' v Hown. pose proof (kv_put_cases s' sender' (mkKvPutArgs k v None) Hr') as Hput.
    cbn [kv_put_alternative_owner kv_put_key kv_put_value acting_owner] in Hput.
    unfold acl_allows in Hput. rewrite Hm in Hput, Hown. simplify_eq/=.
    rewrite bool_decide_eq_true_2 in Hput by done. destruct Hput as (s'' & Hs'' & Hb). exists s''.
    by destruct (becomes_readable _ _ _ _ _ Hb).
Qed.

(** ** Access control and the invariant *)

Definition kv_cmd_key (c : kv_cmd) : bytes :=
  match c with
  | KvPut args => kv_put_key args
  | KvDisable args => kv_disable_key args
  | KvTransfer args => kv_transfer_key args
  end.
Definition kv_cmd_alternative (c : kv_cmd) : option Address :=
  match c with
  | KvPut args => kv_put_alternative_owner args
  | KvDisable args => kv_disable_alternative_owner args
  | KvTransfer args => kv_transfer_alternative_owner args
  end.
Definition kv_cmd_role (c : kv_cmd) : Role :=
  match c with
  | KvPut _ => CanKvStorePut
  | KvDisable _ => CanKvStoreDisable
  | KvTransfer _ => CanKvStoreTransfer
  end.

(** Every command either is refused and changes nothing, or changes its key, for the one that owns it. *)
Lemma kv_step_cases s sender c :
  kv_ready s →
  (∃ e, kv_step sender c s = (s, Err e))
  ∨ ∃ s' o m v, kv_step sender c s = (s', Ok tt)
      ∧ may_act s sender (kv_cmd_alternative c) (kv_cmd_role c) o
      ∧ acl_allows s o (kv_cmd_key c) = true
      ∧ key_becomes s (kv_cmd_key c) m (Some v) s'.
Proof.
  intros Hr. destruct c as [args|args|args]; simpl.
  - pose proof (kv_put_cases s sender args Hr) as Hput.
    destruct (acting_owner_cases s sender (kv_put_alternative_owner args) CanKvStorePut)
      as [(o & Ho & Hact)|[[e He] _]]; [rewrite Ho in Hput|rewrite He in Hput; left; eauto].
    destruct (acl_allows s o (kv_put_key args)) eqn:Hall; [right|left; eauto].
    destruct Hput as (s' & Hs & Hbec). do 4 eexists. eauto.
  - destruct (kv_disable_cases s sender args Hr) as [?|(s' & o & d & Hs & Hact & Hall & _ & [v Hv] & Hbec)];
      [by left|right]. rewrite Hv in Hbec. do 4 eexists. eauto.
  - pose proof (kv_transfer_cases s sender args Hr) as Htr. cbn zeta in Htr. unfold acl_allows.
    destruct (meta_at s (kv_transfer_key args)) as [m|] eqn:Hm; [|by left].
    destruct (flag_disabled (km_disabled m)); [left; eauto|].
    destruct (value_at s (kv_transfer_key args)) as [v|] eqn:Hv;
      [|rewrite bool_decide_eq_true_2 in Htr by done; left; eauto].
    rewrite bool_decide_eq_false_2 in Htr by done.
    destruct (is_anonymous (kv_transfer_new_owner args)); [left; eauto|].
    destruct (acting_owner_cases s sender (kv_transfer_alternative_owner args) CanKvStoreTransfer)
      as [(o & Ho & Hact)|[[e He] _]]; [rewrite Ho in Htr|rewrite He in Htr; left; eauto].
    case_bool_decide as Hown; [right|left; eauto].
    destruct Htr as (s' & Hs & Hbec). rewrite ?Hv in Hbec. do 4 eexists.
    split_and!; [done|done|by apply bool_decide_eq_true|done].
Qed.

(** C26: nobody but its owner changes a key. When a command by any sender changes the metadata or the value
    of a key that has an owner, the command names that key, and the sender is the owner, acting for
    itself, or names the owner, an enabled account of which it holds the role of the command or the
    ownership. *)
Theorem kv_access_control s sender c k m :
  kv_ready s → meta_at s k = Some m →
  let s' := (kv_step sender c s).1 in
  (meta_at s' k = Some m ∧ value_at s' k = value_at s k)
  ∨ (kv_cmd_key c = k ∧ may_act s sender (kv_cmd_alternative c) (kv_cmd_role c) (km_owner m)).
Proof.
  intros Hr Hm. cbn zeta.
  destruct (kv_step_cases s sender c Hr) as [(e & ->)|(s' & o & m' & v & -> & Hact & Hall & Hbec)];
    [by left|]. simpl.
  destruct (decide (k = kv_cmd_key c)) as [->|Hne].
  - right. split; [done|]. unfold acl_allows in Hall. rewrite Hm in Hall.
    by apply bool_decide_eq_true in Hall as ->.
  - left. destruct (becomes_other _ _ _ _ _ Hbec k Hne) as [-> ->]. done.
Qed.

(** Runs of commands. *)
Fixpoint kv_steps (l : list (Address * kv_cmd)) s : AppStorage * list (outcome ManyError unit) :=
  match l with
  | [] => (s, [])
  | c :: l =>
      let r := kv_step c.1 c.2 s in
      let rs := kv_steps l r.1 in (rs.1, r.2 :: rs.2)
  end.

(** Every value has an owner. *)
Definition kv_inv s : Prop := kv_ready s ∧ ∀ k, is_Some (value_at s k) → is_Some (meta_at s k).

(** over any sequence of puts, disables and transfers by any senders, each of which may fail, none
    panics; what is stored stays readable, every stored value keeps having an owner, and accounts
    do not change. *)
Theorem kv_invariant s l :
  kv_inv s →
  kv_inv (kv_steps l s).1 ∧ Forall (λ o, answers o = true) (kv_steps l s).2
  ∧ ∀ i, kv_get_account (kv_steps l s).1 i = kv_get_account s i.
Proof.
  revert s. induction l as [|[sender c] l IH]; intros s [Hr Hv]; [done|]. cbn [kv_steps fst snd].
  destruct (kv_step_cases s sender c Hr) as [(e & ->)|(s' & o & m & v & -> & _ & _ & Hbec)]; cbn [fst snd].
  - destruct (IH s (conj Hr Hv)) as (? & ? & ?). split_and!; [done|by constructor|done].
  - destruct (IH s') as (? & ? & Hacc).
    { split; [apply Hbec|]. intros k Hk. destruct (decide (k = kv_cmd_key c)) as [->|Hne].
      - rewrite (becomes_meta _ _ _ _ _ Hbec). eauto.
      - destruct (becomes_other _ _ _ _ _ Hbec k Hne) as [-> Hval]. rewrite Hval in Hk. auto. }
    split_and!; [done|by constructor|]. intros i. rewrite Hacc, !kv_get_account_view.
    by rewrite (becomes_accounts _ _ _ _ _ Hbec).
Qed.

(** ** Listing keys *)

(** What an entry of the database must pass to be listed. *)
Definition listed (f : option (list KeyFilterType)) (v : bytes) : bool :=
  match f with
  | Some ((_ :: _) as fs) =>
      match decode (A := KvStoreMetadata) v with
      | Ok meta => forallb (λ x, filter_key x meta) fs
      | _ => false
      end
  | _ => true
  end.

Lemma omap_filter_fst {V} (g : outcome string (bytes * V) → option bytes) (p : bytes * V → bool) l :
  (∀ kv, g (Ok kv) = if p kv then Some kv.1 else None) →
  omap g (Ok <$> l) = (filter (λ kv, p kv = true) l).*1.
Proof.
  intros Hg. induction l as [|kv l IH]; [done|]. csimpl. rewrite Hg, filter_cons, IH.
  destruct (p kv); [rewrite decide_True by done|rewrite decide_False by done]; done.
Qed.

Lemma kv_list_filter s o f :
  kv_list s o f = (filter (λ kv, listed f kv.2 = true)
    (iter_entries (app_db s) (iter_mode o) (PrefixRange KVSTORE_ACL_ROOT))).*1.
Proof.
  unfold kv_list, all_keys. rewrite app_iter_ok. apply (omap_filter_fst _ (λ kv, listed f kv.2)).
  intros [k v]. simpl. destruct f as [[|x fs]|]; simpl; [done| |done].
  by destruct (decode v).
Qed.

(** Keys in the order asked for. *)
Definition key_before (o : SortOrder) : bytes → bytes → Prop :=
  match o with Descending => flip lexico | _ => lexico end.

Lemma sorted_fst_filter {V} (R : bytes → bytes → Prop) (p : bytes * V → bool) l :
  StronglySorted R l.*1 → StronglySorted R (filter (λ kv, p kv = true) l).*1.
Proof.
  induction l as [|[k v] l IH]; [done|]. csimpl. intros [Hs Hall]%StronglySorted_inv.
  rewrite filter_cons. destruct (decide _); csimpl; [|by apply IH]. constructor; [by apply IH|].
  rewrite Forall_forall in *. intros k' (kv & -> & [_ Hkv]%list_elem_of_filter)%list_elem_of_fmap.
  apply Hall. by apply list_elem_of_fmap_2.
Qed.

Lemma sorted_drop_prefix o (l : list bytes) :
  StronglySorted (key_before o) l → Forall (λ k, KVSTORE_ACL_ROOT `prefix_of` k) l →
  StronglySorted (key_before o) (drop 1 <$> l).
Proof.
  assert (∀ x y : bytes, key_before o (KVSTORE_ACL_ROOT ++ x) (KVSTORE_ACL_ROOT ++ y) → key_before o x y) as Hlt.
  { intros x y. destruct o; simpl; unfold flip; apply (lexico_app KVSTORE_ACL_ROOT). }
  induction 1 as [|k l Hs IH Hall]; [constructor|]. intros [[k0 ->] Hp]%Forall_cons. csimpl.
  constructor; [by apply IH|]. rewrite Forall_forall in *.
  intros y (k' & -> & Hk')%list_elem_of_fmap. destruct (Hp k' Hk') as [k1 ->].
  apply Hlt. by apply Hall.
Qed.

Lemma iter_entries_sorted (db : gmap bytes bytes) o r :
  StronglySorted (key_before o) (iter_entries db (iter_mode o) r).*1.
Proof.
  pose proof (range_entries_ascending db r) as Hs. unfold keys_ascending in Hs.
  destruct o; simpl; [done|done|]. rewrite fmap_reverse. by apply sorted_reverse.
Qed.
Lemma elem_of_iter_entries (db : gmap bytes bytes) mode r k v :
  (k, v) ∈ iter_entries db mode r ↔ db !! k = Some v ∧ in_iter_range r k.
Proof. destruct mode; simpl; [|rewrite elem_of_reverse]; apply elem_of_range_entries. Qed.

(** [kvstore.list] returns exactly the keys whose metadata, in the committed database, pass every filter
    (owner, previous owner, disabled or not), each once, in the order asked for. The count of the
    arguments has no effect: the list is never cut. *)
Theorem kv_list_spec s args :
  (∀ k l, app_db s !! (KVSTORE_ACL_ROOT ++ k) = Some l → ∃ m, decode l = Ok (m : KvStoreMetadata)) →
  ∃ ks, kv_module_list s args = Ok ks
    ∧ (∀ k, k ∈ ks ↔ ∃ m, meta_in (app_db s) k = Some m
         ∧ ∀ f, f ∈ default [] (kl_filter args) → filter_key f m = true)
    ∧ NoDup ks
    ∧ StronglySorted (key_before (default Indeterminate (kl_order args))) ks.
Proof.
  intros Hdb. set (o := default Indeterminate (kl_order args)). unfold kv_module_list. fold o.
  eexists. split; [done|]. rewrite kv_list_filter.
  set (E := iter_entries (app_db s) (iter_mode o) (PrefixRange KVSTORE_ACL_ROOT)).
  assert (∀ k v, (k, v) ∈ E ↔ app_db s !! k = Some v ∧ KVSTORE_ACL_ROOT `prefix_of` k) as HE
    by (intros; apply elem_of_iter_entries).
  assert (∀ v m, decode v = Ok m → listed (kl_filter args) v = true ↔
    ∀ f, f ∈ default [] (kl_filter args) → filter_key f m = true) as Hlisted.
  { intros v m Hm. unfold listed. destruct (kl_filter args) as [[|x fs]|]; simpl.
    - split; [by intros _ f ?%elem_of_nil|done].
    - rewrite Hm. change (filter_key x m && forallb (λ x0, filter_key x0 m) fs)
        with (forallb (λ x0, filter_key x0 m) (x :: fs)).
      rewrite forallb_forall. by setoid_rewrite list_elem_of_In.
    - split; [by intros _ f ?%elem_of_nil|done]. }
  assert (StronglySorted (key_before o) (drop 1 <$> (filter (λ kv, listed (kl_filter args) kv.2 = true) E).*1))
    as Hsorted.
  { apply sorted_drop_prefix; [apply sorted_fst_filter, iter_entries_sorted|].
    apply Forall_forall. intros k (kv & -> & [_ Hkv]%list_elem_of_filter)%list_elem_of_fmap.
    destruct kv as [k v]. by apply HE in Hkv as [_ ?]. }
  split; [|split; [|done]].
  - intros k. rewrite list_elem_of_fmap. split.
    + intros (key & -> & (kv & -> & [Hl Hkv]%list_elem_of_filter)%list_elem_of_fmap).
      destruct kv as [key v]. apply HE in Hkv as [Hv [k ->]]. simpl in Hl |- *.
      rewrite drop_0. destruct (Hdb k v Hv) as [m Hm]. exists m. unfold meta_in.
      rewrite Hv. simpl. rewrite Hm. split; [done|]. by apply (Hlisted v).
    + intros (m & Hm & Hf). unfold meta_in in Hm.
      destruct (app_db s !! (KVSTORE_ACL_ROOT ++ k)) as [v|] eqn:Hv; [|done]. simpl in Hm.
      destruct (decode v) as [m'| | |] eqn:Hd; simplify_eq.
      exists (KVSTORE_ACL_ROOT ++ k). split; [done|]. apply list_elem_of_fmap.
      exists (KVSTORE_ACL_ROOT ++ k, v). split; [done|]. apply list_elem_of_filter.
      split; [by apply (Hlisted v m Hd)|]. apply HE. split; [done|]. by exists k.
  - assert (∀ l, StronglySorted (key_before o) l → NoDup l) as Hnd; [|by apply Hnd].
    induction 1 as [|k l Hs IH Hall]; constructor; [|done]. intros Hin.
    rewrite Forall_forall in Hall. apply Hall in Hin. destruct o; by apply (irreflexivity lexico k).
Qed.

(** ** Restart *)

(** a node that stops after a block and loads its store again finds the state it had: the same contents,
    height, root identity, next event id and account counter; only the time and the cached hash, which
    is the root hash of the store, are set anew. *)
Theorem kv_restart s s' info h l :
  read_be_or_zero 8 (app_view s !! b "/height") = Ok h →
  app_view s !! b "/config/identity" = Some l → from_bytes l = Ok (root_identity s) →
  read_be_or_zero 4 (app_view s !! SUBRESOURCE_KEY) = Ok (next_subresource s) →
  kv_commit s = (s', Ok info) →
  ∃ s'', kv_module_load (Ok (app_store s')) (app_blockchain s) = Ok s''
    ∧ app_view s'' = app_view s' ∧ app_db s'' = app_view s'
    ∧ app_event_id s'' = app_event_id s ∧ next_subresource s'' = next_subresource s
    ∧ root_identity s'' = root_identity s
    ∧ kv_abci_info s'' = kv_abci_info s' ∧ commit_hash info = kv_hash s''
    ∧ kv_get_height s'' = Ok ((h + 1) mod 2 ^ 64).
Proof.
  intros Hh Hl Hroot Hnext Hc. unfold kv_commit in Hc.
  destruct (app_apply_one unwraps (b "/height") (Put (be_bytes 8 (h + 1))) s)
    as (s1 & Hs1 & Hv1 & _ & Hi1 & Hf1).
  assert (kv_inc_height s = (s1, Ok h)) as Hinc.
  { unfold kv_inc_height. rewrite (bind_reads _ _ s h) by (unfold kv_get_height; by rewrite app_number_view).
    by rewrite (bind_ok _ _ _ _ _ Hs1). }
  rewrite (bind_ok _ _ _ _ _ Hinc), (bind_reads _ _ s1 (app_event_id s1)) in Hc by done.
  destruct (app_apply_one unwraps LATEST_EVENT_ID_KEY (Put (to_vec (app_event_id s1))) s1)
    as (s2 & Hs2 & Hv2 & _ & Hi2 & Hf2).
  rewrite (bind_ok _ _ _ _ _ Hs2) in Hc.
  destruct (app_commit_ok unwraps s2) as (s3 & Hs3 & Hv3 & Hd3 & Hi3 & Hf3).
  rewrite (bind_ok _ _ _ _ _ Hs3), (bind_reads _ _ s3 (merk_root_hash (app_store s3))) in Hc by done.
  unfold mbind, st_bind, modify_state in Hc. simpl in Hc. injection Hc as <- <-.
  assert (app_view s3 = <[LATEST_EVENT_ID_KEY := to_vec (app_event_id s)]>
            (<[b "/height" := be_bytes 8 (h + 1)]> (app_view s))) as Hv.
  { rewrite Hv3, Hv2, Hv1, Hi1. done. }
  unfold kv_module_load, kv_load. cbn [mbind outcome_bind].
  change (app_store (app_with_hash s3 (Some (merk_root_hash (app_store s3))))) with (app_store s3).
  rewrite !merk_get_view. change (merk_view (app_store s3)) with (app_view s3).
  assert (∀ k, k ≠ LATEST_EVENT_ID_KEY → k ≠ b "/height" → app_view s3 !! k = app_view s !! k) as Hne.
  { intros k ??. rewrite Hv. by rewrite !lookup_insert_ne. }
  rewrite !(Hne SUBRESOURCE_KEY), !(Hne (b "/config/identity")), Hl by kv_discr.
  cbn [expect_get mbind outcome_bind expect_some to_string_err]. rewrite Hnext, Hroot.
  cbn [map_err mbind outcome_bind]. rewrite Hv, lookup_insert_eq. cbn [expect_some mbind outcome_bind].
  rewrite decode_to_vec by done. cbn [map_err mbind outcome_bind].
  eexists. split; [done|]. split_and!; try done.
  - change (app_db s3 = app_view s3). by rewrite Hd3, Hv3.
  - unfold kv_get_height. rewrite app_number_view.
    change (read_be_or_zero 8 (app_view s3 !! b "/height") = Ok ((h + 1) mod 2 ^ 64)).
    rewrite Hv, lookup_insert_ne, lookup_insert_eq by kv_discr. apply read_be_be_bytes.
Qed.
End kv_laws.
