(* ===== verification/KvAccounts.v ===== *)
(** * many-kvstore: accounts

    The accounts of the key-value store are handled by a second implementation of the account
    endpoints ([many-kvstore/src/module/account.rs], [storage/account.rs]), with its own
    counter of subresources, kept in memory and in the store. This file proves the invariant of
    its accounts over any sequence of commands. *)
From S2P Require Import Prelude Error ErrorDisplay External Address Types Account Events Migration.
From S2P Require Import Storage StorageLaws AppStore KvStore KvModule KvLaws.
From S2P Require Import AccountStorage AccountModule.
From S2P Require Subresource.

#[local] Open Scope string_scope.
#[local] Open Scope list_scope.
#[local] Open Scope N_scope.

Section kv_accounts.
Context `{KvEnv, !KvEnvLaws}.
Implicit Types (s : AppStorage) (i : Address) (a : Account).

Definition kv_account_step (sender : Address) (c : account_cmd) : AppM unit :=
  match c with
  | ACreate args => kv_create sender args;; mret tt
  | ASetDescription args => kv_set_description sender args
  | AAddRoles args => kv_add_roles sender args
  | ARemoveRoles args => kv_remove_roles sender args
  | ADisable args => kv_account_disable sender args
  | AAddFeatures args => kv_add_features sender args
  end.
Fixpoint kv_account_steps (l : list (Address * account_cmd)) s :
    AppStorage * list (outcome ManyError unit) :=
  match l with
  | [] => (s, [])
  | c :: l =>
      let r := kv_account_step c.1 c.2 s in
      let rs := kv_account_steps l r.1 in (rs.1, r.2 :: rs.2)
  end.

Definition kv_stored s i a : Prop :=
  ∃ l, app_view s !! kv_key_for_account i = Some l ∧ decode l = Ok a.

Record kv_accounts_inv s : Prop := {
  kai_owned i a : kv_stored s i a → holds a i Owner;
  kai_readable i l : app_view s !! kv_key_for_account i = Some l → ∃ a, decode l = Ok (a : Account);
  kai_ids i : is_Some (app_view s !! kv_key_for_account i) →
    ∃ n, n < next_subresource s ∧ with_subresource_id (root_identity s) n = Ok i;
  kai_events : ∃ n, read_be_or_zero 8 (app_view s !! EVENT_COUNT_ROOT) = Ok n;
}.

Lemma kv_stored_inj s i a a' : kv_stored s i a → kv_stored s i a' → a = a'.
Proof. intros (l & ? & ?) (l' & ? & ?). congruence. Qed.

Lemma kv_key_account_inj i j : kv_key_for_account i = kv_key_for_account j → i = j.
Proof. unfold kv_key_for_account. intros Hk%(inj (app _)). by apply ab_inj. Qed.

Lemma kv_get_even_disabled_some s i a : kv_get_account_even_disabled s i = Some a ↔ kv_stored s i a.
Proof.
  unfold kv_get_account_even_disabled, kv_stored. rewrite merk_get_view.
  change (merk_view (app_store s)) with (app_view s).
  destruct (app_view s !! kv_key_for_account i) as [l|]; [|split; [done|by intros (? & ? & _)]].
  split.
  - destruct (decode l) as [a'| | |] eqn:E; try done. intros [= ->]. eauto.
  - intros (l' & [= <-] & ->). done.
Qed.
Lemma kv_get_account_some s i a :
  kv_get_account s i = Some a ↔ kv_stored s i a ∧ is_enabled a = true.
Proof.
  unfold kv_get_account. rewrite <-kv_get_even_disabled_some.
  destruct (kv_get_account_even_disabled s i) as [a'|]; simpl; [|split; [done|by intros [? _]]].
  destruct (is_enabled a') eqn:E; split; [by intros [= ->]|by intros [[= ->] _]|done|].
  intros [[= ->] ?]. congruence.
Qed.

(** ** Changing one account *)

(** Account [i] becomes [a]; nothing else but the event log changes. *)
Record kv_updated s i a s' : Prop := {
  kup_stored : kv_stored s' i a;
  kup_frame : app_frame s s';
  kup_events : ∃ n, read_be_or_zero 8 (app_view s' !! EVENT_COUNT_ROOT) = Ok n;
  kup_other k : k ≠ kv_key_for_account i → ¬ b "/events" `prefix_of` k → app_view s' !! k = app_view s !! k;
}.

Lemma kv_commit_account_ok i a s :
  ∃ s', kv_commit_account i a s = (s', Ok (kv_key_for_account i))
    ∧ app_view s' = <[kv_key_for_account i := to_vec a]> (app_view s) ∧ app_frame s s'.
Proof.
  unfold kv_commit_account.
  destruct (app_apply_one (raises unknown) (kv_key_for_account i) (Put (to_vec a)) s)
    as (s1 & Hs1 & Hv1 & _ & _ & Hf1).
  rewrite (bind_ok _ _ _ _ _ Hs1).
  destruct (app_maybe_commit_ok unwraps s1) as (s2 & Hs2 & Hv2 & _ & _ & Hf2).
  rewrite (bind_ok _ _ _ _ _ Hs2). exists s2. split; [done|].
  split; [by rewrite Hv2, Hv1|by trans s1].
Qed.

Lemma event_count_event : b "/events" `prefix_of` EVENT_COUNT_ROOT.
Proof. by exists (b "_count"). Qed.

Lemma kv_log_commit e i a s n :
  read_be_or_zero 8 (app_view s !! EVENT_COUNT_ROOT) = Ok n →
  ∃ s', (kv_log_event e;; kv_commit_account i a) s = (s', Ok (kv_key_for_account i)) ∧ kv_updated s i a s'.
Proof.
  intros Hn. destruct (app_log_event_ok unwraps unwraps unwraps e s n Hn) as (s1 & Hs1 & Hv1 & _ & _ & Hf1).
  rewrite (bind_ok _ _ _ _ _ Hs1).
  destruct (kv_commit_account_ok i a s1) as (s2 & -> & Hv2 & Hf2). exists s2. split; [done|]. split.
  - exists (to_vec a). rewrite Hv2, lookup_insert_eq. split; [done|by apply decode_to_vec].
  - by trans s1.
  - rewrite Hv2, lookup_insert_ne, Hv1 by kv_discr. eexists. apply logged_view_count.
  - intros k ??. rewrite Hv2, lookup_insert_ne, Hv1 by done. by apply logged_view_ne.
Qed.

(** The order of [disable_account]. *)
Lemma kv_commit_log {C} e i a s n (r : C) :
  read_be_or_zero 8 (app_view s !! EVENT_COUNT_ROOT) = Ok n →
  ∃ s', (kv_commit_account i a;; kv_log_event e;; app_maybe_commit (raises unknown);; mret r) s = (s', Ok r)
    ∧ kv_updated s i a s'.
Proof.
  intros Hn. destruct (kv_commit_account_ok i a s) as (s1 & Hs1 & Hv1 & Hf1).
  rewrite (bind_ok _ _ _ _ _ Hs1).
  destruct (app_log_event_ok unwraps unwraps unwraps e s1 n) as (s2 & Hs2 & Hv2 & _ & _ & Hf2).
  { by rewrite Hv1, lookup_insert_ne by kv_discr. }
  rewrite (bind_ok _ _ _ _ _ Hs2).
  destruct (app_maybe_commit_ok (raises unknown) s2) as (s3 & Hs3 & Hv3 & _ & _ & Hf3).
  rewrite (bind_ok _ _ _ _ _ Hs3). exists s3. split; [done|]. split.
  - exists (to_vec a). rewrite Hv3, Hv2, logged_view_ne, Hv1, lookup_insert_eq by apply not_event_account.
    split; [done|by apply decode_to_vec].
  - trans s1; [done|by trans s2].
  - rewrite Hv3, Hv2. eexists. apply logged_view_count.
  - intros k ??. by rewrite Hv3, Hv2, logged_view_ne, Hv1, lookup_insert_ne.
Qed.

Lemma kv_updated_other s i a s' j c : kv_updated s i a s' → j ≠ i → kv_stored s' j c ↔ kv_stored s j c.
Proof.
  intros Hup Hne. unfold kv_stored. rewrite (kup_other _ _ _ _ Hup); [done| |apply not_event_account].
  by intros ?%kv_key_account_inj.
Qed.

Lemma kv_updated_inv s i a s' :
  kv_accounts_inv s →
  (∃ n, n < next_subresource s ∧ with_subresource_id (root_identity s) n = Ok i) →
  holds a i Owner → kv_updated s i a s' → kv_accounts_inv s'.
Proof.
  intros [Ho Hr Hids _] Hgiven Hown Hup.
  assert (∀ j, j ≠ i → app_view s' !! kv_key_for_account j = app_view s !! kv_key_for_account j) as Hne.
  { intros j Hj. apply (kup_other _ _ _ _ Hup); [by intros ?%kv_key_account_inj|apply not_event_account]. }
  split; [| | |apply Hup].
  - intros j x Hj. destruct (decide (j = i)) as [->|Hji].
    + by rewrite (kv_stored_inj s' i x a Hj (kup_stored _ _ _ _ Hup)).
    + apply Ho. by rewrite <-(kv_updated_other s i a s').
  - intros j l Hl. destruct (decide (j = i)) as [->|Hji].
    + destruct (kup_stored _ _ _ _ Hup) as (l' & Hl' & Hd). simplify_eq. eauto.
    + apply (Hr j). by rewrite <-Hne.
  - intros j Hj. rewrite (same_subresource _ _ (kup_frame _ _ _ _ Hup)),
      (same_identity _ _ (kup_frame _ _ _ _ Hup)).
    destruct (decide (j = i)) as [->|Hji]; [done|]. apply Hids. by rewrite <-Hne.
Qed.

(** ** Commands on an existing account *)

Definition kv_changes {A} (m : AppM A) s i (sender : Address) : Prop :=
  (∃ e, m s = (s, Err e))
  ∨ ∃ s' r a0 a, m s = (s', Ok r) ∧ kv_stored s i a0 ∧ is_enabled a0 = true
      ∧ has_role a0 sender Owner = true ∧ kv_updated s i a s' ∧ (holds a0 i Owner → holds a i Owner).

Definition kv_op_changes {A} (m : AppM A) s i a0 : Prop :=
  (∃ e, m s = (s, Err e))
  ∨ ∃ s' r a, m s = (s', Ok r) ∧ kv_updated s i a s' ∧ (holds a0 i Owner → holds a i Owner).

Lemma kv_op_changes_then {A} (m : AppM A) s i a0 :
  kv_op_changes m s i a0 → kv_op_changes (m;; mret tt) s i a0.
Proof.
  intros [(e & He)|(s' & r & a & Hm & Hup & Ho)].
  - left. exists e. by rewrite (bind_err _ _ _ _ _ He).
  - right. exists s', tt, a. by rewrite (bind_ok _ _ _ _ _ Hm).
Qed.

Lemma kv_known_cases s i :
  (∃ a, kv_known_account i s = (s, Ok a) ∧ kv_stored s i a ∧ is_enabled a = true)
  ∨ ∃ e, kv_known_account i s = (s, Err e).
Proof.
  unfold kv_known_account, reads. destruct (kv_get_account s i) as [a|] eqn:Ha; [left|right; by eexists].
  exists a. by apply kv_get_account_some in Ha.
Qed.

Lemma kv_owner_handler {A} (f : Account → AppM A) e s i sender :
  (∀ a0, kv_stored s i a0 → is_enabled a0 = true → kv_op_changes (f a0) s i a0) →
  kv_changes (a ← kv_known_account i;
              if negb (has_role a sender Owner) then fails e else f a;; mret tt) s i sender.
Proof.
  intros Hf. unfold kv_changes. destruct (kv_known_cases s i) as [(a0 & Hk & Hst & He)|(e' & Hk)].
  - rewrite (bind_ok _ _ _ _ _ Hk). destruct (has_role a0 sender Owner) eqn:Hown; [|left; by eexists].
    simpl. destruct (kv_op_changes_then _ _ _ _ (Hf a0 Hst He)) as [?|(s' & r & a & ? & ? & ?)];
      [by left|right]. exists s', r, a0, a. by split_and!.
  - left. exists e'. by rewrite (bind_err _ _ _ _ _ Hk).
Qed.

Lemma kv_log_commit_changes e i a0 a s n :
  read_be_or_zero 8 (app_view s !! EVENT_COUNT_ROOT) = Ok n →
  (holds a0 i Owner → holds a i Owner) → kv_op_changes (kv_log_event e;; kv_commit_account i a) s i a0.
Proof.
  intros Hn Hh. destruct (kv_log_commit e i a s n Hn) as (s' & Hs & Hup). right. eauto 10.
Qed.

Lemma kv_validate_answers a : answers (kv_validate_account a) = true.
Proof. apply bind_answers; [|intros; apply check_roles_answers]. apply feature_error_answers. by apply FeatureSet_get_answers. Qed.

Lemma kv_add_features_changes s args sender :
  kv_accounts_inv s → kv_changes (kv_add_features sender args) s (af_account args) sender.
Proof.
  intros [_ _ _ [n Hn]]. unfold kv_add_features, kv_changes.
  destruct (FeatureSet_is_empty (af_features args)); [left; by eexists|].
  destruct (kv_known_cases s (af_account args)) as [(a0 & Hk & Hst & He)|(e' & Hk)];
    [|left; exists e'; by rewrite (bind_err _ _ _ _ _ Hk)].
  rewrite (bind_ok _ _ _ _ _ Hk).
  destruct (needs_role_cases a0 sender [Owner]) as [Hrole|[e ->]]; [rewrite Hrole|left; by eexists].
  erewrite (bind_lift _ _ s) by done. unfold kv_store_add_features.
  destruct (answers_cases _ (insert_features_answers (features a0) (FeatureSet_iter (af_features args))))
    as [[fs ->]|[e ->]]; [|left; by eexists].
  set (a := match af_roles args with
            | Some m => add_role_pairs (account_with_features a0 fs) (role_pairs m)
            | None => account_with_features a0 fs end).
  destruct (answers_cases _ (kv_validate_answers a)) as [[[] Hv]|[e Hv]].
  - destruct (kv_log_commit (E_AccountAddFeatures (af_account args) (default ∅ (af_roles args))
      (af_features args)) (af_account args) a s n Hn) as (s' & Hs & Hup).
    right. exists s', tt, a0, a. split; [|split_and!; try done].
    + unfold mbind, st_bind, lift, mret, st_ret in *. fold a. rewrite Hv. by rewrite Hs.
    + apply needs_role_ok, Exists_cons in Hrole as [?|Hrole]; [by apply has_role_holds|inversion Hrole].
    + unfold a. destruct (af_roles args); [|done]. rewrite holds_add_role_pairs. by left.
  - left. exists e. unfold mbind, st_bind, lift. fold a. by rewrite Hv.
Qed.

Lemma kv_step_changes s sender c i :
  kv_accounts_inv s → cmd_target c = Some i → kv_changes (kv_account_step sender c) s i sender.
Proof.
  intros Hinv Hc. destruct (kai_events s Hinv) as [n Hn].
  destruct c as [|args|args|args|args|args]; simpl in Hc; simplify_eq; simpl.
  - apply (kv_owner_handler (λ a, kv_store_description a args)). intros a0 _ _.
    by apply (kv_log_commit_changes _ _ _ _ _ n).
  - apply (kv_owner_handler (λ a, kv_store_add_roles a args)). intros a0 _ _.
    apply (kv_log_commit_changes _ _ _ _ _ n); [done|]. rewrite holds_add_role_pairs. by left.
  - apply (kv_owner_handler (λ a, kv_store_remove_roles a args)). intros a0 _ _.
    unfold kv_store_remove_roles. destruct (match rr_roles args !! rr_account args with
      Some v => bool_decide (Owner ∈ v) | None => false end) eqn:Hself; [left; by eexists|].
    apply (kv_log_commit_changes _ _ _ _ _ n); [done|]. rewrite holds_remove_role_pairs.
    intros Hh. split; [done|]. intros (v & Hv & Hin)%elem_of_role_pairs. rewrite Hv in Hself.
    by apply bool_decide_eq_false in Hself.
  - apply (kv_owner_handler (λ _, kv_disable_account (di_account args))). intros a0 Hst He.
    unfold kv_op_changes, kv_disable_account.
    rewrite (bind_reads _ _ s (Some a0)) by (f_equal; by apply kv_get_even_disabled_some).
    cbn [ok_or]. rewrite (bind_lift _ _ s a0), He by done.
    destruct (kv_commit_log (E_AccountDisable (di_account args)) (di_account args)
      (account_with_disabled a0 (Some (DisabledBool true))) s n
      [kv_key_for_account (di_account args); kv_key_for_account (di_account args)] Hn) as (s' & Hs & Hup).
    right. exists s', [kv_key_for_account (di_account args); kv_key_for_account (di_account args)],
      (account_with_disabled a0 (Some (DisabledBool true))).
    split; [|by split].
    destruct (kv_commit_account_ok (di_account args) (account_with_disabled a0 (Some (DisabledBool true))) s)
      as (s1 & Hs1 & _).
    rewrite (bind_ok _ _ _ _ _ Hs1). by rewrite (bind_ok _ _ _ _ _ Hs1) in Hs.
  - by apply kv_add_features_changes.
Qed.

(** ** Creation *)

Lemma new_subresource_run s :
  ∃ s1, app_view s1 = <[SUBRESOURCE_KEY := be_bytes 4 (wrap32 (next_subresource s + 1))]> (app_view s)
    ∧ next_subresource s1 = wrap32 (next_subresource s + 1) ∧ root_identity s1 = root_identity s
    ∧ new_subresource_id s =
        match with_subresource_id (root_identity s) (next_subresource s) with
        | Ok i => (s1, Ok (i, SUBRESOURCE_KEY))
        | Err e => (s1, Err e)
        | Panic t => (s1, Panic t)
        | OutOfFuel => (s1, OutOfFuel)
        end.
Proof.
  set (s0 := app_with_subresource s (wrap32 (next_subresource s + 1))).
  destruct (app_apply_one (raises storage_apply_failed) SUBRESOURCE_KEY
    (Put (be_bytes 4 (wrap32 (next_subresource s + 1)))) s0) as (s1 & Hs1 & Hv1 & _ & _ & Hf1).
  exists s1. split; [by rewrite Hv1|]. split; [by rewrite (same_subresource _ _ Hf1)|].
  split; [by rewrite (same_identity _ _ Hf1)|].
  unfold new_subresource_id. rewrite (bind_reads _ _ s (next_subresource s)) by done.
  rewrite (bind_ok (modify_state _) _ s s0 tt) by done. rewrite (bind_ok _ _ _ _ _ Hs1).
  rewrite (bind_reads _ _ s1 (root_identity s)) by (by rewrite (same_identity _ _ Hf1)).
  unfold mbind, st_bind, lift. by destruct (with_subresource_id _ _).
Qed.

(** Moving the counter on keeps the invariant, as long as it does not wrap around. *)
Lemma kv_counter_inv s s1 :
  kv_accounts_inv s → next_subresource s + 1 < 2 ^ 32 →
  app_view s1 = <[SUBRESOURCE_KEY := be_bytes 4 (wrap32 (next_subresource s + 1))]> (app_view s) →
  next_subresource s1 = wrap32 (next_subresource s + 1) → root_identity s1 = root_identity s →
  kv_accounts_inv s1 ∧ next_subresource s1 = next_subresource s + 1
  ∧ ∀ i, app_view s1 !! kv_key_for_account i = app_view s !! kv_key_for_account i.
Proof.
  intros [Ho Hr Hids [n Hn]] Hlt Hv Hnext Hroot.
  assert (∀ i, app_view s1 !! kv_key_for_account i = app_view s !! kv_key_for_account i) as Hacc.
  { intros i. by rewrite Hv, lookup_insert_ne by kv_discr. }
  unfold wrap32 in Hnext. rewrite N.mod_small in Hnext by done.
  split; [|done]. split.
  - intros i a Hst. apply Ho. unfold kv_stored in *. by rewrite Hacc in Hst.
  - intros i l Hl. rewrite Hacc in Hl. by apply (Hr i).
  - intros i Hi. rewrite Hacc in Hi. destruct (Hids i Hi) as (x & ? & ?).
    exists x. rewrite Hnext, Hroot. split; [lia|done].
  - exists n. by rewrite Hv, lookup_insert_ne by kv_discr.
Qed.

Lemma kv_create_run s sender args :
  kv_accounts_inv s → next_subresource s + 1 < 2 ^ 32 →
  (∃ s' e, kv_create sender args s = (s', Err e) ∧ kv_accounts_inv s'
     ∧ next_subresource s' ≤ next_subresource s + 1
     ∧ ∀ i, app_view s' !! kv_key_for_account i = app_view s !! kv_key_for_account i)
  ∨ ∃ s' i, kv_create sender args s = (s', Ok i) ∧ kv_accounts_inv s'
      ∧ next_subresource s' = next_subresource s + 1
      ∧ app_view s !! kv_key_for_account i = None
      ∧ kv_stored s' i (add_role (Account_create sender args) i Owner)
      ∧ ∀ j, j ≠ i → app_view s' !! kv_key_for_account j = app_view s !! kv_key_for_account j.
Proof.
  intros Hinv Hlt. unfold kv_create.
  assert (next_subresource s ≤ next_subresource s + 1) by lia.
  destruct (FeatureSet_is_empty (ca_features args)); [left; by do 2 eexists|].
  destruct (answers_cases _ (kv_validate_answers (Account_create sender args)))
    as [[[] Hv]|[e Hv]]; rewrite Hv; [|left; by do 2 eexists].
  rewrite (bind_lift _ _ s tt) by done. unfold kv_add_account, kv__add_account.
  destruct (new_subresource_run s) as (s1 & Hv1 & Hn1 & Hr1 & Hrun).
  destruct (kv_counter_inv s s1 Hinv Hlt Hv1 Hn1 Hr1) as (Hinv1 & Hnext1 & Hacc1).
  destruct (Subresource.with_subresource_id_cases (root_identity s) (next_subresource s)) as [[i Hi]|[e He]].
  2:{ rewrite He in Hrun. left. exists s1, e.
      split; [erewrite bind_err; [done|]; by erewrite bind_err|]. split; [done|]. split; [lia|done]. }
  rewrite Hi in Hrun. right. destruct (kai_events _ Hinv1) as [n Hn].
  set (a := add_role (Account_create sender args) i Owner).
  destruct (kv_log_commit (E_AccountCreate i (description a) (roles a) (features a)) i a s1 n Hn)
    as (s2 & Hs2 & Hup).
  assert (holds a i Owner) as Hown by (unfold a; rewrite holds_add_role; by right).
  exists s2, i. split_and!.
  - unfold mbind, st_bind in *. rewrite Hrun. cbn [fst snd]. fold a.
    destruct (kv_log_event _ s1) as [s3 [?|?|?|]]; try done. by rewrite Hs2.
  - apply (kv_updated_inv s1 i a); [done| |done|done]. exists (next_subresource s).
    rewrite Hr1. split; [lia|done].
  - by rewrite (same_subresource _ _ (kup_frame _ _ _ _ Hup)).
  - destruct (app_view s !! kv_key_for_account i) as [l|] eqn:Hl; [|done]. exfalso.
    destruct (kai_ids s Hinv i) as (x & Hx & Hsx); [eauto|].
    pose proof (Subresource.subresource_inj _ _ _ _ _ Hi Hsx). lia.
  - apply Hup.
  - intros j Hj. rewrite (kup_other _ _ _ _ Hup); [apply Hacc1| |apply not_event_account].
    by intros ?%kv_key_account_inj.
Qed.

(** ** Sequences of commands *)

Lemma kv_account_step_inv s sender c :
  kv_accounts_inv s → next_subresource s + 1 < 2 ^ 32 →
  let r := kv_account_step sender c s in
  kv_accounts_inv r.1 ∧ answers r.2 = true ∧ next_subresource r.1 ≤ next_subresource s + 1
  ∧ ∀ i a, kv_stored s i a → is_enabled a = false → kv_stored r.1 i a.
Proof.
  intros Hinv Hlt. cbn zeta. destruct (cmd_target c) as [j|] eqn:Ht.
  - destruct (kv_step_changes s sender c j Hinv Ht)
      as [(e & ->)|(s' & r & a0 & a & -> & Hst & He & _ & Hup & Hown)]; 
      cbn [fst snd]; [split_and!; [done|done|lia|done]|]. split_and!; [|done| |].
    + eapply kv_updated_inv; eauto.
      * destruct Hst as (l & Hl & _). apply (kai_ids s Hinv). rewrite Hl. eauto.
      * apply Hown. by eapply kai_owned.
    + rewrite (same_subresource _ _ (kup_frame _ _ _ _ Hup)). lia.
    + intros i a' Hst' Hdis. rewrite (kv_updated_other s j a s'); [done|done|].
      intros ->. by rewrite (kv_stored_inj s j a0 a' Hst Hst'), Hdis in He.
  - destruct c as [args| | | | |]; simpl in Ht; try done. simpl.
    destruct (kv_create_run s sender args Hinv Hlt)
      as [(s' & e & Hs & Hinv' & Hle & Hacc)|(s' & i & Hs & Hinv' & Hn & Hnone & _ & Hacc)].
    + rewrite (bind_err _ _ _ _ _ Hs). split_and!; [done|done|done|].
      intros j a (l & Hl & Hd) _. exists l. by rewrite Hacc.
    + rewrite (bind_ok _ _ _ _ _ Hs). split_and!; [done|done|simpl; lia|].
      intros j a (l & Hl & Hd) _. exists l. split; [|done]. simpl. rewrite Hacc; [done|]. intros ->. congruence.
Qed.

(** over any sequence of account commands on the key-value store, each of which may fail, and as long as the
    counter of subresources does not reach 2^32, none panics; every account owns itself, its id is
    a subresource below the counter, so that no new account replaces an old one; and a disabled account
    never changes. *)
Theorem kv_accounts_invariant s l :
  kv_accounts_inv s → next_subresource s + N.of_nat (length l) < 2 ^ 32 →
  kv_accounts_inv (kv_account_steps l s).1
  ∧ Forall (λ o, answers o = true) (kv_account_steps l s).2
  ∧ ∀ i a, kv_stored s i a → is_enabled a = false → kv_stored (kv_account_steps l s).1 i a.
Proof.
  revert s. induction l as [|[sender c] l IH]; intros s Hinv Hlt; [done|].
  cbn [kv_account_steps fst snd length] in *.
  destruct (kv_account_step_inv s sender c Hinv) as (Hinv' & Hans & Hle & Hdis); [lia|].
  destruct (IH _ Hinv') as (? & ? & Hdis'); [lia|]. split; [done|]. split; [by constructor|].
  intros i a Hst He. auto.
Qed.
End kv_accounts.
