(* ===== verification/Web.v ===== *)
(** * many-web: web sites stored on the chain

    Models [many-web/src/storage.rs], [storage/events.rs], [storage/iterator.rs], [module.rs],
    [module/events.rs], [module/allow_addrs.rs] and [error.rs], with the types of
    [many-types/src/web.rs] and [many-modules/src/_16_web].

    A site has its files, in base64, under [/http/<owner>/<site>/<path>] and its metadata under
    [/meta/<owner>/<site>]. Outside of the repository are: the zip archive and the temporary
    directory it is extracted to ([zip], [tempfile], [walkdir]), given as the entries that a
    walk over the directory finds, errors of the walk and files that cannot be read included; [base64]; [sha2]; the check of domain names
    ([trust-dns]); and the Unicode tables behind [char::is_alphanumeric], [str::to_lowercase]
    and [str::trim]. *)
From S2P Require Import Prelude Error ErrorDisplay External Address Types Account Events Migration.
From S2P Require Import Storage StorageLaws AppStore.
From S2P Require EventsModule.

#[local] Open Scope string_scope.
#[local] Open Scope list_scope.
#[local] Open Scope N_scope.

(** ** Errors *)

Definition not_alphanumeric_or_symbols (s : string) : ManyError :=
  attribute_specific 16 1 "Invalid string: {s}." [("s", s)].
Definition web_invalid_initial_hash (expected actual : string) : ManyError :=
  attribute_specific 16 2 "Invalid initial hash. Expected '{expected}', was '{actual}'."
    [("expected", expected); ("actual", actual)].
Definition nonexistent_site (s : string) : ManyError :=
  attribute_specific 16 3 "Nonexistent site: {site_name}." [("site_name", s)].
Definition unable_to_create_tempdir (d : string) : ManyError :=
  attribute_specific 16 4 "Unable to create temporary directory: {dir}." [("dir", d)].
Definition web_key_not_found (k : string) : ManyError :=
  attribute_specific 16 5 "Key not found: {key}." [("key", k)].
Definition unable_to_read_entry (e : string) : ManyError :=
  attribute_specific 16 6 "Unable to read entry: {entry}." [("entry", e)].
Definition key_should_start_with_http : ManyError :=
  attribute_specific 16 7 "Key should start with '/http/'." [].
Definition unable_to_convert_to_str : ManyError :=
  attribute_specific 16 9 "Unable to convert to str." [].
Definition io_error (e : string) : ManyError :=
  attribute_specific 16 10 "I/O error: {err}." [("err", e)].
Definition invalid_zip_file (e : string) : ManyError :=
  attribute_specific 16 11 "Invalid zip file: {err}." [("err", e)].
Definition unable_to_extract_zip_file (e : string) : ManyError :=
  attribute_specific 16 12 "Unable to extract zip file: {err}." [("err", e)].
Definition invalid_owner (o : string) : ManyError :=
  attribute_specific 16 13 "Invalid owner: {owner}." [("owner", o)].
Definition unable_to_open_storage (e : string) : ManyError :=
  attribute_specific 16 14 "Unable to open storage: {err}." [("err", e)].
Definition missing_index_html : ManyError :=
  attribute_specific 16 15 "Missing 'index.html' at the root of the archive." [].
Definition existent_site (s : string) : ManyError :=
  attribute_specific 16 16 "Existent site: {site_name}. Use 'update' instead." [("site_name", s)].
Definition site_name_too_long (s : string) : ManyError :=
  attribute_specific 16 17 "Site name too long: {site_name}." [("site_name", s)].
Definition invalid_domain (d : string) : ManyError :=
  attribute_specific 16 18 "Invalid domain: {domain}." [("domain", d)].
Definition page_size_too_large (n : N) : ManyError :=
  attribute_specific 16 19 "Page size too large: {size}." [("size", pretty n)].
Definition domain_already_in_use (d : string) : ManyError :=
  attribute_specific 16 20 "Domain already in use: {domain}." [("domain", d)].

(** ** Data *)

Inductive WebDeploymentFilter : Type := WebOwner (a : Address).

(** [s.trim_start_matches("owner:")]: the prefix is taken off as often as it is there. *)
Fixpoint trim_owner (fuel : nat) (s : string) : string :=
  match fuel with
  | O => s
  | S fuel =>
      if String.prefix "owner:" s
      then trim_owner fuel (String.substring 6 (String.length s - 6) s) else s
  end.
Definition WebDeploymentFilter_from_str `{Base32, Crc16} (s : string) :
    outcome ManyError WebDeploymentFilter :=
  if String.prefix "owner:" s then
    a ← address_from_str (trim_owner (String.length s) s); Ok (WebOwner a)
  else Err (unknown "invalid filter").

Record WebDeploymentInfo : Type := mkWebInfo {
  wi_owner : Address;
  wi_site_name : string;
  wi_site_description : option string;
  wi_url : option string;
  wi_domain : option string;
}.

Record WebListArgs : Type := mkWebListArgs {
  wl_count : option N;
  wl_order : option SortOrder;
  wl_filter : option (list WebDeploymentFilter);
  wl_page : option N;
}.
Record WebListReturns : Type := mkWebListReturns {
  wl_deployments : list WebDeploymentInfo;
  wl_total_count : N;
}.
Record WebInitialState : Type := mkWebInitialState { wis_identity : Address; wis_hash : option string }.

(** What a walk over the extracted archive meets: files, files that cannot be read, directories, and
    errors of the walk itself. The names of a path are strings of bytes of the system, and the path is relative
    to the root of the walk: the walk gives paths below its root, so that [strip_prefix] does not fail. *)
Inductive DirEntry : Type :=
| DirFile (path : list string) (content : bytes)
| DirUnreadable (path : list string) (err : string)
| DirDirectory (path : list string)
| DirError (path : list string) (err : string).
(** The path of something that is there. *)
Definition existing_path (e : DirEntry) : option (list string) :=
  match e with DirFile p _ | DirUnreadable p _ | DirDirectory p => Some p | DirError _ _ => None end.

Class WebEnv := {
  web_app :: AppEnv;
  web_cbor_info :: Cbor WebDeploymentInfo;
  new_tempdir : outcome string unit;
  zip_open : bytes → outcome string unit;
  zip_extract : bytes → outcome string (list DirEntry);
  sha256 : bytes → bytes;
  base64_encode : bytes → bytes;
  base64_decode : bytes → outcome string bytes;
  domain_name : string → outcome string string;
  unicode_alphanumeric : N → bool;
  str_to_lowercase : string → string;
  str_trim : string → string;
  web_domain_suffix : string;     (* [DOMAIN], or [localhost:8880] *)
}.
Class WebEnvLaws `{WebEnv} := {
  web_app_laws :: AppEnvLaws;
  web_laws_info :: CborLaws WebDeploymentInfo (λ _, True);
  base64_roundtrip l : base64_decode (base64_encode l) = Ok l;
}.

(** *** Strings *)

Definition is_ascii_punctuation (c : N) : bool :=
  (33 <=? c) && (c <=? 47) || (58 <=? c) && (c <=? 64) || (91 <=? c) && (c <=? 96)
  || (123 <=? c) && (c <=? 126).
Definition is_ascii_whitespace (c : N) : bool :=
  (c =? 9) || (c =? 10) || (c =? 12) || (c =? 13) || (c =? 32).
(** [s.replace(' ', "_")]. *)
Fixpoint replace_spaces (s : string) : string :=
  match s with
  | EmptyString => ""
  | String c s => String (if Ascii.eqb c " " then "_"%char else c) (replace_spaces s)
  end.

(** ** Batches: stable sorting and removal of duplicates *)

(** [v.sort_by(|(k1, _), (k2, _)| k1.cmp(k2))]: a stable sort. *)
Fixpoint insert_entry (e : BatchEntry) (l : list BatchEntry) : list BatchEntry :=
  match l with
  | [] => [e]
  | x :: l => if bool_decide (key_le e.1 x.1) then e :: x :: l else x :: insert_entry e l
  end.
Definition sort_batch (l : list BatchEntry) : list BatchEntry := foldr insert_entry [] l.
(** [v.dedup_by(|(k1, _), (k2, _)| k1 == k2)]: of a run of equal keys the first stays. *)
Fixpoint dedup_after (k : bytes) (l : list BatchEntry) : list BatchEntry :=
  match l with
  | [] => []
  | x :: l => if bool_decide (x.1 = k) then dedup_after k l else x :: dedup_after x.1 l
  end.
Definition dedup_batch (l : list BatchEntry) : list BatchEntry :=
  match l with [] => [] | x :: l => x :: dedup_after x.1 l end.

(** ** Storage *)

Section web_storage.
Context `{WebEnv}.

Definition WebStorage : Type := AppStorage.

Definition HTTP_ROOT : string := "/http".
Definition META_ROOT : string := "/meta".
Definition key_for_website (owner : Address) (site_name : string) : bytes :=
  b HTTP_ROOT ++ b "/" ++ ab owner ++ b "/" ++ b site_name ++ b "/".
Definition key_for_website_file (owner : Address) (site_name file_name : string) : bytes :=
  b HTTP_ROOT ++ b "/" ++ ab owner ++ b "/" ++ b site_name ++ b "/" ++ b file_name.
Definition key_for_website_meta (owner : Address) (site_name : string) : bytes :=
  b META_ROOT ++ b "/" ++ ab owner ++ b "/" ++ b site_name.
Definition url_for_website (owner : Address) (site_name : string) : string :=
  "https://" +:+ site_name +:+ "-" +:+ address_to_string owner +:+ "." +:+ web_domain_suffix.

Definition web_set_time (s : WebStorage) (t : Timestamp) : WebStorage := app_with_time s (Some t).
Definition web_now (s : WebStorage) : Timestamp := app_now s.
Definition web_commit_storage : AppM unit := app_commit (raises storage_commit_failed).
Definition web_maybe_commit : AppM unit := app_maybe_commit (raises storage_commit_failed).

Definition web_load (opened : outcome string merk) (is_blockchain : bool) : outcome ManyError WebStorage :=
  m ← map_err unable_to_open_storage opened;
  o ← map_err storage_get_failed (merk_get m (b "/config/subresource_id"));
  next ← read_be_or_zero 4 o;
  o ← map_err storage_get_failed (merk_get m (b "/config/identity"));
  l ← ok_or o (web_key_not_found "/config/identity");
  root ← map_err (λ e, deserialization_error (ManyError_to_string e)) (from_bytes l);
  o ← map_err storage_get_failed (merk_get m (b "/latest_event_id"));
  l ← ok_or o (web_key_not_found "/latest_event_id");
  i ← map_err deserialization_error (decode l);
  Ok (mkAppStorage _ m is_blockchain i None None next root).
Definition web_new (identity : Address) (opened : outcome string merk) (is_blockchain : bool) :
    outcome ManyError WebStorage :=
  m ← map_err unable_to_open_storage opened;
  m ← map_err storage_apply_failed (merk_apply m [(b "/config/identity", Put (address_to_vec identity))]);
  let latest : EventId := [as_u8 0] in
  m ← map_err storage_apply_failed (merk_apply m [(b "/latest_event_id", Put (to_vec latest))]);
  m ← map_err storage_commit_failed (merk_commit m);
  Ok (mkAppStorage _ m is_blockchain latest None None 0 identity).

Definition web_get (s : WebStorage) (k : bytes) : outcome ManyError (option bytes) :=
  app_get (raises storage_get_failed) k s.

(** The error of [get] is wrapped a second time. *)
Definition get_failed_again {A} (m : outcome ManyError A) : outcome ManyError A :=
  map_err (λ e, storage_get_failed (ManyError_to_string e)) m.
Definition site_exists (s : WebStorage) (owner : Address) (site_name : string) : outcome ManyError bool :=
  meta ← get_failed_again (web_get s (key_for_website_meta owner site_name));
  index ← get_failed_again (web_get s (key_for_website_file owner site_name "index.html"));
  Ok (bool_decide (is_Some meta) && bool_decide (is_Some index)).
Definition get_deployment_meta (s : WebStorage) (owner : Address) (site_name : string) :
    outcome ManyError WebDeploymentInfo :=
  o ← get_failed_again (web_get s (key_for_website_meta owner site_name));
  l ← ok_or o (web_key_not_found (String.string_of_list_byte (key_for_website_meta owner site_name)));
  map_err deserialization_error (decode l).

Definition web_get_height (s : WebStorage) : outcome ManyError N :=
  app_number (raises storage_get_failed) 8 (b "/height") s.
Definition web_inc_height : AppM N :=
  current ← reads web_get_height;
  app_apply (raises storage_apply_failed) [(b "/height", Put (be_bytes 8 (current + 1)))];;
  mret current.
(** The outcome of [inc_height] is dropped. *)
Definition web_commit : AppM AbciCommitInfo :=
  catch web_inc_height;;
  i ← reads (λ s, Ok (app_event_id s));
  app_apply (raises storage_apply_failed) [(b "/latest_event_id", Put (to_vec i))];;
  app_commit (raises storage_commit_failed);;
  h ← reads (λ s, Ok (merk_root_hash (app_store s)));
  modify_state (λ s, app_with_hash s (Some h));;
  mret (mkCommitInfo 0 h).
Definition web_hash (s : WebStorage) : bytes := default (merk_root_hash (app_store s)) (app_hash s).

(** *** Events *)

Definition web_nb_events (s : WebStorage) : outcome ManyError N :=
  app_number (raises storage_get_failed) 8 EVENT_COUNT_ROOT s.
Definition web_log_event (content : EventInfo) : AppM unit :=
  app_log_event (raises storage_get_failed) (raises storage_apply_failed)
    (raises storage_commit_failed) content.
Definition web_iter_events (s : WebStorage) (r : CborRange EventId) (o : SortOrder) :
    list (outcome string (bytes * bytes)) := app_events s r o.

(** *** Sites *)

Definition web_meta_iter (s : WebStorage) (o : SortOrder) : list (outcome string (bytes * bytes)) :=
  app_iter s o (PrefixRange (b META_ROOT)).
Definition website_files (s : WebStorage) (owner : Address) (site_name : string) :
    list (outcome string (bytes * bytes)) :=
  app_iter s Indeterminate (PrefixRange (key_for_website owner site_name)).

(** [OsStr::to_str]. *)
Definition os_to_str (s : string) : option string := if utf8_from 0 0 0 (b s) then Some s else None.
(** A name that is no UTF-8 is not hidden. *)
Definition is_hidden (name : string) : bool :=
  match os_to_str name with Some s => String.prefix "." s | None => false end.
(** [filter_entry(|e| !is_hidden(e))]: what is hidden or below a hidden directory is not visited. An error
    of the walk passes the filter, below directories that do. *)
Definition visited (e : DirEntry) : bool :=
  match e with
  | DirFile p _ | DirUnreadable p _ | DirDirectory p => negb (existsb is_hidden p)
  | DirError p _ => negb (existsb is_hidden (removelast p))
  end.
Definition path_string (p : list string) : outcome ManyError string :=
  ok_or (os_to_str (String.concat "/" p)) unable_to_convert_to_str.

(** The files that the walk finds, with their contents, up to the first error. *)
Fixpoint site_files (l : list DirEntry) : outcome ManyError (list (string * bytes)) :=
  match l with
  | [] => Ok []
  | e :: l =>
      if visited e then
        match e with
        | DirError _ err => Err (unable_to_read_entry err)
        | DirDirectory _ => site_files l
        | DirUnreadable p err => path_string p;; Err (io_error err)
        | DirFile p c => f ← path_string p; r ← site_files l; Ok ((f, c) :: r)
        end
      else site_files l
  end.

Definition website_batch (owner : Address) (site_name : string) (site_description : option string)
    (files : list (string * bytes)) (domain : option string) : list BatchEntry :=
  sort_batch
    (((λ f, (key_for_website_file owner site_name f.1, Put (base64_encode f.2))) <$> files)
     ++ [(key_for_website_meta owner site_name,
          Put (to_vec (mkWebInfo owner site_name site_description
                         (Some (url_for_website owner site_name)) domain)))]).
Definition _store_website (owner : Address) (site_name : string) (site_description : option string)
    (entries : list DirEntry) (domain : option string) : outcome ManyError (list BatchEntry) :=
  files ← site_files entries; Ok (website_batch owner site_name site_description files domain).

Definition store_website (owner : Address) (site_name : string) (site_description : option string)
    (memo : option Memo) (source_hash : string) (entries : list DirEntry) (domain : option string) :
    AppM unit :=
  batch ← lift (_store_website owner site_name site_description entries domain);
  app_apply (raises storage_apply_failed) batch;;
  web_log_event (E_WebDeploy owner site_name site_description source_hash memo domain);;
  web_maybe_commit.

Fixpoint delete_items (l : list (outcome string (bytes * bytes))) : outcome ManyError (list BatchEntry) :=
  match l with
  | [] => Ok []
  | i :: l => kv ← map_err storage_get_failed i; r ← delete_items l; Ok ((kv.1, Delete) :: r)
  end.
Definition _remove_website (s : WebStorage) (owner : Address) (site_name : string) :
    outcome ManyError (list BatchEntry) :=
  l ← delete_items (website_files s owner site_name);
  Ok (l ++ [(key_for_website_meta owner site_name, Delete)]).

Definition remove_website (owner : Address) (site_name : string) (memo : option Memo) : AppM unit :=
  batch ← reads (λ s, _remove_website s owner site_name);
  app_apply (raises storage_apply_failed) batch;;
  web_log_event (E_WebRemove owner site_name memo);;
  web_maybe_commit.

Definition update_website (owner : Address) (site_name : string) (site_description : option string)
    (memo : option Memo) (source_hash : string) (entries : list DirEntry) (domain : option string) :
    AppM unit :=
  batch_r ← reads (λ s, _remove_website s owner site_name);
  batch_s ← lift (_store_website owner site_name site_description entries domain);
  app_apply (raises storage_apply_failed) (dedup_batch (sort_batch (batch_s ++ batch_r)));;
  web_log_event (E_WebUpdate owner site_name site_description source_hash memo domain);;
  web_maybe_commit.

Definition filter_item (f : WebDeploymentFilter) (meta : WebDeploymentInfo) : bool :=
  match f with WebOwner o => bool_decide (wi_owner meta = o) end.
Definition web_list (s : WebStorage) (order : SortOrder) (f : option (list WebDeploymentFilter)) :
    list (bytes * WebDeploymentInfo) :=
  omap (λ item,
    match item with
    | Ok (k, v) =>
        match decode (A := WebDeploymentInfo) v with
        | Ok meta =>
            match f with
            | Some ((_ :: _) as fs) =>
                if forallb (λ x, filter_item x meta) fs then Some (k, meta) else None
            | _ => Some (k, meta)
            end
        | _ => None
        end
    | _ => None
    end) (web_meta_iter s order).
Definition has_domain (s : WebStorage) (domain : string) : bool :=
  existsb (λ km, bool_decide (wi_domain km.2 = Some domain)) (web_list s Descending None).
End web_storage.

(** ** Endpoints *)

Definition MAXIMUM_WEB_COUNT : N := 100.
Definition WEB_MAXIMUM_EVENT_COUNT : nat := 1000.

Section web_module.
Context `{WebEnv}.

Definition web_module_load (opened : outcome string merk) (is_blockchain : bool) :
    outcome ManyError AppStorage :=
  map_err (λ e, unknown (ManyError_to_string e)) (web_load opened is_blockchain).
Definition web_module_new (initial : WebInitialState) (opened : outcome string merk)
    (is_blockchain : bool) : outcome ManyError AppStorage :=
  s ← map_err (λ e, unknown (ManyError_to_string e)) (web_new (wis_identity initial) opened is_blockchain);
  match wis_hash initial with
  | Some h =>
      let actual := hex_encode (web_hash s) in
      if bool_decide (actual ≠ h) then Err (web_invalid_initial_hash h actual) else Ok s
  | None => Ok s
  end.
Definition web_endpoints : gmap string bool := list_to_map
  [("web.info", false); ("web.deploy", true); ("web.remove", true); ("web.update", true);
   ("web.list", false); ("kvstore.get", false); ("kvstore.info", false);
   ("events.info", false); ("events.list", false)].
Definition web_begin_block (block : AbciBlock) : AppM unit :=
  reads web_get_height;;
  modify_state (λ s, match block_time block with Some t => web_set_time s t | None => s end).
Definition web_abci_info (s : AppStorage) : outcome ManyError AbciInfo :=
  h ← web_get_height s; Ok (mkAbciInfo h (web_hash s)).

Definition all_alphanumeric_or_symbols (s : string) : bool :=
  forallb (λ c, unicode_alphanumeric c || is_ascii_punctuation c || is_ascii_whitespace c)
    (utf8_chars 0 0 (b s)).
Definition is_alphanumeric_or_symbols (s : string) : outcome ManyError unit :=
  if all_alphanumeric_or_symbols s then Ok tt else Err (not_alphanumeric_or_symbols s).
Definition extract_valid_domain (domain : option string) : outcome ManyError (option string) :=
  match domain with
  | Some d => d ← map_err invalid_domain (domain_name d); Ok (Some d)
  | None => Ok None
  end.
Definition _transform_site_name (s : string) : string := replace_spaces (str_trim (str_to_lowercase s)).

(** The hash of the source, and the files it was extracted to. *)
Definition _prepare_deployment (site_name : string) (site_description : option string) (source : bytes) :
    outcome ManyError (string * list DirEntry) :=
  is_alphanumeric_or_symbols site_name;;
  (match site_description with Some d => is_alphanumeric_or_symbols d | None => Ok tt end
   : outcome ManyError unit);;
  map_err invalid_zip_file (zip_open source);;
  files ← map_err unable_to_extract_zip_file (zip_extract source);
  if bool_decide (Some ["index.html"] ∈ map existing_path files)
  then Ok (hex_encode (sha256 source), files)
  else Err missing_index_html.

Definition web_info (s : AppStorage) : outcome ManyError bytes := Ok (web_hash s).
(** [(page_number - 1) * page_size] wraps around at 64 bits. *)
Definition web_module_list (s : AppStorage) (args : WebListArgs) : outcome ManyError WebListReturns :=
  let page_number := default 1 (wl_page args) in
  let page_size := default MAXIMUM_WEB_COUNT (wl_count args) in
  if MAXIMUM_WEB_COUNT <? page_size then Err (page_size_too_large page_size)
  else
    let order := default Indeterminate (wl_order args) in
    let offset := wrap64 (wrap64 (page_number + U64_MAX) * page_size) in
    let l := web_list s order (wl_filter args) in
    let skipped := if N.of_nat (length l) <=? offset then [] else drop (N.to_nat offset) l.*2 in
    Ok (mkWebListReturns (take (N.to_nat page_size) skipped) (wrap64 (N.of_nat (length l)))).

(** [if let Some(owner) = owner { if sender != &owner { return Err(..) } }]. *)
Definition check_owner (sender : Address) (owner : option Address) : outcome ManyError unit :=
  match owner with
  | Some o => if bool_decide (sender ≠ o) then Err (invalid_owner (address_to_string o)) else Ok tt
  | None => Ok tt
  end.

Definition web_deploy (sender : Address) (args : WebDeployArgs) : AppM WebDeploymentInfo :=
  lift (check_owner sender (web_owner args));;
  domain ← lift (extract_valid_domain (web_domain args));
  if 12 <? str_len (web_site_name args) then fails (site_name_too_long (web_site_name args))
  else
    let site_name := _transform_site_name (web_site_name args) in
    exists_ ← reads (λ s, site_exists s sender site_name);
    if exists_ : bool then fails (existent_site site_name)
    else
      used ← reads (λ s, Ok match domain with Some d => has_domain s d | None => false end);
      if used : bool then fails (domain_already_in_use (default "" domain))
      else
        lift (map_err unable_to_create_tempdir new_tempdir);;
        r ← lift (_prepare_deployment site_name (web_site_description args) (web_source args));
        store_website sender site_name (web_site_description args) (web_memo args) r.1 r.2 domain;;
        mret (mkWebInfo sender site_name (web_site_description args)
                (Some (url_for_website sender site_name)) domain).

Definition web_remove (sender : Address) (args : WebRemoveArgs) : AppM unit :=
  lift (check_owner sender (web_remove_owner args));;
  remove_website sender (_transform_site_name (web_remove_site_name args)) (web_remove_memo args).

Definition web_update (sender : Address) (args : WebDeployArgs) : AppM WebDeploymentInfo :=
  lift (check_owner sender (web_owner args));;
  domain ← lift (extract_valid_domain (web_domain args));
  if 12 <? str_len (web_site_name args) then fails (site_name_too_long (web_site_name args))
  else
    let site_name := _transform_site_name (web_site_name args) in
    exists_ ← reads (λ s, site_exists s sender site_name);
    if negb exists_ then fails (nonexistent_site site_name)
    else
      used ← reads (λ s,
        match domain with
        | Some d =>
            meta ← get_deployment_meta s sender site_name;
            Ok (bool_decide (wi_domain meta ≠ Some d) && has_domain s d)
        | None => Ok false
        end);
      if used : bool then fails (domain_already_in_use (default "" domain))
      else
        lift (map_err unable_to_create_tempdir new_tempdir);;
        r ← lift (_prepare_deployment site_name (web_site_description args) (web_source args));
        update_website sender site_name (web_site_description args) (web_memo args) r.1 r.2 domain;;
        mret (mkWebInfo sender site_name (web_site_description args)
                (Some (url_for_website sender site_name)) domain).

(** [kvstore.get] of the web module. *)
Definition web_kv_get (s : AppStorage) (key : bytes) : outcome ManyError (option bytes) :=
  if bool_decide (b HTTP_ROOT `prefix_of` key) then
    o ← web_get s key;
    match o with
    | Some v => l ← map_err deserialization_error (base64_decode v); Ok (Some l)
    | None => Ok None
    end
  else Err key_should_start_with_http.

Definition web_events_info (s : AppStorage) : outcome ManyError (N * list EventKind) :=
  total ← web_nb_events s; Ok (total, all_kinds).
Definition web_events_list (s : AppStorage) (args : EventsModule.ListArgs) :
    outcome ManyError EventsModule.ListReturns :=
  let f := default filter_default (EventsModule.la_filter args) in
  let count := match EventsModule.la_count args with
               | None => WEB_MAXIMUM_EVENT_COUNT
               | Some c => N.to_nat (N.min c (N.of_nat WEB_MAXIMUM_EVENT_COUNT))
               end in
  nb ← web_nb_events s;
  let it := (λ item, kv ← map_err unknown item; decode_or kv.2)
              <$> web_iter_events s (default range_default (ef_id_range f))
                    (default Indeterminate (EventsModule.la_order args)) in
  let it := EventsModule.filter_account it (ef_account f) in
  let it := EventsModule.filter_event_kind it (ef_kind f) in
  let it := EventsModule.filter_date it (default range_default (ef_date_range f)) in
  events ← EventsModule.collect_events (take count it);
  Ok (EventsModule.mkListReturns nb events).

Inductive web_cmd : Type :=
| WDeploy (args : WebDeployArgs)
| WRemove (args : WebRemoveArgs)
| WUpdate (args : WebDeployArgs).
Definition web_step (sender : Address) (c : web_cmd) : AppM unit :=
  match c with
  | WDeploy args => web_deploy sender args;; mret tt
  | WRemove args => web_remove sender args
  | WUpdate args => web_update sender args;; mret tt
  end.
Definition web_allow_addrs (allowed : gset Address) (sender : Address) (c : web_cmd) : AppM unit :=
  if bool_decide (sender ∈ allowed) then web_step sender c else fails invalid_from_identity.
End web_module.
