(* ===== verification/WebLaws.v ===== *)
(** * many-web: what the commands on sites guarantee

    Sorting and deduplicating batches; which keys a command may touch; what a deployed or updated
    site contains; how far removing a site reaches; and the uniqueness of domains. *)
From S2P Require Import Prelude Error ErrorDisplay External Address Types Account Events Migration.
From S2P Require Import Storage StorageLaws AppStore Web.
From S2P Require EventsModule.

#[local] Open Scope string_scope.
#[local] Open Scope list_scope.
#[local] Open Scope N_scope.

(** ** Batches *)

(** The operations on a key, in order. *)
Definition ops_of (k : bytes) (l : list BatchEntry) : list BatchEntry := filter (λ e, e.1 = k) l.

Lemma ops_of_app k l1 l2 : ops_of k (l1 ++ l2) = ops_of k l1 ++ ops_of k l2.
Proof. apply filter_app. Qed.
Lemma ops_of_none k l : k ∉ l.*1 ↔ ops_of k l = [].
Proof.
  unfold ops_of. induction l as [|e l IH]; csimpl; [split; [done|intros _; apply not_elem_of_nil]|].
  rewrite not_elem_of_cons, filter_cons, IH. destruct (decide (e.1 = k)); naive_solver.
Qed.

Lemma insert_entry_perm e l : insert_entry e l ≡ₚ e :: l.
Proof.
  induction l as [|x l IH]; [done|]. simpl. case_bool_decide; [done|]. rewrite IH. constructor.
Qed.
Lemma sort_batch_perm l : sort_batch l ≡ₚ l.
Proof. induction l as [|e l IH]; [done|]. simpl. by rewrite insert_entry_perm, IH. Qed.

Lemma insert_entry_ops k e l : ops_of k (insert_entry e l) = ops_of k (e :: l).
Proof.
  unfold ops_of. induction l as [|x l IH]; [done|]. simpl insert_entry. case_bool_decide as Hle; [done|].
  rewrite !filter_cons in *. rewrite IH. destruct (decide (x.1 = k)) as [Hx|]; [|done].
  destruct (decide (e.1 = k)) as [He|]; [|done]. exfalso. apply Hle.
  apply key_le_lt_or_eq. right. congruence.
Qed.
(** The sort is stable. *)
Lemma sort_batch_ops k l : ops_of k (sort_batch l) = ops_of k l.
Proof.
  induction l as [|e l IH]; [done|]. cbn [sort_batch foldr]. rewrite insert_entry_ops.
  unfold ops_of in *. rewrite !filter_cons. unfold sort_batch in IH. by rewrite IH.
Qed.

Lemma insert_entry_sorted e l : StronglySorted fst_le l → StronglySorted fst_le (insert_entry e l).
Proof.
  induction 1 as [|x l Hs IH Hall]; simpl; [repeat constructor|]. case_bool_decide as Hle.
  - constructor; [by constructor|]. constructor; [done|].
    eapply Forall_impl; [exact Hall|]. intros y Hy. unfold fst_le in *. by trans x.1.
  - constructor; [done|]. rewrite insert_entry_perm. constructor; [|done].
    destruct (base.total key_le x.1 e.1) as [?|Hex]; [done|]. by destruct Hle.
Qed.
Lemma sort_batch_sorted l : StronglySorted fst_le (sort_batch l).
Proof. induction l; simpl; [constructor|]. by apply insert_entry_sorted. Qed.

Lemma sort_batch_ascending l : NoDup l.*1 → keys_ascending (sort_batch l).
Proof. intros Hnd. apply sorted_nodup_ascending; [apply sort_batch_sorted|]. by rewrite sort_batch_perm. Qed.

Lemma dedup_after_spec k l :
  StronglySorted fst_le l → Forall (λ e, key_le k e.1) l →
  Forall (λ e, lexico k e.1) (dedup_after k l) ∧ keys_ascending (dedup_after k l)
  ∧ ∀ k', k' ≠ k → ops_of k' (dedup_after k l) = take 1 (ops_of k' l).
Proof.
  intros Hs. revert k. induction Hs as [|x l Hs IH Hall]; intros k Hk; simpl.
  { split_and!; [by apply Forall_nil|constructor|done]. }
  apply Forall_cons in Hk as [Hkx Hk]. case_bool_decide as Hx.
  - destruct (IH k Hk) as (? & ? & Hops). split_and!; [done|done|]. intros k' Hk'.
    rewrite Hops by done. unfold ops_of. rewrite filter_cons_False; [done|]. congruence.
  - destruct (IH x.1 Hall) as (Hgt & Hasc & Hops).
    assert (lexico k x.1) as Hlt by (apply key_le_lt_or_eq in Hkx as [?|?]; [done|congruence]).
    split_and!.
    + constructor; [done|]. eapply Forall_impl; [exact Hgt|]. intros e He. by trans x.1.
    + unfold keys_ascending. csimpl. constructor; [done|]. by rewrite Forall_fmap.
    + intros k' Hk'. unfold ops_of in *. rewrite !filter_cons.
      destruct (decide (x.1 = k')) as [Hxk|Hxk]; [|by apply Hops].
      simpl. f_equal. rewrite take_0. change (ops_of k' (dedup_after x.1 l) = []).
      apply ops_of_none. intros (e & -> & He)%list_elem_of_fmap. rewrite Forall_forall in Hgt.
      apply Hgt in He. rewrite Hxk in He. by apply (irreflexivity lexico e.1).
Qed.

Lemma dedup_batch_spec l :
  StronglySorted fst_le l →
  keys_ascending (dedup_batch l) ∧ ∀ k, ops_of k (dedup_batch l) = take 1 (ops_of k l).
Proof.
  destruct 1 as [|x l Hs Hall]; simpl; [by split; [constructor|]|].
  destruct (dedup_after_spec x.1 l Hs Hall) as (Hgt & Hasc & Hops). split.
  - unfold keys_ascending. csimpl. constructor; [done|]. by rewrite Forall_fmap.
  - intros k. unfold ops_of in *. rewrite !filter_cons. destruct (decide (x.1 = k)) as [Hx|Hx]; [|by apply Hops].
    simpl. f_equal. rewrite take_0. change (ops_of k (dedup_after x.1 l) = []).
    apply ops_of_none. intros (e & -> & He)%list_elem_of_fmap. rewrite Forall_forall in Hgt.
    apply Hgt in He. rewrite Hx in He. by apply (irreflexivity lexico e.1).
Qed.

(** What a batch leaves under a key. *)
Definition op_effect (l : list BatchEntry) (d : option bytes) : option bytes :=
  match l with
  | [] => d
  | (_, Put v) :: _ => Some v
  | (_, Delete) :: _ => None
  end.

Lemma apply_batch_ops m l k :
  NoDup l.*1 → apply_batch m l !! k = op_effect (ops_of k l) (m !! k).
Proof.
  revert m. induction l as [|[k' o] l IH]; intros m; [done|].
  csimpl. intros [Hnin Hnd]%NoDup_cons. rewrite apply_batch_cons, IH by done.
  apply ops_of_none in Hnin. unfold ops_of in *. rewrite filter_cons. simpl.
  destruct (decide (k' = k)) as [->|Hne].
  - rewrite Hnin. simpl. destruct o; unfold apply_op; simpl; by simplify_map_eq.
  - f_equal. destruct o; unfold apply_op; simpl; by simplify_map_eq.
Qed.

(** ** Keys *)

Ltac web_discr :=
  let E := fresh in intros E;
  repeat unfold key_for_website, key_for_website_file, key_for_website_meta, HTTP_ROOT, META_ROOT,
    key_for_event, EVENTS_ROOT, EVENT_COUNT_ROOT in E;
  cbn [b String.list_byte_of_string String.list_ascii_of_string Ascii.byte_of_ascii map app
    Byte.of_bits] in E;
  discriminate E.

Section web_laws.
Context `{WebEnv, !WebEnvLaws}.
Implicit Types (s : AppStorage) (k : bytes) (o : Address) (n : string).

Lemma key_file_app o n f : key_for_website_file o n f = key_for_website o n ++ b f.
Proof. unfold key_for_website_file, key_for_website. by rewrite <-!app_assoc. Qed.

Lemma key_file_inj o n f g : key_for_website_file o n f = key_for_website_file o n g → f = g.
Proof. rewrite !key_file_app. intros Hk%(inj (app _)). by apply b_inj. Qed.

(** The keys of an owner's sites. *)
Definition owner_key o k : Prop :=
  (b "/http/" ++ ab o ++ b "/") `prefix_of` k ∨ (b "/meta/" ++ ab o ++ b "/") `prefix_of` k.

Lemma site_owner_key o n k : key_for_website o n `prefix_of` k → owner_key o k.
Proof.
  intros [r ->]. left. exists (b n ++ b "/" ++ r). unfold key_for_website, HTTP_ROOT.
  change (b "/http/") with (b "/http" ++ b "/"). by rewrite <-!app_assoc.
Qed.
Lemma meta_owner_key o n : owner_key o (key_for_website_meta o n).
Proof.
  right. exists (b n). unfold key_for_website_meta, META_ROOT.
  change (b "/meta/") with (b "/meta" ++ b "/"). by rewrite <-!app_assoc.
Qed.

(** Addresses have no slash in their text: no key is of two owners. *)
Lemma owner_prefix_inj (p : bytes) o o' r r' :
  p ++ ab o ++ b "/" ++ r = p ++ ab o' ++ b "/" ++ r' → o = o'.
Proof.
  intros Hk%(inj (app p)). apply (split_unique Byte.x2f) in Hk as [Ha _]; [|apply ab_no_slash..].
  by apply ab_inj.
Qed.
Lemma owner_key_inj o o' k : owner_key o k → owner_key o' k → o = o'.
Proof.
  intros [[r Hr]|[r Hr]] [[r' Hr']|[r' Hr']]; rewrite Hr in Hr'.
  all: rewrite <-!app_assoc in Hr'; try (by revert Hr'; web_discr).
  all: by eapply owner_prefix_inj.
Qed.
Lemma owner_key_not_event o k : owner_key o k → ¬ b "/events" `prefix_of` k.
Proof. intros [[r ->]|[r ->]] [r' Hr]; revert Hr; web_discr. Qed.

(** ** Running a batch, an event and a commit *)

Definition web_ready s : Prop := ∃ c, read_be_or_zero 8 (app_view s !! EVENT_COUNT_ROOT) = Ok c.

Record web_written s (l : list BatchEntry) s' : Prop := {
  written_view k : ¬ b "/events" `prefix_of` k → app_view s' !! k = apply_batch (app_view s) l !! k;
  written_db : app_db s' = if app_blockchain s then app_db s else app_view s';
  written_ready : web_ready s';
  written_frame : app_frame s s';
}.

Lemma web_write s o l e :
  web_ready s → Forall (λ x, owner_key o x.1) l →
  let m := (app_apply (raises storage_apply_failed) l;; web_log_event e;; web_maybe_commit) in
  if bool_decide (keys_ascending l)
  then ∃ s', m s = (s', Ok tt) ∧ web_written s l s'
  else ∃ err, m s = (s, Err err).
Proof.
  intros [c Hc] Hl. cbn zeta. case_bool_decide as Hasc.
  2:{ destruct (app_apply_err (raises storage_apply_failed) l s Hasc) as (t & Ht).
      exists (storage_apply_failed t). by rewrite (bind_err _ _ _ _ _ Ht). }
  destruct (app_apply_ok (raises storage_apply_failed) l s Hasc) as (s1 & Hs1 & Hv1 & Hd1 & _ & Hf1).
  rewrite (bind_ok _ _ _ _ _ Hs1).
  destruct (app_log_event_ok (raises storage_get_failed) (raises storage_apply_failed)
    (raises storage_commit_failed) e s1 c) as (s2 & Hs2 & Hv2 & Hd2 & _ & Hf2).
  { rewrite Hv1, lookup_apply_batch_ne; [done|]. intros (x & Hx & Hin)%list_elem_of_fmap.
    rewrite Forall_forall in Hl. pose proof (Hl x Hin) as Ho. rewrite <-Hx in Ho.
    apply (owner_key_not_event _ _ Ho). by exists (b "_count"). }
  rewrite (bind_ok _ _ _ _ _ Hs2). unfold web_maybe_commit.
  destruct (app_maybe_commit_ok (raises storage_commit_failed) s2) as (s3 & -> & Hv3 & Hd3 & _ & Hf3).
  exists s3. split; [done|]. split.
  - intros k Hk. rewrite Hv3, Hv2, logged_view_ne by done. by rewrite Hv1.
  - rewrite Hd3, Hv3, Hd2, (same_blockchain _ _ Hf2), (same_blockchain _ _ Hf1), Hd1.
    by destruct (app_blockchain s).
  - unfold web_ready. rewrite Hv3, Hv2. eexists. apply logged_view_count.
  - trans s1; [done|]. by trans s2.
Qed.


(** ** The batches of the commands *)

(** The contents of the files with a name, in the order of the walk. *)
Definition contents_of (files : list (string * bytes)) (f : string) : list bytes :=
  (filter (λ x, x.1 = f) files).*2.

Definition remove_batch s o n : list BatchEntry :=
  ((λ kv, (kv.1, Delete)) <$> range_entries (app_db s) (PrefixRange (key_for_website o n)))
  ++ [(key_for_website_meta o n, Delete)].

Lemma delete_items_ok l :
  delete_items (Ok <$> l) = Ok ((λ kv : bytes * bytes, (kv.1, Delete)) <$> l).
Proof. induction l as [|x l IH]; [done|]. cbn. by rewrite IH. Qed.
Lemma remove_website_batch s o n : _remove_website s o n = Ok (remove_batch s o n).
Proof. unfold _remove_website, website_files. by rewrite app_iter_ok, delete_items_ok. Qed.

Lemma meta_not_site o n o' n' : ¬ key_for_website o n `prefix_of` key_for_website_meta o' n'.
Proof. intros [r Hr]. revert Hr. web_discr. Qed.
Lemma site_lt_meta o n o' n' k :
  key_for_website o n `prefix_of` k → lexico k (key_for_website_meta o' n').
Proof. intros [r ->]. right. split; [done|]. by left. Qed.

Lemma remove_batch_keys s o n :
  (remove_batch s o n).*1 =
    (range_entries (app_db s) (PrefixRange (key_for_website o n))).*1 ++ [key_for_website_meta o n].
Proof. unfold remove_batch. by rewrite fmap_app, <-list_fmap_compose. Qed.
Lemma remove_batch_ascending s o n : keys_ascending (remove_batch s o n).
Proof.
  unfold keys_ascending. rewrite remove_batch_keys.
  assert (Forall (λ k, key_for_website o n `prefix_of` k)
    (range_entries (app_db s) (PrefixRange (key_for_website o n))).*1) as Hall.
  { apply Forall_forall. intros k ([k' v] & -> & Hin)%list_elem_of_fmap.
    by apply elem_of_range_entries in Hin as [_ Hin]. }
  pose proof (range_entries_ascending (app_db s) (PrefixRange (key_for_website o n))) as Hs.
  unfold keys_ascending in Hs. revert Hs Hall. generalize (range_entries (app_db s)
    (PrefixRange (key_for_website o n))).*1 as l.
  induction l as [|k l IH]; simpl; [repeat constructor|].
  intros [Hs Hk]%StronglySorted_inv [Hp Hall]%Forall_cons. constructor; [by apply IH|].
  apply Forall_app. split; [done|]. repeat constructor. by eapply site_lt_meta.
Qed.

Lemma store_batch_ascending o n d files dom :
  NoDup files.*1 ↔ keys_ascending (website_batch o n d files dom).
Proof.
  unfold website_batch. set (l := _ ++ _).
  assert (NoDup files.*1 ↔ NoDup l.*1) as ->.
  { unfold l. rewrite fmap_app, NoDup_app. csimpl. rewrite <-list_fmap_compose. split.
    - intros Hnd. split_and!; [|intros k (x & -> & _)%list_elem_of_fmap; rewrite list_elem_of_singleton|apply NoDup_singleton].
      + change (NoDup (((λ f, key_for_website_file o n f) ∘ fst) <$> files)).
        rewrite list_fmap_compose. apply (NoDup_fmap_2_strong); [|done]. intros ????. apply key_file_inj.
      + web_discr.
    - intros (Hnd & _). change (NoDup (((λ f, key_for_website_file o n f) ∘ fst) <$> files)) in Hnd.
      rewrite list_fmap_compose in Hnd. by apply NoDup_fmap_1 in Hnd. }
  split; [apply sort_batch_ascending|]. intros Hasc%keys_ascending_NoDup. by rewrite sort_batch_perm in Hasc.
Qed.

Lemma store_batch_owned o n d files dom :
  Forall (λ x, owner_key o x.1) (website_batch o n d files dom).
Proof.
  unfold website_batch. rewrite sort_batch_perm. apply Forall_app. split.
  - apply Forall_fmap, Forall_true. intros f. simpl. apply (site_owner_key o n).
    rewrite key_file_app. by eexists.
  - apply Forall_singleton, meta_owner_key.
Qed.
Lemma remove_batch_owned s o n : Forall (λ x, owner_key o x.1) (remove_batch s o n).
Proof.
  apply Forall_app. split.
  - apply Forall_fmap, Forall_forall. intros [k v] [_ Hin]%elem_of_range_entries. simpl.
    by eapply site_owner_key.
  - apply Forall_singleton, meta_owner_key.
Qed.

(** ** What a batch does to a key *)

Definition info_of o n (d dom : option string) : WebDeploymentInfo :=
  mkWebInfo o n d (Some (url_for_website o n)) dom.

Lemma ops_store_file o n d files dom f :
  ops_of (key_for_website_file o n f) (website_batch o n d files dom) =
    (λ c, (key_for_website_file o n f, Put (base64_encode c))) <$> contents_of files f.
Proof.
  unfold website_batch. rewrite sort_batch_ops, ops_of_app.
  rewrite (proj1 (ops_of_none _ [_])) by (csimpl; rewrite list_elem_of_singleton; web_discr).
  rewrite app_nil_r. unfold contents_of, ops_of. induction files as [|x l IH]; [done|].
  csimpl. rewrite !filter_cons. simpl. destruct (decide (x.1 = f)) as [<-|Hne].
  - rewrite decide_True by done. csimpl. by rewrite IH.
  - rewrite decide_False by (by intros ?%key_file_inj). apply IH.
Qed.

Lemma ops_store_meta o n d files dom :
  ops_of (key_for_website_meta o n) (website_batch o n d files dom) =
    [(key_for_website_meta o n, Put (to_vec (info_of o n d dom)))].
Proof.
  unfold website_batch. rewrite sort_batch_ops, ops_of_app.
  rewrite (proj1 (ops_of_none _ (_ <$> _))).
  - unfold ops_of. rewrite filter_cons_True by done. done.
  - rewrite <-list_fmap_compose. intros (x & Hx & _)%list_elem_of_fmap. revert Hx. web_discr.
Qed.

Lemma ops_store_other o n d files dom k :
  ¬ key_for_website o n `prefix_of` k → k ≠ key_for_website_meta o n →
  ops_of k (website_batch o n d files dom) = [].
Proof.
  intros Hp Hm. unfold website_batch. rewrite sort_batch_ops. apply ops_of_none.
  rewrite fmap_app, not_elem_of_app. csimpl. rewrite list_elem_of_singleton, <-list_fmap_compose.
  split; [|done]. intros (x & -> & _)%list_elem_of_fmap. apply Hp. simpl. rewrite key_file_app.
  by eexists.
Qed.

(** Removing a site deletes the keys that the committed store has below it, and its metadata. *)
Definition removed s o n k : Prop :=
  key_for_website o n `prefix_of` k ∧ is_Some (app_db s !! k) ∨ k = key_for_website_meta o n.

Lemma elem_of_remove_batch s o n k : k ∈ (remove_batch s o n).*1 ↔ removed s o n k.
Proof.
  rewrite remove_batch_keys, elem_of_app, list_elem_of_singleton, list_elem_of_fmap. unfold removed.
  f_equiv. split.
  - intros ([k' v] & -> & [Hv Hp]%elem_of_range_entries). eauto.
  - intros [Hp [v Hv]]. exists (k, v). split; [done|]. by apply elem_of_range_entries.
Qed.
Lemma ops_remove s o n k : removed s o n k → ops_of k (remove_batch s o n) = [(k, Delete)].
Proof.
  rewrite <-elem_of_remove_batch. pose proof (keys_ascending_NoDup _ (remove_batch_ascending s o n)) as Hnd.
  assert (Forall (λ e, e.2 = Delete) (remove_batch s o n)) as Hdel.
  { apply Forall_app. split; [by apply Forall_fmap, Forall_true|by repeat constructor]. }
  revert Hnd Hdel. induction (remove_batch s o n) as [|[k' op] l IH]; [by intros ? ? Hin%elem_of_nil|].
  csimpl. intros [Hnin Hnd]%NoDup_cons [Hop Hdel]%Forall_cons. unfold ops_of in *. rewrite filter_cons.
  simpl in *. subst op. destruct (decide (k' = k)) as [->|Hne].
  - intros _. f_equal. by apply ops_of_none.
  - intros [?|Hin]%elem_of_cons; [congruence|]. by apply IH.
Qed.
Lemma ops_remove_none s o n k : ¬ removed s o n k → ops_of k (remove_batch s o n) = [].
Proof. intros Hk. apply ops_of_none. by rewrite elem_of_remove_batch. Qed.

(** ** The storage operations *)

(** A command that ends without a result and without a change. *)
Definition gives_up {A} s (p : AppStorage * outcome ManyError A) : Prop :=
  p.1 = s ∧ is_ok p.2 = false.

(** The batch of a command, when the walk succeeds. *)
Lemma store_website_batch o n d entries files dom :
  site_files entries = Ok files → _store_website o n d entries dom = Ok (website_batch o n d files dom).
Proof. unfold _store_website. by intros ->. Qed.
(** A walk that fails stops a command before it changes anything. *)
Lemma store_website_stops {B} o n d entries dom (f : list BatchEntry → AppM B) s :
  is_ok (site_files entries) = false → gives_up s ((lift (_store_website o n d entries dom) ≫= f) s).
Proof. unfold _store_website, gives_up. by destruct (site_files entries). Qed.

Lemma store_website_run s o n d memo h entries files dom :
  web_ready s → site_files entries = Ok files →
  if bool_decide (NoDup files.*1)
  then ∃ s', store_website o n d memo h entries dom s = (s', Ok tt)
         ∧ web_written s (website_batch o n d files dom) s'
  else ∃ e, store_website o n d memo h entries dom s = (s, Err e).
Proof.
  intros Hr Hw. unfold store_website. rewrite (bind_lift _ _ _ _ (store_website_batch o n d _ _ dom Hw)).
  pose proof (web_write s o (website_batch o n d files dom)
    (E_WebDeploy o n d h memo dom) Hr (store_batch_owned o n d files dom)) as Hx. cbn zeta in Hx.
  by rewrite (bool_decide_ext _ _ (store_batch_ascending o n d files dom)).
Qed.

Lemma remove_website_run s o n memo :
  web_ready s →
  ∃ s', remove_website o n memo s = (s', Ok tt) ∧ web_written s (remove_batch s o n) s'.
Proof.
  intros Hr. unfold remove_website.
  rewrite (bind_reads _ _ s (remove_batch s o n)) by apply remove_website_batch.
  pose proof (web_write s o _ (E_WebRemove o n memo) Hr (remove_batch_owned s o n)) as Hw. cbn zeta in Hw.
  by rewrite bool_decide_true in Hw by apply remove_batch_ascending.
Qed.

Definition update_batch s o n d files dom : list BatchEntry :=
  dedup_batch (sort_batch (website_batch o n d files dom ++ remove_batch s o n)).

Lemma update_batch_ops s o n d files dom k :
  ops_of k (update_batch s o n d files dom) =
    take 1 (ops_of k (website_batch o n d files dom) ++ ops_of k (remove_batch s o n)).
Proof.
  unfold update_batch. rewrite (proj2 (dedup_batch_spec _ (sort_batch_sorted _))).
  by rewrite sort_batch_ops, ops_of_app.
Qed.
Lemma update_batch_ascending s o n d files dom : keys_ascending (update_batch s o n d files dom).
Proof. apply dedup_batch_spec, sort_batch_sorted. Qed.

Lemma update_batch_owned s o n d files dom :
  Forall (λ x, owner_key o x.1) (update_batch s o n d files dom).
Proof.
  apply Forall_forall. intros x Hx.
  assert (x ∈ ops_of x.1 (update_batch s o n d files dom)) as Hin by by apply list_elem_of_filter.
  rewrite update_batch_ops in Hin. apply elem_of_take in Hin as (i & Hi & _).
  apply list_elem_of_lookup_2, elem_of_app in Hi as [Hi|Hi]; apply list_elem_of_filter in Hi as [_ Hi];
    [pose proof (store_batch_owned o n d files dom) as Ho|pose proof (remove_batch_owned s o n) as Ho];
    rewrite Forall_forall in Ho; by apply Ho.
Qed.

Lemma update_website_run s o n d memo h entries files dom :
  web_ready s → site_files entries = Ok files →
  ∃ s', update_website o n d memo h entries dom s = (s', Ok tt)
    ∧ web_written s (update_batch s o n d files dom) s'.
Proof.
  intros Hr Hf. unfold update_website.
  rewrite (bind_reads _ _ s (remove_batch s o n)) by apply remove_website_batch.
  rewrite (bind_lift _ _ _ _ (store_website_batch o n d _ _ dom Hf)).
  pose proof (web_write s o _ (E_WebUpdate o n d h memo dom) Hr (update_batch_owned s o n d files dom)) as Hw.
  cbn zeta in Hw. by rewrite bool_decide_true in Hw by apply update_batch_ascending.
Qed.

Lemma written_lookup s l s' k :
  web_written s l s' → keys_ascending l → ¬ b "/events" `prefix_of` k →
  app_view s' !! k = op_effect (ops_of k l) (app_view s !! k).
Proof.
  intros Hw Hl Hk. rewrite (written_view _ _ _ Hw) by done.
  apply apply_batch_ops, keys_ascending_NoDup, Hl.
Qed.

(** ** The checks of the endpoints *)

(** What deploying and updating check before they look at the store, and the files they find. *)
Record accepted (sender : Address) (args : WebDeployArgs) (dom : option string) (h : string)
    (files : list DirEntry) : Prop := {
  accepted_owner : check_owner sender (web_owner args) = Ok tt;
  accepted_domain : extract_valid_domain (web_domain args) = Ok dom;
  accepted_length : str_len (web_site_name args) ≤ 12;
  accepted_dir : new_tempdir = Ok tt;
  accepted_files : _prepare_deployment (_transform_site_name (web_site_name args))
    (web_site_description args) (web_source args) = Ok (h, files);
}.

Definition site_present s o n : bool :=
  bool_decide (is_Some (app_view s !! key_for_website_meta o n))
  && bool_decide (is_Some (app_view s !! key_for_website_file o n "index.html")).
Lemma site_exists_view s o n : site_exists s o n = Ok (site_present s o n).
Proof. unfold site_exists, web_get. by rewrite !app_get_view. Qed.

(** The domain that an update keeps. *)
Definition keeps_domain s o n (d : string) : Prop :=
  ∃ m, get_deployment_meta s o n = Ok m ∧ wi_domain m = Some d.
Definition domain_free s (dom : option string) : Prop :=
  ∀ d, dom = Some d → has_domain s d = false.

Lemma lift_cases {A B} (o : outcome ManyError A) (f : A → AppM B) s :
  (∃ a, o = Ok a ∧ (lift o ≫= f) s = f a s)
  ∨ gives_up s ((lift o ≫= f) s) ∧ ∀ a, o ≠ Ok a.
Proof. destruct o; [left; eauto|right..]; done. Qed.
Lemma reads_cases {A B} (g : AppStorage → outcome ManyError A) (f : A → AppM B) s :
  (∃ a, g s = Ok a ∧ (reads g ≫= f) s = f a s)
  ∨ gives_up s ((reads g ≫= f) s) ∧ ∀ a, g s ≠ Ok a.
Proof.
  destruct (g s) eqn:Hg; [left; eexists; split; [done|by apply bind_reads]|right..].
  all: split; [|done]; unfold gives_up, mbind, st_bind, reads; by rewrite Hg.
Qed.

(** The first check of a command, passed ([->]) or failed. *)
Ltac first_check H :=
  match goal with
  | |- context [(lift ?o ≫= ?f) ?s] =>
      destruct (lift_cases o f s) as [(? & H & ->)|[? H]]
  | |- context [(reads ?g ≫= ?f) ?s] =>
      destruct (reads_cases g f s) as [(? & H & ->)|[? H]]
  end.

(** Deploying and updating a site make the same checks, but for whether the site has to be there
    ([refused]) and which domains are in use. *)
Lemma deployment_cases s sender args (refused : bool → bool) (e : string → ManyError)
    (in_use : option string → AppStorage → outcome ManyError bool)
    (store : option string → string * list DirEntry → AppM WebDeploymentInfo) :
  let n := _transform_site_name (web_site_name args) in
  let m := (lift (check_owner sender (web_owner args));;
    domain ← lift (extract_valid_domain (web_domain args));
    if 12 <? str_len (web_site_name args) then fails (site_name_too_long (web_site_name args))
    else
      exists_ ← reads (λ s, site_exists s sender n);
      if refused exists_ then fails (e n)
      else
        used ← reads (in_use domain);
        if used : bool then fails (domain_already_in_use (default "" domain))
        else
          lift (map_err unable_to_create_tempdir new_tempdir);;
          r ← lift (_prepare_deployment n (web_site_description args) (web_source args));
          store domain r) in
  (∃ dom h files, accepted sender args dom h files ∧ refused (site_present s sender n) = false
     ∧ in_use dom s = Ok false ∧ m s = store dom (h, files) s)
  ∨ gives_up s (m s) ∧ ∀ dom h files, accepted sender args dom h files →
      refused (site_present s sender n) = false → in_use dom s ≠ Ok false.
Proof.
  cbn zeta. first_check Ho; [|right; split; [done|]; intros ??? []; congruence].
  first_check Hd; [|right; split; [done|]; intros ??? []; congruence].
  destruct (N.ltb_spec 12 (str_len (web_site_name args))) as [Hl|Hl];
    [right; split; [done|]; intros ??? []; lia|].
  rewrite (bind_reads _ _ s _ (site_exists_view _ _ _)).
  destruct (refused _) eqn:Href; [right; split; done|].
  first_check Hu; [|right; split; [done|]; intros ??? []; congruence].
  case_match; [right; split; [done|]; intros ??? []; congruence|].
  first_check Ht; [|right; split; [done|]; intros ??? [??? Ht']; rewrite Ht' in Ht; naive_solver].
  first_check Hf; [|right; split; [done|]; intros ??? []; congruence].
  left. match type of Hf with _ = Ok ?p => destruct p as [h files] end.
  eexists _, h, files. split_and!; [|done|done|done]. destruct (check_owner sender _) as [[]|?|?|] eqn:?; [|done..].
  split; try done. by destruct new_tempdir as [[]|?|?|].
Qed.

Lemma gives_up_bind {A B} (m : AppM A) (f : A → AppM B) s : gives_up s (m s) → gives_up s ((m ≫= f) s).
Proof.
  unfold gives_up, mbind, st_bind. destruct (m s) as [s' []]; simpl; naive_solver.
Qed.
(** What a command accepts is determined by its arguments. *)
Lemma accepted_unique sender args dom h entries dom' h' entries' :
  accepted sender args dom h entries → accepted sender args dom' h' entries' → entries' = entries ∧ dom' = dom.
Proof. intros [_ Hd _ _ Hf] [_ Hd' _ _ Hf']. rewrite Hf in Hf'. rewrite Hd in Hd'. by simplify_eq. Qed.

Lemma web_deploy_cases s sender args :
  web_ready s →
  let n := _transform_site_name (web_site_name args) in
  let d := web_site_description args in
  (∃ dom h entries files s', accepted sender args dom h entries ∧ site_files entries = Ok files
     ∧ site_present s sender n = false ∧ domain_free s dom ∧ NoDup files.*1
     ∧ web_deploy sender args s = (s', Ok (info_of sender n d dom))
     ∧ web_written s (website_batch sender n d files dom) s')
  ∨ gives_up s (web_deploy sender args s)
    ∧ ∀ dom h entries files, accepted sender args dom h entries → site_files entries = Ok files →
        site_present s sender n = false → domain_free s dom → ¬ NoDup files.*1.
Proof.
  intros Hr n d.
  destruct (deployment_cases s sender args id existent_site
    (λ dom s, Ok match dom with Some d => has_domain s d | None => false end)
    (λ dom r, store_website sender n d (web_memo args) r.1 r.2 dom;; mret (info_of sender n d dom)))
    as [(dom & h & entries & Hacc & Hp & Hu & Hm)|[Hg Hn]].
  - assert (is_ok (site_files entries) = false ∨ ∃ files, site_files entries = Ok files) as [Hf|[files Hf]].
    { destruct (site_files entries); eauto. }
    { right. split.
      - rewrite (Hm : web_deploy sender args s = _). apply gives_up_bind, store_website_stops, Hf.
      - intros dom' h' entries' files' Hacc' Hf'. destruct (accepted_unique _ _ _ _ _ _ _ _ Hacc Hacc') as [-> _].
        by rewrite Hf' in Hf. }
    pose proof (store_website_run s sender n d (web_memo args) h entries files dom Hr Hf) as Hrun.
    case_bool_decide as Hnd.
    + destruct Hrun as (s' & Hs & Hw). left. exists dom, h, entries, files, s'. split_and!; try done.
      * intros d' ->. by simplify_eq.
      * etrans; [exact Hm|]. by rewrite (bind_ok _ _ _ _ _ Hs).
    + destruct Hrun as (e & He). right. split.
      * rewrite (Hm : web_deploy sender args s = _), (bind_err _ _ _ _ _ He). done.
      * intros dom' h' entries' files' Hacc' Hf' _ _.
        destruct (accepted_unique _ _ _ _ _ _ _ _ Hacc Hacc') as [-> _]. rewrite Hf in Hf'. by simplify_eq.
  - right. split; [exact Hg|]. intros dom h entries files Hacc _ Hp Hfree. exfalso.
    apply (Hn dom h entries Hacc Hp). destruct dom; [|done]. by rewrite Hfree.
Qed.

Lemma web_update_cases s sender args :
  web_ready s →
  let n := _transform_site_name (web_site_name args) in
  let d := web_site_description args in
  let fits dom := ∀ x, dom = Some x →
    (∃ m, get_deployment_meta s sender n = Ok m ∧ (wi_domain m = Some x ∨ has_domain s x = false)) in
  (∃ dom h entries files s', accepted sender args dom h entries ∧ site_files entries = Ok files
     ∧ site_present s sender n = true ∧ fits dom
     ∧ web_update sender args s = (s', Ok (info_of sender n d dom))
     ∧ web_written s (update_batch s sender n d files dom) s')
  ∨ gives_up s (web_update sender args s)
    ∧ ∀ dom h entries files, accepted sender args dom h entries → site_files entries = Ok files →
        site_present s sender n = true → ¬ fits dom.
Proof.
  intros Hr n d fits.
  set (in_use dom s := match dom with
    | Some d => meta ← get_deployment_meta s sender n;
                Ok (bool_decide (wi_domain meta ≠ Some d) && has_domain s d)
    | None => Ok false
    end : outcome ManyError bool).
  assert (∀ dom, in_use dom s = Ok false ↔ fits dom) as Hfits.
  { intros [x|]; [|split; [intros _ ? ?|]; done]. unfold fits. simpl. split.
    - intros (m & Hm & Hf)%bind_Ok_inv x' [= <-]. exists m. split; [done|].
      injection Hf. case_bool_decide as Hd; simpl; [by right|]. by left.
    - intros Hx. destruct (Hx x eq_refl) as (m & -> & [Hd|Hd]); simpl.
      + by rewrite bool_decide_false by auto.
      + by rewrite Hd, andb_false_r. }
  destruct (deployment_cases s sender args negb nonexistent_site in_use
    (λ dom r, update_website sender n d (web_memo args) r.1 r.2 dom;; mret (info_of sender n d dom)))
    as [(dom & h & entries & Hacc & Hp & Hu & Hm)|[Hg Hn]].
  - assert (is_ok (site_files entries) = false ∨ ∃ files, site_files entries = Ok files) as [Hf|[files Hf]].
    { destruct (site_files entries); eauto. }
    { right. split.
      - rewrite (Hm : web_update sender args s = _). apply gives_up_bind. unfold update_website.
        rewrite (bind_reads _ _ s (remove_batch s sender n)) by apply remove_website_batch.
        apply store_website_stops, Hf.
      - intros dom' h' entries' files' Hacc' Hf'. destruct (accepted_unique _ _ _ _ _ _ _ _ Hacc Hacc') as [-> _].
        by rewrite Hf' in Hf. }
    destruct (update_website_run s sender n d (web_memo args) h entries files dom Hr Hf) as (s' & Hs & Hw).
    left. exists dom, h, entries, files, s'. split_and!; [done|done|by apply negb_false_iff|by apply Hfits| |done].
    etrans; [exact Hm|]. by rewrite (bind_ok _ _ _ _ _ Hs).
  - right. split; [exact Hg|]. intros dom h entries files Hacc _ Hp Hf. apply (Hn dom h entries Hacc).
    + by apply negb_false_iff.
    + by apply Hfits.
Qed.

Lemma web_remove_cases s sender args :
  web_ready s →
  let n := _transform_site_name (web_remove_site_name args) in
  (check_owner sender (web_remove_owner args) = Ok tt
   ∧ ∃ s', web_remove sender args s = (s', Ok tt) ∧ web_written s (remove_batch s sender n) s')
  ∨ gives_up s (web_remove sender args s) ∧ check_owner sender (web_remove_owner args) ≠ Ok tt.
Proof.
  intros Hr. cbn zeta. unfold web_remove. first_check Ho; [left|right; eauto].
  destruct (check_owner _ _) as [[]|?|?|]; [|done..]. split; [done|].
  apply (remove_website_run s sender _ _ Hr).
Qed.
End web_laws.
