(* ===== verification/WebSites.v ===== *)
(** * many-web: sites, their owners and their domains

    Properties of the endpoints of many-web, from the lemmas of [WebLaws]. *)
From S2P Require Import Prelude Error ErrorDisplay External Address Types Account Events Migration.
From S2P Require Import Storage StorageLaws AppStore Web WebLaws.

#[local] Open Scope string_scope.
#[local] Open Scope list_scope.
#[local] Open Scope N_scope.

Section web_sites.
Context `{WebEnv, !WebEnvLaws}.
Implicit Types (s : AppStorage) (k : bytes) (o : Address) (n : string).

(** ** One command *)

Lemma web_step_cases s sender c :
  web_ready s →
  (∃ s' l, web_step sender c s = (s', Ok tt) ∧ web_written s l s'
     ∧ Forall (λ x, owner_key sender x.1) l)
  ∨ gives_up s (web_step sender c s).
Proof.
  intros Hr. destruct c as [args|args|args]; unfold web_step.
  - destruct (web_deploy_cases s sender args Hr) as [(dom & h & entries & files & s' & _ & _ & _ & _ & _ & Hs & Hw)|[Hg _]].
    + left. rewrite (bind_ok _ _ _ _ _ Hs). eexists _, _. split_and!; [done|exact Hw|].
      apply store_batch_owned.
    + right. by apply gives_up_bind.
  - destruct (web_remove_cases s sender args Hr) as [(_ & s' & Hs & Hw)|[Hg _]]; [left|by right].
    eexists _, _. split_and!; [done|exact Hw|]. apply remove_batch_owned.
  - destruct (web_update_cases s sender args Hr) as [(dom & h & entries & files & s' & _ & _ & _ & _ & Hs & Hw)|[Hg _]].
    + left. rewrite (bind_ok _ _ _ _ _ Hs). eexists _, _. split_and!; [done|exact Hw|].
      apply update_batch_owned.
    + right. by apply gives_up_bind.
Qed.

(** C27: a command changes no key but those of the sites of its sender and those of the event
    log, whoever it names as the owner; a command that does not succeed changes nothing. A sender
    that is not on the allow list changes nothing. *)
Theorem web_access_control s sender c s' r :
  web_ready s → web_step sender c s = (s', r) →
  web_ready s' ∧ app_frame s s'
  ∧ (∀ k, ¬ owner_key sender k → ¬ b "/events" `prefix_of` k →
       app_view s' !! k = app_view s !! k
       ∧ (app_synced s → app_db s' !! k = app_db s !! k))
  ∧ (is_ok r = false → s' = s)
  ∧ (∀ allowed, sender ∉ allowed → web_allow_addrs allowed sender c s = (s, Err invalid_from_identity)).
Proof.
  intros Hr Hs. rewrite (assoc and), (assoc and), (assoc and). split.
  2:{ intros allowed Hna. unfold web_allow_addrs. by rewrite bool_decide_false by done. }
  destruct (web_step_cases s sender c Hr) as [(s1 & l & Hs1 & Hw & Hl)|[Hg Hf]].
  - rewrite Hs in Hs1. simplify_eq. split_and!; [by destruct Hw..| |done]. intros k Hk Hev.
    assert (app_view s1 !! k = app_view s !! k) as Hview.
    { rewrite (written_view _ _ _ Hw) by done. apply lookup_apply_batch_ne.
      intros (x & -> & Hin)%list_elem_of_fmap. rewrite Forall_forall in Hl. by apply Hk, Hl. }
    split; [done|]. intros Hsync. rewrite (written_db _ _ _ Hw). specialize (Hsync : _ → _).
    destruct (app_blockchain s); [done|]. by rewrite Hview, Hsync.
  - rewrite Hs in Hg, Hf. simpl in *. by subst.
Qed.

(** ** The contents of a site *)

Lemma file_not_event o n f : ¬ b "/events" `prefix_of` key_for_website_file o n f.
Proof. intros [r Hr]. revert Hr. web_discr. Qed.
Lemma meta_not_event o n : ¬ b "/events" `prefix_of` key_for_website_meta o n.
Proof. intros [r Hr]. revert Hr. web_discr. Qed.
Lemma meta_key_inj o n n' : key_for_website_meta o n = key_for_website_meta o n' → n = n'.
Proof. unfold key_for_website_meta. intros Hk%(inj (app _))%(inj (app _))%(inj (app _))%(inj (app _)). by apply b_inj. Qed.

Lemma web_kv_get_file s o n f :
  web_kv_get s (key_for_website_file o n f) =
    match app_view s !! key_for_website_file o n f with
    | Some v => l ← map_err deserialization_error (base64_decode v); Ok (Some l)
    | None => Ok None
    end.
Proof.
  unfold web_kv_get, web_get. rewrite bool_decide_true by by eexists.
  by rewrite app_get_view.
Qed.
Lemma get_deployment_meta_view s o n :
  get_deployment_meta s o n =
    match app_view s !! key_for_website_meta o n with
    | Some l => map_err deserialization_error (decode l)
    | None => Err (web_key_not_found (String.string_of_list_byte (key_for_website_meta o n)))
    end.
Proof.
  unfold get_deployment_meta, web_get. rewrite app_get_view. cbn.
  by destruct (app_view s !! _).
Qed.

(** Reading a file that was just written. *)
Lemma file_readable s o n f c :
  app_view s !! key_for_website_file o n f = Some (base64_encode c) →
  web_kv_get s (key_for_website_file o n f) = Ok (Some c).
Proof. intros Hf. rewrite web_kv_get_file, Hf, base64_roundtrip. done. Qed.

Lemma filter_fst_none (l : list (string * bytes)) f : f ∉ l.*1 → filter (λ x, x.1 = f) l = [].
Proof.
  induction l as [|x l IH]; [done|]. csimpl. intros [Hx Hl]%not_elem_of_cons.
  rewrite filter_cons_False by congruence. by apply IH.
Qed.
Lemma contents_of_nodup files f c :
  NoDup files.*1 → (f, c) ∈ files → contents_of files f = [c].
Proof.
  unfold contents_of. induction files as [|[g x] l IH]; [by intros _ ?%elem_of_nil|].
  csimpl. intros [Hnin Hnd]%NoDup_cons [[= <- <-]|Hin]%elem_of_cons; rewrite filter_cons; simpl.
  - rewrite decide_True by done. by rewrite filter_fst_none.
  - rewrite decide_False; [by apply IH|]. intros ->. apply Hnin.
    by apply (list_elem_of_fmap_2 fst) in Hin.
Qed.
Lemma contents_of_none files f : f ∉ files.*1 → contents_of files f = [].
Proof. unfold contents_of. intros Hf. by rewrite filter_fst_none. Qed.

Lemma deployed_meta s o n d files dom s' :
  NoDup files.*1 → web_written s (website_batch o n d files dom) s' →
  get_deployment_meta s' o n = Ok (info_of o n d dom).
Proof.
  intros Hasc%(store_batch_ascending o n d files dom) Hw.
  rewrite get_deployment_meta_view, (written_lookup _ _ _ _ Hw Hasc) by apply meta_not_event.
  rewrite ops_store_meta. simpl. by rewrite decode_to_vec.
Qed.

(** [web.deploy] succeeds exactly when the sender names nobody else as the owner, the name and
    the domain pass, the sender has no such site, the domain is free, the archive can be
    extracted, has an [index.html] at its root and has no file twice, and the walk over it meets no error
    (an entry or a file that cannot be read, a name that is no UTF-8); nothing changes otherwise. Then
    every file that is not hidden is served with the content it has in the archive, the
    returned metadata is recorded, and no other file of the site changes. *)
Theorem web_deploy_spec s sender args :
  web_ready s →
  let n := _transform_site_name (web_site_name args) in
  let info dom := info_of sender n (web_site_description args) dom in
  (∃ dom h entries files, accepted sender args dom h entries ∧ site_files entries = Ok files
     ∧ site_present s sender n = false ∧ domain_free s dom ∧ NoDup files.*1
     ∧ ∃ s', web_deploy sender args s = (s', Ok (info dom))
       ∧ get_deployment_meta s' sender n = Ok (info dom)
       ∧ (∀ f c, (f, c) ∈ files →
            web_kv_get s' (key_for_website_file sender n f) = Ok (Some c))
       ∧ (∀ f, f ∉ files.*1 →
            web_kv_get s' (key_for_website_file sender n f) = web_kv_get s (key_for_website_file sender n f)))
  ∨ gives_up s (web_deploy sender args s)
    ∧ ∀ dom h entries files, accepted sender args dom h entries → site_files entries = Ok files →
        site_present s sender n = false → domain_free s dom → ¬ NoDup files.*1.
Proof.
  intros Hr n info.
  destruct (web_deploy_cases s sender args Hr)
    as [(dom & h & entries & files & s' & Hacc & Hf & Hp & Hd & Hnd & Hs & Hw)|Hg]; [left|by right].
  exists dom, h, entries, files. split_and!; [done..|]. exists s'. split; [done|].
  pose proof (proj1 (store_batch_ascending sender n (web_site_description args) files dom) Hnd) as Hasc.
  split_and!.
  - by eapply deployed_meta.
  - intros f c Hin. apply file_readable.
    rewrite (written_lookup _ _ _ _ Hw Hasc) by apply file_not_event.
    by rewrite ops_store_file, (contents_of_nodup _ _ c).
  - intros f Hnin. rewrite !web_kv_get_file, (written_lookup _ _ _ _ Hw Hasc) by apply file_not_event.
    by rewrite ops_store_file, contents_of_none.
Qed.

(** [web.update] of a site whose stored files are committed leaves exactly the new files:
    a file of the archive is served with its content and any other name is not found; the metadata is
    the returned one. It needs the site to be there, and the domain to be the one it has or
    a free one; nothing changes otherwise. *)
Theorem web_update_spec s sender args :
  let n := _transform_site_name (web_site_name args) in
  let info dom := info_of sender n (web_site_description args) dom in
  let fits dom := ∀ x, dom = Some x →
    (∃ m, get_deployment_meta s sender n = Ok m ∧ (wi_domain m = Some x ∨ has_domain s x = false)) in
  web_ready s →
  (∀ f, app_db s !! key_for_website_file sender n f = app_view s !! key_for_website_file sender n f) →
  (∃ dom h entries files, accepted sender args dom h entries ∧ site_files entries = Ok files
     ∧ site_present s sender n = true ∧ fits dom
     ∧ ∃ s', web_update sender args s = (s', Ok (info dom))
       ∧ get_deployment_meta s' sender n = Ok (info dom)
       ∧ ∀ f, web_kv_get s' (key_for_website_file sender n f) = Ok (head (contents_of files f)))
  ∨ gives_up s (web_update sender args s)
    ∧ ∀ dom h entries files, accepted sender args dom h entries → site_files entries = Ok files →
        site_present s sender n = true → ¬ fits dom.
Proof.
  intros n info fits Hr Hdb.
  destruct (web_update_cases s sender args Hr)
    as [(dom & h & entries & files & s' & Hacc & Hwalk & Hp & Hf & Hs & Hw)|Hg]; [left|by right].
  exists dom, h, entries, files. split_and!; [done..|]. exists s'. split; [done|].
  pose proof (update_batch_ascending s sender n (web_site_description args) files dom) as Hasc. split.
  - rewrite get_deployment_meta_view, (written_lookup _ _ _ _ Hw Hasc) by apply meta_not_event.
    rewrite update_batch_ops, ops_store_meta. simpl. by rewrite decode_to_vec.
  - intros f. pose proof (written_lookup _ _ _ _ Hw Hasc (file_not_event sender n f)) as Hl.
    rewrite update_batch_ops, ops_store_file in Hl.
    destruct (contents_of files f) as [|c l] eqn:Hc; [|by apply file_readable].
    rewrite web_kv_get_file, Hl. csimpl.
    destruct (app_view s !! key_for_website_file sender n f) as [v|] eqn:Hv.
    + rewrite ops_remove; [done|]. left. rewrite Hdb, Hv, key_file_app. split; [by eexists|done].
    + rewrite ops_remove_none; [done|]. intros [[_ [? Hx]]|Hx]; [congruence|]. revert Hx. web_discr.
Qed.

(** [web.remove] by the owner always succeeds. When the stored files are committed, no file
    of the site is served afterwards and its metadata is gone. Names may have a slash, so a site whose name
    continues that name after a slash loses all its files with it, but keeps its metadata.
    The files of any other site, and all other metadata, stay. *)
Theorem web_remove_spec s sender args :
  let n := _transform_site_name (web_remove_site_name args) in
  web_ready s → (∀ k, app_db s !! k = app_view s !! k) →
  check_owner sender (web_remove_owner args) = Ok tt →
  ∃ s', web_remove sender args s = (s', Ok tt)
    ∧ (∀ f, web_kv_get s' (key_for_website_file sender n f) = Ok None)
    ∧ (∀ i, get_deployment_meta s' sender n ≠ Ok i)
    ∧ (∀ r f, let n' := n +:+ "/" +:+ r in
         web_kv_get s' (key_for_website_file sender n' f) = Ok None
         ∧ get_deployment_meta s' sender n' = get_deployment_meta s sender n')
    ∧ (∀ o' n' f, ¬ key_for_website sender n `prefix_of` key_for_website_file o' n' f →
         web_kv_get s' (key_for_website_file o' n' f) = web_kv_get s (key_for_website_file o' n' f))
    ∧ (∀ o' n', (o', n') ≠ (sender, n) → get_deployment_meta s' o' n' = get_deployment_meta s o' n').
Proof.
  intros n Hr Hdb Ho.
  destruct (web_remove_cases s sender args Hr) as [(_ & s' & Hs & Hw)|[_ Hn]]; [|done].
  fold n in Hw. exists s'. split; [done|].
  pose proof (remove_batch_ascending s sender n) as Hasc.
  assert (∀ o' n', (o', n') ≠ (sender, n) → get_deployment_meta s' o' n' = get_deployment_meta s o' n')
    as Hmeta.
  { intros o' n' Hne. rewrite !get_deployment_meta_view, (written_lookup _ _ _ _ Hw Hasc) by apply meta_not_event.
    rewrite ops_remove_none; [done|]. intros [[Hx _]|Hx]; [by apply meta_not_site in Hx|].
    apply Hne. assert (o' = sender) as -> by (apply (owner_key_inj _ _ (key_for_website_meta o' n')); [|rewrite Hx]; apply meta_owner_key).
    by apply meta_key_inj in Hx as ->. }
  assert (∀ o' n' f, key_for_website sender n `prefix_of` key_for_website_file o' n' f →
    web_kv_get s' (key_for_website_file o' n' f) = Ok None) as Hgone.
  { intros o' n' f Hf. rewrite web_kv_get_file, (written_lookup _ _ _ _ Hw Hasc) by apply file_not_event.
    destruct (app_view s !! key_for_website_file o' n' f) as [v|] eqn:Hv.
    - rewrite ops_remove; [done|]. left. by rewrite Hdb, Hv.
    - rewrite ops_remove_none; [done|]. intros [[_ [? Hx]]|Hx]; [by rewrite Hdb, Hv in Hx|].
      revert Hx. web_discr. }
  split_and!; [| | | |exact Hmeta].
  - intros f. apply Hgone. rewrite key_file_app. by eexists.
  - intros i. rewrite get_deployment_meta_view, (written_lookup _ _ _ _ Hw Hasc) by apply meta_not_event.
    rewrite ops_remove by by right. done.
  - intros r f. cbn zeta. split.
    + apply Hgone. unfold key_for_website, key_for_website_file. rewrite !b_app.
      exists (b r ++ b "/" ++ b f). by rewrite <-!app_assoc.
    + apply Hmeta. intros [= Hx]. apply (f_equal (length ∘ b)) in Hx. simpl in Hx.
      rewrite !b_app, !length_app in Hx. simpl in Hx. lia.
  - intros o' n' f Hf. rewrite !web_kv_get_file, (written_lookup _ _ _ _ Hw Hasc) by apply file_not_event.
    rewrite ops_remove_none; [done|]. intros [[Hx _]|Hx]; [done|]. revert Hx. web_discr.
Qed.

(** ** Domains *)

(** A stored site with its metadata. *)
Definition deployed_in (v : gmap bytes bytes) k (m : WebDeploymentInfo) : Prop :=
  b META_ROOT `prefix_of` k ∧ ∃ l, v !! k = Some l ∧ decode l = Ok m.

Definition passes (f : option (list WebDeploymentFilter)) (m : WebDeploymentInfo) : bool :=
  forallb (λ x, filter_item x m) (default [] f).

Lemma elem_of_web_list s ord f k m :
  (k, m) ∈ web_list s ord f ↔ deployed_in (app_db s) k m ∧ passes f m = true.
Proof.
  assert (∀ v, match f with
    | Some ((_ :: _) as fs) => if forallb (λ x, filter_item x v) fs then Some (k, v) else None
    | _ => Some (k, v)
    end = if passes f v then Some (k, v) else None) as Hf by by destruct f as [[]|].
  unfold web_list, web_meta_iter, deployed_in. rewrite app_iter_ok, list_elem_of_omap. split.
  - intros (x & ([k' v] & -> & Hin)%list_elem_of_fmap & Hx).
    destruct (decode v) as [m'|?|?|] eqn:Hm; [|done..].
    assert (k' = k) as -> by (repeat case_match; by simplify_eq). rewrite Hf in Hx.
    destruct (passes f m') eqn:Hp; simplify_eq. split; [|done].
    assert ((k, v) ∈ range_entries (app_db s) (PrefixRange (b META_ROOT))) as [Hv Hpre]%elem_of_range_entries.
    { destruct ord; simpl in Hin; by rewrite ?elem_of_reverse in Hin. }
    eauto.
  - intros [(Hp & l & Hl & Hm) Hpass]. exists (Ok (k, l)). rewrite Hm, Hf, Hpass. split; [|done].
    apply (list_elem_of_fmap_2 Ok).
    assert ((k, l) ∈ range_entries (app_db s) (PrefixRange (b META_ROOT))) by by apply elem_of_range_entries.
    destruct ord; simpl; by rewrite ?elem_of_reverse.
Qed.

Lemma has_domain_spec s d :
  has_domain s d = true ↔ ∃ k m, deployed_in (app_db s) k m ∧ wi_domain m = Some d.
Proof.
  unfold has_domain. rewrite existsb_exists. setoid_rewrite <-list_elem_of_In. split.
  - intros ([k m] & [Hin _]%elem_of_web_list & Hd%bool_decide_eq_true). eauto.
  - intros (k & m & Hin & Hd). exists (k, m). split; [by apply elem_of_web_list|].
    by apply bool_decide_eq_true.
Qed.

(** No two stored sites have the same domain. *)
Definition unique_domains (v : gmap bytes bytes) : Prop :=
  ∀ k1 k2 m1 m2 d, deployed_in v k1 m1 → deployed_in v k2 m2 →
    wi_domain m1 = Some d → wi_domain m2 = Some d → k1 = k2.

(** A server without a blockchain: every command commits. *)
Record web_inv s : Prop := {
  inv_ready : web_ready s;
  inv_alone : app_blockchain s = false;
  inv_db : app_db s = app_view s;
  inv_domains : unique_domains (app_view s);
}.

Lemma meta_root_not_event k : b META_ROOT `prefix_of` k → ¬ b "/events" `prefix_of` k.
Proof. intros [r ->] [r' Hr]. revert Hr. web_discr. Qed.
Lemma meta_root_not_site o n k : b META_ROOT `prefix_of` k → ¬ key_for_website o n `prefix_of` k.
Proof. intros [r ->] [r' Hr]. revert Hr. web_discr. Qed.

(** One site is written, with a domain that no other site has. *)
Lemma unique_domains_step s l s' km :
  web_inv s → web_written s l s' → keys_ascending l →
  (∀ k, b META_ROOT `prefix_of` k → k ≠ km → ops_of k l = []) →
  (∀ m d k' m', deployed_in (app_view s') km m → wi_domain m = Some d →
     deployed_in (app_view s) k' m' → wi_domain m' = Some d → k' = km) →
  web_inv s'.
Proof.
  intros [Hr Hal Hdb Hu] Hw Hasc Hops Hkm.
  assert (∀ k m, k ≠ km → deployed_in (app_view s') k m → deployed_in (app_view s) k m) as Hold.
  { intros k m Hk (Hp & x & Hx & Hm). split; [done|]. exists x. split; [|done].
    rewrite <-Hx, (written_lookup _ _ _ _ Hw Hasc) by by apply meta_root_not_event. by rewrite Hops. }
  split; [apply Hw|by rewrite (same_blockchain _ _ (written_frame _ _ _ Hw))| |].
  - by rewrite (written_db _ _ _ Hw), Hal.
  - intros k1 k2 m1 m2 d H1 H2 Hd1 Hd2.
    destruct (decide (k1 = km)) as [->|Hk1], (decide (k2 = km)) as [->|Hk2]; [done|..].
    + symmetry. eapply Hkm; eauto.
    + eapply Hkm; eauto.
    + eapply Hu; eauto.
Qed.

Lemma store_keeps_inv s o n d files dom s' :
  web_inv s → domain_free s dom → NoDup files.*1 →
  web_written s (website_batch o n d files dom) s' → web_inv s'.
Proof.
  intros Hi Hfree Hasc%(store_batch_ascending o n d files dom) Hw.
  apply (unique_domains_step s _ _ (key_for_website_meta o n) Hi Hw Hasc).
  - intros k Hk Hne. apply ops_store_other; [by apply meta_root_not_site|done].
  - intros m x k' m' (_ & l & Hl & Hm) Hd Hk' Hd'. exfalso.
    rewrite (written_lookup _ _ _ _ Hw Hasc), ops_store_meta in Hl by apply meta_not_event.
    simpl in Hl. simplify_eq. rewrite decode_to_vec in Hm by done. simplify_eq. simpl in Hd.
    specialize (Hfree x Hd). assert (has_domain s x = true); [|congruence].
    apply has_domain_spec. rewrite (inv_db s Hi). eauto.
Qed.

Lemma remove_keeps_inv s o n s' :
  web_inv s → web_written s (remove_batch s o n) s' → web_inv s'.
Proof.
  intros Hi Hw. pose proof (remove_batch_ascending s o n) as Hasc.
  apply (unique_domains_step s _ _ (key_for_website_meta o n) Hi Hw Hasc).
  - intros k Hk Hne. apply ops_remove_none. intros [[Hx _]|Hx]; [|done].
    by eapply meta_root_not_site.
  - intros m x k' m' (_ & l & Hl & _).
    rewrite (written_lookup _ _ _ _ Hw Hasc) in Hl by apply meta_not_event.
    by rewrite ops_remove in Hl by by right.
Qed.

Lemma update_keeps_inv s o n d files dom s' :
  web_inv s →
  (∀ x, dom = Some x →
     ∃ m, get_deployment_meta s o n = Ok m ∧ (wi_domain m = Some x ∨ has_domain s x = false)) →
  web_written s (update_batch s o n d files dom) s' → web_inv s'.
Proof.
  intros Hi Hfits Hw. pose proof (update_batch_ascending s o n d files dom) as Hasc.
  apply (unique_domains_step s _ _ (key_for_website_meta o n) Hi Hw Hasc).
  - intros k Hk Hne. rewrite update_batch_ops, ops_store_other, ops_remove_none;
      [done| |by apply meta_root_not_site|done].
    intros [[Hx _]|Hx]; [|done]. by eapply meta_root_not_site.
  - intros m x k' m' (_ & l & Hl & Hm) Hd Hk' Hd'.
    rewrite (written_lookup _ _ _ _ Hw Hasc), update_batch_ops, ops_store_meta in Hl
      by apply meta_not_event.
    simpl in Hl. simplify_eq. rewrite decode_to_vec in Hm by done. simplify_eq. simpl in Hd.
    destruct (Hfits x Hd) as (m0 & Hm0 & [Hd0|Hd0]).
    + rewrite get_deployment_meta_view in Hm0. destruct (app_view s !! _) as [l0|] eqn:Hl0; [|done].
      apply (inv_domains s Hi _ _ m' m0 x); [done| |done|done].
      split; [by eexists|]. exists l0. split; [done|]. by destruct (decode l0); simplify_eq/=.
    + exfalso. assert (has_domain s x = true); [|congruence].
      apply has_domain_spec. rewrite (inv_db s Hi). eauto.
Qed.

Lemma web_inv_step s sender c s' r :
  web_inv s → web_step sender c s = (s', r) → web_inv s'.
Proof.
  intros Hi Hs. pose proof (inv_ready s Hi) as Hr. replace s' with (web_step sender c s).1 by by rewrite Hs.
  clear Hs. destruct c as [args|args|args]; unfold web_step.
  - destruct (web_deploy_cases s sender args Hr)
      as [(dom & h & entries & files & s1 & _ & _ & _ & Hfree & Hnd & Hs & Hw)|[Hg _]].
    + rewrite (bind_ok _ _ _ _ _ Hs). by eapply store_keeps_inv.
    + by rewrite (proj1 (gives_up_bind _ _ _ Hg)).
  - destruct (web_remove_cases s sender args Hr) as [(_ & s1 & -> & Hw)|[[-> _] _]]; [|done].
    by eapply remove_keeps_inv.
  - destruct (web_update_cases s sender args Hr)
      as [(dom & h & entries & files & s1 & _ & _ & _ & Hfits & Hs & Hw)|[Hg _]].
    + rewrite (bind_ok _ _ _ _ _ Hs). by eapply update_keeps_inv.
    + by rewrite (proj1 (gives_up_bind _ _ _ Hg)).
Qed.

(** What the commands of any senders can lead to, refused ones included. *)
Definition web_any s s' : Prop := ∃ sender c r, web_step sender c s = (s', r).

Lemma web_new_inv m identity s :
  merk_view m = ∅ → web_new identity (Ok m) false = Ok s → web_inv s.
Proof.
  intros Hm. unfold web_new. cbn [map_err mbind outcome_bind].
  destruct (merk_apply_ok m [(b "/config/identity", Put (address_to_vec identity))]
    (keys_ascending_singleton _ _)) as (m1 & -> & Hv1 & _). cbn [map_err mbind outcome_bind].
  destruct (merk_apply_ok m1 [(b "/latest_event_id", Put (to_vec [as_u8 0]))]
    (keys_ascending_singleton _ _)) as (m2 & -> & Hv2 & _). cbn [map_err mbind outcome_bind].
  destruct (merk_commit_ok m2) as (m3 & -> & Hv3 & Hd3). cbn [map_err mbind outcome_bind]. intros [= <-].
  split; unfold web_ready, app_view, app_db; simpl; [|done|by rewrite Hd3, Hv3|].
  all: rewrite Hv3, Hv2, Hv1, Hm.
  - exists 0. unfold apply_batch; simpl. unfold apply_op; simpl. by rewrite !lookup_insert_ne by done.
  - intros k1 k2 m1' m2' d ([r ->] & l & Hl & _). unfold apply_batch in Hl; simpl in Hl.
    unfold apply_op in Hl; simpl in Hl. by rewrite !lookup_insert_ne in Hl by done.
Qed.

(** on a server without a blockchain, from its creation on, and after whatever commands
    by whatever senders, accepted or refused, no two sites have the same domain, and the committed
    store is the current one. *)
Theorem web_domains_unique m identity s0 s :
  merk_view m = ∅ → web_new identity (Ok m) false = Ok s0 → rtc web_any s0 s →
  unique_domains (app_view s) ∧ app_db s = app_view s.
Proof.
  intros Hm Hnew Hrun. assert (web_inv s) as [_ _ ? ?]; [|done].
  apply web_new_inv in Hnew; [|done]. clear Hm. induction Hrun as [s|s1 s2 s3 (o & c & r & Hs) _ IH]; [done|].
  apply IH. by eapply web_inv_step.
Qed.

(** What another sender's deployment in the same block leaves as it was. *)
Lemma deployed_by_other s o n d files dom s' o' :
  o ≠ o' → app_blockchain s = true → web_written s (website_batch o n d files dom) s' →
  (∀ x, has_domain s' x = has_domain s x)
  ∧ (∀ n', site_present s' o' n' = site_present s o' n')
  ∧ (∀ n', get_deployment_meta s' o' n' = get_deployment_meta s o' n').
Proof.
  intros Hne Hb Hw. pose proof (written_db _ _ _ Hw) as Hdb. rewrite Hb in Hdb.
  assert (∀ k, owner_key o' k → app_view s' !! k = app_view s !! k) as Hk.
  { intros k Hk. rewrite (written_view _ _ _ Hw) by by eapply owner_key_not_event.
    apply lookup_apply_batch_ne. intros (x & -> & Hin)%list_elem_of_fmap.
    pose proof (store_batch_owned o n d files dom) as Ho. rewrite Forall_forall in Ho.
    apply Hne. by eapply owner_key_inj; [apply Ho|]. }
  split_and!.
  - intros x. apply eq_true_iff_eq. rewrite !has_domain_spec. by rewrite Hdb.
  - intros n'. unfold site_present. rewrite !Hk; [done| |apply meta_owner_key].
    apply (site_owner_key o' n'). rewrite key_file_app. by eexists.
  - intros n'. rewrite !get_deployment_meta_view, Hk by apply meta_owner_key. done.
Qed.

(** on a node of a blockchain, where commands are committed with their block, the
    check for domains in use does not see the earlier commands of the block: deployments by two
    senders that are each accepted on their own are accepted one after the other, also when
    they ask for the same domain, and both sites then have it. *)
Theorem web_domains_in_a_block s sender1 args1 sender2 args2 :
  let n1 := _transform_site_name (web_site_name args1) in
  let n2 := _transform_site_name (web_site_name args2) in
  web_ready s → app_blockchain s = true → sender1 ≠ sender2 →
  is_ok (web_deploy sender1 args1 s).2 = true → is_ok (web_deploy sender2 args2 s).2 = true →
  ∃ s1 s2 i1 i2, web_deploy sender1 args1 s = (s1, Ok i1) ∧ web_deploy sender2 args2 s1 = (s2, Ok i2)
    ∧ get_deployment_meta s2 sender1 n1 = Ok i1 ∧ get_deployment_meta s2 sender2 n2 = Ok i2
    ∧ (web_domain args1 = web_domain args2 → wi_domain i1 = wi_domain i2).
Proof.
  intros n1 n2 Hr Hb Hne H1 H2.
  destruct (web_deploy_cases s sender1 args1 Hr)
    as [(dom1 & h1 & entries1 & files1 & s1 & Hacc1 & _ & _ & _ & Hnd1 & Hs1 & Hw1)|[[_ Hx] _]]; [|congruence].
  destruct (web_deploy_cases s sender2 args2 Hr)
    as [(dom2 & h2 & entries2 & files2 & s2' & Hacc2 & Hf2 & Hp2 & Hd2 & Hnd2 & _ & _)|[[_ Hx] _]]; [|congruence].
  destruct (deployed_by_other _ _ _ _ _ _ _ sender2 Hne Hb Hw1) as (Hdom & Hpres & _).
  destruct (web_deploy_cases s1 sender2 args2 (written_ready _ _ _ Hw1))
    as [(dom & h & entries & files & s2 & Hacc & _ & _ & _ & Hnd & Hs2 & Hw2)|[_ Hx]].
  2:{ exfalso. apply (Hx dom2 h2 entries2 files2 Hacc2 Hf2); [by rewrite Hpres| |done].
      intros x Hdx. rewrite Hdom. by apply Hd2. }
  exists s1, s2, (info_of sender1 n1 (web_site_description args1) dom1),
    (info_of sender2 n2 (web_site_description args2) dom).
  assert (app_blockchain s1 = true) as Hb1 by by rewrite (same_blockchain _ _ (written_frame _ _ _ Hw1)).
  destruct (deployed_by_other _ _ _ _ _ _ _ sender1 (not_eq_sym Hne) Hb1 Hw2) as (_ & _ & Hmeta).
  split_and!; [done|done| | |].
  - rewrite Hmeta. exact (deployed_meta _ _ _ _ _ _ _ Hnd1 Hw1).
  - exact (deployed_meta _ _ _ _ _ _ _ Hnd Hw2).
  - intros Heq. pose proof (accepted_domain _ _ _ _ _ Hacc1) as Hd1.
    rewrite Heq, (accepted_domain _ _ _ _ _ Hacc) in Hd1. by simplify_eq.
Qed.

(** ** Listing *)

Definition page_of s (size : N) ord f (i : N) : list WebDeploymentInfo :=
  match web_module_list s (mkWebListArgs (Some size) ord f (Some i)) with
  | Ok r => wl_deployments r
  | _ => []
  end.

Lemma page_of_eq s size ord f i :
  size ≤ MAXIMUM_WEB_COUNT → 1 ≤ i → i < 2 ^ 64 → (i - 1) * size < 2 ^ 64 →
  page_of s size ord f i =
    take (N.to_nat size) (drop (N.to_nat ((i - 1) * size)) (web_list s (default Indeterminate ord) f).*2).
Proof.
  intros Hsize Hi Hi' Hoff. unfold page_of, web_module_list. cbn [wl_page wl_count wl_order wl_filter from_option id].
  destruct (N.ltb_spec MAXIMUM_WEB_COUNT size); [lia|]. cbn [wl_deployments].
  assert (wrap64 (wrap64 (i + U64_MAX) * size) = (i - 1) * size) as ->.
  { unfold wrap64, U64_MAX. replace (i + 18446744073709551615) with (i - 1 + 1 * 2 ^ 64) by lia.
    rewrite N.Div0.mod_add, (N.mod_small (i - 1)) by lia. by apply N.mod_small. }
  case_match eqn:Hlen; [|done]. apply N.leb_le in Hlen.
  rewrite drop_ge; [done|]. rewrite length_fmap. lia.
Qed.

(** the pages of [web.list] one after the other are the list of all the committed sites that
    pass the filters, without a gap or an overlap, as long as the offset fits in 64 bits, and
    that list has exactly these sites. A page size over the maximum is refused. Page 0 is a page far beyond the
    end. *)
Theorem web_list_pages s (size : N) ord f (pages : nat) :
  size ≤ MAXIMUM_WEB_COUNT → N.of_nat pages * size < 2 ^ 64 → N.of_nat pages < 2 ^ 64 →
  let all := web_list s (default Indeterminate ord) f in
  concat ((λ i, page_of s size ord f (N.of_nat i)) <$> seq 1 pages) = take (pages * N.to_nat size) all.*2
  ∧ (∀ k m, (k, m) ∈ all ↔ deployed_in (app_db s) k m ∧ passes f m = true)
  ∧ (∀ size' i, MAXIMUM_WEB_COUNT < size' →
       web_module_list s (mkWebListArgs (Some size') ord f i) = Err (page_size_too_large size'))
  ∧ (0 < size → N.of_nat (length all) < 2 ^ 64 - 100 → page_of s size ord f 0 = []).
Proof.
  intros Hsize Hfit Hp all. split_and!.
  - induction pages as [|p IH]; [done|]. rewrite seq_S, fmap_app, concat_app, IH by lia. csimpl.
    rewrite app_nil_r, page_of_eq by (try lia; replace (N.of_nat (S p) - 1) with (N.of_nat p) by lia; lia).
    replace (N.to_nat ((N.of_nat (S p) - 1) * size)) with (p * N.to_nat size)%nat by lia.
    fold all. rewrite take_take_drop. f_equal. lia.
  - intros k m. apply elem_of_web_list.
  - intros size' i Hs. unfold web_module_list. simpl. by destruct (N.ltb_spec MAXIMUM_WEB_COUNT size'); [|lia].
  - intros Hpos Hlen. unfold page_of, web_module_list. cbn [wl_page wl_count wl_order wl_filter from_option id].
    destruct (N.ltb_spec MAXIMUM_WEB_COUNT size); [lia|]. cbn [wl_deployments]. fold all.
    unfold MAXIMUM_WEB_COUNT in Hsize.
    assert (wrap64 (wrap64 (0 + U64_MAX) * size) = 2 ^ 64 - size) as ->.
    { unfold wrap64, U64_MAX. rewrite (N.mod_small (0 + _)) by lia.
      replace ((0 + 18446744073709551615) * size) with (2 ^ 64 - size + (size - 1) * 2 ^ 64) by lia.
      rewrite N.Div0.mod_add. apply N.mod_small. lia. }
    destruct (N.leb_spec (N.of_nat (length all)) (2 ^ 64 - size)); [by rewrite take_nil|lia].
Qed.
End web_sites.
