(* ===== verification/Cose.v ===== *)
(** * COSE envelopes and keys

    The values of the [coset] library that the code reads and builds: headers, keys and signed
    envelopes. A header has other fields than those the code touches; they are kept together, encoded,
    in [hd_other]. The encodings of the library and the bytes that a signature covers are parameters
    ([Coset]). Models too the functions of [many-identity/src/cose.rs]. *)
From S2P Require Import Prelude Error External Address.

#[local] Open Scope string_scope.
#[local] Open Scope list_scope.
#[local] Open Scope N_scope.

(** [coset::Label] and [ciborium::value::Value]. *)
Inductive Label : Type := LInt (z : Z) | LText (s : string).
Inductive Value : Type := VInteger (z : Z) | VBytes (l : bytes) | VText (s : string) | VOther (l : bytes).
#[global] Instance Label_eq_dec : EqDecision Label.
Proof. solve_decision. Defined.
#[global] Instance Value_eq_dec : EqDecision Value.
Proof. solve_decision. Defined.
Definition as_bytes (v : Value) : option bytes := if v is VBytes l then Some l else None.
Definition as_text (v : Value) : option string := if v is VText s then Some s else None.
Definition as_integer (v : Value) : option Z := if v is VInteger z then Some z else None.

(** The registered values the code names, and all others. *)
Inductive Algorithm : Type := EdDSA | ES256 | OtherAlgorithm (l : bytes).
Inductive KeyType : Type := OKP | EC2 | OtherKeyType (l : bytes).
Inductive KeyOperation : Type := OpSign | OpVerify | OtherOperation (l : bytes).
#[global] Instance Algorithm_eq_dec : EqDecision Algorithm.
Proof. solve_decision. Defined.
#[global] Instance KeyType_eq_dec : EqDecision KeyType.
Proof. solve_decision. Defined.
#[global] Instance KeyOperation_eq_dec : EqDecision KeyOperation.
Proof. solve_decision. Defined.
#[global] Program Instance KeyOperation_countable : Countable KeyOperation :=
  inj_countable
    (λ o, match o with OpSign => inl true | OpVerify => inl false | OtherOperation l => inr l end)
    (λ x, Some (match x with inl true => OpSign | inl false => OpVerify | inr l => OtherOperation l end)) _.
Next Obligation. by intros []. Qed.

Record CoseKey : Type := mkCoseKey {
  kty : KeyType;
  key_id : bytes;
  key_alg : option Algorithm;
  key_ops : gset KeyOperation;
  base_iv : bytes;
  params : list (Label * Value);
}.
#[global] Instance CoseKey_eq_dec : EqDecision CoseKey.
Proof. solve_decision. Defined.
Definition with_key_id (k : CoseKey) (i : bytes) : CoseKey :=
  mkCoseKey (kty k) i (key_alg k) (key_ops k) (base_iv k) (params k).

Record Header : Type := mkHeader {
  hd_alg : option Algorithm;
  hd_key_id : bytes;
  hd_rest : list (Label * Value);
  hd_other : bytes;
}.
Definition header_default : Header := mkHeader None [] [] [].
(** A protected header that was decoded keeps the bytes it was decoded from. *)
Record ProtectedHeader : Type := mkProtected {
  original_data : option bytes;
  header : Header;
}.
#[global] Instance Header_eq_dec : EqDecision Header.
Proof. solve_decision. Defined.
#[global] Instance ProtectedHeader_eq_dec : EqDecision ProtectedHeader.
Proof. solve_decision. Defined.

Record CoseSign1 : Type := mkCoseSign1 {
  protected : ProtectedHeader;
  unprotected : Header;
  cose_payload : option bytes;
  cose_signature : bytes;
}.
Definition cose_key_id (e : CoseSign1) : bytes := hd_key_id (header (protected e)).
(** [CoseSign1Builder::default().payload(p).build()]. *)
Definition cose_of_payload (p : bytes) : CoseSign1 :=
  mkCoseSign1 (mkProtected None header_default) header_default (Some p) [].

Class Coset := {
  (** What a signature covers: the protected header and the payload. *)
  tbs_data : ProtectedHeader → bytes → bytes;
  cose_from_slice : bytes → outcome string CoseSign1;
  cose_to_vec : CoseSign1 → outcome string bytes;
  cose_from_tagged_slice : bytes → outcome string CoseSign1;
  cose_to_tagged_vec : CoseSign1 → outcome string bytes;
  coset_key_to_vec : CoseKey → outcome string bytes;
  keyset_to_vec : list CoseKey → outcome string bytes;
  keyset_from_slice : bytes → outcome string (list CoseKey);
  keyset_from_cbor_value : Value → outcome string (list CoseKey);
}.
(** No key has a label twice (an error of the decoder), the encoding of a set of such keys is read back, and a
    set of keys is not a byte string. *)
Definition key_labels_unique (k : CoseKey) : Prop := NoDup (params k).*1.
Class CosetLaws `{Coset} : Prop := {
  keyset_labels l ks : keyset_from_slice l = Ok ks → Forall key_labels_unique ks;
  keyset_roundtrip ks : Forall key_labels_unique ks →
    ∃ l, keyset_to_vec ks = Ok l ∧ keyset_from_slice l = Ok ks;
  keyset_of_bytes l : ∃ e, keyset_from_cbor_value (VBytes l) = Err e;
  key_encodes k : ∃ l, coset_key_to_vec k = Ok l;
}.

(** What an envelope keeps on its way: a decoded protected header remembers its bytes, and the rest is
    the same. *)
Record same_envelope `{Coset} (e e' : CoseSign1) : Prop := {
  same_header : header (protected e') = header (protected e);
  same_payload : cose_payload e' = cose_payload e;
  same_signature : cose_signature e' = cose_signature e;
  same_tbs p : tbs_data (protected e') p = tbs_data (protected e) p;
}.
(** No header has a label twice, or a field that the code does not touch. *)
Definition plain_header (h : Header) : Prop := NoDup (hd_rest h).*1 ∧ hd_other h = [].
Definition plain_envelope (e : CoseSign1) : Prop :=
  original_data (protected e) = None ∧ plain_header (header (protected e)) ∧ plain_header (unprotected e).
(** The library reads back the envelopes it encodes, in the plain and in the tagged form. *)
Class CosetTransport `{Coset} : Prop := {
  tagged_transport e : plain_envelope e →
    ∃ l e', cose_to_tagged_vec e = Ok l ∧ cose_from_tagged_slice l = Ok e' ∧ same_envelope e e';
  slice_transport e : plain_envelope e →
    ∃ l e', cose_to_vec e = Ok l ∧ cose_from_slice l = Ok e' ∧ same_envelope e e';
}.

Lemma payload_plain p : plain_envelope (cose_of_payload p).
Proof. repeat split; constructor. Qed.

(** [envelope.verify_signature(b"", f)]. *)
Definition verify_signature `{Coset} {A} (e : CoseSign1) (f : bytes → bytes → A) : A :=
  f (cose_signature e) (tbs_data (protected e) (default [] (cose_payload e))).

(** ** [many-identity/src/cose.rs] *)

(** [sha3::Sha3_224]. *)
Class Sha3 := sha3_224 : bytes → bytes.
Class Sha3Laws `{Sha3} : Prop := sha3_224_length l : length (sha3_224 l) = SHA_OUTPUT_SIZE.

Section cose.
Context `{Coset, Sha3}.

Definition address_unchecked (k : CoseKey) : outcome ManyError Address :=
  l ← map_err unknown (coset_key_to_vec k);
  wrap (inner_public_key (sha3_224 l)).

Definition keyset_label : Label := LText "keyset".
Definition find_label (l : Label) (rest : list (Label * Value)) : option Value :=
  snd <$> List.find (λ kv, bool_decide (kv.1 = l)) rest.

(** The first keyset is replaced in its place when it can be read, removed otherwise. *)
Definition header_with_rest (h : Header) (rest : list (Label * Value)) : Header :=
  mkHeader (hd_alg h) (hd_key_id h) rest (hd_other h).
Definition envelope_with_rest (e : CoseSign1) (rest : list (Label * Value)) : CoseSign1 :=
  mkCoseSign1 (mkProtected (original_data (protected e)) (header_with_rest (header (protected e)) rest))
    (unprotected e) (cose_payload e) (cose_signature e).
Fixpoint remove_first (l : Label) (rest : list (Label * Value)) : list (Label * Value) :=
  match rest with
  | [] => []
  | kv :: rest => if bool_decide (kv.1 = l) then rest else kv :: remove_first l rest
  end.
Fixpoint replace_first (l : Label) (v : Value) (rest : list (Label * Value)) : list (Label * Value) :=
  match rest with
  | [] => []
  | kv :: rest => if bool_decide (kv.1 = l) then (kv.1, v) :: rest else kv :: replace_first l v rest
  end.
(** For the public key and the address of an identity. *)
Definition add_keyset_header (e : CoseSign1) (pk : option CoseKey) (a : Address) : outcome ManyError CoseSign1 :=
  k ← ok_or pk (unknown "Invalid Public Key");
  let k := with_key_id k (address_to_vec a) in
  let rest := hd_rest (header (protected e)) in
  let fresh rest :=
    l ← map_err unknown (keyset_to_vec [k]);
    Ok (envelope_with_rest e (rest ++ [(keyset_label, VBytes l)])) in
  match find_label keyset_label rest with
  | Some v =>
      match keyset_from_cbor_value v with
      | Ok ks =>
          l ← map_err unknown (keyset_to_vec (ks ++ [k]));
          Ok (envelope_with_rest e (replace_first keyset_label (VBytes l) rest))
      | Err _ => fresh (remove_first keyset_label rest)
      | Panic t => Panic t
      | OutOfFuel => OutOfFuel
      end
  | None => fresh rest
  end.

Definition keyset_from_cose_sign1 (e : CoseSign1) : option (list CoseKey) :=
  v ← find_label keyset_label (hd_rest (header (protected e)));
  l ← as_bytes v;
  match keyset_from_slice l with Ok ks => Some ks | _ => None end.
End cose.
