(* ===== verification/Wire.v ===== *)
(** * The encodings the repository writes itself

    Models the hand-written [Encode] and [Decode] instances of [many-types/src/cbor.rs]
    ([CborAny]), [many-types/src/attributes.rs] ([Attribute], [AttributeSet]),
    [many-types/src/lib.rs] ([Timestamp]), [many-identity/src/address/minicbor.rs] ([Address]) and
    [many-error/src/{error,reason}/minicbor.rs] ([Reason], [ManyError]).

    They are written against the encoder and the decoder of [minicbor], which read and write one
    CBOR item after the other. The items are [Token]s (those of [minicbor::data::Token]
    that occur); how tokens are bytes is a parameter ([Minicbor]), as are the library's own
    error messages and the order of tags. A typed read ([d.i8()], [d.str()], ...) gives the item at the
    front if it has that type and range, and fails otherwise. *)
From S2P Require Import Prelude Error External Address Types.

#[local] Open Scope string_scope.
#[local] Open Scope list_scope.
#[local] Open Scope N_scope.

Inductive Token : Type :=
| TkBool (x : bool)
| TkInt (z : Z)
| TkString (s : string)
| TkBytes (l : bytes)
| TkArray (n : option N)      (* [None]: of indefinite length, up to a break *)
| TkMap (n : option N)
| TkTag (t : N)
| TkNull
| TkBreak
| TkStringIndef               (* a string in chunks, up to a break *)
| TkOther.                    (* floats, undefined, simple values, indefinite byte strings *)

Class Minicbor := {
  tokens_to_vec : list Token → bytes;
  (** The items up to the end or the first byte that is not well formed. *)
  tokens : bytes → list Token;
  lib_error : list Token → string;
  tag_compare : N → N → comparison;
}.

Definition int_fits (z : Z) : Prop := (- 2 ^ 64 <= z < 2 ^ 64)%Z.
Definition token_fits (t : Token) : Prop :=
  match t with
  | TkInt z => int_fits z
  | TkArray (Some n) | TkMap (Some n) => n < 2 ^ 64
  | TkTag n => n < 2 ^ 64
  | TkOther => False
  | _ => True
  end.
Class MinicborLaws `{Minicbor} : Prop :=
  tokens_tokens_to_vec ts : Forall token_fits ts → tokens (tokens_to_vec ts) = ts.

(** ** Decoders *)

Definition Dec (A : Type) : Type := list Token → outcome string (A * list Token).
#[global] Instance dec_ret : MRet Dec := λ A a ts, Ok (a, ts).
#[global] Instance dec_bind : MBind Dec := λ A B f m ts,
  match m ts with
  | Ok (a, ts) => f a ts
  | Err e => Err e
  | Panic t => Panic t
  | OutOfFuel => OutOfFuel
  end.
Definition d_fail {A} (e : string) : Dec A := λ _, Err e.
(** [.map_err(..)], or a [Result] that does not read. *)
Definition d_lift {A} (m : outcome string A) : Dec A := λ ts, (λ a, (a, ts)) <$> m.

Section decoders.
Context `{Minicbor}.

Definition d_read {A} (f : Token → option A) : Dec A := λ ts,
  match ts with
  | t :: ts' => match f t with Some a => Ok (a, ts') | None => Err (lib_error ts) end
  | [] => Err (lib_error ts)
  end.
Definition d_int (lo hi : Z) : Dec Z := d_read (λ t,
  match t with TkInt z => if (lo <=? z)%Z && (z <=? hi)%Z then Some z else None | _ => None end).
Definition d_i8 : Dec Z := d_int (-128) 127.
Definition d_i64 : Dec Z := d_int (- 2 ^ 63) (2 ^ 63 - 1).
Definition d_unsigned (bits : Z) : Dec N :=
  z ← d_int 0 (2 ^ bits - 1); mret (Z.to_N z).
Definition d_u8 : Dec N := d_unsigned 8.
Definition d_u32 : Dec N := d_unsigned 32.
Definition d_u64 : Dec N := d_unsigned 64.
Definition d_bool : Dec bool := d_read (λ t, match t with TkBool x => Some x | _ => None end).
Definition d_str : Dec string := d_read (λ t, match t with TkString s => Some s | _ => None end).
Definition d_bytes : Dec bytes := d_read (λ t, match t with TkBytes l => Some l | _ => None end).
Definition d_tag : Dec N := d_read (λ t, match t with TkTag n => Some n | _ => None end).
Definition d_map : Dec (option N) := d_read (λ t, match t with TkMap n => Some n | _ => None end).
Definition d_array : Dec (option N) := d_read (λ t, match t with TkArray n => Some n | _ => None end).
(** [d.skip()] on a break or a null, where alone the code calls it. *)
Definition d_skip : Dec unit := d_read (λ _, Some tt).
(** [d.datatype()]: the item at the front, left in place. *)
Definition d_datatype : Dec Token := λ ts,
  match ts with t :: _ => Ok (t, ts) | [] => Err (lib_error ts) end.

(** [array_iter] and [map_iter]: so many items, or the items up to a break. [fuel] bounds
    their number. *)
Fixpoint d_items {A} (fuel : nat) (len : option N) (d : Dec A) : Dec (list A) := λ ts,
  match fuel with
  | O => OutOfFuel
  | S fuel =>
      match len, ts with
      | Some 0, _ => Ok ([], ts)
      | None, TkBreak :: ts => Ok ([], ts)
      | _, _ => (x ← d; l ← d_items fuel (N.pred <$> len) d; mret (x :: l)) ts
      end
  end.
(** More items than tokens there cannot be. *)
Definition d_all {A} (len : option N) (d : Dec A) : Dec (list A) := λ ts,
  d_items (S (length ts)) len d ts.

(** The loop with which the instances for maps are written: a key and a value at a time, up to a
    break or to the number of entries, which is looked at after an entry. *)
Fixpoint d_entries {B} (fuel : nat) (len : option N) (i : N) (entry : B → Dec B) (acc : B) : Dec B := λ ts,
  match fuel with
  | O => OutOfFuel
  | S fuel =>
      (t ← d_datatype;
       match t with
       | TkBreak => d_skip;; mret acc
       | _ =>
           acc ← entry acc;
           if match len with Some x => x <=? i + 1 | None => false end then mret acc
           else d_entries fuel len (i + 1) entry acc
       end) ts
  end.
Definition d_loop {B} (len : option N) (entry : B → Dec B) (init : B) : Dec B := λ ts,
  d_entries (S (length ts)) len 0 entry init ts.
Definition d_struct {B} (entry : B → Dec B) (init : B) : Dec B :=
  len ← d_map; d_loop len entry init.

(** [minicbor::decode(bytes)]: what follows the value is not looked at. *)
Definition decode_tokens {A} (d : Dec A) (l : bytes) : outcome string A := fst <$> d (tokens l).
End decoders.

(** ** [CborAny] *)

Section any.
Context `{Minicbor}.

(** [BTreeMap]'s entry by entry order, and that of [Vec]. *)
Fixpoint list_compare {A} (cmp : A → A → comparison) (l l' : list A) : comparison :=
  match l, l' with
  | [], [] => Eq
  | [], _ => Lt
  | _, [] => Gt
  | x :: l, y :: l' => match cmp x y with Eq => list_compare cmp l l' | c => c end
  end.
Definition byte_compare (x y : u8) : comparison := Byte.to_N x ?= Byte.to_N y.
Definition any_variant (x : CborAny) : N :=
  match x with
  | CBool _ => 0 | CInt _ => 1 | CString _ => 2 | CBytes _ => 3
  | CArray _ => 4 | CMap _ => 5 | CTagged _ _ => 6 | CNull => 7
  end.
(** The derived [Ord]: variants in their order, then their contents. *)
Fixpoint any_compare (x y : CborAny) : comparison :=
  match x, y with
  | CBool p, CBool q => match p, q with false, true => Lt | true, false => Gt | _, _ => Eq end
  | CInt i, CInt j => (i ?= j)%Z
  | CString s, CString t => list_compare byte_compare (b s) (b t)
  | CBytes l, CBytes m => list_compare byte_compare l m
  | CArray l, CArray m =>
      (fix go l m := match l, m with
                     | [], [] => Eq
                     | [], _ => Lt
                     | _, [] => Gt
                     | x :: l, y :: m => match any_compare x y with Eq => go l m | c => c end
                     end) l m
  | CMap l, CMap m =>
      (fix go l m := match l, m with
                     | [], [] => Eq
                     | [], _ => Lt
                     | _, [] => Gt
                     | (k, v) :: l, (k', v') :: m =>
                         match any_compare k k' with
                         | Eq => match any_compare v v' with Eq => go l m | c => c end
                         | c => c
                         end
                     end) l m
  | CTagged t x, CTagged u y => match tag_compare t u with Eq => any_compare x y | c => c end
  | CNull, CNull => Eq
  | _, _ => any_variant x ?= any_variant y
  end.
(** [BTreeMap::insert]. *)
Fixpoint cmap_insert (k v : CborAny) (m : list (CborAny * CborAny)) : list (CborAny * CborAny) :=
  match m with
  | [] => [(k, v)]
  | (k', v') :: m' =>
      match any_compare k' k with
      | Lt => (k', v') :: cmap_insert k v m'
      | Eq => (k', v) :: m'
      | Gt => (k, v) :: m
      end
  end.
Definition cmap_collect (l : list (CborAny * CborAny)) : list (CborAny * CborAny) :=
  foldl (λ m kv, cmap_insert kv.1 kv.2 m) [] l.

Fixpoint any_encode (x : CborAny) : list Token :=
  match x with
  | CBool p => [TkBool p]
  | CInt i => [TkInt i]
  | CString s => [TkString s]
  | CBytes l => [TkBytes l]
  | CArray l => TkArray (Some (N.of_nat (length l))) :: concat (map any_encode l)
  | CMap l =>
      TkMap (Some (N.of_nat (length l))) :: concat (map (λ kv, any_encode kv.1 ++ any_encode kv.2) l)
  | CTagged t v => TkTag t :: any_encode v
  | CNull => [TkNull]
  end.

Definition d_pair {A B} (d : Dec A) (e : Dec B) : Dec (A * B) := x ← d; y ← e; mret (x, y).

(** [depth] bounds the nesting. *)
Fixpoint any_decode_at (depth : nat) : Dec CborAny :=
  match depth with
  | O => λ _, OutOfFuel
  | S depth =>
      t ← d_datatype;
      match t with
      | TkBool _ => p ← d_bool; mret (CBool p)
      | TkInt z =>
          if (z <? - 2 ^ 63)%Z then d_fail (lib_error [t])     (* [Type::Int] *)
          else i ← d_i64; mret (CInt i)
      | TkBytes _ => l ← d_bytes; mret (CBytes l)
      | TkString _ => s ← d_str; mret (CString s)
      | TkArray _ => n ← d_array; l ← d_all n (any_decode_at depth); mret (CArray l)
      | TkMap _ =>
          n ← d_map; l ← d_all n (d_pair (any_decode_at depth) (any_decode_at depth));
          mret (CMap (cmap_collect l))
      | TkTag _ => n ← d_tag; v ← any_decode_at depth; mret (CTagged n v)
      | TkNull => d_skip;; mret CNull
      | TkBreak | TkStringIndef | TkOther => d_fail (lib_error [t])
      end
  end.
(** Every level of nesting takes a token. *)
Definition any_decode : Dec CborAny := λ ts, any_decode_at (S (length ts)) ts.
End any.

(** ** Attributes, timestamps, addresses *)

Section values.
Context `{Minicbor, Base32, Crc16}.

Definition attribute_encode (a : Attribute) : list Token :=
  match attr_arguments a with
  | [] => [TkInt (Z.of_N (attr_id a))]
  | args => TkArray (Some (1 + N.of_nat (length args))) :: TkInt (Z.of_N (attr_id a))
              :: concat (map any_encode args)
  end.
Definition attribute_decode : Dec Attribute :=
  t ← d_datatype;
  match t with
  | TkArray _ => n ← d_array; l ← d_all n any_decode; d_lift (attribute_of_array l)
  | _ => i ← d_u32; mret (attribute_id i)
  end.

Definition AttributeSet_encode (s : AttributeSet) : list Token :=
  TkArray (Some (N.of_nat (size s)))
    :: concat (map (λ ia, attribute_encode (mkAttribute ia.1 ia.2)) (btree_iter s)).
Definition AttributeSet_decode : Dec AttributeSet :=
  n ← d_array; l ← d_all n attribute_decode;
  mret (foldl (λ s a, (AttributeSet_insert s a).1) ∅ l).

Definition TIMESTAMP_TAG : N := 1.
Definition timestamp_encode (t : Timestamp) : list Token := [TkTag TIMESTAMP_TAG; TkInt (Z.of_N t)].
Definition timestamp_decode : Dec Timestamp :=
  n ← d_tag; if negb (n =? TIMESTAMP_TAG) then d_fail "Invalid tag." else d_u64.

Definition ADDRESS_TAG : N := 10000.
Definition address_encode (a : Address) : list Token := [TkTag ADDRESS_TAG; TkBytes (address_to_vec a)].
(** [while d.datatype()? == Type::Tag { ... }]: was one of the tags that of an address? *)
Fixpoint address_tags (is_tagged : bool) (ts : list Token) : outcome string (bool * list Token) :=
  match ts with
  | TkTag t :: ts => address_tags (is_tagged || (t =? ADDRESS_TAG)) ts
  | [] => Err (lib_error [])
  | _ => Ok (is_tagged, ts)
  end.
Definition not_an_identity {A} (m : outcome ManyError A) : outcome string A :=
  map_err (λ _, "Could not decode identity from bytes") m.
Definition address_decode : Dec Address :=
  is_tagged ← address_tags false;
  t ← d_datatype;
  match t with
  | TkString _ => s ← d_str; d_lift (not_an_identity (address_from_str s))
  | _ =>
      if negb is_tagged then d_fail "identities need to be tagged"
      else l ← d_bytes; d_lift (not_an_identity (from_bytes l))
  end.

(** ** Errors *)

Definition code_encode (c : ManyErrorCode) : list Token := [TkInt (code_to_i64 c)].
Definition code_decode : Dec ManyErrorCode := z ← d_i64; mret (code_from_i64 z).

Definition arguments_encode (m : gmap string string) : list Token :=
  TkMap (Some (N.of_nat (size m)))
    :: concat (map (λ kv, [TkString kv.1; TkString kv.2]) (btree_iter m)).
Definition arguments_decode : Dec (gmap string string) :=
  n ← d_map; l ← d_all n (d_pair d_str d_str);
  mret (foldl (λ m kv, <[kv.1 := kv.2]> m) ∅ l).

(** [Reason<T>], for any type of codes. *)
Definition reason_encode_with {T} (enc : T → list Token) (r : Reason T) : list Token :=
  TkMap (Some (1 + (match message r with Some _ => 1 | None => 0 end) + (if bool_decide (arguments r = ∅) then 0 else 1)))
    :: TkInt 0 :: enc (code r)
  ++ match message r with Some m => [TkInt 1; TkString m] | None => [] end
  ++ (if bool_decide (arguments r = ∅) then [] else TkInt 2 :: arguments_encode (arguments r)).
(** What has been read of the code, the message and the arguments; the value under any other key is
    not skipped. *)
Definition reason_entry {T} (dec : Dec T) (r : option T * option string * gmap string string) :
    Dec (option T * option string * gmap string string) :=
  let '(c, m, args) := r in
  k ← d_i64;
  match k with
  | 0 => c ← dec; mret (Some c, m, args)
  | 1 => m ← d_str; mret (c, Some m, args)
  | 2 => args ← arguments_decode; mret (c, m, args)
  | _ => mret r
  end%Z.
Definition reason_decode_with {T} (dec : Dec T) (unknown : T) : Dec (Reason T) :=
  r ← d_struct (reason_entry dec) (None, None, ∅);
  mret (mkReason (default unknown r.1.1) r.1.2 r.2).

Definition reason_encode : ManyError → list Token := reason_encode_with code_encode.
Definition reason_decode : Dec ManyError := reason_decode_with code_decode Unknown.
End values.
