(* ===== verification/WireLaws.v ===== *)
(** * Round trips of the encodings

    Decoding what was encoded gives the value back, with what follows it, for every value that the
    types of the program can hold. The lemmas on loops ([d_items], [d_entries]) are shared by all
    instances. *)
From S2P Require Import Prelude Error External Address Types Wire.

#[local] Open Scope string_scope.
#[local] Open Scope list_scope.
#[local] Open Scope N_scope.

Section wire_laws.
Context `{Minicbor, Base32, Crc16}.

(** [d] reads the value [a] off its encoding [e]. *)
Definition reads_back {A} (d : Dec A) (e : list Token) (a : A) : Prop :=
  ∀ rest, d (e ++ rest) = Ok (a, rest).

Lemma dec_bind_ok {A B} (d : Dec A) (f : A → Dec B) ts a ts' :
  d ts = Ok (a, ts') → (d ≫= f) ts = f a ts'.
Proof. intros Hd. unfold mbind, dec_bind. by rewrite Hd. Qed.
Lemma reads_bind {A B} (d : Dec A) (f : A → Dec B) e a rest :
  reads_back d e a → (d ≫= f) (e ++ rest) = f a rest.
Proof. intros Hd. by apply dec_bind_ok. Qed.

Lemma d_peek {B} (f : Token → Dec B) t ts : (d_datatype ≫= f) (t :: ts) = f t (t :: ts).
Proof. done. Qed.
Lemma d_read_ok {A B} (g : Token → option A) (f : A → Dec B) t ts a :
  g t = Some a → (d_read g ≫= f) (t :: ts) = f a ts.
Proof. intros Hg. apply dec_bind_ok. simpl. by rewrite Hg. Qed.

Lemma d_int_ok lo hi z rest : (lo <= z <= hi)%Z → d_int lo hi (TkInt z :: rest) = Ok (z, rest).
Proof.
  intros Hz. unfold d_int, d_read.
  destruct (Z.leb_spec lo z), (Z.leb_spec z hi); done || lia.
Qed.
Lemma d_unsigned_ok bits n rest :
  (Z.of_N n < 2 ^ bits)%Z → d_unsigned bits (TkInt (Z.of_N n) :: rest) = Ok (n, rest).
Proof.
  intros Hn. unfold d_unsigned. erewrite dec_bind_ok by (apply d_int_ok; lia).
  by rewrite N2Z.id.
Qed.

(** ** Loops *)

Lemma d_items_ok {A} (d : Dec A) (enc : A → list Token) l fuel rest :
  Forall (λ x, reads_back d (enc x) x) l → (length l < fuel)%nat →
  d_items fuel (Some (N.of_nat (length l))) d (concat (map enc l) ++ rest) = Ok (l, rest).
Proof.
  intros Hl. revert fuel. induction Hl as [|x l Hx Hl IH]; intros [|fuel] Hf; simpl in Hf; try lia; [done|].
  cbn [length d_items map concat]. rewrite <-app_assoc.
  destruct (N.of_nat (S (length l))) as [|p] eqn:Hn; [lia|]. cbn beta iota.
  rewrite (reads_bind _ _ _ _ _ Hx).
  replace (N.pred <$> Some (Npos p)) with (Some (N.of_nat (length l))) by (simpl; f_equal; lia).
  by rewrite (dec_bind_ok _ _ _ _ _ (IH fuel ltac:(lia))).
Qed.

Lemma length_concat_nonempty {A} (enc : A → list Token) l :
  Forall (λ x, enc x ≠ []) l → (length l ≤ length (concat (map enc l)))%nat.
Proof.
  induction 1 as [|x l Hx Hl IH]; [done|]. simpl. rewrite length_app.
  destruct (enc x); [done|]. simpl. lia.
Qed.

Lemma d_all_ok {A} (d : Dec A) (enc : A → list Token) l rest :
  Forall (λ x, reads_back d (enc x) x) l → Forall (λ x, enc x ≠ []) l →
  d_all (Some (N.of_nat (length l))) d (concat (map enc l) ++ rest) = Ok (l, rest).
Proof.
  intros Hl Hne. unfold d_all. apply d_items_ok; [done|]. rewrite length_app.
  pose proof (length_concat_nonempty enc l Hne). lia.
Qed.

(** An entry of a map, as its tokens and what reading it does. *)
Record entry_ok {B} (entry : B → Dec B) (e : list Token * (B → B)) : Prop := {
  entry_key : ∃ k ts, e.1 = TkInt k :: ts;
  entry_reads acc rest : entry acc (e.1 ++ rest) = Ok (e.2 acc, rest);
}.

Lemma d_entries_ok {B} (entry : B → Dec B) es fuel i acc rest :
  Forall (entry_ok entry) es → es ≠ [] → (length es < fuel)%nat →
  d_entries fuel (Some (i + N.of_nat (length es))) i entry acc (concat es.*1 ++ rest)
  = Ok (foldl (λ x e, e.2 x) acc es, rest).
Proof.
  intros Hes. revert fuel i acc. induction Hes as [|e es He Hes IH]; intros [|fuel] i acc Hne Hf; try done;
    [simpl in Hf; lia|].
  csimpl. rewrite <-app_assoc. destruct (entry_key _ _ He) as (k & ts & Hk).
  rewrite (dec_bind_ok d_datatype _ _ (TkInt k) (e.1 ++ concat es.*1 ++ rest)) by by rewrite Hk.
  rewrite (dec_bind_ok _ _ _ _ _ (entry_reads _ _ He acc _)).
  destruct (N.leb_spec (i + N.of_nat (S (length es))) (i + 1)) as [Hle|Hlt].
  - destruct es; [done|]. simpl in Hle. lia.
  - replace (i + N.of_nat (S (length es))) with (i + 1 + N.of_nat (length es)) by lia.
    apply IH; [|simpl in Hf; lia]. intros ->. simpl in Hlt. lia.
Qed.

(** Entries before the last one. *)
Lemma d_entries_prefix {B} (entry : B → Dec B) es fuel x i acc rest :
  Forall (entry_ok entry) es → i + N.of_nat (length es) < x →
  d_entries (length es + fuel) (Some x) i entry acc (concat es.*1 ++ rest)
  = d_entries fuel (Some x) (i + N.of_nat (length es)) entry (foldl (λ x e, e.2 x) acc es) rest.
Proof.
  intros Hes. revert i acc. induction Hes as [|e es He Hes IH]; intros i acc Hx; [by rewrite N.add_0_r|].
  csimpl. rewrite <-app_assoc. destruct (entry_key _ _ He) as (k & ts & Hk).
  rewrite (dec_bind_ok d_datatype _ _ (TkInt k) (e.1 ++ concat es.*1 ++ rest)) by by rewrite Hk.
  rewrite (dec_bind_ok _ _ _ _ _ (entry_reads _ _ He acc _)). cbn [length] in Hx.
  destruct (N.leb_spec x (i + 1)) as [Hle|Hlt]; [lia|].
  rewrite IH by lia. f_equal. lia.
Qed.
(** One more entry, which is the last one or not. *)
Lemma d_entries_cons {B} (entry : B → Dec B) fuel x i acc k ts acc' ts' :
  entry acc (TkInt k :: ts) = Ok (acc', ts') →
  d_entries (S fuel) (Some x) i entry acc (TkInt k :: ts)
  = if x <=? i + 1 then Ok (acc', ts') else d_entries fuel (Some x) (i + 1) entry acc' ts'.
Proof.
  intros He. cbn [d_entries]. rewrite d_peek. cbn beta iota. rewrite (dec_bind_ok _ _ _ _ _ He).
  by destruct (x <=? i + 1).
Qed.

Lemma d_struct_ok {B} (entry : B → Dec B) es init rest :
  Forall (entry_ok entry) es → es ≠ [] →
  d_struct entry init (TkMap (Some (N.of_nat (length es))) :: concat es.*1 ++ rest)
  = Ok (foldl (λ x e, e.2 x) init es, rest).
Proof.
  intros Hes Hne. unfold d_struct. rewrite (dec_bind_ok d_map _ _ (Some (N.of_nat (length es))) (concat es.*1 ++ rest)) by done.
  unfold d_loop. apply (d_entries_ok entry es _ 0); [done|done|]. rewrite length_app.
  pose proof (length_concat_nonempty fst es) as Hl. unfold lt. rewrite <-Nat.succ_le_mono.
  etrans; [apply Hl|apply Nat.le_add_r]. eapply Forall_impl; [exact Hes|].
  intros e He. destruct (entry_key _ _ He) as (k & ts & ->). done.
Qed.

(** ** [CborAny] *)

(** Integers are [i64]; a map has its keys in strictly ascending order. *)
Fixpoint any_wf (x : CborAny) : Prop :=
  match x with
  | CInt i => (- 2 ^ 63 <= i < 2 ^ 63)%Z
  | CArray l => foldr (λ x P, any_wf x ∧ P) True l
  | CMap l =>
      foldr (λ kv P, (any_wf kv.1 ∧ any_wf kv.2) ∧ P) True l
      ∧ StronglySorted (λ p q, any_compare p.1 q.1 = Lt) l
  | CTagged _ v => any_wf v
  | _ => True
  end.

Lemma foldr_Forall {A} (P : A → Prop) l : foldr (λ x Q, P x ∧ Q) True l ↔ Forall P l.
Proof. induction l as [|x l IH]; simpl; [by rewrite Forall_nil|]. by rewrite Forall_cons, IH. Qed.

Lemma any_encode_nonempty x : any_encode x ≠ [].
Proof. by destruct x. Qed.

Lemma cmap_insert_last k v m :
  Forall (λ p, any_compare p.1 k = Lt) m → cmap_insert k v m = m ++ [(k, v)].
Proof. induction 1 as [|[k' v'] m Hk Hm IH]; [done|]. simpl in *. by rewrite Hk, IH. Qed.

Lemma cmap_collect_sorted l :
  StronglySorted (λ p q, any_compare p.1 q.1 = Lt) l → cmap_collect l = l.
Proof.
  unfold cmap_collect. cut (∀ acc, StronglySorted (λ p q, any_compare p.1 q.1 = Lt) l →
    Forall (λ q, Forall (λ p, any_compare p.1 q.1 = Lt) acc) l →
    foldl (λ m kv, cmap_insert kv.1 kv.2 m) acc l = acc ++ l).
  { intros Hc Hs. apply (Hc [] Hs). apply Forall_true. intros q. constructor. }
  induction l as [|[k v] l IH]; intros acc Hs Hacc; [by rewrite app_nil_r|].
  apply StronglySorted_inv in Hs as [Hs Hk]. apply Forall_cons in Hacc as [Hnew Hacc]. simpl in *.
  rewrite cmap_insert_last by done. rewrite IH; [by rewrite <-app_assoc|done|].
  rewrite Forall_forall in *. intros q Hq. apply Forall_app. split; [by apply Hacc|].
  apply Forall_singleton. by apply (Hk q).
Qed.

Lemma length_concat_elem {A} (enc : A → list Token) l x :
  x ∈ l → (length (enc x) ≤ length (concat (map enc l)))%nat.
Proof.
  induction l as [|y l IH]; [by intros ?%elem_of_nil|]. simpl. rewrite length_app.
  intros [->|Hx%IH]%elem_of_cons; lia.
Qed.

Lemma d_pair_ok {A B} (d : Dec A) (e : Dec B) x y a c :
  reads_back d x a → reads_back e y c → reads_back (d_pair d e) (x ++ y) (a, c).
Proof.
  intros Hd He rest. unfold d_pair. rewrite <-app_assoc, (reads_bind _ _ _ _ _ Hd), (reads_bind _ _ _ _ _ He).
  done.
Qed.

Lemma any_decode_at_ok depth x :
  (length (any_encode x) < depth)%nat → any_wf x → reads_back (any_decode_at depth) (any_encode x) x.
Proof.
  revert x. induction depth as [|depth IH]; intros x Hd Hx rest; [lia|].
  destruct x as [p|i|s|l|l|l|t v|]; try done; cbn [any_encode any_wf any_decode_at app] in *;
    rewrite d_peek; cbn beta iota.
  - destruct (Z.ltb_spec i (- 2 ^ 63)); [lia|].
    by rewrite (dec_bind_ok d_i64 _ _ i rest) by (apply d_int_ok; lia).
  - apply foldr_Forall in Hx. unfold d_array. erewrite d_read_ok by done.
    erewrite (dec_bind_ok (d_all _ _)); [done|]. apply d_all_ok.
    + rewrite Forall_forall in *. intros y Hy. apply IH; [|by apply Hx].
      pose proof (length_concat_elem any_encode l y Hy). simpl in Hd. lia.
    + apply Forall_true. intros y. apply any_encode_nonempty.
  - destruct Hx as [Hx Hs]. apply foldr_Forall in Hx. unfold d_map. erewrite d_read_ok by done.
    erewrite (dec_bind_ok (d_all _ _)); [by rewrite cmap_collect_sorted|].
    apply (d_all_ok _ (λ kv, any_encode kv.1 ++ any_encode kv.2)).
    + rewrite Forall_forall in *. intros [k v] Hy. destruct (Hx _ Hy) as [Hk Hv].
      pose proof (length_concat_elem (λ kv, any_encode kv.1 ++ any_encode kv.2) l (k, v) Hy) as Hlen.
      simpl in Hlen, Hd. rewrite length_app in Hlen. apply d_pair_ok; apply IH; try done; lia.
    + apply Forall_true. intros [k v]. simpl. by destruct k.
  - unfold d_tag. erewrite d_read_ok by done. simpl in Hd.
    by rewrite (reads_bind _ _ _ _ _ (IH v ltac:(lia) Hx)).
Qed.
Lemma any_decode_ok x : any_wf x → reads_back any_decode (any_encode x) x.
Proof.
  intros Hx rest. unfold any_decode. apply any_decode_at_ok; [|done]. rewrite length_app. lia.
Qed.

(** ** Attributes, timestamps, addresses *)

Definition attribute_wf (a : Attribute) : Prop := attr_id a < 2 ^ 32 ∧ Forall any_wf (attr_arguments a).

Lemma attribute_decode_ok a : attribute_wf a → reads_back attribute_decode (attribute_encode a) a.
Proof.
  intros [Hid Hargs] rest. destruct a as [i args]. unfold attribute_encode. cbn [attr_id attr_arguments] in *.
  destruct args as [|x args].
  - unfold attribute_decode. cbn [app]. rewrite d_peek. cbn beta iota.
    by rewrite (dec_bind_ok d_u32 _ _ i rest) by (apply d_unsigned_ok; lia).
  - change (TkInt (Z.of_N i) :: concat (map any_encode (x :: args)))
      with (concat (map any_encode (CInt (Z.of_N i) :: x :: args))).
    replace (1 + N.of_nat (length (x :: args))) with (N.of_nat (length (CInt (Z.of_N i) :: x :: args)))
      by (cbn [length]; lia).
    unfold attribute_decode. rewrite <-app_comm_cons, d_peek. cbn beta iota.
    unfold d_array. erewrite d_read_ok by done.
    erewrite (dec_bind_ok (d_all _ _)).
    2:{ apply d_all_ok; [|apply Forall_true; intros; apply any_encode_nonempty].
        apply Forall_cons. split; [apply any_decode_ok; simpl; lia|].
        eapply Forall_impl; [exact Hargs|]. intros y. apply any_decode_ok. }
    unfold d_lift, attribute_of_array. destruct (Z.leb_spec (Z.of_N i) (Z.of_N U32_MAX)); [|unfold U32_MAX in *; lia].
    cbn. by rewrite as_u32_small, N2Z.id by lia.
Qed.
Lemma attribute_encode_nonempty a : attribute_encode a ≠ [].
Proof. unfold attribute_encode. by destruct (attr_arguments a). Qed.

Lemma attributes_collect (s : AttributeSet) l :
  foldl (λ s a, (AttributeSet_insert s a).1) s (map (λ ia, mkAttribute ia.1 ia.2) l) = s ∪ list_to_map l.
Proof.
  revert s. induction l as [|[i args] l IH]; intros s; [simpl; by rewrite (right_id_L ∅ (∪))|].
  cbn [map foldl]. rewrite IH, list_to_map_cons. unfold AttributeSet_insert. cbn [attr_id attr_arguments].
  case_match eqn:Hi; pose proof (Hi : s !! i = _) as Hi'; cbn [fst]; apply map_eq; intros j; rewrite !lookup_union.
  all: destruct (decide (j = i)) as [->|Hne]; [rewrite ?Hi', ?lookup_insert_eq|by rewrite !lookup_insert_ne by done].
  all: by destruct ((list_to_map l : AttributeSet) !! i).
Qed.

Lemma AttributeSet_decode_ok (s : AttributeSet) :
  map_Forall (λ i args, attribute_wf (mkAttribute i args)) s →
  reads_back AttributeSet_decode (AttributeSet_encode s) s.
Proof.
  intros Hs rest. unfold AttributeSet_encode, AttributeSet_decode. rewrite <-app_comm_cons.
  unfold d_array. erewrite d_read_ok by done.
  set (l := map (λ ia, mkAttribute ia.1 ia.2) (btree_iter s)).
  replace (N.of_nat (size s)) with (N.of_nat (length l)).
  2:{ unfold l. rewrite length_map. rewrite btree_iter_perm. by rewrite length_map_to_list. }
  replace (concat (map (λ ia, attribute_encode (mkAttribute ia.1 ia.2)) (btree_iter s)))
    with (concat (map attribute_encode l)) by (unfold l; by rewrite map_map).
  erewrite (dec_bind_ok (d_all _ _)).
  2:{ apply d_all_ok; [|apply Forall_true; intros; apply attribute_encode_nonempty].
      apply Forall_forall. intros a Ha. apply attribute_decode_ok. unfold l in Ha.
      apply list_elem_of_fmap in Ha as ([i args] & -> & Hin). apply elem_of_btree_iter in Hin. by apply Hs. }
  unfold l. rewrite attributes_collect, (left_id_L ∅ (∪)).
  rewrite (list_to_map_proper _ (map_to_list s)), list_to_map_to_list; [done| |apply btree_iter_perm].
  apply NoDup_fst_btree_iter.
Qed.

Lemma timestamp_decode_ok t : t < 2 ^ 64 → reads_back timestamp_decode (timestamp_encode t) t.
Proof.
  intros Ht rest. unfold timestamp_decode, timestamp_encode, d_tag. cbn [app]. erewrite d_read_ok by done.
  cbn. apply d_unsigned_ok. lia.
Qed.
Lemma address_decode_ok a : reads_back address_decode (address_encode a) a.
Proof.
  intros rest. unfold address_decode, address_encode. cbn [app].
  rewrite (dec_bind_ok (address_tags false) _ _ true (TkBytes (address_to_vec a) :: rest)) by done.
  rewrite d_peek. cbn [negb]. unfold d_bytes. erewrite d_read_ok by done.
  unfold d_lift, not_an_identity. by rewrite from_to_vec.
Qed.

(** ** Errors *)

Lemma code_decode_ok c : code_in_range c → reads_back code_decode (code_encode c) c.
Proof.
  intros Hc rest. unfold code_decode, code_encode. cbn [app].
  rewrite (dec_bind_ok d_i64 _ _ (code_to_i64 c) rest).
  - unfold mret, dec_ret. by rewrite code_i64_roundtrip_lemma.
  - apply d_int_ok. destruct c; simpl in *; lia.
Qed.

Lemma collect_insert `{Countable K} {V} (m : gmap K V) l :
  NoDup l.*1 → (∀ k v, (k, v) ∈ l → m !! k = None) →
  foldl (λ m kv, <[kv.1 := kv.2]> m) m l = m ∪ list_to_map l.
Proof.
  revert m. induction l as [|[k v] l IH]; intros m; [simpl; by rewrite (right_id_L ∅ (∪))|].
  csimpl. intros [Hk Hnd]%NoDup_cons Hm. rewrite IH; [|done|].
  - simpl. rewrite <-insert_union_l, insert_union_r; [done|]. apply (Hm k v). by left.
  - intros k' v' Hin. rewrite lookup_insert_ne; [eapply Hm; by right|]. intros ->.
    apply Hk. by apply (list_elem_of_fmap_2 fst) in Hin.
Qed.

Lemma arguments_decode_ok m : reads_back arguments_decode (arguments_encode m) m.
Proof.
  intros rest. unfold arguments_encode, arguments_decode, d_map. rewrite <-app_comm_cons.
  erewrite d_read_ok by done.
  replace (size m) with (length (btree_iter m)) by (rewrite btree_iter_perm; apply length_map_to_list).
  erewrite (dec_bind_ok (d_all _ _)).
  2:{ apply (d_all_ok _ (λ kv, [TkString kv.1; TkString kv.2])); apply Forall_true; [|done].
      intros [k v]. by apply (d_pair_ok d_str d_str [TkString k] [TkString v]). }
  unfold mret, dec_ret. rewrite collect_insert; [|apply NoDup_fst_btree_iter|done].
  rewrite (left_id_L ∅ (∪)), (list_to_map_proper _ (map_to_list m)), list_to_map_to_list; [done| |apply btree_iter_perm].
  apply NoDup_fst_btree_iter.
Qed.

(** The entries of an encoded reason. *)
Definition reason_entries {T} (enc : T → list Token) (r : Reason T) :
    list (list Token * (option T * option string * gmap string string →
                        option T * option string * gmap string string)) :=
  (TkInt 0 :: enc (code r), λ '(_, m, a), (Some (code r), m, a))
  :: match message r with
     | Some t => [([TkInt 1; TkString t], λ '(c, _, a), (c, Some t, a))]
     | None => []
     end
  ++ (if bool_decide (arguments r = ∅) then []
      else [(TkInt 2 :: arguments_encode (arguments r), λ '(c, m, _), (c, m, arguments r))]).

Lemma reason_entries_encode {T} (enc : T → list Token) r :
  reason_encode_with enc r
  = TkMap (Some (N.of_nat (length (reason_entries enc r)))) :: concat (reason_entries enc r).*1.
Proof.
  unfold reason_encode_with, reason_entries. destruct (message r), (bool_decide (arguments r = ∅)); csimpl;
    by rewrite ?app_nil_r.
Qed.
Lemma reason_encode_entries r :
  reason_encode r = TkMap (Some (N.of_nat (length (reason_entries code_encode r))))
    :: concat (reason_entries code_encode r).*1.
Proof. apply reason_entries_encode. Qed.

(** Reading a key, and going on to the value. *)
Lemma d_i64_key {B} (f : Z → Dec B) k rest :
  (- 2 ^ 63 <= k < 2 ^ 63)%Z → (d_i64 ≫= f) (TkInt k :: rest) = f k rest.
Proof. intros Hk. apply dec_bind_ok, d_int_ok. lia. Qed.

Lemma reason_with_ok {T} (dec : Dec T) enc unknown (r : Reason T) :
  reads_back dec (enc (code r)) (code r) → reads_back (reason_decode_with dec unknown) (reason_encode_with enc r) r.
Proof.
  intros Hc rest. rewrite reason_entries_encode, <-app_comm_cons. unfold reason_decode_with.
  erewrite dec_bind_ok.
  2:{ apply d_struct_ok; [|done]. apply Forall_cons. split.
      { split; [by do 2 eexists|]. intros [[c m] a] rest'. cbn [fst snd app]. unfold reason_entry.
        rewrite d_i64_key by lia. cbn beta iota. by rewrite (reads_bind _ _ _ _ _ Hc). }
      apply Forall_app. split.
      - destruct (message r) as [t|]; [|by apply Forall_nil]. apply Forall_singleton.
        split; [by do 2 eexists|]. intros [[c m] a] rest'. cbn [fst snd app]. unfold reason_entry.
        by rewrite d_i64_key by lia.
      - destruct (bool_decide _); [by apply Forall_nil|]. apply Forall_singleton.
        split; [by do 2 eexists|]. intros [[c m] a] rest'. cbn [fst snd]. unfold reason_entry.
        rewrite <-app_comm_cons, d_i64_key by lia. cbn beta iota.
        by rewrite (reads_bind _ _ _ _ _ (arguments_decode_ok _)). }
  destruct r as [c m a]. unfold reason_entries. simpl. case_bool_decide as Ha; destruct m; by rewrite ?Ha.
Qed.
Lemma reason_decode_ok r : code_in_range (code r) → reads_back reason_decode (reason_encode r) r.
Proof. intros Hc. by apply reason_with_ok, code_decode_ok. Qed.

(** ** Termination *)

(** On fewer than [n] tokens the decoder ends (a panic is an end), and does not read backwards. *)
Definition safe {A} (n : nat) (d : Dec A) : Prop := ∀ ts, (length ts < n)%nat →
  match d ts with
  | Ok (_, ts') => (length ts' ≤ length ts)%nat
  | OutOfFuel => False
  | _ => True
  end.
(** It also takes a token, when it succeeds. *)
Definition progresses {A} (n : nat) (d : Dec A) : Prop := ∀ ts, (length ts < n)%nat →
  match d ts with
  | Ok (_, ts') => (length ts' < length ts)%nat
  | OutOfFuel => False
  | _ => True
  end.

Lemma progresses_safe {A} n (d : Dec A) : progresses n d → safe n d.
Proof. intros Hd ts Hn. specialize (Hd ts Hn). destruct (d ts) as [[a ts']|?|?|]; [lia|done..]. Qed.
Lemma safe_bind {A B} n (d : Dec A) (f : A → Dec B) :
  safe n d → (∀ a, safe n (f a)) → safe n (d ≫= f).
Proof.
  intros Hd Hf ts Hn. specialize (Hd ts Hn). unfold mbind, dec_bind.
  destruct (d ts) as [[a ts']|?|?|]; [|done..]. specialize (Hf a ts' ltac:(lia)).
  destruct (f a ts') as [[c ts'']|?|?|]; [lia|done..].
Qed.
(** The rest of the tokens is shorter after a decoder that takes one. *)
Lemma progresses_bind {A B} n (d : Dec A) (f : A → Dec B) :
  progresses (S n) d → (∀ a, safe n (f a)) → progresses (S n) (d ≫= f).
Proof.
  intros Hd Hf ts Hn. specialize (Hd ts Hn). unfold mbind, dec_bind.
  destruct (d ts) as [[a ts']|?|?|]; [|done..]. specialize (Hf a ts' ltac:(lia)).
  destruct (f a ts') as [[c ts'']|?|?|]; [lia|done..].
Qed.
Lemma safe_progresses_bind {A B} n (d : Dec A) (f : A → Dec B) :
  safe n d → (∀ a, progresses n (f a)) → progresses n (d ≫= f).
Proof.
  intros Hd Hf ts Hn. specialize (Hd ts Hn). unfold mbind, dec_bind.
  destruct (d ts) as [[a ts']|?|?|]; [|done..]. specialize (Hf a ts' ltac:(lia)).
  destruct (f a ts') as [[c ts'']|?|?|]; [lia|done..].
Qed.
Lemma safe_ret {A} n (a : A) : safe n (mret a : Dec A).
Proof. intros ts Hn. simpl. lia. Qed.
Lemma safe_fail {A} n e : safe n (d_fail e : Dec A).
Proof. done. Qed.
Lemma progresses_fail {A} n e : progresses n (d_fail e : Dec A).
Proof. done. Qed.
Lemma safe_lift {A} n (m : outcome string A) : m ≠ OutOfFuel → safe n (d_lift m).
Proof. intros Hm ts Hn. unfold d_lift. destruct m; [simpl; lia|done..]. Qed.
Lemma safe_le {A} n n' (d : Dec A) : (n ≤ n')%nat → safe n' d → safe n d.
Proof. intros Hn Hd ts Ht. apply Hd. lia. Qed.
Lemma progresses_le {A} n n' (d : Dec A) : (n ≤ n')%nat → progresses n' d → progresses n d.
Proof. intros Hn Hd ts Ht. apply Hd. lia. Qed.
Lemma progresses_read {A} n (g : Token → option A) : progresses n (d_read g).
Proof. intros [|t ts] Hn; [done|]. simpl. destruct (g t); [simpl; lia|done]. Qed.
Lemma progresses_int n lo hi : progresses n (d_int lo hi).
Proof. apply progresses_read. Qed.
Lemma progresses_map_result {A B} n (d : Dec A) (f : A → B) : progresses n d → progresses n (x ← d; mret (f x)).
Proof.
  intros Hd. destruct n as [|n]; [intros ts Hn; lia|]. apply progresses_bind; [done|]. intros a. apply safe_ret.
Qed.
Lemma safe_peek n : safe n d_datatype.
Proof. intros [|t ts] Hn; [done|]. simpl. lia. Qed.

Lemma safe_items {A} n fuel len (d : Dec A) :
  progresses n d → ∀ ts, (length ts < n)%nat → (length ts < fuel)%nat →
  match d_items fuel len d ts with
  | Ok (_, ts') => (length ts' ≤ length ts)%nat
  | OutOfFuel => False
  | _ => True
  end.
Proof.
  intros Hd. revert len. induction fuel as [|fuel IH]; intros len ts Hn Hf; [lia|].
  assert (∀ len', match (x ← d; l ← d_items fuel len' d; mret (x :: l)) ts with
    | Ok (_, ts') => (length ts' ≤ length ts)%nat | OutOfFuel => False | _ => True end) as Hstep.
  { intros len'. specialize (Hd ts Hn). unfold mbind, dec_bind.
    destruct (d ts) as [[a ts']|?|?|]; [|done..]. specialize (IH len' ts' ltac:(lia) ltac:(lia)).
    destruct (d_items fuel len' d ts') as [[l ts'']|?|?|]; [|done..]. simpl. lia. }
  cbn [d_items]. destruct len as [[|p]|]; [simpl; lia|apply Hstep|].
  destruct ts as [|[] ts]; try apply Hstep. simpl. lia.
Qed.
Lemma safe_all {A} n len (d : Dec A) : progresses n d → safe n (d_all len d).
Proof. intros Hd ts Hn. unfold d_all. by apply (safe_items n); [|done|lia]. Qed.

Lemma progresses_pair {A B} n (d : Dec A) (e : Dec B) :
  progresses n d → progresses n e → progresses n (d_pair d e).
Proof.
  intros Hd He. unfold d_pair. destruct n as [|n]; [intros ts Hn; lia|].
  apply progresses_bind; [done|]. intros a. apply progresses_safe, (progresses_le n (S n)), progresses_map_result, He.
  lia.
Qed.

Lemma progresses_any_at depth : progresses depth (any_decode_at depth).
Proof.
  induction depth as [|depth IH]; [intros ts Hn; lia|].
  cbn [any_decode_at]. apply safe_progresses_bind; [apply safe_peek|]. intros [|z| | | | | | | | |].
  1, 3, 4, 8: apply progresses_map_result, progresses_read.
  - case_match; [apply progresses_fail|apply progresses_map_result, progresses_int].
  - apply progresses_bind; [apply progresses_read|]. intros len.
    apply safe_bind; [by apply safe_all|]. intros l. apply safe_ret.
  - apply progresses_bind; [apply progresses_read|]. intros len.
    apply safe_bind; [by apply safe_all, progresses_pair|]. intros l. apply safe_ret.
  - apply progresses_bind; [apply progresses_read|]. intros len.
    apply progresses_safe, progresses_map_result, IH.
  - apply progresses_fail.
  - apply progresses_fail.
  - apply progresses_fail.
Qed.
Lemma progresses_any n : progresses n any_decode.
Proof. intros ts _. unfold any_decode. apply progresses_any_at. lia. Qed.

(** The loop over the entries of a map. *)
Lemma safe_entries {B} n fuel len i (entry : B → Dec B) acc :
  (∀ acc, progresses n (entry acc)) → ∀ ts, (length ts < n)%nat → (length ts < fuel)%nat →
  match d_entries fuel len i entry acc ts with
  | Ok (_, ts') => (length ts' ≤ length ts)%nat
  | OutOfFuel => False
  | _ => True
  end.
Proof.
  intros He. revert i acc. induction fuel as [|fuel IH]; intros i acc ts Hn Hf; [lia|].
  cbn [d_entries]. destruct ts as [|t ts]; [done|]. rewrite d_peek.
  destruct t; [| | | | | | | |simpl; lia| |].
  all: specialize (He acc _ Hn); unfold mbind, dec_bind;
    match type of He with match ?e with _ => _ end => destruct e as [[a ts']|?|?|] end; [|done..].
  all: destruct (match len with Some x => x <=? i + 1 | None => false end); [simpl in *; lia|]; specialize (IH (i + 1) a ts' ltac:(simpl in *; lia) ltac:(simpl in *; lia)).
  all: destruct (d_entries fuel len (i + 1) entry a ts') as [[c ts'']|?|?|]; [lia|done..].
Qed.
Lemma progresses_struct {B} n (entry : B → Dec B) init :
  (∀ acc, progresses n (entry acc)) → progresses n (d_struct entry init).
Proof.
  intros He. destruct n as [|n]; [intros ts Hn; lia|]. unfold d_struct.
  apply progresses_bind; [apply progresses_read|]. intros len ts Hn. unfold d_loop.
  apply (safe_entries n); [|done|lia]. intros acc. eapply progresses_le; [|apply He]. lia.
Qed.

Lemma progresses_unsigned n bits : progresses n (d_unsigned bits).
Proof. apply progresses_map_result, progresses_int. Qed.
Lemma progresses_then {A B} n (d : Dec A) (f : A → Dec B) :
  progresses n d → (∀ a, safe n (f a)) → progresses n (d ≫= f).
Proof.
  intros Hd Hf. destruct n as [|n]; [intros ts Hn; lia|]. apply progresses_bind; [done|].
  intros a. eapply safe_le, Hf. lia.
Qed.
Lemma progresses_attribute n : progresses n attribute_decode.
Proof.
  apply safe_progresses_bind; [apply safe_peek|]. intros t.
  assert (progresses n (i ← d_u32; mret (attribute_id i))) as Hi by apply progresses_map_result, progresses_unsigned.
  destruct t; try apply Hi. apply progresses_then; [apply progresses_read|]. intros len.
  apply safe_bind; [apply safe_all, progresses_any|]. intros l. apply safe_lift.
  unfold attribute_of_array. by destruct l as [|[] ?]; repeat case_match.
Qed.
Lemma progresses_AttributeSet n : progresses n AttributeSet_decode.
Proof.
  apply progresses_then; [apply progresses_read|]. intros len.
  apply safe_bind; [apply safe_all, progresses_attribute|]. intros l. apply safe_ret.
Qed.
Lemma progresses_timestamp n : progresses n timestamp_decode.
Proof.
  apply progresses_then; [apply progresses_read|]. intros t.
  case_match; [apply safe_fail|]. apply progresses_safe, progresses_unsigned.
Qed.
Lemma safe_tags n p : safe n (address_tags p).
Proof.
  intros ts Hn. revert p. induction ts as [|t ts IH]; intros p; [done|].
  destruct t as [| | | | | |t| | | |]; try (simpl; lia). cbn [address_tags]. simpl in Hn.
  specialize (IH ltac:(lia) (p || (t =? ADDRESS_TAG))). case_match; [|done..]. case_match. simpl. lia.
Qed.
Lemma ends_bind {E A B} (m : outcome E A) (f : A → outcome E B) :
  m ≠ OutOfFuel → (∀ a, f a ≠ OutOfFuel) → m ≫= f ≠ OutOfFuel.
Proof. destruct m; naive_solver. Qed.
Lemma ends_if {E A} (p : bool) (m m' : outcome E A) :
  m ≠ OutOfFuel → m' ≠ OutOfFuel → (if p then m else m') ≠ OutOfFuel.
Proof. by destruct p. Qed.
Lemma wrap_ends a : wrap a ≠ OutOfFuel.
Proof. unfold wrap. by destruct (wrap_opt a). Qed.
Lemma inner_from_bytes_ends l : inner_from_bytes l ≠ OutOfFuel.
Proof. unfold inner_from_bytes. destruct l; [done|]. by repeat apply ends_if. Qed.
Lemma from_bytes_ends l : from_bytes l ≠ OutOfFuel.
Proof. apply ends_bind; [apply inner_from_bytes_ends|apply wrap_ends]. Qed.
Lemma inner_to_string_ends a : inner_to_string a ≠ OutOfFuel.
Proof.
  apply ends_if; [done|]. apply ends_bind; [by repeat apply ends_if|]. intros d. by apply ends_if.
Qed.
Lemma inner_from_str_ends s : inner_from_str s ≠ OutOfFuel.
Proof.
  unfold inner_from_str, str_slice_from, str_slice_to, ok_or.
  repeat first [done | apply ends_if | apply inner_from_bytes_ends | apply inner_to_string_ends
               | apply ends_bind | case_match; done | intros ?].
Qed.
Lemma address_from_str_ends s : address_from_str s ≠ OutOfFuel.
Proof. apply ends_bind; [apply inner_from_str_ends|apply wrap_ends]. Qed.
Lemma progresses_address n : progresses n address_decode.
Proof.
  apply safe_progresses_bind; [apply safe_tags|]. intros tagged.
  apply safe_progresses_bind; [apply safe_peek|]. intros t.
  assert (progresses n (if negb tagged then d_fail "identities need to be tagged"
      else l ← d_bytes; d_lift (not_an_identity (from_bytes l)))) as Hl.
  { case_match; [apply progresses_fail|]. apply progresses_then; [apply progresses_read|]. intros l. apply safe_lift.
    pose proof (from_bytes_ends l). by destruct (from_bytes l). }
  destruct t; try apply Hl. apply progresses_then; [apply progresses_read|]. intros s'. apply safe_lift.
  pose proof (address_from_str_ends s'). by destruct (address_from_str s').
Qed.
Lemma progresses_code n : progresses n code_decode.
Proof. apply progresses_map_result, progresses_int. Qed.
Lemma progresses_arguments n : progresses n arguments_decode.
Proof.
  apply progresses_then; [apply progresses_read|]. intros len.
  apply safe_bind; [apply safe_all, progresses_pair; apply progresses_read|]. intros l. apply safe_ret.
Qed.

Lemma safe_arm {A B} n (d : Dec A) (f : A → B) : progresses n d → safe n (x ← d; mret (f x)).
Proof. intros Hd. by apply progresses_safe, progresses_map_result. Qed.

Lemma progresses_reason n : progresses n reason_decode.
Proof.
  apply progresses_map_result, progresses_struct. intros [[c m] args].
  apply progresses_then; [apply progresses_int|]. intros k.
  repeat case_match; try apply safe_ret; apply safe_arm;
    [apply progresses_code|apply progresses_arguments|apply progresses_read].
Qed.
End wire_laws.
