(* ===== verification/Protocol.v ===== *)
(** * many-protocol: messages and their envelopes

    Models [many-protocol/src/request.rs], [response.rs] and [lib.rs], and the identities and
    verifiers of [many-identity/src/identity.rs].

    An envelope is a [CoseSign1] of the [coset] library ([Cose]). *)
From S2P Require Import Prelude Error ErrorDisplay External Address Types Account Events.
From S2P Require Import Cose Wire WireLaws.

#[local] Open Scope string_scope.
#[local] Open Scope list_scope.
#[local] Open Scope N_scope.

(** ** Errors *)

Definition could_not_verify_signature (d : string) : ManyError :=
  many_error CouldNotVerifySignature "Could not verify the signature: {details}." [("details", d)].
Definition invalid_to_identity : ManyError :=
  many_error InvalidToIdentity "The identity of the to field is invalid or unexpected." [].
Definition unknown_destination (to this : string) : ManyError :=
  many_error UnknownDestination
    ("Unknown destination for message." +:+ nl +:+ "This is " +:+ dq +:+ "{this}" +:+ dq
       +:+ ", message was for " +:+ dq +:+ "{to}" +:+ dq +:+ ".") [("to", to); ("this", this)].
Definition empty_envelope : ManyError :=
  many_error EmptyEnvelope "An envelope must contain a payload." [].
Definition timestamp_out_of_range : ManyError :=
  many_error TimestampOutOfRange "The message's timestamp is out of the accepted range of the server." [].
Definition required_field_missing (f : string) : ManyError :=
  many_error RequiredFieldMissing "Field is required but missing: '{field}'." [("field", f)].
Definition duplicated_message : ManyError :=
  many_error DuplicatedMessage "This message was already processed." [].
Definition internal_server_error : ManyError :=
  many_error InternalServerError "An internal server error happened." [].

(** ** Requests *)

Record RequestMessage : Type := mkRequest {
  req_version : option N;
  req_from : option Address;
  req_to : Address;
  req_method : string;
  req_data : bytes;
  req_timestamp : option Timestamp;
  req_id : option N;
  req_nonce : option bytes;
  req_attributes : AttributeSet;
}.
Definition request_default : RequestMessage := mkRequest None None ANONYMOUS "" [] None None None ∅.
(** [self.from.unwrap_or_default()]. *)
Definition request_from (m : RequestMessage) : Address := default ANONYMOUS (req_from m).

(** A [SystemTime], in nanoseconds since the epoch. *)
Abbreviation SystemTime := N.
Definition NANOS : N := 1000000000.

Definition validate_time (m : RequestMessage) (now : SystemTime) (timeout_in_secs : N) :
    outcome ManyError unit :=
  if timeout_in_secs =? 0 then Err timestamp_out_of_range
  else
    t ← ok_or (req_timestamp m) (required_field_missing "timestamp");
    secs ← as_system_time t;
    let ts := secs * NANOS in
    let '(early, later) := if ts <? now then (ts, now) else (now, ts) in
    let diff := later - early in
    if timeout_in_secs <=? diff / NANOS then Err timestamp_out_of_range else Ok tt.

Section messages.
Context `{Minicbor, Base32, Crc16, Clock}.

Definition REQUEST_TAG : N := 10001.
Definition RESPONSE_TAG : N := 10002.

Definition count_if (p : bool) : N := if p then 1 else 0.
Definition sent_address (a : option Address) : bool :=
  match a with Some i => negb (is_anonymous i) | None => false end.

Definition request_encode (m : RequestMessage) : list Token :=
  TkTag REQUEST_TAG
  :: TkMap (Some (2
       + count_if (negb (bool_decide (req_from m = None) || bool_decide (req_from m = Some ANONYMOUS)))
       + count_if (negb (is_anonymous (req_to m)))
       + count_if (negb (bool_decide (req_data m = [])))
       + count_if (bool_decide (is_Some (req_id m)))
       + count_if (bool_decide (is_Some (req_nonce m)))
       + count_if (negb (bool_decide (req_attributes m = ∅)))))
  :: match req_from m with
     | Some i => if negb (is_anonymous i) then TkInt 1 :: address_encode i else []
     | None => []
     end
  ++ (if negb (is_anonymous (req_to m)) then TkInt 2 :: address_encode (req_to m) else [])
  ++ [TkInt 3; TkString (req_method m)]
  ++ (if negb (bool_decide (req_data m = [])) then [TkInt 4; TkBytes (req_data m)] else [])
  ++ TkInt 5 :: timestamp_encode (default clock_now (req_timestamp m))
  ++ match req_id m with Some i => [TkInt 6; TkInt (Z.of_N i)] | None => [] end
  ++ match req_nonce m with Some l => [TkInt 7; TkBytes l] | None => [] end
  ++ (if negb (bool_decide (req_attributes m = ∅)) then TkInt 8 :: AttributeSet_encode (req_attributes m)
      else []).

(** An entry of the map: the key decides the field of the builder. The value of an unknown key is not
    skipped. *)
Definition request_entry (m : RequestMessage) : Dec RequestMessage :=
  let '(mkRequest v f to e d t i n a) := m in
  k ← d_i8;
  match k with
  | 0 => v ← d_u8;
         if negb (v =? 1)%N then d_fail "Invalid version."
         else mret (mkRequest (Some v) f to e d t i n a)
  | 1 => f ← address_decode; mret (mkRequest v (Some f) to e d t i n a)
  | 2 => to ← address_decode; mret (mkRequest v f to e d t i n a)
  | 3 => e ← d_str; mret (mkRequest v f to e d t i n a)
  | 4 => d ← d_bytes; mret (mkRequest v f to e d t i n a)
  | 5 => t ← timestamp_decode; mret (mkRequest v f to e d (Some t) i n a)
  | 6 => i ← d_u64; mret (mkRequest v f to e d t (Some i) n a)
  | 7 => n ← d_bytes; mret (mkRequest v f to e d t i (Some n) a)
  | 8 => a ← AttributeSet_decode; mret (mkRequest v f to e d t i n a)
  | _ => mret m
  end%Z.
Definition request_decode : Dec RequestMessage :=
  t ← d_tag;
  if negb (t =? REQUEST_TAG) then d_fail "Invalid tag, expected 10001 for a message."
  else d_struct request_entry request_default.

(** ** Responses *)

Definition response_encode (r : ResponseMessage) : list Token :=
  TkTag RESPONSE_TAG
  :: TkMap (Some (2
       + count_if (negb (is_anonymous (resp_from r)))
       + count_if (negb (bool_decide (resp_to r = None) || bool_decide (resp_to r = Some ANONYMOUS)))
       + count_if (bool_decide (is_Some (resp_id r)))
       + count_if (negb (bool_decide (resp_attributes r = ∅)))))
  :: (if negb (is_anonymous (resp_from r)) then TkInt 1 :: address_encode (resp_from r) else [])
  ++ match resp_to r with
     | Some i => if negb (is_anonymous i) then TkInt 2 :: address_encode i else []
     | None => []
     end
  ++ TkInt 4 :: match resp_data r with Err e => reason_encode e | Ok l => [TkBytes l] | _ => [] end
  ++ TkInt 5 :: timestamp_encode (default clock_now (resp_timestamp r))
  ++ match resp_id r with Some i => [TkInt 6; TkInt (Z.of_N i)] | None => [] end
  ++ (if negb (bool_decide (resp_attributes r = ∅)) then TkInt 8 :: AttributeSet_encode (resp_attributes r)
      else []).

(** The id is not read: its key falls in the last arm, and its value is not skipped. *)
Definition response_entry (r : ResponseMessage) : Dec ResponseMessage :=
  let '(mkResponse v f to d t i a) := r in
  k ← d_i64;
  match k with
  | 0 => v ← d_u8; mret (mkResponse (Some v) f to d t i a)
  | 1 => f ← address_decode; mret (mkResponse v f to d t i a)
  | 2 => to ← address_decode; mret (mkResponse v f (Some to) d t i a)
  | 4 =>
      ty ← d_datatype;
      match ty with
      | TkBytes _ => l ← d_bytes; mret (mkResponse v f to (Ok l) t i a)
      | TkMap (Some _) => e ← reason_decode; mret (mkResponse v f to (Err e) t i a)
      | _ => mret r
      end
  | 5 => t ← timestamp_decode; mret (mkResponse v f to d (Some t) i a)
  | 8 => a ← AttributeSet_decode; mret (mkResponse v f to d t i a)
  | _ => mret r
  end%Z.
Definition response_decode : Dec ResponseMessage :=
  t ← d_tag;
  if negb (t =? RESPONSE_TAG) then d_fail "Invalid tag, expected 10002 for a message."
  else d_struct response_entry response_default.

Definition request_to_bytes (m : RequestMessage) : bytes := tokens_to_vec (request_encode m).
Definition request_from_bytes (l : bytes) : outcome string RequestMessage := decode_tokens request_decode l.
Definition response_to_bytes (r : ResponseMessage) : bytes := tokens_to_vec (response_encode r).
Definition response_from_bytes (l : bytes) : outcome string ResponseMessage := decode_tokens response_decode l.
End messages.

Definition response_from_request (m : RequestMessage) (from : Address) (data : outcome ManyError bytes) :
    ResponseMessage :=
  mkResponse (Some 1) from (req_from m) data None (req_id m) ∅.
Definition response_with_attribute (r : ResponseMessage) (a : Attribute) : ResponseMessage :=
  mkResponse (resp_version r) (resp_from r) (resp_to r) (resp_data r) (resp_timestamp r) (resp_id r)
    (AttributeSet_insert (resp_attributes r) a).1.

(** ** Envelopes *)

Record Identity : Type := mkIdentity {
  identity_address : Address;
  public_key : option CoseKey;
  sign_1 : CoseSign1 → outcome ManyError CoseSign1;
}.
Definition Verifier : Type := CoseSign1 → outcome ManyError Address.

Section envelopes.
Context `{Minicbor, Base32, Crc16, Clock}.

Definition AnonymousIdentity : Identity := mkIdentity ANONYMOUS None (λ e, Ok e).
Definition AnonymousVerifier : Verifier := λ e,
  if bool_decide (cose_key_id e ≠ []) then
    a ← from_bytes (cose_key_id e);
    if is_anonymous a then Ok ANONYMOUS else Err (unknown "Anonymous requires no key id.")
  else if bool_decide (cose_signature e ≠ []) then Err (unknown "Anonymous requires no signature.")
  else Ok ANONYMOUS.

(** A tuple of verifiers: the first that succeeds, or the errors of all. A tuple of one is its verifier. *)
Fixpoint verify_first (vs : list Verifier) (errs : list string) (e : CoseSign1) : outcome ManyError Address :=
  match vs with
  | [] => Err (could_not_verify_signature (String.concat ", " errs))
  | v :: vs =>
      match v e with
      | Ok a => Ok a
      | Err err => verify_first vs (errs ++ [ManyError_to_string err]) e
      | r => r
      end
  end.
Definition verify_tuple (vs : list Verifier) : Verifier := λ e,
  match vs with [v] => v e | _ => verify_first vs [] e end.

Definition request_of_envelope (e : CoseSign1) : outcome ManyError RequestMessage :=
  p ← ok_or (cose_payload e) empty_envelope;
  map_err deserialization_error (request_from_bytes p).

Definition decode_request_from_cose_sign1 (e : CoseSign1) (verifier : Verifier) :
    outcome ManyError RequestMessage :=
  from_id ← verifier e;
  if is_illegal from_id then Err invalid_from_identity
  else
    m ← request_of_envelope e;
    if negb (matches from_id (request_from m)) || is_illegal (request_from m)
    then Err invalid_from_identity else Ok m.

Definition decode_and_verify (e : CoseSign1) (verifier : Verifier) : outcome ManyError ResponseMessage :=
  a ← verifier e;
  if is_illegal a then Err invalid_from_identity
  else
    p ← ok_or (cose_payload e) empty_envelope;
    r ← map_err deserialization_error (response_from_bytes p);
    if bool_decide (a ≠ resp_from r) then Err invalid_from_identity else Ok r.
Definition decode_response_from_cose_sign1 (e : CoseSign1) (to : option Address) (verifier : Verifier) :
    outcome ManyError ResponseMessage :=
  r ← decode_and_verify e verifier;
  match to with
  | Some i => if bool_decide (i ≠ default ANONYMOUS (resp_to r)) then Err invalid_to_identity else Ok r
  | None => Ok r
  end.

Definition encode_cose_sign1_from_payload (p : bytes) (i : Identity) : outcome ManyError CoseSign1 :=
  sign_1 i (cose_of_payload p).
Definition encode_cose_sign1_from_response (r : ResponseMessage) (i : Identity) :
    outcome ManyError CoseSign1 := encode_cose_sign1_from_payload (response_to_bytes r) i.
Definition encode_cose_sign1_from_request (m : RequestMessage) (i : Identity) :
    outcome ManyError CoseSign1 :=
  if bool_decide (req_from m = Some ILLEGAL) then Err invalid_from_identity
  else encode_cose_sign1_from_payload (request_to_bytes m) i.
End envelopes.
