(* ===== verification/ProtocolLaws.v ===== *)
(** * many-protocol: what survives the wire, and who may have sent a message *)
From S2P Require Import Prelude Error ErrorDisplay External Address Types Account Events.
From S2P Require Import Cose Wire WireLaws Protocol.

#[local] Open Scope string_scope.
#[local] Open Scope list_scope.
#[local] Open Scope N_scope.

Section protocol_laws.
Context `{Minicbor, Base32, Crc16, Clock}.

Lemma anonymous_negb a : negb (is_anonymous a) = negb (bool_decide (a = ANONYMOUS)).
Proof.
  f_equal. case_bool_decide as Ha; [by rewrite Ha|]. apply not_true_iff_false. by intros ?%is_anonymous_true.
Qed.

(** ** Requests *)

Definition opt_list {A} (p : bool) (x : A) : list A := if p then [x] else [].

Lemma concat_opt_list {A B} (p : bool) (x : list A) (g : B) :
  concat (opt_list p (x, g)).*1 = if p then x else [].
Proof. destruct p; csimpl; by rewrite ?app_nil_r. Qed.

(** Setting a field of the builder. *)
Definition set_from (f : Address) (m : RequestMessage) : RequestMessage :=
  let '(mkRequest v _ to e d t i n a) := m in mkRequest v (Some f) to e d t i n a.
Definition set_to (to : Address) (m : RequestMessage) : RequestMessage :=
  let '(mkRequest v f _ e d t i n a) := m in mkRequest v f to e d t i n a.
Definition set_method (e : string) (m : RequestMessage) : RequestMessage :=
  let '(mkRequest v f to _ d t i n a) := m in mkRequest v f to e d t i n a.
Definition set_data (d : bytes) (m : RequestMessage) : RequestMessage :=
  let '(mkRequest v f to e _ t i n a) := m in mkRequest v f to e d t i n a.
Definition set_timestamp (t : Timestamp) (m : RequestMessage) : RequestMessage :=
  let '(mkRequest v f to e d _ i n a) := m in mkRequest v f to e d (Some t) i n a.
Definition set_id (i : N) (m : RequestMessage) : RequestMessage :=
  let '(mkRequest v f to e d t _ n a) := m in mkRequest v f to e d t (Some i) n a.
Definition set_nonce (n : bytes) (m : RequestMessage) : RequestMessage :=
  let '(mkRequest v f to e d t i _ a) := m in mkRequest v f to e d t i (Some n) a.
Definition set_attributes (a : AttributeSet) (m : RequestMessage) : RequestMessage :=
  let '(mkRequest v f to e d t i n _) := m in mkRequest v f to e d t i n a.

Definition request_entries (m : RequestMessage) : list (list Token * (RequestMessage → RequestMessage)) :=
  opt_list (sent_address (req_from m)) (TkInt 1 :: address_encode (request_from m), set_from (request_from m))
  ++ opt_list (negb (is_anonymous (req_to m))) (TkInt 2 :: address_encode (req_to m), set_to (req_to m))
  ++ [([TkInt 3; TkString (req_method m)], set_method (req_method m))]
  ++ opt_list (negb (bool_decide (req_data m = []))) ([TkInt 4; TkBytes (req_data m)], set_data (req_data m))
  ++ [(TkInt 5 :: timestamp_encode (default clock_now (req_timestamp m)),
       set_timestamp (default clock_now (req_timestamp m)))]
  ++ opt_list (bool_decide (is_Some (req_id m)))
       ([TkInt 6; TkInt (Z.of_N (default 0 (req_id m)))], set_id (default 0 (req_id m)))
  ++ opt_list (bool_decide (is_Some (req_nonce m)))
       ([TkInt 7; TkBytes (default [] (req_nonce m))], set_nonce (default [] (req_nonce m)))
  ++ opt_list (negb (bool_decide (req_attributes m = ∅)))
       (TkInt 8 :: AttributeSet_encode (req_attributes m), set_attributes (req_attributes m)).

Lemma request_encode_entries m :
  request_encode m = TkTag REQUEST_TAG
    :: TkMap (Some (N.of_nat (length (request_entries m)))) :: concat (request_entries m).*1.
Proof.
  destruct m as [v f to e d t i n a]. unfold request_encode, request_entries, request_from, sent_address.
  cbn [req_from req_to req_method req_data req_timestamp req_id req_nonce req_attributes default].
  f_equal. f_equal.
  - do 2 f_equal. rewrite !length_app. unfold opt_list, count_if.
    assert (negb (bool_decide (f = None) || bool_decide (f = Some ANONYMOUS))
            = match f with Some i => negb (is_anonymous i) | None => false end) as ->.
    { destruct f as [f|]; [|done]. rewrite anonymous_negb, (bool_decide_false (Some f = None)) by done.
      simpl. f_equal. apply bool_decide_ext. naive_solver. }
    destruct f as [f|]; [destruct (is_anonymous f)|]; destruct (is_anonymous to), (bool_decide (d = [])), i, n,
      (bool_decide (a = ∅)); done.
  - rewrite !fmap_app, !concat_app, !concat_opt_list. csimpl. rewrite ?app_nil_r.
    by destruct f as [f|], i, n.
Qed.

(** What a message can hold. *)
Record request_wf (m : RequestMessage) : Prop := {
  wf_timestamp : default clock_now (req_timestamp m) < 2 ^ 64;
  wf_id i : req_id m = Some i → i < 2 ^ 64;
  wf_attributes : map_Forall (λ i args, attribute_wf (mkAttribute i args)) (req_attributes m);
}.

Lemma d_i8_key {B} (f : Z → Dec B) k rest : (-128 <= k < 128)%Z → (d_i8 ≫= f) (TkInt k :: rest) = f k rest.
Proof. intros Hk. apply dec_bind_ok, d_int_ok. lia. Qed.

Lemma Forall_opt_list {A} (P : A → Prop) (p : bool) x : (p = true → P x) → Forall P (opt_list p x).
Proof. destruct p; simpl; [|by rewrite Forall_nil]. intros Hx. apply Forall_singleton. auto. Qed.

(** An entry of a request: a key, and a value that the arm of the key reads back. *)
Ltac request_entry_ok lem :=
  split; [by do 2 eexists|]; intros [] ?; cbn [fst snd]; rewrite <-app_comm_cons; unfold request_entry;
  rewrite d_i8_key by lia; cbn beta iota; erewrite (reads_bind _ _ _ _ _ lem); done.

Lemma request_entries_ok m : request_wf m → Forall (entry_ok request_entry) (request_entries m).
Proof.
  intros [Ht Hi Ha]. unfold request_entries. rewrite !Forall_app, !Forall_singleton.
  split_and!; try (apply Forall_opt_list; intros Hp).
  - request_entry_ok (address_decode_ok (request_from m)).
  - request_entry_ok (address_decode_ok (req_to m)).
  - split; [by do 2 eexists|]. intros [] ?. cbn [fst snd app]. unfold request_entry. by rewrite d_i8_key by lia.
  - split; [by do 2 eexists|]. intros [] ?. cbn [fst snd app]. unfold request_entry. by rewrite d_i8_key by lia.
  - request_entry_ok (timestamp_decode_ok _ Ht).
  - apply bool_decide_eq_true in Hp as [i Hid]. specialize (Hi i Hid). rewrite Hid.
    split; [by do 2 eexists|]. intros [] rest. cbn [fst snd app from_option id]. unfold request_entry.
    rewrite d_i8_key by lia. cbn beta iota. unfold d_u64.
    erewrite dec_bind_ok; [|apply d_unsigned_ok; lia]. done.
  - split; [by do 2 eexists|]. intros [] ?. cbn [fst snd app]. unfold request_entry. by rewrite d_i8_key by lia.
  - request_entry_ok (AttributeSet_decode_ok _ Ha).
Qed.

(** What arrives: the version is not sent, the anonymous address is the absence of a sender, and a
    message without a timestamp has the time of its encoding. *)
Definition as_received (m : RequestMessage) : RequestMessage :=
  mkRequest None (if sent_address (req_from m) then req_from m else None) (req_to m) (req_method m)
    (req_data m) (Some (default clock_now (req_timestamp m))) (req_id m) (req_nonce m) (req_attributes m).

Lemma request_decode_ok m : request_wf m → reads_back request_decode (request_encode m) (as_received m).
Proof.
  intros Hm rest. rewrite request_encode_entries, <-!app_comm_cons. unfold request_decode, d_tag.
  erewrite d_read_ok by done. cbn [negb N.eqb]. rewrite N.eqb_refl. cbn [negb].
  rewrite d_struct_ok; [|by apply request_entries_ok|].
  - do 2 f_equal. destruct m as [v f to e d t i n a]. unfold request_entries, as_received, request_from, opt_list.
    cbn [req_from req_to req_method req_data req_timestamp req_id req_nonce req_attributes sent_address].
    rewrite (anonymous_negb to). destruct (bool_decide_reflect (to = ANONYMOUS)) as [->|_],
      (bool_decide_reflect (d = [])) as [->|_], (bool_decide_reflect (a = ∅)) as [->|_].
    all: destruct f as [f|]; [destruct (is_anonymous f) eqn:Hf|]; destruct i, n; cbn; by rewrite ?Hf.
  - unfold request_entries. by destruct (opt_list (sent_address _) _), (opt_list (negb (is_anonymous _)) _).
Qed.

(** ** Responses *)

Record response_wf (r : ResponseMessage) : Prop := {
  wf_resp_data : match resp_data r with Ok _ => True | Err e => code_in_range (code e) | _ => False end;
  wf_resp_timestamp : default clock_now (resp_timestamp r) < 2 ^ 64;
  wf_resp_id i : resp_id r = Some i → i < 2 ^ 63;
  wf_resp_attributes : map_Forall (λ i args, attribute_wf (mkAttribute i args)) (resp_attributes r);
}.

Definition resp_set_from (f : Address) (r : ResponseMessage) : ResponseMessage :=
  let '(mkResponse v _ to d t i a) := r in mkResponse v f to d t i a.
Definition resp_set_to (to : Address) (r : ResponseMessage) : ResponseMessage :=
  let '(mkResponse v f _ d t i a) := r in mkResponse v f (Some to) d t i a.
Definition resp_set_data (d : outcome ManyError bytes) (r : ResponseMessage) : ResponseMessage :=
  let '(mkResponse v f to _ t i a) := r in mkResponse v f to d t i a.
Definition resp_set_timestamp (t : Timestamp) (r : ResponseMessage) : ResponseMessage :=
  let '(mkResponse v f to d _ i a) := r in mkResponse v f to d (Some t) i a.
Definition resp_set_attributes (a : AttributeSet) (r : ResponseMessage) : ResponseMessage :=
  let '(mkResponse v f to d t i _) := r in mkResponse v f to d t i a.

Definition data_encode (d : outcome ManyError bytes) : list Token :=
  match d with Err e => reason_encode e | Ok l => [TkBytes l] | _ => [] end.

(** The entries before the id. *)
Definition response_entries (r : ResponseMessage) : list (list Token * (ResponseMessage → ResponseMessage)) :=
  opt_list (negb (is_anonymous (resp_from r))) (TkInt 1 :: address_encode (resp_from r), resp_set_from (resp_from r))
  ++ opt_list (sent_address (resp_to r))
       (TkInt 2 :: address_encode (default ANONYMOUS (resp_to r)), resp_set_to (default ANONYMOUS (resp_to r)))
  ++ [(TkInt 4 :: data_encode (resp_data r), resp_set_data (resp_data r))]
  ++ [(TkInt 5 :: timestamp_encode (default clock_now (resp_timestamp r)),
       resp_set_timestamp (default clock_now (resp_timestamp r)))].
Definition attribute_entries (r : ResponseMessage) : list (list Token * (ResponseMessage → ResponseMessage)) :=
  opt_list (negb (bool_decide (resp_attributes r = ∅)))
    (TkInt 8 :: AttributeSet_encode (resp_attributes r), resp_set_attributes (resp_attributes r)).

Lemma response_encode_entries r :
  response_encode r = TkTag RESPONSE_TAG
    :: TkMap (Some (N.of_nat (length (response_entries r)) + count_if (bool_decide (is_Some (resp_id r)))
                    + N.of_nat (length (attribute_entries r))))
    :: concat (response_entries r).*1
    ++ match resp_id r with Some i => [TkInt 6; TkInt (Z.of_N i)] | None => [] end
    ++ concat (attribute_entries r).*1.
Proof.
  destruct r as [v f to d t i a]. unfold response_encode, response_entries, attribute_entries, data_encode.
  cbn [resp_from resp_to resp_data resp_timestamp resp_id resp_attributes].
  f_equal. f_equal.
  - do 2 f_equal. rewrite !length_app. unfold opt_list, count_if, sent_address.
    assert (negb (bool_decide (to = None) || bool_decide (to = Some ANONYMOUS))
            = match to with Some i => negb (is_anonymous i) | None => false end) as ->.
    { destruct to as [to|]; [|done]. rewrite anonymous_negb, (bool_decide_false (Some to = None)) by done.
      simpl. f_equal. apply bool_decide_ext. naive_solver. }
    destruct to as [to|]; [destruct (is_anonymous to)|]; destruct (is_anonymous f), i, (bool_decide (a = ∅)); done.
  - rewrite !fmap_app, !concat_app, !concat_opt_list. csimpl. rewrite ?app_nil_r, <-?app_assoc. unfold sent_address.
    rewrite <-app_comm_cons, <-app_assoc. by destruct to as [to|].
Qed.

Ltac response_entry_ok lem :=
  split; [by do 2 eexists|]; intros [] ?; cbn [fst snd]; rewrite <-app_comm_cons; unfold response_entry;
  rewrite d_i64_key by lia; cbn beta iota; erewrite (reads_bind _ _ _ _ _ lem); done.

Lemma data_entry_ok d :
  match d with Ok _ => True | Err e => code_in_range (code e) | _ => False end →
  entry_ok response_entry (TkInt 4 :: data_encode d, resp_set_data d).
Proof.
  intros Hd. split; [by do 2 eexists|]. intros [v f to d' t i a] rest. cbn [fst snd]. rewrite <-app_comm_cons.
  unfold response_entry. rewrite d_i64_key by lia. cbn beta iota. destruct d as [l|e|?|]; [|..|done|done].
  - done.
  - unfold data_encode. rewrite reason_encode_entries, <-app_comm_cons, d_peek, app_comm_cons, <-reason_encode_entries.
    by rewrite (reads_bind _ _ _ _ _ (reason_decode_ok e Hd)).
Qed.

Lemma response_entries_ok r : response_wf r → Forall (entry_ok response_entry) (response_entries r).
Proof.
  intros [Hd Ht _ Ha]. unfold response_entries. rewrite !Forall_app, !Forall_singleton.
  split_and!; try (apply Forall_opt_list; intros _).
  - response_entry_ok (address_decode_ok (resp_from r)).
  - response_entry_ok (address_decode_ok (default ANONYMOUS (resp_to r))).
  - by apply data_entry_ok.
  - response_entry_ok (timestamp_decode_ok _ Ht).
Qed.
Lemma attribute_entries_ok r : response_wf r → Forall (entry_ok response_entry) (attribute_entries r).
Proof.
  intros [_ _ _ Ha]. unfold attribute_entries. apply Forall_opt_list. intros _.
  response_entry_ok (AttributeSet_decode_ok _ Ha).
Qed.

(** What arrives of a response: the version is not sent, and the id is not read. *)
Definition response_received (r : ResponseMessage) (a : AttributeSet) : ResponseMessage :=
  mkResponse None (resp_from r) (if sent_address (resp_to r) then resp_to r else None) (resp_data r)
    (Some (default clock_now (resp_timestamp r))) None a.

Lemma response_entries_effect r a :
  foldl (λ x e, e.2 x) (mkResponse None ANONYMOUS None (Ok []) None None a) (response_entries r)
  = response_received r a.
Proof.
  destruct r as [v f to d t i a']. unfold response_entries, response_received, opt_list.
  cbn [resp_from resp_to resp_data resp_timestamp sent_address].
  rewrite (anonymous_negb f). destruct (bool_decide_reflect (f = ANONYMOUS)) as [->|_].
  all: destruct to as [to|]; [destruct (is_anonymous to) eqn:Hto|]; cbn; by rewrite ?Hto.
Qed.

Lemma response_entries_nonempty r : response_entries r ≠ [].
Proof. unfold response_entries. by destruct (opt_list _ _), (opt_list (sent_address _) _). Qed.

Lemma response_reads_back r :
  response_wf r → resp_id r = None →
  reads_back response_decode (response_encode r) (response_received r (resp_attributes r)).
Proof.
  intros Hr Hid rest. rewrite response_encode_entries, Hid. unfold response_decode, d_tag.
  rewrite <-app_comm_cons. erewrite d_read_ok by done. rewrite N.eqb_refl. cbn [negb app].
  rewrite <-concat_app, <-fmap_app.
  replace (N.of_nat (length (response_entries r)) + count_if (bool_decide (is_Some None))
           + N.of_nat (length (attribute_entries r)))
    with (N.of_nat (length (response_entries r ++ attribute_entries r))) by (rewrite length_app; simpl; lia).
  rewrite d_struct_ok.
  - rewrite foldl_app. unfold response_default. rewrite response_entries_effect. do 2 f_equal.
    unfold attribute_entries. by destruct (bool_decide_reflect (resp_attributes r = ∅)) as [->|_].
  - apply Forall_app. split; [by apply response_entries_ok|by apply attribute_entries_ok].
  - destruct (response_entries r) eqn:He; [by destruct (response_entries_nonempty r)|done].
Qed.
Lemma response_decode_ok r :
  response_wf r → resp_id r = None →
  fst <$> response_decode (response_encode r) = Ok (response_received r (resp_attributes r)).
Proof. intros Hr Hid. by rewrite <-(app_nil_r (response_encode r)), response_reads_back. Qed.

(** A key the decoder does not know, and the number of an id, count as entries. *)
Lemma response_entry_other r k rest :
  (0 <= k < 2 ^ 63)%Z → k ∉ [0; 1; 2; 4; 5; 8]%Z → response_entry r (TkInt k :: rest) = Ok (r, rest).
Proof.
  intros Hk Hn. destruct r. unfold response_entry. rewrite d_i64_key by lia.
  rewrite !not_elem_of_cons in Hn. destruct_and? Hn.
  repeat match goal with |- context [match ?x with _ => _ end] => is_var x; destruct x; try done end.
Qed.

Lemma response_decode_id r i :
  response_wf r → resp_id r = Some i → resp_attributes r = ∅ ∨ 8 < i →
  fst <$> response_decode (response_encode r) = Ok (response_received r ∅).
Proof.
  intros Hr Hid Hi. pose proof (wf_resp_id r Hr i Hid) as Hlt.
  rewrite response_encode_entries, Hid. unfold response_decode, d_tag.
  erewrite d_read_ok by done. rewrite N.eqb_refl. cbn [negb].
  unfold d_struct, d_map. erewrite d_read_ok by done. unfold d_loop.
  set (es := response_entries r). set (x := N.of_nat (length es) + _ + _).
  assert (x = N.of_nat (length es) + 1 + N.of_nat (length (attribute_entries r))) as Hx by done. clearbody x.
  set (rest := [TkInt 6; TkInt (Z.of_N i)] ++ concat (attribute_entries r).*1).
  assert (∃ fuel, S (length (concat es.*1 ++ rest)) = (length es + S (S fuel))%nat) as [fuel ->].
  { exists (S (length (concat es.*1 ++ rest)) - length es - 2)%nat. rewrite length_app. unfold rest. rewrite length_app.
    assert (length es ≤ length (concat es.*1))%nat.
    { apply length_concat_nonempty. pose proof (response_entries_ok r Hr) as Hok. fold es in Hok.
      eapply Forall_impl; [exact Hok|]. intros e He. by destruct (entry_key _ _ He) as (? & ? & ->). }
    simpl. lia. }
  rewrite d_entries_prefix by (try (by apply response_entries_ok); lia).
  pose proof (response_entries_effect r ∅) as He. fold es in He. unfold response_default. rewrite He.
  unfold rest. cbn [app].
  erewrite d_entries_cons by (apply response_entry_other; [lia|set_solver]).
  destruct (N.leb_spec x (0 + N.of_nat (length es) + 1)); [done|].
  assert (8 < i ∧ length (attribute_entries r) = 1%nat) as [Hi8 Hl].
  { unfold attribute_entries, opt_list in *. destruct Hi as [Hi|Hi].
    - rewrite Hi, bool_decide_true in Hx by done. simpl in Hx. lia.
    - split; [done|]. destruct (bool_decide_reflect (resp_attributes r = ∅)); simpl in *; lia. }
  erewrite d_entries_cons.
  2:{ apply response_entry_other; [lia|]. rewrite !not_elem_of_cons. split_and!; try lia. apply not_elem_of_nil. }
  destruct (N.leb_spec x (0 + N.of_nat (length es) + 1 + 1)); [done|lia].
Qed.

(** ** Termination and panics *)

Lemma progresses_request n : progresses n request_decode.
Proof.
  apply progresses_then; [apply progresses_read|]. intros t. case_match; [apply safe_fail|].
  apply progresses_safe, progresses_struct. intros []. apply progresses_then; [apply progresses_int|]. intros k.
  repeat case_match; try apply safe_ret.
  1: apply safe_bind; [apply progresses_safe, progresses_unsigned|intros ?; case_match; [apply safe_fail|apply safe_ret]].
  all: apply safe_arm; first [apply progresses_address | apply progresses_timestamp | apply progresses_AttributeSet
         | apply progresses_unsigned | apply progresses_read].
Qed.
Lemma progresses_response n : progresses n response_decode.
Proof.
  apply progresses_then; [apply progresses_read|]. intros t. case_match; [apply safe_fail|].
  apply progresses_safe, progresses_struct. intros []. apply progresses_then; [apply progresses_int|]. intros k.
  repeat case_match; try apply safe_ret.
  all: try (apply safe_arm; first [apply progresses_address | apply progresses_timestamp
         | apply progresses_AttributeSet | apply progresses_unsigned]).
  apply safe_bind; [apply safe_peek|]. intros [| | | | |[]| | | | |]; try apply safe_ret; apply safe_arm;
    [apply progresses_read|apply progresses_reason].
Qed.

(** C32: Decoding a request or a response from any bytes ends: the loops over maps and
    arrays and the nesting of values take a token of the input at every step, whatever lengths
    the input announces. *)
Theorem wire_decoding_terminates l :
  request_from_bytes l ≠ OutOfFuel ∧ response_from_bytes l ≠ OutOfFuel.
Proof.
  unfold request_from_bytes, response_from_bytes, decode_tokens. split.
  - pose proof (progresses_request (S (length (tokens l))) (tokens l) ltac:(lia)) as Hr.
    by destruct (request_decode (tokens l)) as [[]|?|?|].
  - pose proof (progresses_response (S (length (tokens l))) (tokens l) ltac:(lia)) as Hr.
    by destruct (response_decode (tokens l)) as [[]|?|?|].
Qed.

Lemma address_from_str_panics s :
  starts_with_m s = true → (3 ≤ String.length s)%nat → is_char_boundary s (String.length s - 2) = false →
  ∃ t, address_from_str s = Panic t.
Proof.
  intros Hm Hl Hb. unfold address_from_str, inner_from_str. rewrite Hm.
  destruct (Nat.ltb_spec (String.length s) 3) as [?|_]; [lia|]. cbn [negb]. unfold str_slice_from.
  destruct (is_char_boundary s 1); [|by eexists]. cbn [mbind outcome_bind].
  unfold str_slice_to. rewrite Hb. destruct (_ || _) eqn:Htail; [|by eexists]. exfalso.
  destruct s as [|c s]; [done|]. cbn [String.length] in *.
  change (String.substring 1 (S (String.length s) - 1) (String c s))
    with (String.substring 0 (String.length s - 0) s) in Htail.
  rewrite Nat.sub_0_r, substring_all in Htail.
  apply orb_true_iff in Htail as [->%bool_decide_eq_true | ->%bool_decide_eq_true]; done.
Qed.

(** The decoder of addresses panics on a text that it cuts inside a character; as the sender of a request
    such a text makes the decoding of the request panic. *)
Lemma request_decode_panics s n rest :
  starts_with_m s = true → (3 ≤ String.length s)%nat → is_char_boundary s (String.length s - 2) = false →
  ∃ t, request_decode (TkTag REQUEST_TAG :: TkMap n :: TkInt 1 :: TkString s :: rest) = Panic t.
Proof.
  intros Hm Hl Hb. destruct (address_from_str_panics s Hm Hl Hb) as [t Ht]. exists t.
  unfold request_decode, d_tag. erewrite d_read_ok by done. rewrite N.eqb_refl. cbn [negb].
  unfold d_struct, d_map. erewrite d_read_ok by done. unfold d_loop. cbn [length d_entries]. rewrite d_peek.
  unfold request_entry, request_default, mbind at 1, dec_bind at 1. rewrite d_i8_key by lia. cbn beta iota.
  unfold address_decode, mbind, dec_bind. cbn [address_tags d_datatype d_str d_read]. unfold d_lift, not_an_identity.
  by rewrite Ht.
Qed.

(** ** Round trips *)

Lemma decode_tokens_ok `{!MinicborLaws} {A} (d : Dec A) ts :
  Forall token_fits ts → decode_tokens d (tokens_to_vec ts) = fst <$> d ts.
Proof. intros Hf. unfold decode_tokens. by rewrite tokens_tokens_to_vec. Qed.

Lemma as_received_same m :
  req_version m = None → req_from m ≠ Some ANONYMOUS → req_timestamp m ≠ None → as_received m = m.
Proof.
  destruct m as [v f to e d [t|] i n a]; [|done]. unfold as_received. simpl. intros -> Ha _. f_equal.
  destruct f as [f|]; [|done]. simpl. destruct (is_anonymous f) eqn:Hf'; [|done].
  by apply is_anonymous_true in Hf' as ->.
Qed.

(** C22: A request that is encoded is decoded as the same request, except that the version is
    never sent, that an anonymous sender is an absent one and that a missing timestamp is that of
    the encoding; a request without these is decoded as it was. *)
Theorem request_roundtrip `{!MinicborLaws} m :
  request_wf m → Forall token_fits (request_encode m) →
  request_from_bytes (request_to_bytes m) = Ok (as_received m)
  ∧ (req_version m = None → req_from m ≠ Some ANONYMOUS → req_timestamp m ≠ None → as_received m = m).
Proof.
  intros Hm Hf. split.
  - unfold request_from_bytes, request_to_bytes. rewrite decode_tokens_ok by done.
    pose proof (request_decode_ok m Hm []) as Hd. rewrite app_nil_r in Hd. by rewrite Hd.
  - apply as_received_same.
Qed.

(** A response without an id is decoded as it was encoded, up to the version, an anonymous
    destination and a missing timestamp. With an id, the id is lost, and a response that has attributes
    too and an id above 8 loses them: the decoder has no case for the key of the id, leaves its
    value in place, takes it for the next key, and stops one entry early. *)
Theorem response_roundtrip `{!MinicborLaws} r :
  response_wf r → Forall token_fits (response_encode r) →
  (resp_id r = None →
     response_from_bytes (response_to_bytes r) = Ok (response_received r (resp_attributes r)))
  ∧ (∀ i, resp_id r = Some i → resp_attributes r = ∅ ∨ 8 < i →
       response_from_bytes (response_to_bytes r) = Ok (response_received r ∅)).
Proof.
  intros Hr Hf. unfold response_from_bytes, response_to_bytes. rewrite decode_tokens_ok by done. split.
  - by apply response_decode_ok.
  - intros i. by apply response_decode_id.
Qed.
End protocol_laws.

(** ** Times *)

Lemma as_system_time_ok t x : as_system_time t = Ok x ↔ x = t ∧ t ≤ I64_MAX.
Proof. unfold as_system_time. destruct (N.leb_spec t I64_MAX); naive_solver lia. Qed.

Lemma validate_time_answers m now timeout : answers (validate_time m now timeout) = true.
Proof.
  unfold validate_time, as_system_time. destruct (timeout =? 0); [done|]. destruct (req_timestamp m) as [t|]; [|done].
  cbn [ok_or mbind outcome_bind]. destruct (t <=? I64_MAX); [|done]. cbn [mbind outcome_bind].
  destruct (_ <? _); by destruct (_ <=? _).
Qed.

Lemma validate_time_iff m now timeout :
  validate_time m now timeout = Ok tt ↔
     ∃ t, req_timestamp m = Some t ∧ t ≤ I64_MAX
          ∧ t * NANOS < now + timeout * NANOS ∧ now < (t + timeout) * NANOS.
Proof.
  unfold validate_time. destruct (N.eqb_spec timeout 0) as [->|Ht].
  { split; [done|]. unfold NANOS. intros (t & _ & _ & ? & ?). lia. }
  destruct (req_timestamp m) as [t|]; [|naive_solver]. cbn [ok_or mbind outcome_bind].
  unfold as_system_time. destruct (N.leb_spec t I64_MAX) as [Hmax|Hmax].
  2:{ split; [done|]. intros (? & [= <-] & ? & _). lia. }
  cbn [mbind outcome_bind]. unfold NANOS. set (ts := t * 1000000000). assert (ts = t * 1000000000) as Hts by done.
  clearbody ts.
  destruct (N.ltb_spec ts now) as [Hlt|Hlt]; cbn beta iota zeta.
  all: match goal with |- context [?x <=? ?d] => destruct (N.leb_spec x d) as [Hd|Hd] end.
  all: split; [|intros (? & [= <-] & ? & ? & ?); try done]; intros; try done.
  all: try (exists t; split_and!; [done|done|..]).
  all: dlia.
Qed.

(** C40: A request passes the check of its time exactly when it has a timestamp the
    system can represent that is strictly less than the timeout away from the time of the server, before or
    after, to the nanosecond; a timeout of 0 refuses everything. The check never panics. *)
Theorem validate_time_spec m now timeout :
  (validate_time m now timeout = Ok tt ↔
     ∃ t, req_timestamp m = Some t ∧ t ≤ I64_MAX
          ∧ t * NANOS < now + timeout * NANOS ∧ now < (t + timeout) * NANOS)
  ∧ answers (validate_time m now timeout) = true.
Proof. split; [apply validate_time_iff|apply validate_time_answers]. Qed.

(** ** Who may have sent a message *)

Section authentication.
Context `{Minicbor, Base32, Crc16, Clock}.

(** A request is accepted exactly when the verifier resolves the signer of its
    envelope to an address that is not the illegal one and the sender the request names is that address up
    to the subresource: an anonymous signer sends for the anonymous address only, and any other
    signer for addresses of its own public key. *)
Theorem decode_request_authenticated e v m :
  decode_request_from_cose_sign1 e v = Ok m ↔
    ∃ a p, v e = Ok a ∧ is_illegal a = false ∧ cose_payload e = Some p ∧ request_from_bytes p = Ok m
      ∧ is_illegal (request_from m) = false
      ∧ (if is_anonymous a then request_from m = ANONYMOUS
         else inner_hash (inner a) = inner_hash (inner (request_from m))).
Proof.
  unfold decode_request_from_cose_sign1, request_of_envelope, ok_or, map_err. split.
  - intros (a & Ha & Hr)%bind_Ok_inv. destruct (is_illegal a) eqn:Hia; [done|].
    apply bind_Ok_inv in Hr as (m' & Hm & Hr). apply bind_Ok_inv in Hm as (p & Hp & Hm).
    destruct (cose_payload e) as [p'|]; [|done]. injection Hp as ->.
    destruct (request_from_bytes p) as [m''|?|?|] eqn:Hb; [|done..]. injection Hm as ->.
    destruct (_ || _) eqn:Hc; [done|]. injection Hr as ->. apply orb_false_iff in Hc as [Hc%negb_false_iff Hi].
    exists a, p. split_and!; try done. unfold matches in Hc. rewrite Hia in Hc.
    destruct (is_anonymous a); [by apply is_anonymous_true|]. by apply bool_decide_eq_true in Hc.
  - intros (a & p & -> & Hia & -> & Hb & Hi & Hc). cbn [mbind outcome_bind]. rewrite Hia, Hb.
    cbn [mbind outcome_bind]. rewrite Hi.
    unfold matches. rewrite Hia. destruct (is_anonymous a); [by rewrite Hc|].
    by rewrite bool_decide_true.
Qed.

Lemma request_from_received m : request_from (as_received m) = request_from m.
Proof.
  unfold request_from, as_received. simpl. destruct (req_from m) as [f|]; [|done]. simpl.
  destruct (is_anonymous f) eqn:Hfa; [|done]. by apply is_anonymous_true in Hfa as ->.
Qed.
Lemma decode_request_of `{!MinicborLaws} e v a m :
  request_wf m → Forall token_fits (request_encode m) →
  v e = Ok a → is_illegal a = false → cose_payload e = Some (request_to_bytes m) →
  decode_request_from_cose_sign1 e v
  = if negb (matches a (request_from m)) || is_illegal (request_from m) then Err invalid_from_identity
    else Ok (as_received m).
Proof.
  intros Hm Hf Hv Hi Hp. unfold decode_request_from_cose_sign1, request_of_envelope. rewrite Hv, Hp.
  cbn [ok_or mbind outcome_bind]. rewrite Hi. unfold request_from_bytes, request_to_bytes.
  rewrite decode_tokens_ok by done. pose proof (request_decode_ok m Hm []) as Hd. rewrite app_nil_r in Hd. rewrite Hd.
  cbn [fmap outcome_fmap fst map_err mbind outcome_bind]. by rewrite request_from_received.
Qed.

(** What the anonymous identity signs the anonymous verifier accepts, and through it the
    request arrives: an anonymous request that the wire can carry is decoded from its envelope as it is
    received. A named sender is refused. *)
Theorem anonymous_exchange `{!MinicborLaws} m :
  request_wf m → Forall token_fits (request_encode m) → request_from m ≠ ILLEGAL →
  (encode_cose_sign1_from_request m AnonymousIdentity ≫= λ e, decode_request_from_cose_sign1 e AnonymousVerifier)
  = if is_anonymous (request_from m) then Ok (as_received m) else Err invalid_from_identity.
Proof.
  intros Hm Hf Hill. unfold encode_cose_sign1_from_request.
  rewrite bool_decide_false by (intros Hfrom; apply Hill; unfold request_from; by rewrite Hfrom).
  unfold encode_cose_sign1_from_payload, AnonymousIdentity, sign_1. cbn [mbind outcome_bind].
  rewrite (decode_request_of _ AnonymousVerifier ANONYMOUS m) by done.
  unfold matches. change (is_anonymous ANONYMOUS) with true. cbn iota.
  destruct (is_anonymous (request_from m)) eqn:Ha; [|done]. by apply is_anonymous_true in Ha as ->.
Qed.
End authentication.
