(* ===== verification/ProofOps.v ===== *)
(** * State proofs in messages

    Models [many-types/src/proof.rs] (the operations of a proof, their CBOR, and the proof as an
    attribute) and [many-protocol/src/context.rs] (how a handler answers a request for a proof). The
    proof itself comes from the Merkle store, a parameter of the handlers. *)
From S2P Require Import Prelude Error External Address Types Account Events.
From S2P Require Import Cose Wire WireLaws Protocol ProtocolLaws.

#[local] Open Scope string_scope.
#[local] Open Scope list_scope.
#[local] Open Scope N_scope.

Definition PROOF : Attribute := attribute_id 3.

Inductive ProofOperation : Type :=
| ProofChild
| KeyValueHash (hash : bytes)
| KeyValuePair (key value : bytes)
| NodeHash (hash : bytes)
| ProofParent.
#[global] Instance ProofOperation_eq_dec : EqDecision ProofOperation.
Proof. solve_decision. Defined.

Section codec.
Context `{Minicbor}.

Definition proof_operation_encode (o : ProofOperation) : list Token :=
  match o with
  | ProofChild => [TkInt 17]
  | KeyValueHash hash => [TkArray (Some 2); TkInt 1; TkBytes hash]
  | KeyValuePair key value => [TkArray (Some 3); TkInt 3; TkBytes key; TkBytes value]
  | NodeHash hash => [TkArray (Some 2); TkInt 2; TkBytes hash]
  | ProofParent => [TkInt 16]
  end.

(** [decode::Error::unknown_variant]: the text is the library's. *)
Definition unknown_variant {A} (n : N) : Dec A := d_fail (lib_error [TkInt (Z.of_N n)]).
(** The number before a pair of a key and a value is not looked at. *)
Definition proof_operation_decode : Dec ProofOperation :=
  t ← d_datatype;
  match t with
  | TkArray _ =>
      n ← d_array;
      match n with
      | None => d_fail "Error parsing array type into array"
      | Some 2 =>
          v ← d_u8;
          match v with
          | 1 => hash ← d_bytes; mret (KeyValueHash hash)
          | 2 => hash ← d_bytes; mret (NodeHash hash)
          | v => unknown_variant v
          end
      | Some 3 => d_u8;; key ← d_bytes; value ← d_bytes; mret (KeyValuePair key value)
      | Some n => d_fail ("Unexpected array size " +:+ pretty n)
      end
  | TkInt z =>
      if (0 <=? z)%Z && (z <=? 255)%Z then
        v ← d_u8;
        match v with
        | 16 => mret ProofParent
        | 17 => mret ProofChild
        | v => unknown_variant v
        end
      else d_fail "Expected either array or u8"
  | _ => d_fail "Expected either array or u8"
  end.

(** [Proof]: a struct of one field, the operations. *)
Definition proof_encode (ops : list ProofOperation) : list Token :=
  TkMap (Some 1) :: TkInt 0 :: TkArray (Some (N.of_nat (length ops))) :: concat (map proof_operation_encode ops).
Definition proof_to_any (ops : list ProofOperation) : outcome ManyError CborAny :=
  map_err unknown (decode_tokens any_decode (tokens_to_vec (proof_encode ops))).
End codec.

(** ** Contexts *)

Inductive ProofResult : Type :=
| ProofError (e : ManyError)
| ProofOf (ops : list ProofOperation)
| ProofNotRequested.

Definition proof_requested (m : RequestMessage) : bool := AttributeSet_has_id (req_attributes m) (attr_id PROOF).

(** [Context::prove]: what is sent back; the channel has no bound and its other end is alive. *)
Definition context_prove (m : RequestMessage) (prover : outcome ManyError (list ProofOperation)) :
    outcome ManyError ProofResult :=
  if proof_requested m then
    match prover with
    | Ok ops => Ok (ProofOf ops)
    | Err e => Ok (ProofError e)
    | Panic t => Panic t
    | OutOfFuel => OutOfFuel
    end
  else Ok ProofNotRequested.

(** [IntoIterator for ProofResult], collected. *)
Definition proof_attributes `{Minicbor} (r : ProofResult) : outcome ManyError (list Attribute) :=
  match r with
  | ProofOf ops => x ← proof_to_any ops; Ok [mkAttribute (attr_id PROOF) [x]]
  | ProofError _ | ProofNotRequested => Ok []
  end.

(** ** Laws *)

Section laws.
Context `{Minicbor}.

(** An operation as a value. *)
Definition operation_any (o : ProofOperation) : CborAny :=
  match o with
  | ProofChild => CInt 17
  | KeyValueHash hash => CArray [CInt 1; CBytes hash]
  | KeyValuePair key value => CArray [CInt 3; CBytes key; CBytes value]
  | NodeHash hash => CArray [CInt 2; CBytes hash]
  | ProofParent => CInt 16
  end.
Definition proof_any (ops : list ProofOperation) : CborAny :=
  CMap [(CInt 0, CArray (map operation_any ops))].

Lemma operation_any_encode o : any_encode (operation_any o) = proof_operation_encode o.
Proof. by destruct o. Qed.
Lemma proof_any_encode ops : any_encode (proof_any ops) = proof_encode ops.
Proof.
  unfold proof_encode. simpl. rewrite app_nil_r, length_map. do 3 f_equal. f_equal.
  rewrite map_map. apply map_ext, operation_any_encode.
Qed.
Lemma operation_any_wf o : any_wf (operation_any o).
Proof. destruct o; simpl; repeat split; lia. Qed.
Lemma proof_any_wf ops : any_wf (proof_any ops).
Proof.
  simpl. split_and!; try done; [|by repeat constructor]. apply foldr_Forall, Forall_map, Forall_true. apply operation_any_wf.
Qed.

Lemma proof_operation_decode_ok o : reads_back proof_operation_decode (proof_operation_encode o) o.
Proof. intros rest. by destruct o. Qed.

(** The operations of a proof are read back from their encoding, one by one and as a list, and the attribute
    that carries a proof to the client holds exactly the encoding of the operations: making it never fails. *)
Theorem proof_roundtrip `{!MinicborLaws} ops :
  Forall token_fits (proof_encode ops) →
  (∀ rest, d_all (Some (N.of_nat (length ops))) proof_operation_decode (concat (map proof_operation_encode ops) ++ rest)
           = Ok (ops, rest))
  ∧ ∃ x, proof_attributes (ProofOf ops) = Ok [mkAttribute 3 [x]] ∧ any_encode x = proof_encode ops.
Proof.
  intros Hf. split.
  - intros rest. apply d_all_ok; apply Forall_true; [apply proof_operation_decode_ok|by intros []].
  - exists (proof_any ops). split; [|apply proof_any_encode]. unfold proof_attributes, proof_to_any.
    rewrite decode_tokens_ok by done. rewrite <-proof_any_encode.
    pose proof (any_decode_ok _ (proof_any_wf ops) []) as Hd. rewrite app_nil_r in Hd. by rewrite Hd.
Qed.
End laws.
