(* ===== verification/Verifiers.v ===== *)
(** * many-identity-dsa and many-identity-webauthn: who signed an envelope

    Models [many-identity-dsa/src/impls.rs] ([check_key]), [impls/ed25519.rs], [impls/ecdsa.rs] and
    [lib.rs] (keys, identities and the verifier of COSE keys), and
    [many-identity-webauthn/src/verifier.rs] and [challenge.rs] (the verifier of WebAuthn).

    The signature schemes ([ed25519-dalek], [p256]), the hashes and the parsers of JSON, URLs and base64 are
    parameters ([Crypto], [WebAuthnEnv]). The conversion of a slice to a field element of P-256
    panics unless it has 32 bytes. *)
From S2P Require Import Prelude Error ErrorDisplay External Address Types Account Events.
From S2P Require Import Cose Wire WireLaws Protocol.

#[local] Open Scope string_scope.
#[local] Open Scope list_scope.
#[local] Open Scope N_scope.

Class Crypto := {
  (** [VerifyingKey::from_bytes], [verify] (with the parsing of the signature) and [try_sign]. *)
  ed_verifying_key : bytes → outcome string unit;
  ed_verify : bytes → bytes → bytes → outcome string unit;      (* key, signature, data *)
  ed_sign : bytes → bytes → outcome string bytes;               (* secret, data *)
  (** The same for P-256, for points and scalars of 32 bytes. *)
  p256_verifying_key : bytes → bytes → outcome string unit;
  p256_verify : bytes → bytes → bytes → bytes → outcome string unit;
  p256_secret_key : bytes → outcome string unit;
  p256_sign : bytes → bytes → outcome string bytes;
}.

Definition algorithm_unsupported : ManyError := unknown "Algorithm unsupported.".

(** The parameters of keys: [OkpKeyParameter] and [Ec2KeyParameter]. *)
Definition CRV : Label := LInt (-1).
Definition X : Label := LInt (-2).
Definition Y : Label := LInt (-3).
Definition D : Label := LInt (-4).
Definition ED25519_CURVE : Z := 6.
Definition P_256_CURVE : Z := 1.

(** [BTreeMap::from_iter(params)].get(l), and the loop [for (k, v) in params]: the last one. *)
Definition last_label (l : Label) (ps : list (Label * Value)) : option Value := find_label l (reverse ps).

(** [{:?}] of a key type and of an algorithm is the library's. *)
Class CosetDebug := { debug_kty : KeyType → string; debug_alg : option Algorithm → string }.

Section dsa.
Context `{Coset, Sha3, Crypto, CosetDebug, Base32, Crc16}.

Definition check_key (k : CoseKey) (sign verify : bool) (key_type : KeyType) (algo : Algorithm)
    (crv : option (string * Z)) : outcome ManyError unit :=
  if sign && negb (bool_decide (OpSign ∈ key_ops k)) then Err (unknown "Key cannot sign")
  else if verify && negb (bool_decide (OpVerify ∈ key_ops k)) then Err (unknown "Key cannot verify")
  else if bool_decide (kty k ≠ key_type) then Err (unknown ("Wrong key type: " +:+ debug_kty (kty k)))
  else if bool_decide (key_alg k ≠ Some algo) then
    Err (unknown ("Wrong key algorihm: " +:+ debug_alg (key_alg k)))
  else
    match crv with
    | Some (crv_name, c) =>
        v ← ok_or (find_label CRV (params k) ≫= as_integer) (unknown "Crv parameter not found.");
        if bool_decide (v ≠ c) then Err (unknown ("Curve unsupported. Expected " +:+ crv_name)) else Ok tt
    | None => Ok tt
    end.

Definition address_mismatch (expected actual : Address) : ManyError :=
  unknown ("Address in envelope does not match expected address. Expected: " +:+ address_to_string expected
           +:+ ", Actual: " +:+ address_to_string actual).

(** ** Ed25519 *)

Definition eddsa_cose_key (x : bytes) (d : option bytes) : CoseKey :=
  mkCoseKey OKP [] (Some EdDSA)
    (match d with Some _ => {[OpVerify; OpSign]} | None => {[OpVerify]} end) []
    ([(CRV, VInteger ED25519_CURVE); (X, VBytes x)] ++ match d with Some d => [(D, VBytes d)] | None => [] end).

Definition ed_public_key (k : CoseKey) : outcome ManyError (option CoseKey) :=
  match key_alg k with
  | Some EdDSA =>
      match find_label X (params k) with
      | Some x =>
          x ← ok_or (as_bytes x) (unknown "Could not get EdDSA X parameter");
          Ok (Some (eddsa_cose_key x None))
      | None => Err (unknown "Key doesn't have a public key")
      end
  | _ => Ok None
  end.

(** The parameter [l] of a key as bytes. *)
Definition bytes_param (name : string) (o : option Value) : outcome ManyError bytes :=
  v ← ok_or o (unknown ("Could not find the " +:+ name +:+ " parameter in key"));
  ok_or (as_bytes v) (unknown ("Could not convert the " +:+ name +:+ " parameter to bytes")).

(** [key_pair]: the secret. *)
Definition ed_key_pair (k : CoseKey) : outcome ManyError bytes :=
  check_key k true false OKP EdDSA (Some ("Ed25519", ED25519_CURVE));;
  d ← bytes_param "D" (last_label D (params k));
  if negb (length d =? 32)%nat
  then Err (unknown ("Invalid Ed25519 secret key length: " +:+ pretty (N.of_nat (length d))))
  else Ok d.

(** An identity: its address, its public key, and what signs. *)
Record DsaIdentity : Type := mkDsaIdentity {
  dsa_address : Address;
  dsa_public_key : CoseKey;
  dsa_alg : Algorithm;
  try_sign : bytes → outcome ManyError bytes;
}.
(** [Ed25519IdentityInner::sign_1] and [EcDsaIdentityInner::sign_1]. *)
Definition dsa_sign_inner (i : DsaIdentity) (e : CoseSign1) : outcome ManyError CoseSign1 :=
  let h := header (protected e) in
  let p := mkProtected None (mkHeader (Some (dsa_alg i)) (address_to_vec (dsa_address i)) (hd_rest h) (hd_other h)) in
  sig ← try_sign i (tbs_data p (default [] (cose_payload e)));
  Ok (mkCoseSign1 p (unprotected e) (cose_payload e) sig).
Definition dsa_sign_1 (i : DsaIdentity) (e : CoseSign1) : outcome ManyError CoseSign1 :=
  e ← add_keyset_header e (Some (dsa_public_key i)) (dsa_address i); dsa_sign_inner i e.
Definition dsa_identity (i : DsaIdentity) : Identity :=
  mkIdentity (dsa_address i) (Some (dsa_public_key i)) (dsa_sign_1 i).

Definition ed_identity_from_key (k : CoseKey) : outcome ManyError DsaIdentity :=
  o ← ed_public_key k;
  pk ← ok_or o (unknown "Invalid key.");
  d ← ed_key_pair k;
  a ← address_unchecked pk;
  Ok (mkDsaIdentity a pk EdDSA (λ l, map_err unknown (ed_sign d l))).

(** A verifier: the address of its key, and the check of a signature. *)
Record DsaVerifier : Type := mkDsaVerifier {
  ver_address : Address;
  ver_check : bytes → bytes → outcome ManyError unit;     (* signature, data *)
}.
Definition dsa_verify_1 (v : DsaVerifier) (e : CoseSign1) : outcome ManyError Address :=
  a ← from_bytes (cose_key_id e);
  if matches (ver_address v) a then verify_signature e (ver_check v);; Ok a
  else Err (address_mismatch (ver_address v) a).

Definition ed_verifier_from_key (k : CoseKey) : outcome ManyError DsaVerifier :=
  o ← ed_public_key k;
  pk ← ok_or o (unknown "Key not ed25519.");
  a ← address_unchecked pk;
  check_key pk false true OKP EdDSA (Some ("Ed25519", ED25519_CURVE));;
  x ← bytes_param "X" (last_label X (params k));
  if negb (length x =? 32)%nat
  then Err (unknown ("Invalid Ed25519 public key length: " +:+ pretty (N.of_nat (length x))))
  else
    map_err (λ _, unknown "Could not create a public key from X.") (ed_verifying_key x);;
    Ok (mkDsaVerifier a (λ sig data, map_err could_not_verify_signature (ed_verify x sig data))).

(** ** ECDSA *)

Definition ecdsa_cose_key (x y : bytes) (d : option bytes) : CoseKey :=
  mkCoseKey EC2 [] (Some ES256)
    (match d with Some _ => {[OpVerify; OpSign]} | None => {[OpVerify]} end) []
    ([(CRV, VInteger P_256_CURVE); (X, VBytes x); (Y, VBytes y)]
     ++ match d with Some d => [(D, VBytes d)] | None => [] end).

Definition ec_public_key (k : CoseKey) : outcome ManyError (option CoseKey) :=
  match key_alg k with
  | Some ES256 =>
      match last_label X (params k), last_label Y (params k) with
      | Some x, Some y =>
          x ← ok_or (as_bytes x) (unknown "Could not get ECDSA X parameter");
          y ← ok_or (as_bytes y) (unknown "Could not get ECDSA Y parameter");
          Ok (Some (ecdsa_cose_key x y None))
      | _, _ => Err (unknown "Key doesn't have a public key")
      end
  | _ => Ok None
  end.
Definition ec_address (k : CoseKey) : outcome ManyError Address :=
  o ← ec_public_key k; pk ← ok_or o (unknown "Could not load key."); address_unchecked pk.

(** [GenericArray::from_slice], for field elements and scalars. *)
Definition field_bytes (l : bytes) : outcome ManyError bytes :=
  if (length l =? 32)%nat then Ok l else Panic "assertion failed: slice length does not match the array length".

Definition ec_identity_from_key (k : CoseKey) : outcome ManyError DsaIdentity :=
  check_key k true false EC2 ES256 None;;
  o ← ec_public_key k;
  pk ← ok_or o (unknown "Invalid key.");
  a ← address_unchecked pk;
  d ← bytes_param "D" (last_label D (params k));
  d ← field_bytes d;
  map_err (λ e, unknown ("Invalid EcDSA keypair from bytes: " +:+ e)) (p256_secret_key d);;
  Ok (mkDsaIdentity a pk ES256 (λ l, map_err unknown (p256_sign d l))).

Definition ec_verifier_from_key (k : CoseKey) : outcome ManyError DsaVerifier :=
  o ← ec_public_key k;
  pk ← ok_or o (unknown "Key not EcDsa.");
  check_key k false true EC2 ES256 None;;
  a ← address_unchecked pk;
  x ← bytes_param "X" (last_label X (params k));
  y ← bytes_param "Y" (last_label Y (params k));
  x ← field_bytes x;
  y ← field_bytes y;
  map_err (λ e, unknown ("Could not create a verifying key: " +:+ e)) (p256_verifying_key x y);;
  Ok (mkDsaVerifier a (λ sig data, map_err could_not_verify_signature (p256_verify x y sig data))).

(** ** [CoseKeyIdentity] and [CoseKeyVerifier] *)

Definition cose_key_identity_from_key (k : CoseKey) : outcome ManyError DsaIdentity :=
  match ed_identity_from_key k with
  | Err _ =>
      match ec_identity_from_key k with
      | Err _ => Err algorithm_unsupported
      | r => r
      end
  | r => r
  end.

Definition find_key (keyid : bytes) (ks : list CoseKey) : option CoseKey :=
  List.find (λ k, bool_decide (key_id k = keyid)) ks.

Definition CoseKeyVerifier : Verifier := λ e,
  ks ← ok_or (keyset_from_cose_sign1 e) (unknown "Could not find keyset in headers.");
  k ← ok_or (find_key (cose_key_id e) ks) (unknown "Could not find the key in keyset.");
  match ed_verifier_from_key k with
  | Ok v => dsa_verify_1 v e
  | Err _ =>
      match ec_verifier_from_key k with
      | Ok v => dsa_verify_1 v e
      | Err _ => Err algorithm_unsupported
      | Panic t => Panic t
      | OutOfFuel => OutOfFuel
      end
  | Panic t => Panic t
  | OutOfFuel => OutOfFuel
  end.
End dsa.

(** ** WebAuthn *)

Record ClientData : Type := mkClientData { cd_challenge : string; cd_origin : string; cd_type : string }.
Record Challenge : Type := mkChallenge { ch_protected_header : ProtectedHeader; payload_sha : bytes }.

Class WebAuthnEnv := {
  client_data_from_json : string → outcome string ClientData;
  ManyUrl : Type;
  url_parse : string → outcome string ManyUrl;
  url_eqb : ManyUrl → ManyUrl → bool;
  base64_url_decode : string → outcome string bytes;
  challenge_decode : bytes → outcome string Challenge;
  sha256_digest : bytes → bytes;
  sha512_digest : bytes → bytes;
}.

Section webauthn.
Context `{Coset, Sha3, Crypto, CosetDebug, Base32, Crc16, WebAuthnEnv}.

Record WebAuthnVerifier : Type := mkWebAuthn { allowed_origins : option (list ManyUrl) }.

Definition get_keyset (e : CoseSign1) : option (list CoseKey) :=
  v ← find_label keyset_label (hd_rest (header (protected e)));
  match v with
  | VBytes l => match keyset_from_slice l with Ok ks => Some ks | _ => None end
  | _ => None
  end.
Definition get_cose_key_for_identity (e : CoseSign1) (i : Address) : option CoseKey :=
  if is_anonymous i then None
  else ks ← get_keyset e; find_key (cose_key_id e) ks.

(** An entry of the unprotected header. *)
Definition missing_entry (name : string) : ManyError :=
  unknown ("`" +:+ name +:+ "` entry missing from unprotected header").
Definition bytes_entry (name : string) (un : list (Label * Value)) : outcome ManyError bytes :=
  v ← ok_or (last_label (LText name) un) (missing_entry name);
  ok_or (as_bytes v) (unknown ("`" +:+ name +:+ "` entry is not Bytes")).

Definition _verify_webauthn (w : WebAuthnVerifier) (e : CoseSign1) (un : list (Label * Value)) (k : CoseKey) :
    outcome ManyError unit :=
  v ← ok_or (last_label (LText "clientData") un) (missing_entry "clientData");
  client_data ← ok_or (as_text v) (unknown "`clientData` entry is not Text");
  json ← map_err unknown (client_data_from_json client_data);
  if bool_decide (cd_type json ≠ "webauthn.get") then Err (unknown "request type != webauthn.get")
  else
    origin ← map_err unknown (url_parse (cd_origin json));
    if match allowed_origins w with Some urls => negb (existsb (url_eqb origin) urls) | None => false end
    then Err (unknown "Origin not allowed")
    else
      auth_data ← bytes_entry "authData" un;
      signature ← bytes_entry "signature" un;
      payload ← ok_or (cose_payload e) (unknown "`payload` entry missing but required");
      challenge ← map_err unknown (base64_url_decode (cd_challenge json));
      challenge ← map_err unknown (challenge_decode challenge);
      if bool_decide (sha512_digest payload ≠ payload_sha challenge)
      then Err (unknown "`challenge` SHA doesn't match")
      else if bool_decide (protected e ≠ ch_protected_header challenge)
      then Err (unknown "Protected header doesn't match `challenge`")
      else
        key ← ec_verifier_from_key k;
        ver_check key signature (auth_data ++ sha256_digest (b client_data)).

Definition _verify (k : CoseKey) (e : CoseSign1) : outcome ManyError unit :=
  key ← ec_verifier_from_key k; verify_signature e (ver_check key).

Definition webauthn_verify (w : WebAuthnVerifier) : Verifier := λ e,
  if bool_decide (cose_key_id e ≠ []) then
    match from_bytes (cose_key_id e) with
    | Ok i =>
        if is_anonymous i then Ok i
        else
          k ← ok_or (get_cose_key_for_identity e i) (unknown "Could not find a public key in the envelope");
          (if bool_decide (is_Some (last_label (LText "webauthn") (hd_rest (header (protected e)))))
           then _verify_webauthn w e (hd_rest (unprotected e)) k
           else _verify k e);;
          Ok i
    | Err _ => Err (could_not_verify_signature "Invalid (not a MANY identity) key ID")
    | Panic t => Panic t
    | OutOfFuel => OutOfFuel
    end
  else Err (could_not_verify_signature "Missing key ID").

(** The verifiers of the servers. *)
Definition server_verifier (w : WebAuthnVerifier) : Verifier :=
  verify_tuple [AnonymousVerifier; CoseKeyVerifier; webauthn_verify w].
End webauthn.
