(* ===== verification/VerifierLaws.v ===== *)
(** * many-identity-dsa and many-identity-webauthn: what an accepted envelope proves

    The verifier of COSE keys ties an envelope to the address it names: the address is the hash of the
    key that the signature verifies under. The verifier of WebAuthn does not: the key it takes from
    the envelope is never compared with the address. *)
From S2P Require Import Prelude Error ErrorDisplay External Address Types Account Events.
From S2P Require Import Cose Wire WireLaws Protocol ProtocolLaws Verifiers.

#[local] Open Scope string_scope.
#[local] Open Scope list_scope.
#[local] Open Scope N_scope.

Lemma find_label_cons l kv ps :
  find_label l (kv :: ps) = if bool_decide (kv.1 = l) then Some kv.2 else find_label l ps.
Proof. unfold find_label. simpl. by destruct (bool_decide (kv.1 = l)). Qed.
Lemma find_label_app l ps qs :
  find_label l (ps ++ qs) = match find_label l ps with Some v => Some v | None => find_label l qs end.
Proof.
  induction ps as [|kv ps IH]; [done|]. rewrite <-app_comm_cons, !find_label_cons. by case_bool_decide.
Qed.
Lemma find_label_none l ps : find_label l ps = None ↔ l ∉ ps.*1.
Proof.
  induction ps as [|kv ps IH]; [by rewrite elem_of_nil; naive_solver|].
  rewrite find_label_cons, fmap_cons, not_elem_of_cons, <-IH. case_bool_decide; naive_solver.
Qed.
(** Without duplicates the first entry is the last. *)
Lemma last_label_unique l ps : NoDup ps.*1 → last_label l ps = find_label l ps.
Proof.
  unfold last_label. induction ps as [|kv ps IH]; [done|]. rewrite fmap_cons, NoDup_cons. intros [Hn Hd].
  rewrite reverse_cons, find_label_app, IH, !find_label_cons by done.
  case_bool_decide as Hk; [|by destruct (find_label l ps)].
  subst. by apply find_label_none in Hn as ->.
Qed.

Section verifiers.
Context `{Coset, Sha3, Crypto, CosetDebug, Base32, Crc16}.

(** What the two schemes verify, and under which canonical key. *)
Definition signed_by (pk : CoseKey) (sig data : bytes) : Prop :=
  (∃ x, pk = eddsa_cose_key x None ∧ ed_verify x sig data = Ok tt)
  ∨ (∃ x y, pk = ecdsa_cose_key x y None ∧ p256_verify x y sig data = Ok tt).

Lemma map_err_Ok {E E' A} (f : E → E') (r : outcome E A) a : map_err f r = Ok a → r = Ok a.
Proof. by destruct r; intros [=->]. Qed.
Lemma ok_or_Ok {E A} (o : option A) (e : E) a : ok_or o e = Ok a → o = Some a.
Proof. by destruct o; intros [=->]. Qed.

Lemma ed_verifier_ok k v :
  key_labels_unique k → ed_verifier_from_key k = Ok v →
  ∃ x, ed_public_key k = Ok (Some (eddsa_cose_key x None))
       ∧ address_unchecked (eddsa_cose_key x None) = Ok (ver_address v)
       ∧ ∀ sig data, ver_check v sig data = map_err could_not_verify_signature (ed_verify x sig data).
Proof.
  intros Hu Hv. unfold ed_verifier_from_key in Hv. unfold ed_public_key in Hv |- *.
  apply bind_Ok_inv in Hv as (o & Ho & Hv).
  apply bind_Ok_inv in Hv as (pk & ->%ok_or_Ok & Hv). apply bind_Ok_inv in Hv as (a & Ha & Hv).
  apply bind_Ok_inv in Hv as ([] & _ & Hv). apply bind_Ok_inv in Hv as (x & Hx & Hv).
  destruct (length x =? 32)%nat; [|done]. apply bind_Ok_inv in Hv as ([] & _ & Hv). injection Hv as <-.
  exists x. rewrite Ho. assert (pk = eddsa_cose_key x None) as ->; [|done].
  rewrite last_label_unique in Hx by done.
  unfold bytes_param in Hx. apply bind_Ok_inv in Hx as (v' & Hv'%ok_or_Ok & Hx%ok_or_Ok). rewrite Hv' in Ho.
  destruct (key_alg k) as [[]|]; try done. apply bind_Ok_inv in Ho as (x' & Hx'%ok_or_Ok & Ho). congruence.
Qed.
Lemma ec_verifier_ok k v :
  ec_verifier_from_key k = Ok v →
  ∃ x y, ec_public_key k = Ok (Some (ecdsa_cose_key x y None))
         ∧ address_unchecked (ecdsa_cose_key x y None) = Ok (ver_address v)
         ∧ ∀ sig data, ver_check v sig data = map_err could_not_verify_signature (p256_verify x y sig data).
Proof.
  unfold ec_verifier_from_key, ec_public_key. intros Hv. apply bind_Ok_inv in Hv as (o & Ho & Hv).
  apply bind_Ok_inv in Hv as (pk & ->%ok_or_Ok & Hv). apply bind_Ok_inv in Hv as ([] & _ & Hv).
  apply bind_Ok_inv in Hv as (a & Ha & Hv). apply bind_Ok_inv in Hv as (x & Hx & Hv).
  apply bind_Ok_inv in Hv as (y & Hy & Hv). apply bind_Ok_inv in Hv as (x' & Hx' & Hv).
  apply bind_Ok_inv in Hv as (y' & Hy' & Hv). apply bind_Ok_inv in Hv as ([] & _ & Hv). injection Hv as <-.
  unfold field_bytes in Hx', Hy'. destruct (length x =? 32)%nat; [|done]. destruct (length y =? 32)%nat; [|done].
  injection Hx' as <-. injection Hy' as <-. exists x, y. rewrite Ho. assert (pk = ecdsa_cose_key x y None) as ->; [|done].
  unfold bytes_param in Hx, Hy. apply bind_Ok_inv in Hx as (vx & Hvx%ok_or_Ok & Hx%ok_or_Ok).
  apply bind_Ok_inv in Hy as (vy & Hvy%ok_or_Ok & Hy%ok_or_Ok). rewrite Hvx, Hvy in Ho.
  destruct (key_alg k) as [[]|]; try done. apply bind_Ok_inv in Ho as (? & ?%ok_or_Ok & Ho).
  apply bind_Ok_inv in Ho as (? & ?%ok_or_Ok & Ho). congruence.
Qed.

Lemma dsa_verify_ok v e a :
  dsa_verify_1 v e = Ok a ↔
    from_bytes (cose_key_id e) = Ok a ∧ matches (ver_address v) a = true ∧ verify_signature e (ver_check v) = Ok tt.
Proof.
  unfold dsa_verify_1. split.
  - intros (a' & Ha & Hv)%bind_Ok_inv. destruct (matches (ver_address v) a') eqn:Hm; [|done].
    by apply bind_Ok_inv in Hv as ([] & Hs & [= <-]).
  - intros (-> & Hm & Hs). cbn [mbind outcome_bind]. rewrite Hm, Hs. done.
Qed.

(** C19: An envelope that the verifier of COSE keys accepts for an address carries a keyset, and in it
    a key with the key id of the envelope, which holds the bytes of the address. The signature of the envelope
    (over the protected header and the payload) verifies under the public key of that key, and the address
    is that of the public key up to the subresource: its hash is the hash of the canonical form of the key. *)
Theorem cose_key_verifier_sound `{!CosetLaws} e a :
  CoseKeyVerifier e = Ok a →
  ∃ ks k pk ka, keyset_from_cose_sign1 e = Some ks ∧ find_key (cose_key_id e) ks = Some k
    ∧ (ed_public_key k = Ok (Some pk) ∨ ec_public_key k = Ok (Some pk))
    ∧ signed_by pk (cose_signature e) (tbs_data (protected e) (default [] (cose_payload e)))
    ∧ address_unchecked pk = Ok ka ∧ matches ka a = true ∧ from_bytes (cose_key_id e) = Ok a.
Proof.
  unfold CoseKeyVerifier. intros (ks & Hks%ok_or_Ok & Hv)%bind_Ok_inv.
  apply bind_Ok_inv in Hv as (k & Hk%ok_or_Ok & Hv).
  assert (key_labels_unique k) as Hu.
  { unfold keyset_from_cose_sign1 in Hks. apply bind_Some in Hks as (v & _ & Hks).
    apply bind_Some in Hks as (l & _ & Hks). destruct (keyset_from_slice l) as [ks'|?|?|] eqn:Hl; [|done..].
    injection Hks as ->. apply keyset_labels in Hl. rewrite Forall_forall in Hl. apply Hl.
    apply find_some in Hk as [Hk _]. by apply list_elem_of_In. }
  destruct (ed_verifier_from_key k) as [v|?|?|] eqn:Hed; [|..|done|done].
  - apply dsa_verify_ok in Hv as (Ha & Hm & Hs). apply ed_verifier_ok in Hed as (x & Hp & Hx & Hc); [|done].
    exists ks, k, (eddsa_cose_key x None), (ver_address v). split_and!; try done; [by left|]. left. exists x. split; [done|].
    unfold verify_signature in Hs. rewrite Hc in Hs. by apply map_err_Ok in Hs.
  - destruct (ec_verifier_from_key k) as [v|?|?|] eqn:Hec; [|done..].
    apply dsa_verify_ok in Hv as (Ha & Hm & Hs). apply ec_verifier_ok in Hec as (x & y & Hp & Hx & Hc).
    exists ks, k, (ecdsa_cose_key x y None), (ver_address v). split_and!; try done; [by right|]. right. exists x, y. split; [done|].
    unfold verify_signature in Hs. rewrite Hc in Hs. by apply map_err_Ok in Hs.
Qed.

(** ** What an identity signs *)

(** The identity with the key [x], [y] signs in the name of [a]; it is an identity of the program when [a] is
    the address of the key. *)
Definition ec_signer (a : Address) (x y d : bytes) : DsaIdentity :=
  mkDsaIdentity a (ecdsa_cose_key x y None) ES256 (λ l, map_err unknown (p256_sign d l)).
Record p256_pair (x y d : bytes) : Prop := {
  pair_x : length x = 32%nat;
  pair_y : length y = 32%nat;
  pair_key : p256_verifying_key x y = Ok tt;
  pair_signs l : ∃ s, p256_sign d l = Ok s ∧ p256_verify x y s l = Ok tt;
}.

Lemma ec_key_labels x y i : key_labels_unique (with_key_id (ecdsa_cose_key x y None) i).
Proof. unfold key_labels_unique. simpl. repeat constructor; set_solver. Qed.

Lemma address_of_key `{!CosetLaws, !Sha3Laws} k : ∃ a, address_unchecked k = Ok a ∧ is_public_key a = true.
Proof.
  unfold address_unchecked. destruct (key_encodes k) as [l ->]. cbn [map_err mbind outcome_bind].
  pose proof (sha3_224_length l) as Hl. destruct (wrap_wf _ (wf_public_key _ Hl)) as (a & -> & Hi).
  exists a. split; [done|]. unfold is_public_key, inner_is_public_key. by rewrite Hi, kind_public_key.
Qed.
(** The key of a point passes the checks that do not look at the point. *)
Lemma ec_verifier_start x y i :
  ec_verifier_from_key (with_key_id (ecdsa_cose_key x y None) i) =
    (a ← address_unchecked (ecdsa_cose_key x y None); x ← field_bytes x; y ← field_bytes y;
     map_err (λ e, unknown ("Could not create a verifying key: " +:+ e)) (p256_verifying_key x y);;
     Ok (mkDsaVerifier a (λ sig data, map_err could_not_verify_signature (p256_verify x y sig data)))).
Proof.
  unfold ec_verifier_from_key, ec_public_key. cbn [with_key_id ecdsa_cose_key key_alg params app].
  change (last_label X _) with (Some (VBytes x)). change (last_label Y _) with (Some (VBytes y)).
  cbn [as_bytes ok_or mbind outcome_bind]. unfold check_key. cbn [andb kty key_ops key_alg with_key_id ecdsa_cose_key].
  rewrite (bool_decide_true (OpVerify ∈ _)) by set_solver. rewrite !bool_decide_false by (intros Hn; by apply Hn).
  done.
Qed.
Lemma ec_verifier_of_key `{!CosetLaws, !Sha3Laws} x y d i :
  p256_pair x y d →
  ∃ v, ec_verifier_from_key (with_key_id (ecdsa_cose_key x y None) i) = Ok v
       ∧ address_unchecked (ecdsa_cose_key x y None) = Ok (ver_address v)
       ∧ ver_check v = (λ sig data, map_err could_not_verify_signature (p256_verify x y sig data)).
Proof.
  intros [Hx Hy Hk _]. rewrite ec_verifier_start. destruct (address_of_key (ecdsa_cose_key x y None)) as (a & -> & _).
  unfold field_bytes. rewrite Hx, Hy. cbn [Nat.eqb mbind outcome_bind]. rewrite Hk. by eexists.
Qed.
Lemma matches_refl a : matches a a = true.
Proof. unfold matches. destruct (is_anonymous a) eqn:?; [done|]. destruct (is_illegal a) eqn:?; [done|]. by apply bool_decide_eq_true. Qed.

(** ** Signing and verifying *)

(** An envelope without a keyset gets one with the key of the signer, and the signature covers it. *)
Lemma ec_signed `{!CosetLaws, !Sha3Laws} a x y d e :
  p256_pair x y d → find_label keyset_label (hd_rest (header (protected e))) = None →
  ∃ e', dsa_sign_1 (ec_signer a x y d) e = Ok e'
    ∧ cose_payload e' = cose_payload e ∧ cose_key_id e' = address_to_vec a
    ∧ (∃ l, hd_rest (header (protected e')) = hd_rest (header (protected e)) ++ [(keyset_label, VBytes l)]
            ∧ keyset_from_slice l = Ok [with_key_id (ecdsa_cose_key x y None) (address_to_vec a)])
    ∧ verify_signature e' (λ sig data, p256_verify x y sig data) = Ok tt.
Proof.
  intros [Hx Hy Hk Hs] Hn. unfold dsa_sign_1, add_keyset_header. cbn [ok_or mbind outcome_bind dsa_public_key ec_signer].
  rewrite Hn. set (k := with_key_id _ _).
  destruct (keyset_roundtrip [k]) as (l & Hl & Hr). { apply Forall_singleton, ec_key_labels. }
  rewrite Hl. cbn [map_err mbind outcome_bind]. unfold dsa_sign_inner. cbn [try_sign ec_signer].
  match goal with |- context [p256_sign d ?data] => destruct (Hs data) as (s & Hsig & Hv) end.
  rewrite Hsig. cbn [map_err mbind outcome_bind]. eexists. split; [done|]. split_and!; try done.
  exists l. done.
Qed.

(** A signature adds the keyset, and nothing that is not plain. *)
Lemma dsa_signed_plain (i : DsaIdentity) e e' :
  plain_envelope e → find_label keyset_label (hd_rest (header (protected e))) = None →
  dsa_sign_1 i e = Ok e' → plain_envelope e'.
Proof.
  intros (_ & [Hd Hx] & Hu) Hn. unfold dsa_sign_1, add_keyset_header. rewrite Hn. intros Hs.
  apply bind_Ok_inv in Hs as (e1 & He1 & Hs). apply bind_Ok_inv in He1 as (k & _ & He1).
  apply bind_Ok_inv in He1 as (l & _ & He1). injection He1 as <-.
  unfold dsa_sign_inner in Hs. apply bind_Ok_inv in Hs as (sig & _ & Hs). injection Hs as <-.
  split; [done|]. split; [|exact Hu]. split; [|exact Hx]. cbn. rewrite fmap_app.
  apply NoDup_app. split; [exact Hd|]. split; [|apply NoDup_singleton].
  intros x Hin Hk. apply list_elem_of_singleton in Hk as ->. by apply find_label_none in Hn.
Qed.

Lemma keyset_found e k l :
  find_label keyset_label (hd_rest (header (protected e))) = Some (VBytes l) → keyset_from_slice l = Ok [k] →
  key_id k = cose_key_id e → keyset_from_cose_sign1 e = Some [k] ∧ find_key (cose_key_id e) [k] = Some k.
Proof.
  intros Hf Hl Hk. unfold keyset_from_cose_sign1, find_key. rewrite Hf. cbn. rewrite Hl, Hk.
  by rewrite bool_decide_true.
Qed.

(** What the verifier of COSE keys says of an envelope signed by the key [x], [y] in the name of [a]. *)
Lemma cose_key_verifier_answers `{!CosetLaws, !Sha3Laws} e a x y d l :
  p256_pair x y d → cose_key_id e = address_to_vec a →
  find_label keyset_label (hd_rest (header (protected e))) = Some (VBytes l) →
  keyset_from_slice l = Ok [with_key_id (ecdsa_cose_key x y None) (address_to_vec a)] →
  verify_signature e (λ sig data, p256_verify x y sig data) = Ok tt →
  ∃ ka, address_unchecked (ecdsa_cose_key x y None) = Ok ka
    ∧ CoseKeyVerifier e = if matches ka a then Ok a else Err (address_mismatch ka a).
Proof.
  intros Hp Hid Hl Hr Hs. set (k := with_key_id (ecdsa_cose_key x y None) (address_to_vec a)) in *.
  destruct (keyset_found e k l Hl Hr) as [Hks Hk]; [by rewrite Hid|].
  destruct (ec_verifier_of_key x y d (address_to_vec a) Hp) as (v & Hv & Hva & Hc). fold k in Hv.
  exists (ver_address v). split; [done|].
  unfold CoseKeyVerifier. rewrite Hks. cbn [ok_or mbind outcome_bind]. rewrite Hk. cbn [ok_or mbind outcome_bind].
  change (ed_verifier_from_key k) with (Err (unknown "Key not ed25519.") : outcome ManyError DsaVerifier). rewrite Hv.
  unfold dsa_verify_1. rewrite Hid, from_to_vec. cbn [mbind outcome_bind].
  destruct (matches (ver_address v) a); [|done]. unfold verify_signature in *. by rewrite Hc, Hs.
Qed.

(** What an identity with an ECDSA key signs, the verifier of COSE keys accepts for its address:
    when the address is that of the key, the secret signs for the point, and the envelope had no keyset. *)
Theorem ecdsa_sign_verify `{!CosetLaws, !Sha3Laws} a x y d e :
  p256_pair x y d → address_unchecked (ecdsa_cose_key x y None) = Ok a →
  find_label keyset_label (hd_rest (header (protected e))) = None →
  ∃ e', sign_1 (dsa_identity (ec_signer a x y d)) e = Ok e' ∧ cose_payload e' = cose_payload e
    ∧ CoseKeyVerifier e' = Ok a.
Proof.
  intros Hp Ha Hn. destruct (ec_signed a x y d e Hp Hn) as (e' & He & Hpl & Hid & (l & Hl & Hr) & Hs).
  exists e'. split_and!; [done..|].
  destruct (cose_key_verifier_answers e' a x y d l) as (ka & Hka & ->); [done..| |done|done|].
  { rewrite Hl, find_label_app, Hn. done. }
  assert (ka = a) as -> by congruence. by rewrite matches_refl.
Qed.

(** The panic of the conversion of a coordinate that has not 32 bytes. *)
Lemma short_point_panics `{!CosetLaws, !Sha3Laws} e ks k x y :
  keyset_from_cose_sign1 e = Some ks → find_key (cose_key_id e) ks = Some k →
  k = with_key_id (ecdsa_cose_key x y None) (cose_key_id e) → length x ≠ 32%nat →
  ∃ t, CoseKeyVerifier e = Panic t.
Proof.
  intros Hks Hk -> Hx. unfold CoseKeyVerifier. rewrite Hks. cbn [ok_or mbind outcome_bind]. rewrite Hk.
  cbn [ok_or mbind outcome_bind]. change (ed_verifier_from_key _) with (Err (unknown "Key not ed25519.") : outcome ManyError DsaVerifier).
  eexists. rewrite (ec_verifier_start x y (cose_key_id e)).
  destruct (address_of_key (ecdsa_cose_key x y None)) as (a & -> & _). cbn [mbind outcome_bind].
  unfold field_bytes. rewrite (proj2 (Nat.eqb_neq _ _) Hx). done.
Qed.
End verifiers.


(** ** The verifiers of the servers *)

Section servers.
Context `{Coset, Sha3, Crypto, CosetDebug, Base32, Crc16, WebAuthnEnv, Minicbor, Clock}.
Context `{!CosetLaws, !Sha3Laws, !MinicborLaws}.

Lemma anonymous_refuses e a :
  cose_key_id e = address_to_vec a → is_anonymous a = false →
  AnonymousVerifier e = Err (unknown "Anonymous requires no key id.").
Proof.
  intros Hid Ha. unfold AnonymousVerifier. rewrite Hid.
  rewrite bool_decide_true by (intros Hn; pose proof (from_to_vec a) as Hb; by rewrite Hn in Hb).
  rewrite from_to_vec. cbn [mbind outcome_bind]. by rewrite Ha.
Qed.
(** An envelope signed in the name of any named address, by any key of P-256, passes the verifier of WebAuthn. *)
Lemma webauthn_any_key w a x y d e :
  p256_pair x y d → is_anonymous a = false → cose_key_id e = address_to_vec a →
  (∃ l, hd_rest (header (protected e)) = [(keyset_label, VBytes l)]
        ∧ keyset_from_slice l = Ok [with_key_id (ecdsa_cose_key x y None) (address_to_vec a)]) →
  verify_signature e (λ sig data, p256_verify x y sig data) = Ok tt →
  webauthn_verify w e = Ok a.
Proof.
  intros Hp Ha Hid (l & Hl & Hr) Hs. unfold webauthn_verify. rewrite Hid.
  rewrite bool_decide_true by (intros Hn; pose proof (from_to_vec a) as Hb; by rewrite Hn in Hb).
  rewrite from_to_vec, Ha. unfold get_cose_key_for_identity, get_keyset. rewrite Ha, Hl.
  cbn [find_label List.find bool_decide]. change (find_label keyset_label _) with (Some (VBytes l)).
  cbn [mbind option_bind]. rewrite Hr. cbn [mbind option_bind]. unfold find_key, List.find. cbn [key_id with_key_id].
  rewrite Hid, (bool_decide_true (address_to_vec a = _)) by done. cbn [ok_or mbind outcome_bind].
  rewrite bool_decide_false by (by intros [? ?]).
  unfold _verify. destruct (ec_verifier_of_key x y d (address_to_vec a) Hp) as (v & -> & _ & Hc).
  cbn [mbind outcome_bind]. unfold verify_signature in *. by rewrite Hc, Hs.
Qed.

(** An envelope signed in the name of [a] by a key of anybody. *)
Lemma impersonation_accepted w a x y d m :
  p256_pair x y d → is_anonymous a = false → is_illegal a = false →
  request_from m = a → request_wf m → Forall token_fits (request_encode m) →
  ∃ e ka, dsa_sign_1 (ec_signer a x y d) (cose_of_payload (request_to_bytes m)) = Ok e
    ∧ address_unchecked (ecdsa_cose_key x y None) = Ok ka
    ∧ (matches ka a = false → CoseKeyVerifier e = Err (address_mismatch ka a))
    ∧ decode_request_from_cose_sign1 e (server_verifier w) = Ok (as_received m).
Proof.
  intros Hp Ha Hi Hfrom Hm Hf.
  destruct (ec_signed a x y d (cose_of_payload (request_to_bytes m)) Hp) as (e & He & Hpl & Hid & (l & Hl & Hr) & Hs);
    [done|].
  destruct (cose_key_verifier_answers e a x y d l) as (ka & Hka & Hck); [done|done|by rewrite Hl|done|done|].
  exists e, ka. split_and!; [done..| |].
  - intros Hmt. by rewrite Hck, Hmt.
  - rewrite (decode_request_of e _ a m); [|done..| |done|done].
    + rewrite Hfrom, matches_refl, Hi. done.
    + unfold server_verifier, verify_tuple, verify_first.
      rewrite (anonymous_refuses e a Hid Ha). rewrite Hck. destruct (matches ka a); [done|].
      by rewrite (webauthn_any_key w a x y d e Hp Ha Hid (ex_intro _ l (conj Hl Hr)) Hs).
Qed.

(** Whoever has a key of P-256 speaks for everyone. Whatever named address [a] is, and whatever the
    address of the key is, the envelope that the key signs in the name of [a] (with itself in the
    keyset, under the id of [a]) is accepted by the verifiers of the servers, and the request it holds,
    from [a], is decoded. The verifier of COSE keys refuses the envelope if the address of the key is not [a]; the
    verifier of WebAuthn, which is asked next, never computes the address of the key. *)
Theorem webauthn_impersonation w a x y d m :
  p256_pair x y d → is_anonymous a = false → is_illegal a = false →
  request_from m = a → request_wf m → Forall token_fits (request_encode m) →
  ∃ e ka, dsa_sign_1 (ec_signer a x y d) (cose_of_payload (request_to_bytes m)) = Ok e
    ∧ address_unchecked (ecdsa_cose_key x y None) = Ok ka
    ∧ (matches ka a = false → CoseKeyVerifier e = Err (address_mismatch ka a))
    ∧ decode_request_from_cose_sign1 e (server_verifier w) = Ok (as_received m).
Proof. apply impersonation_accepted. Qed.
End servers.
