(* ===== verification/BaseStatus.v ===== *)
(** * The status of a server

    Models [Status] of [many-modules/src/_0_base.rs] and its hand-written CBOR: a map of indefinite length, with numbers as
    keys for what every server tells, and texts as keys for the rest. The encoding of keys of COSE is a
    parameter, as in [Cose]. *)
From S2P Require Import Prelude Error External Address Types.
From S2P Require Import Cose Wire WireLaws.

#[local] Open Scope string_scope.
#[local] Open Scope list_scope.
#[local] Open Scope N_scope.

Record Status : Type := mkStatus {
  st_version : N;
  st_name : string;
  st_public_key : option CoseKey;
  st_identity : Address;
  st_attributes : list Attribute;        (* in the order of the set *)
  st_server_version : option string;
  st_timeout : option N;
  st_extras : gmap string CborAny;
}.

(** [CoseKey::from_slice]. *)
Class CosetKey `{Coset} := coset_key_from_slice : bytes → outcome string CoseKey.
Class CosetKeyLaws `{CosetKey} : Prop :=
  coset_key_roundtrip k : key_labels_unique k → ∃ l, coset_key_to_vec k = Ok l ∧ coset_key_from_slice l = Ok k.

Section status.
Context `{Minicbor, Base32, Crc16, Coset, !CosetKey}.

Definition attributes_encode (l : list Attribute) : list Token :=
  TkArray (Some (N.of_nat (length l))) :: concat (map attribute_encode l).
(** [to_vec().unwrap()]. *)
Definition status_key_entry (k : CoseKey) : outcome string (list Token) :=
  match coset_key_to_vec k with
  | Ok l => Ok [TkInt 2; TkBytes l]
  | Err _ => Panic "called `Result::unwrap()` on an `Err` value"
  | Panic t => Panic t
  | OutOfFuel => OutOfFuel
  end.
Definition server_status_encode (s : Status) : outcome string (list Token) :=
  key ← match st_public_key s with Some k => status_key_entry k | None => Ok [] end;
  Ok (TkMap None
      :: [TkInt 0; TkInt (Z.of_N (st_version s)); TkInt 1; TkString (st_name s)]
      ++ key
      ++ TkInt 3 :: address_encode (st_identity s)
      ++ TkInt 4 :: attributes_encode (st_attributes s)
      ++ match st_server_version s with Some v => [TkInt 5; TkString v] | None => [] end
      ++ match st_timeout s with Some t => [TkInt 7; TkInt (Z.of_N t)] | None => [] end
      ++ concat (map (λ kv, TkString kv.1 :: any_encode kv.2) (btree_iter (st_extras s)))
      ++ [TkBreak]).

(** [StatusBuilder], with what it was told, and the extras. *)
Record StatusBuilder : Type := mkStatusBuilder {
  sb_version : option N;
  sb_name : option string;
  sb_public_key : option CoseKey;
  sb_identity : option Address;
  sb_attributes : option (list Attribute);
  sb_server_version : option string;
  sb_timeout : option N;
  sb_extras : gmap string CborAny;
}.
Definition builder_default : StatusBuilder := mkStatusBuilder None None None None None None None ∅.
Definition build_status (s : StatusBuilder) : outcome string Status :=
  let '(mkStatusBuilder v n k i a sv t e) := s in
  match v, n, i, a with
  | Some v, Some n, Some i, Some a => Ok (mkStatus v n k i a sv t e)
  | _, _, _, _ => Err "could not build"
  end.

(** [d.str_iter()?.collect()?.join("")]. *)
Fixpoint str_chunks (ts : list Token) : outcome string (string * list Token) :=
  match ts with
  | TkString s :: ts => r ← str_chunks ts; Ok (s +:+ r.1, r.2)
  | TkBreak :: ts => Ok ("", ts)
  | _ => Err (lib_error ts)
  end.
Definition d_str_iter : Dec string := λ ts,
  match ts with
  | TkString s :: ts => Ok (s, ts)
  | TkStringIndef :: ts => str_chunks ts
  | _ => Err (lib_error ts)
  end.

(** A key with its value; a key that is neither a number nor a text is not read, nor is the value of a number that is
    not known. *)
Definition builder_entry (s : StatusBuilder) : Dec StatusBuilder :=
  let '(mkStatusBuilder v n k i a sv t e) := s in
  ty ← d_datatype;
  match ty with
  | TkString _ | TkStringIndef =>
      x ← d_str_iter; y ← any_decode; mret (mkStatusBuilder v n k i a sv t (<[x := y]> e))
  | TkInt z =>
      if (z <? 0)%Z then mret s else
      key ← d_u8;
      match key with
      | 0 => x ← d_u8; mret (mkStatusBuilder (Some x) n k i a sv t e)
      | 1 => x ← d_str; mret (mkStatusBuilder v (Some x) k i a sv t e)
      | 2 =>
          l ← d_bytes;
          x ← d_lift (map_err (λ _, "Invalid cose key.") (coset_key_from_slice l));
          mret (mkStatusBuilder v n (Some x) i a sv t e)
      | 3 => x ← address_decode; mret (mkStatusBuilder v n k (Some x) a sv t e)
      | 4 => x ← AttributeSet_decode; mret (mkStatusBuilder v n k i (Some (attribute_list x)) sv t e)
      | 5 => x ← d_str; mret (mkStatusBuilder v n k i a (Some x) t e)
      | 7 => x ← d_u64; mret (mkStatusBuilder v n k i a sv (Some x) e)
      | _ => mret s
      end
  | _ => mret s
  end.
(** The loop ends at a break, or after the number of entries of the map; [fuel] bounds its rounds, which may be more
    than the items there are. *)
Definition server_status_decode (fuel : nat) : Dec Status :=
  len ← d_map;
  s ← d_entries fuel len 0 builder_entry builder_default;
  d_lift (build_status s).

(** ** Laws *)

Record item_ok {B} (entry : B → Dec B) (e : list Token * (B → B)) : Prop := {
  item_head : ∃ t ts, e.1 = t :: ts ∧ t ≠ TkBreak;
  item_reads acc rest : entry acc (e.1 ++ rest) = Ok (e.2 acc, rest);
}.
Lemma d_entries_indefinite {B} (entry : B → Dec B) es fuel i acc rest :
  Forall (item_ok entry) es → (length es < fuel)%nat →
  d_entries fuel None i entry acc (concat es.*1 ++ TkBreak :: rest) = Ok (foldl (λ x e, e.2 x) acc es, rest).
Proof.
  intros Hes. revert fuel i acc. induction Hes as [|e es He Hes IH]; intros [|fuel] i acc Hf; simpl in Hf; try lia; [done|].
  cbn [d_entries fmap list_fmap concat]. destruct (item_head _ _ He) as (t & ts & Het & Ht). rewrite <-app_assoc.
  rewrite (dec_bind_ok d_datatype _ _ t (e.1 ++ concat es.*1 ++ TkBreak :: rest)) by by rewrite Het.
  destruct t; try done; rewrite (dec_bind_ok _ _ _ _ _ (item_reads _ _ He acc _)); apply IH; lia.
Qed.

Record status_wf (s : Status) : Prop := {
  wf_version : st_version s < 2 ^ 8;
  wf_key k : st_public_key s = Some k → key_labels_unique k;
  wf_attributes :
    ∃ m, st_attributes s = attribute_list m ∧ map_Forall (λ i args, attribute_wf (mkAttribute i args)) m;
  wf_timeout t : st_timeout s = Some t → t < 2 ^ 64;
  wf_extras : map_Forall (λ _ x, any_wf x) (st_extras s);
}.

(** The entries of a status, given the bytes of its key. *)
Definition opt_items {A B} (f : A → list Token * (B → B)) (o : option A) : list (list Token * (B → B)) :=
  match o with Some x => [f x] | None => [] end.
Definition extra_item (kv : string * CborAny) : list Token * (StatusBuilder → StatusBuilder) :=
  (TkString kv.1 :: any_encode kv.2,
   λ '(mkStatusBuilder v n k i a sv t e), mkStatusBuilder v n k i a sv t (<[kv.1 := kv.2]> e)).
Definition status_items (s : Status) (key : option (bytes * CoseKey)) : list (list Token * (StatusBuilder → StatusBuilder)) :=
  [([TkInt 0; TkInt (Z.of_N (st_version s))],
    λ '(mkStatusBuilder _ n k i a sv t e), mkStatusBuilder (Some (st_version s)) n k i a sv t e);
   ([TkInt 1; TkString (st_name s)],
    λ '(mkStatusBuilder v _ k i a sv t e), mkStatusBuilder v (Some (st_name s)) k i a sv t e)]
  ++ opt_items (λ lk, ([TkInt 2; TkBytes lk.1],
       λ '(mkStatusBuilder v n _ i a sv t e), mkStatusBuilder v n (Some lk.2) i a sv t e)) key
  ++ [(TkInt 3 :: address_encode (st_identity s),
       λ '(mkStatusBuilder v n k _ a sv t e), mkStatusBuilder v n k (Some (st_identity s)) a sv t e);
      (TkInt 4 :: attributes_encode (st_attributes s),
       λ '(mkStatusBuilder v n k i _ sv t e), mkStatusBuilder v n k i (Some (st_attributes s)) sv t e)]
  ++ opt_items (λ x, ([TkInt 5; TkString x],
       λ '(mkStatusBuilder v n k i a _ t e), mkStatusBuilder v n k i a (Some x) t e)) (st_server_version s)
  ++ opt_items (λ x, ([TkInt 7; TkInt (Z.of_N x)],
       λ '(mkStatusBuilder v n k i a sv _ e), mkStatusBuilder v n k i a sv (Some x) e)) (st_timeout s)
  ++ map extra_item (btree_iter (st_extras s)).

Lemma Forall_opt_items {A B} (P : list Token * (B → B) → Prop) f (o : option A) :
  (∀ x, o = Some x → P (f x)) → Forall P (opt_items f o).
Proof. intros Ho. destruct o; [|by apply Forall_nil]. apply Forall_singleton. by apply Ho. Qed.
Lemma entry_key_number (f : N → Dec StatusBuilder) n rest :
  n < 2 ^ 8 → (d_u8 ≫= f) (TkInt (Z.of_N n) :: rest) = f n rest.
Proof. intros Hn. apply dec_bind_ok, d_unsigned_ok. lia. Qed.

Lemma u8_reads n : n < 2 ^ 8 → reads_back d_u8 [TkInt (Z.of_N n)] n.
Proof. intros Hn rest. apply d_unsigned_ok. lia. Qed.
Lemma u64_reads n : n < 2 ^ 64 → reads_back d_u64 [TkInt (Z.of_N n)] n.
Proof. intros Hn rest. apply d_unsigned_ok. lia. Qed.

Lemma attribute_list_encode m : attributes_encode (attribute_list m) = AttributeSet_encode m.
Proof.
  unfold attributes_encode, attribute_list, AttributeSet_encode. rewrite length_map, map_map.
  do 4 f_equal. rewrite btree_iter_perm. apply length_map_to_list.
Qed.

Ltac item_step n lem :=
  split; [by do 2 eexists|]; intros [] ?; cbn [fst snd app]; rewrite ?app_comm_cons; unfold builder_entry;
  rewrite <-?app_comm_cons; rewrite d_peek; cbn [Z.ltb Z.compare];
  rewrite (entry_key_number _ n) by lia;
  cbn beta iota; (erewrite dec_bind_ok; [|apply lem]); done.

Lemma status_items_ok s key :
  status_wf s → (∀ lk, key = Some lk → coset_key_from_slice lk.1 = Ok lk.2) →
  Forall (item_ok builder_entry) (status_items s key).
Proof.
  intros [Hv _ Ha Ht He] Hk. unfold status_items. rewrite !Forall_app. split_and!.
  - apply Forall_cons; split; [item_step 0 (u8_reads (st_version s) Hv)|].
    apply Forall_singleton. by split; [do 2 eexists|intros []].
  - apply Forall_opt_items. intros lk Hlk. specialize (Hk lk Hlk). split; [by do 2 eexists|]. intros [] rest.
    cbn [fst snd app]. unfold builder_entry. rewrite d_peek. cbn [Z.ltb Z.compare]. rewrite (entry_key_number _ 2) by lia.
    cbn beta iota. unfold d_bytes. erewrite d_read_ok by done. rewrite Hk. done.
  - apply Forall_cons; split; [item_step 3 (address_decode_ok (st_identity s))|].
    apply Forall_singleton. destruct Ha as (m & Hm & Ha). rewrite Hm, attribute_list_encode.
    item_step 4 (AttributeSet_decode_ok m Ha).
  - apply Forall_opt_items. intros x Hx. by split; [do 2 eexists|intros []].
  - apply Forall_opt_items. intros x Hx. specialize (Ht x Hx). item_step 7 (u64_reads x Ht).
  - apply Forall_fmap. apply Forall_forall. intros [x y] Hin. apply elem_of_btree_iter in Hin. split; [by do 2 eexists|].
    intros [] rest. cbn [extra_item fst snd compose]. rewrite <-app_comm_cons. unfold builder_entry. rewrite d_peek.
    erewrite (dec_bind_ok d_str_iter _ _ x) by done. by rewrite (reads_bind _ _ _ _ _ (any_decode_ok y (He x y Hin))).
Qed.
Lemma extra_items_effect l v n k i a sv t e :
  foldl (λ x e, e.2 x) (mkStatusBuilder v n k i a sv t e) (map extra_item l)
  = mkStatusBuilder v n k i a sv t (foldl (λ m kv, <[kv.1 := kv.2]> m) e l).
Proof. revert e. induction l as [|[x y] l IH]; intros e; [done|]. cbn [map foldl extra_item fst snd]. apply IH. Qed.

Lemma status_items_effect s key :
  snd <$> key = st_public_key s →
  build_status (foldl (λ x e, e.2 x) builder_default (status_items s key)) = Ok s.
Proof.
  intros Hk. destruct s as [v n k i a sv t e]. cbn in Hk. unfold status_items, builder_default.
  cbn [st_version st_name st_identity st_attributes st_server_version st_timeout st_extras].
  rewrite !foldl_app. destruct key as [[l k']|], sv as [sv|], t as [t|]; cbn [opt_items foldl snd fst];
    rewrite extra_items_effect; cbn [build_status]; simpl in Hk; subst k;
    (rewrite collect_insert; [|apply NoDup_fst_btree_iter|done]);
    rewrite (left_id_L ∅ (∪)), (list_to_map_proper _ (map_to_list e)), list_to_map_to_list;
    try done; try apply btree_iter_perm; apply NoDup_fst_btree_iter.
Qed.

Lemma status_encode_items s key :
  (∀ lk, key = Some lk → coset_key_to_vec lk.2 = Ok lk.1) → snd <$> key = st_public_key s →
  server_status_encode s = Ok (TkMap None :: concat (status_items s key).*1 ++ [TkBreak]).
Proof.
  intros Hv Hk. unfold server_status_encode, status_items, status_key_entry. rewrite <-Hk.
  assert (concat (map extra_item (btree_iter (st_extras s))).*1
          = concat (map (λ kv, TkString kv.1 :: any_encode kv.2) (btree_iter (st_extras s)))) as Hx.
  { f_equal. rewrite <-list_fmap_compose. done. }
  destruct key as [[l k]|]; cbn [fmap option_fmap option_map snd]; [specialize (Hv _ eq_refl); cbn in Hv; rewrite Hv|];
    cbn [mbind outcome_bind]; do 2 f_equal; rewrite !fmap_app, !concat_app, Hx;
    destruct (st_server_version s), (st_timeout s);
    cbn [opt_items app fmap list_fmap concat fst]; rewrite ?app_nil_r, <-?app_assoc; done.
Qed.

Lemma status_reads_back `{!CosetKeyLaws} s :
  status_wf s →
  ∃ ts, server_status_encode s = Ok ts
    ∧ ∀ fuel rest, (length ts < fuel)%nat → server_status_decode fuel (ts ++ rest) = Ok (s, rest).
Proof.
  intros Hs.
  assert (∃ key, snd <$> key = st_public_key s
    ∧ ∀ lk : bytes * CoseKey, key = Some lk → coset_key_to_vec lk.2 = Ok lk.1 ∧ coset_key_from_slice lk.1 = Ok lk.2)
    as (key & Hk & Hlk).
  { destruct (st_public_key s) as [k|] eqn:Hpk; [|by exists None].
    destruct (coset_key_roundtrip k (wf_key s Hs k Hpk)) as (l & Hl & Hl'). exists (Some (l, k)). split; [done|].
    by intros lk [= <-]. }
  eexists. split; [apply (status_encode_items s key); [|done]; intros lk Hl; by apply Hlk|]. intros fuel rest Hf.
  unfold server_status_decode, d_map. rewrite <-app_comm_cons, <-app_assoc. erewrite d_read_ok by done. cbn [app].
  assert (Forall (item_ok builder_entry) (status_items s key)) as Hok.
  { apply status_items_ok; [done|]. intros lk Hl. by apply Hlk. }
  erewrite dec_bind_ok; [|apply d_entries_indefinite; [exact Hok|]].
  - rewrite status_items_effect by done. done.
  - cbn [length] in Hf. rewrite length_app in Hf.
    assert (length (status_items s key) ≤ length (concat (status_items s key).*1))%nat; [|lia].
    apply (length_concat_nonempty fst). eapply Forall_impl; [exact Hok|]. intros e [(t & ts & -> & _) _]. done.
Qed.

(** A key that the decoder of a status does not read: not a number, not a text, and not the end of the map. *)
Definition skipped_key (t : Token) : Prop :=
  match t with
  | TkInt z => (z < 0)%Z
  | TkString _ | TkStringIndef | TkBreak => False
  | _ => True
  end.
Lemma builder_entry_skipped s t rest : skipped_key t → builder_entry s (t :: rest) = Ok (s, t :: rest).
Proof.
  intros Ht. destruct s. unfold builder_entry. rewrite d_peek. destruct t; try done. simpl in Ht.
  by destruct (Z.ltb_spec z 0); [|lia].
Qed.

(** The status that a server gives is read back by the client that asked for it: its version, name, key,
    address, attributes, timeout and the entries of its own. But the client does not come back from a status of
    indefinite length with a key that is neither a number nor a text (a null, a negative number, an array...):
    the decoder looks at it forever. *)
Theorem status_decoding `{!CosetKeyLaws} :
  (∀ s, status_wf s →
     ∃ ts, server_status_encode s = Ok ts
       ∧ ∀ fuel rest, (length ts < fuel)%nat → server_status_decode fuel (ts ++ rest) = Ok (s, rest))
  ∧ ∀ t rest, skipped_key t → ∀ fuel, server_status_decode fuel (TkMap None :: t :: rest) = OutOfFuel.
Proof.
  split; [apply status_reads_back|]. intros t rest Ht fuel. unfold server_status_decode, d_map.
  erewrite d_read_ok by done.
  assert (∀ i s, d_entries fuel None i builder_entry s (t :: rest) = OutOfFuel) as Hf; [|unfold mbind, dec_bind; by rewrite Hf].
  induction fuel as [|fuel IH]; intros i s; [done|]. cbn [d_entries]. rewrite d_peek.
  destruct t; try done; by rewrite (dec_bind_ok _ _ _ _ _ (builder_entry_skipped s _ rest Ht)), IH.
Qed.
End status.
