(* ===== verification/Server.v ===== *)
(** * many-server: validation and dispatch of messages

    Models [many-server/src/validator.rs] (the trait [RequestValidator] and its
    implementations), [many-server-cache/src/lib.rs] (the cache of executed messages),
    [many-modules/src/lib.rs] ([ManyModuleInfo], [ManyModule]), [many-server/src/transport.rs] and
    [many-server/src/server.rs] ([ManyServer]).

    A trait is a class: a validator is a type of states [V] with an instance [RequestValidator V]. What
    the modules keep behind their locks is a type [W] (the world); a module is a record of
    operations on it.

    [execute] takes the lock of the server three times, and runs the module between the second
    and the third without it. A [Task] is a call of [execute] between two such phases, and
    [task_step] is a phase; [execute] runs them in a row, and [serves] lets several calls
    interleave. A panic while the lock is held poisons it, and every later [lock().unwrap()]
    panics. *)
From S2P Require Import Prelude Error ErrorDisplay External Address Types Account Events.
From S2P Require Import Cose Wire WireLaws Protocol BaseStatus.

#[local] Open Scope string_scope.
#[local] Open Scope list_scope.
#[local] Open Scope N_scope.

(** ** Validators *)

Class RequestValidator (V : Type) := {
  validate_envelope : V → CoseSign1 → outcome ManyError unit;
  validate_request : V → RequestMessage → outcome ManyError unit;
  message_executed : CoseSign1 → ResponseMessage → ST V ManyError unit;
}.

(** [impl RequestValidator for ()]: the default methods of the trait. *)
#[global] Instance unit_validator : RequestValidator unit := {|
  validate_envelope _ _ := Ok tt;
  validate_request _ _ := Ok tt;
  message_executed _ _ := mret tt;
|}.

(** [impl RequestValidator for (A, B)]. *)
#[global] Instance pair_validator {A B} `{!RequestValidator A, !RequestValidator B} :
    RequestValidator (A * B) := {|
  validate_envelope v e := validate_envelope v.1 e;; validate_envelope v.2 e;
  validate_request v m := validate_request v.1 m;; validate_request v.2 m;
  message_executed e r v :=
    let '(a, res) := message_executed e r v.1 in
    match res with
    | Ok _ => let '(b, res) := message_executed e r v.2 in ((a, b), res)
    | _ => ((a, v.2), res)
    end;
|}.

Record ValidateOnlyRequestValidator (V : Type) : Type := ValidateOnly { validate_only : V }.
Arguments ValidateOnly {V} validate_only.
Arguments validate_only {V} v : rename.
#[global] Instance validate_only_validator {V} `{!RequestValidator V} :
    RequestValidator (ValidateOnlyRequestValidator V) := {|
  validate_envelope v e := validate_envelope (validate_only v) e;
  validate_request v m := validate_request (validate_only v) m;
  message_executed _ _ := mret tt;
|}.

(** *** The cache of executed messages *)

Class RequestCacheBackend (T : Type) := {
  cache_has : T → bytes → bool;
  cache_put : T → bytes → T;
}.
#[global] Instance unit_cache_backend : RequestCacheBackend unit := {| cache_has _ _ := false; cache_put _ _ := tt |}.

(** [rocksdb::DB], of a healthy database. *)
Class RocksDb := {
  rocks_db : Type;
  rocks_get : rocks_db → bytes → option bytes;
  rocks_put : rocks_db → bytes → bytes → rocks_db;
}.
Class RocksDbLaws `{RocksDb} : Prop :=
  rocks_get_put d k v k' : rocks_get (rocks_put d k v) k' = if bool_decide (k = k') then Some v else rocks_get d k'.
(** [RocksDbCacheBackend], and [SharedRocksDbCacheBackend], which is the same behind a lock. *)
#[global] Instance RocksDbCacheBackend `{RocksDb} : RequestCacheBackend rocks_db := {|
  cache_has d k := bool_decide (is_Some (rocks_get d k));
  cache_put d k := rocks_put d k [];
|}.

(** [sha2::Sha512]. *)
Class Sha512 := sha512 : bytes → bytes.

Record RequestCacheValidator (T : Type) : Type := CacheValidator { cache_backend : T }.
Arguments CacheValidator {T} cache_backend.
Arguments cache_backend {T} r : rename.
Definition request_hash `{Sha512} (e : CoseSign1) : outcome ManyError bytes :=
  sha512 <$> ok_or (cose_payload e) empty_envelope.
Section cache.
Context `{Sha512} {T : Type} `{!RequestCacheBackend T}.

Definition cache_validate_envelope (v : RequestCacheValidator T) (e : CoseSign1) : outcome ManyError unit :=
  hash ← request_hash e;
  if cache_has (cache_backend v) hash then Err duplicated_message else Ok tt.
Definition cache_message_executed (e : CoseSign1) (r : ResponseMessage) :
    ST (RequestCacheValidator T) ManyError unit := λ v,
  match request_hash e with
  | Ok hash => (CacheValidator (cache_put (cache_backend v) hash), Ok tt)
  | Err err => (v, Err err)
  | Panic t => (v, Panic t)
  | OutOfFuel => (v, OutOfFuel)
  end.
#[global] Instance cache_validator : RequestValidator (RequestCacheValidator T) := {|
  validate_envelope := cache_validate_envelope;
  validate_request _ _ := Ok tt;
  message_executed := cache_message_executed;
|}.
End cache.

(** ** Modules *)

Record ManyModuleInfo : Type := mkModuleInfo {
  info_name : string;
  info_attribute : option Attribute;
  info_endpoints : list string;
}.
Record ManyModule (W : Type) : Type := mkModule {
  module_info : ManyModuleInfo;
  module_validate : W → RequestMessage → CoseSign1 → outcome ManyError unit;
  module_execute : RequestMessage → ST W ManyError ResponseMessage;
}.
Arguments module_info {W} m : rename.
Arguments module_validate {W} m : rename.
Arguments module_execute {W} m : rename.

(** [SimpleRequestHandler] and its adapter. *)
Record SimpleRequestHandler (W : Type) : Type := mkSimpleHandler {
  simple_validate : W → string → bytes → outcome ManyError unit;
  simple_handle : string → bytes → ST W ManyError bytes;
}.
Arguments simple_validate {W} s : rename.
Arguments simple_handle {W} s : rename.
Definition adapter_validate {W} (h : SimpleRequestHandler W) (w : W) (m : RequestMessage) :
    outcome ManyError unit := simple_validate h w (req_method m) (req_data m).
Definition adapter_execute {W} (h : SimpleRequestHandler W) (m : RequestMessage) :
    ST W ManyError ResponseMessage :=
  payload ← catch (simple_handle h (req_method m) (req_data m));
  mret (mkResponse (Some 1) (req_to m) (req_from m) payload None (req_id m) ∅).

(** The server to which a message goes that no module takes: a [LowLevelManyRequestHandler] with a
    [BaseModuleBackend]. *)
Record ManyServerFallback (W : Type) : Type := mkFallback {
  fallback_execute : CoseSign1 → ST W string CoseSign1;
  fallback_endpoints : W → outcome ManyError (gset string);
  fallback_status : W → outcome ManyError Status;
}.
Arguments fallback_execute {W} m : rename.
Arguments fallback_endpoints {W} m : rename.
Arguments fallback_status {W} m : rename.

(** ** [ManyServer] *)

Definition MANYSERVER_DEFAULT_TIMEOUT : N := 300.

Record ManyServer (W V : Type) : Type := mkServer {
  modules : list (ManyModule W);
  method_cache : gset string;
  identity : Identity;
  identity_verifier : Verifier;
  validator : V;
  srv_public_key : option CoseKey;
  srv_name : string;
  srv_version : option string;
  timeout : N;
  fallback : option (ManyServerFallback W);
  time_fn : option (W → outcome ManyError SystemTime);
}.
Arguments mkServer {W V}.
Arguments modules {W V} m : rename.
Arguments method_cache {W V} m : rename.
Arguments identity {W V} m : rename.
Arguments identity_verifier {W V} m : rename.
Arguments validator {W V} m : rename.
Arguments srv_public_key {W V} m : rename.
Arguments srv_name {W V} m : rename.
Arguments srv_version {W V} m : rename.
Arguments timeout {W V} m : rename.
Arguments fallback {W V} m : rename.
Arguments time_fn {W V} m : rename.

Section config.
Context {W : Type}.

(** [ManyServer::new]. *)
Definition server_new (name : string) (i : Identity) (v : Verifier) (pk : option CoseKey) : ManyServer W unit :=
  mkServer [] ∅ i v tt pk name None MANYSERVER_DEFAULT_TIMEOUT None None.

Context {V : Type}.
Implicit Types s : ManyServer W V.

Definition set_timeout s (t : N) : ManyServer W V :=
  mkServer (modules s) (method_cache s) (identity s) (identity_verifier s) (validator s) (srv_public_key s)
    (srv_name s) (srv_version s) t (fallback s) (time_fn s).
Definition set_time_fn s (f : W → outcome ManyError SystemTime) : ManyServer W V :=
  mkServer (modules s) (method_cache s) (identity s) (identity_verifier s) (validator s) (srv_public_key s)
    (srv_name s) (srv_version s) (timeout s) (fallback s) (Some f).
Definition set_fallback_module s (f : ManyServerFallback W) : ManyServer W V :=
  mkServer (modules s) (method_cache s) (identity s) (identity_verifier s) (validator s) (srv_public_key s)
    (srv_name s) (srv_version s) (timeout s) (Some f) (time_fn s).
(** The validator becomes the pair of the previous one and the new one. *)
Definition add_validator {V'} s (v : V') : ManyServer W (V * V') :=
  mkServer (modules s) (method_cache s) (identity s) (identity_verifier s) (validator s, v) (srv_public_key s)
    (srv_name s) (srv_version s) (timeout s) (fallback s) (time_fn s).
Definition set_validator s (v : V) : ManyServer W V :=
  mkServer (modules s) (method_cache s) (identity s) (identity_verifier s) v (srv_public_key s)
    (srv_name s) (srv_version s) (timeout s) (fallback s) (time_fn s).

Definition module_attribute_id (m : ManyModule W) : option N := attr_id <$> info_attribute (module_info m).
Definition module_endpoints (m : ManyModule W) : list string := info_endpoints (module_info m).

Definition add_module s (m : ManyModule W) : outcome ManyError (ManyServer W V) :=
  let conflict :=
    a ← info_attribute (module_info m);
    List.find (λ m', bool_decide (module_attribute_id m' = Some (attr_id a))) (modules s) in
  match conflict with
  | Some m' =>
      Panic ("Module " +:+ info_name (module_info m') +:+ " already implements attribute "
             +:+ pretty (default 0 (module_attribute_id m)) +:+ ".")
  | None =>
      match List.find (λ e, bool_decide (e ∈ method_cache s)) (module_endpoints m) with
      | Some e =>
          Panic ("internal error: entered unreachable code: Method '" +:+ e
                 +:+ "' already implemented, but there was no attribute conflict.")
      | None =>
          Ok (mkServer (modules s ++ [m]) (list_to_set (module_endpoints m) ∪ method_cache s) (identity s)
                (identity_verifier s) (validator s) (srv_public_key s) (srv_name s) (srv_version s) (timeout s)
                (fallback s) (time_fn s))
      end
  end.

(** [s.add_module(..); s.add_module(..); ...]. *)
Definition add_modules s (l : list (ManyModule W)) : outcome ManyError (ManyServer W V) :=
  foldl (λ r m, s' ← r; add_module s' m) (Ok s) l.

Definition find_module s (m : RequestMessage) : option (ManyModule W) :=
  List.find (λ x, bool_decide (req_method m ∈ module_endpoints x)) (modules s).

(** ** The backend of the base module *)

Definition server_endpoints s (w : W) : outcome ManyError (gset string) :=
  match fallback s with
  | Some fb => l ← fallback_endpoints fb w; Ok (method_cache s ∪ l)
  | None => Ok (method_cache s)
  end.

Definition module_attributes s : list Attribute := omap (λ m, info_attribute (module_info m)) (modules s).
Definition server_status s (w : W) : outcome ManyError Status :=
  let attributes := attributes_from_iter (module_attributes s) in
  match fallback s with
  | Some fb =>
      st ← fallback_status fb w;
      if negb (bool_decide (st_identity st = identity_address (identity s)))
         || negb (st_version st =? 1)
         || (negb (bool_decide (st_server_version st = srv_version s)) && bool_decide (is_Some (srv_version s)))
      then Err internal_server_error
      else
        Ok (mkStatus 1 (st_name st) (srv_public_key s) (identity_address (identity s))
              (attributes_from_iter (attributes ++ st_attributes st))
              (match st_server_version st with Some v => Some v | None => srv_version s end) (Some (timeout s)) (st_extras st))
  | None =>
      Ok (mkStatus 1 (srv_name s) (srv_public_key s) (identity_address (identity s)) attributes (srv_version s)
            (Some (timeout s)) ∅)
  end.
End config.

(** [ManyServer::simple]: a server with the base module, whose backend is the server. *)
Definition server_simple {W} (name : string) (i : Identity) (v : Verifier) (version : option string)
    (base : ManyModule W) : outcome ManyError (ManyServer W unit) :=
  let s := server_new name i v (public_key i) in
  add_module (mkServer (modules s) (method_cache s) (identity s) (identity_verifier s) (validator s) (srv_public_key s)
                (srv_name s) version (timeout s) (fallback s) (time_fn s)) base.

(** ** [execute] *)

Section execute.
Context `{Minicbor, Base32, Crc16, Clock, Coset} {W V : Type} `{!RequestValidator V}.

Definition validate_id (s : ManyServer W V) (m : RequestMessage) : outcome ManyError unit :=
  if is_anonymous (req_to m) || bool_decide (identity_address (identity s) = req_to m) then Ok tt
  else Err (unknown_destination (address_to_string (req_to m)) (address_to_string (identity_address (identity s)))).

(** A message that a module has answered, with the time it was checked against. *)
Record Execution : Type := mkExecution {
  ex_envelope : CoseSign1;
  ex_message : RequestMessage;
  ex_time : SystemTime;
}.
(** The server behind its lock, what the modules keep, and the history of answered messages (which the
    code does not keep). *)
Record Shared : Type := mkShared {
  server : ManyServer W V;
  poisoned : bool;
  world : W;
  history : list Execution;
}.

(** [let this = self.lock().unwrap(); ...]: a panic of the body poisons the lock. *)
Definition with_lock {E A} (body : ManyServer W V → ManyServer W V * outcome E A) : ST Shared E A := λ sh,
  if poisoned sh then (sh, Panic "called `Result::unwrap()` on an `Err` value: PoisonError")
  else
    let '(s, r) := body (server sh) in
    (mkShared s (match r with Panic _ => true | _ => false end) (world sh) (history sh), r).
Definition with_lock_read {E A} (body : ManyServer W V → outcome E A) : ST Shared E A :=
  with_lock (λ s, (s, body s)).

(** A call of [execute] between two of its phases. *)
Inductive Task : Type :=
| Received (e : CoseSign1)
| Decoded (e : CoseSign1) (request : outcome ManyError RequestMessage)
| Routed (e : CoseSign1) (address : Address) (m : RequestMessage) (now : SystemTime)
    (maybe_module : option (ManyModule W)) (fb : option (ManyServerFallback W))
| Answered (e : CoseSign1) (response : ResponseMessage)
| Replying (response : ResponseMessage)
| Done (result : outcome string CoseSign1).

(** The first phase: the envelope is validated and opened. *)
Definition decode_phase (e : CoseSign1) (s : ManyServer W V) : outcome ManyError RequestMessage :=
  validate_envelope (validator s) e;; decode_request_from_cose_sign1 e (identity_verifier s).

(** The second: the message is validated, and its module found. The error carries the id of the
    message once its time is accepted. *)
Definition check_phase (e : CoseSign1) (request : outcome ManyError RequestMessage) (system_now : SystemTime)
    (w : W) (s : ManyServer W V) : outcome (option N * ManyError)
      (RequestMessage * SystemTime * option (ManyModule W)) :=
  let early {A} (r : outcome ManyError A) := map_err (pair None) r in
  m ← early request;
  now ← early (match time_fn s with Some f => f w | None => Ok system_now end);
  early (validate_request (validator s) m);;
  early (validate_time m now (timeout s));;
  let late {A} (r : outcome ManyError A) := map_err (pair (req_id m)) r in
  late (validate_id s m);;
  let maybe_module := find_module s m in
  late (match maybe_module with Some x => module_validate x w m e | None => Ok tt end);;
  Ok (m, now, maybe_module).

Definition reply_phase (r : ResponseMessage) (s : ManyServer W V) : outcome string CoseSign1 :=
  map_err ManyError_to_string (encode_cose_sign1_from_response r (identity s)).

Definition message_executed_failed (err : ManyError) : string :=
  "message_executed failed: " +:+ ManyError_to_string err +:+ nl
  +:+ "The backend and tendermint states might be inconsistent and would need to revert to a previous block.".

(** The third, after the module: the validator is told, and the response signed. *)
Definition executed_phase (e : CoseSign1) (r : ResponseMessage) (s : ManyServer W V) :
    ManyServer W V * outcome string CoseSign1 :=
  let '(v, res) := message_executed e r (validator s) in
  let s := set_validator s v in
  match res with
  | Ok _ => (s, reply_phase r s)
  | Err err => (s, Panic (message_executed_failed err))
  | Panic t => (s, Panic t)
  | OutOfFuel => (s, OutOfFuel)
  end.

Definition response_with_from (r : ResponseMessage) (a : Address) : ResponseMessage :=
  mkResponse (resp_version r) a (resp_to r) (resp_data r) (resp_timestamp r) (resp_id r) (resp_attributes r).

(** A phase of a call; [system_now] is the system clock. *)
Definition task_step (system_now : SystemTime) (t : Task) (sh : Shared) : Shared * Task :=
  match t with
  | Received e =>
      let '(sh, r) := with_lock_read (decode_phase e) sh in
      (sh, match r with Panic t => Done (Panic t) | OutOfFuel => Done OutOfFuel | _ => Decoded e r end)
  | Decoded e request =>
      let a := identity_address (identity (server sh)) in
      let '(sh, r) := with_lock_read (check_phase e request system_now (world sh)) sh in
      (sh, match r with
           | Ok (m, now, maybe_module) => Routed e a m now maybe_module (fallback (server sh))
           | Err (i, err) => Replying (response_error a i err)
           | Panic t => Done (Panic t)
           | OutOfFuel => Done OutOfFuel
           end)
  | Routed e a m now (Some x) _ =>
      let '(w, r) := module_execute x m (world sh) in
      let answered r :=
        (mkShared (server sh) (poisoned sh) w (mkExecution e m now :: history sh),
         Answered e (response_with_from r a)) in
      match r with
      | Ok r => answered r
      | Err err => answered (response_error a (req_id m) err)
      | Panic t => (mkShared (server sh) (poisoned sh) w (history sh), Done (Panic t))
      | OutOfFuel => (mkShared (server sh) (poisoned sh) w (history sh), Done OutOfFuel)
      end
  | Routed e _ m _ None (Some fb) =>
      let '(w, r) := fallback_execute fb e (world sh) in
      (mkShared (server sh) (poisoned sh) w (history sh), Done r)
  | Routed e a m _ None None => (sh, Replying (response_error a (req_id m) could_not_route_message))
  | Answered e r => let '(sh, r) := with_lock (executed_phase e r) sh in (sh, Done r)
  | Replying r => let '(sh, r) := with_lock_read (reply_phase r) sh in (sh, Done r)
  | Done r => (sh, Done r)
  end.

(** A call on its own: four phases. *)
Definition execute (e : CoseSign1) (system_now : SystemTime) : ST Shared string CoseSign1 := λ sh,
  let '(sh, t) := task_step system_now (Received e) sh in
  let '(sh, t) := task_step system_now t sh in
  let '(sh, t) := task_step system_now t sh in
  let '(sh, t) := task_step system_now t sh in
  (sh, match t with Done r => r | _ => OutOfFuel end).

(** ** [HttpServer] *)

Definition READ_BUFFER_LEN : N := 1024 * 1024 * 5.
Inductive HttpResponse : Type :=
| HttpEmpty (status : N)
| HttpData (l : bytes).
(** A request: the length its header announces, its body, and the time at which it is served. *)
Definition HttpRequest : Type := option N * bytes * SystemTime.

Definition handle_request (q : HttpRequest) : ST Shared string HttpResponse := λ sh,
  let '(body_length, body, now) := q in
  if match body_length with Some x => READ_BUFFER_LEN <? x | None => false end then (sh, Ok (HttpEmpty 413))
  else
    match cose_from_tagged_slice body with
    | Ok e =>
        let '(sh, r) := execute e now sh in
        (sh, match r ≫= cose_to_tagged_vec with
             | Ok l => Ok (HttpData l)
             | Err _ => Ok (HttpEmpty 500)
             | Panic t => Panic t
             | OutOfFuel => OutOfFuel
             end)
    | Err _ => (sh, Ok (HttpEmpty 500))
    | Panic t => (sh, Panic t)
    | OutOfFuel => (sh, OutOfFuel)
    end.
(** The loop of [bind]: the requests one after the other, until one panics. *)
Fixpoint serve (l : list HttpRequest) (sh : Shared) : Shared :=
  match l with
  | [] => sh
  | q :: l =>
      match handle_request q sh with
      | (sh, Ok _) => serve l sh
      | (sh, _) => sh
      end
  end.

(** ** Calls that interleave *)

(** Any number of calls, of which one at a time makes a step. *)
Inductive serves : Shared → list Task → Shared → list Task → Prop :=
| serves_refl sh ts : serves sh ts sh ts
| serves_step sh ts sh' ts' i t now sh'' t' :
    serves sh ts sh' ts' → ts' !! i = Some t → task_step now t sh' = (sh'', t') →
    serves sh ts sh'' (<[i := t']> ts').
End execute.
