(* ===== verification/ServerLaws.v ===== *)
(** * many-server: what reaches a module, and how often

    Theorems about [Server.v]: the modules of a server never compete for a method; under any
    interleaving of calls a module answers authenticated, timely and addressed messages only; with a
    cache of executed messages the calls of the HTTP server answer no message twice, while
    interleaved calls can; and when a call panics. *)
From S2P Require Import Prelude Error ErrorDisplay External Address Types Account Events.
From S2P Require Import Cose Wire WireLaws Protocol ProtocolLaws Server.

#[local] Open Scope string_scope.
#[local] Open Scope list_scope.
#[local] Open Scope N_scope.

(** ** Registration *)

Section registration.
Context {W V : Type}.
Implicit Types s : ManyServer W V.

(** No method and no attribute belongs to two modules, and the cache holds the methods of all. *)
Record server_wf s : Prop := {
  wf_method_cache e : e ∈ method_cache s ↔ ∃ m, m ∈ modules s ∧ e ∈ module_endpoints m;
  wf_methods i j m m' e :
    modules s !! i = Some m → modules s !! j = Some m' → e ∈ module_endpoints m → e ∈ module_endpoints m' → i = j;
  wf_attributes_unique i j m m' a :
    modules s !! i = Some m → modules s !! j = Some m' →
    module_attribute_id m = Some a → module_attribute_id m' = Some a → i = j;
}.

Lemma find_none_iff {A} (f : A → bool) l : List.find f l = None ↔ ∀ x, x ∈ l → f x = false.
Proof.
  split.
  - intros Hf x Hx%list_elem_of_In. by apply (find_none _ _ Hf).
  - intros Hn. destruct (List.find f l) as [x|] eqn:Hf; [|done].
    apply find_some in Hf as [Hx%list_elem_of_In Hp]. by rewrite (Hn x) in Hp.
Qed.

Lemma find_snoc {A} (f : A → bool) l x :
  List.find f (l ++ [x]) = match List.find f l with Some y => Some y | None => if f x then Some x else None end.
Proof. induction l as [|y l IH]; simpl; [done|]. by destruct (f y). Qed.

(** A new module takes its place when its attribute and its methods are new. *)
Definition compatible s (m : ManyModule W) : Prop :=
  (∀ a m', module_attribute_id m = Some a → m' ∈ modules s → module_attribute_id m' ≠ Some a)
  ∧ ∀ e, e ∈ module_endpoints m → e ∉ method_cache s.

Definition with_module s (m : ManyModule W) : ManyServer W V :=
  mkServer (modules s ++ [m]) (list_to_set (module_endpoints m) ∪ method_cache s) (identity s)
    (identity_verifier s) (validator s) (srv_public_key s) (srv_name s) (srv_version s) (timeout s)
    (fallback s) (time_fn s).

Lemma add_module_cases s m :
  (compatible s m ∧ add_module s m = Ok (with_module s m))
  ∨ (¬ compatible s m ∧ ∃ t, add_module s m = Panic t).
Proof.
  unfold add_module. case_match eqn:Hc.
  { right. split; [|by eexists]. intros [Ha _]. unfold module_attribute_id in Ha.
    destruct (info_attribute (module_info m)) as [a|]; [|done]. simpl in Hc.
    apply find_some in Hc as [Hin%list_elem_of_In Hp%bool_decide_eq_true]. by apply (Ha (attr_id a)) in Hin. }
  case_match eqn:He.
  { right. split; [|by eexists]. intros [_ Hm].
    apply find_some in He as [Hin%list_elem_of_In Hp%bool_decide_eq_true]. by apply (Hm s0). }
  left. split; [|done]. split.
  - intros a m' Ha Hin Ha'. unfold module_attribute_id in Ha.
    destruct (info_attribute (module_info m)) as [a'|]; [|done]. simpl in Ha. injection Ha as <-.
    cbn [mbind option_bind] in Hc.
    rewrite find_none_iff in Hc. specialize (Hc m' Hin). by apply bool_decide_eq_false in Hc.
  - intros e Hin Hm. rewrite find_none_iff in He. specialize (He e Hin). by apply bool_decide_eq_false in He.
Qed.

Lemma find_module_some s r m :
  server_wf s → find_module s r = Some m ↔ m ∈ modules s ∧ req_method r ∈ module_endpoints m.
Proof.
  intros Hs. unfold find_module. split.
  - intros [Hin%list_elem_of_In Hp%bool_decide_eq_true]%find_some. done.
  - intros [Hin Hm]. destruct (List.find _ _) as [m'|] eqn:Hf.
    + apply find_some in Hf as [Hin'%list_elem_of_In Hp%bool_decide_eq_true].
      apply list_elem_of_lookup in Hin as [i Hi], Hin' as [j Hj].
      pose proof (wf_methods s Hs i j m m' (req_method r) Hi Hj Hm Hp) as ->. congruence.
    + rewrite find_none_iff in Hf. specialize (Hf m Hin). by apply bool_decide_eq_false in Hf.
Qed.

(** At most one place of a list has the value [b] among its values [f]. *)
Definition at_one_place {A B} (f : A → B → Prop) (l : list A) : Prop :=
  ∀ i j x y b, l !! i = Some x → l !! j = Some y → f x b → f y b → i = j.
Lemma at_one_place_snoc {A B} (f : A → B → Prop) l x :
  at_one_place f l → (∀ y b, y ∈ l → f x b → ¬ f y b) → at_one_place f (l ++ [x]).
Proof.
  intros Hl Hx i j y z b Hi Hj Hy Hz.
  apply lookup_app_Some in Hi as [Hi|[? Hi]], Hj as [Hj|[? Hj]].
  - by eapply Hl.
  - apply list_lookup_singleton_Some in Hj as [? ->]. apply list_elem_of_lookup_2 in Hi. by destruct (Hx y b).
  - apply list_lookup_singleton_Some in Hi as [? ->]. apply list_elem_of_lookup_2 in Hj. by destruct (Hx z b).
  - apply list_lookup_singleton_Some in Hi as [? _], Hj as [? _]. lia.
Qed.

Lemma with_module_wf s m : server_wf s → compatible s m → server_wf (with_module s m).
Proof.
  intros Hs [Ha Hm]. split; unfold with_module; cbn [modules method_cache].
  - intros e. rewrite elem_of_union, elem_of_list_to_set, (wf_method_cache s Hs). set_solver.
  - intros i j m1 m2 e. apply (at_one_place_snoc (λ m e, e ∈ module_endpoints m)).
    + intros i' j'. apply (wf_methods s Hs).
    + intros m' e' Hin He He'. apply (Hm e' He), (wf_method_cache s Hs). eauto.
  - intros i j m1 m2 a. apply (at_one_place_snoc (λ m a, module_attribute_id m = Some a)).
    + intros i' j'. apply (wf_attributes_unique s Hs).
    + intros m' a' Hin Hx. by apply (Ha a' m').
Qed.

(** [add_module] accepts a module exactly when its attribute and its methods are new, and
    panics otherwise. A server whose modules have distinct attributes and methods and whose cache holds
    their methods stays one; messages for the methods of the new module go to it, and all others
    where they went before, and a method is in the cache exactly when some module is found for it. *)
Theorem add_module_spec s m :
  server_wf s →
  (compatible s m ↔ ∃ s', add_module s m = Ok s')
  ∧ (¬ compatible s m ↔ ∃ t, add_module s m = Panic t)
  ∧ (∀ s', add_module s m = Ok s' →
       server_wf s'
       ∧ ∀ r, find_module s' r = (if bool_decide (req_method r ∈ module_endpoints m) then Some m else find_module s r)
              ∧ (is_Some (find_module s' r) ↔ req_method r ∈ method_cache s')).
Proof.
  intros Hs. destruct (add_module_cases s m) as [[Hc Hok]|[Hc [t Hp]]].
  2:{ rewrite Hp. split_and!; naive_solver. }
  rewrite Hok. split_and!; [naive_solver..|]. intros s' [= <-].
  pose proof (with_module_wf s m Hs Hc) as Hs'. split; [done|]. intros r. split.
  - case_bool_decide as Hm.
    + apply (find_module_some _ _ _ Hs'). split; [|done]. unfold with_module. cbn [modules]. set_solver.
    + unfold find_module at 1, with_module. cbn [modules]. rewrite find_snoc. fold (find_module s r).
      destruct (find_module s r); [done|]. by rewrite bool_decide_false.
  - rewrite (wf_method_cache _ Hs'). split.
    + intros [x Hx%(find_module_some _ _ _ Hs')]. eauto.
    + intros [x Hx]. exists x. by apply (find_module_some _ _ _ Hs').
Qed.

Lemma add_modules_ok (l : list (ManyModule W)) s :
  server_wf s → NoDup (concat (map module_endpoints (modules s ++ l))) →
  NoDup (omap module_attribute_id (modules s ++ l)) →
  ∃ s', add_modules s l = Ok s' ∧ server_wf s' ∧ modules s' = modules s ++ l
    ∧ identity s' = identity s ∧ identity_verifier s' = identity_verifier s ∧ validator s' = validator s
    ∧ timeout s' = timeout s ∧ fallback s' = fallback s ∧ time_fn s' = time_fn s
    ∧ srv_public_key s' = srv_public_key s ∧ srv_name s' = srv_name s ∧ srv_version s' = srv_version s.
Proof.
  unfold add_modules. revert s. induction l as [|m l IH]; intros s Hs He Ha.
  { exists s. rewrite app_nil_r. done. }
  cbn [foldl mbind outcome_bind]. destruct (add_module_cases s m) as [[Hc ->]|[Hc _]].
  2:{ destruct Hc. split.
      - intros a m' Hm Hin Hm'. rewrite omap_app, NoDup_app in Ha. destruct Ha as (_ & Hd & _).
        apply (Hd a); [by apply list_elem_of_omap; eauto|]. cbn. rewrite Hm. left.
      - intros e Hm Hin. apply (wf_method_cache s Hs) in Hin as (m' & Hin & Hm').
        rewrite map_app, concat_app, NoDup_app in He. destruct He as (_ & Hd & _).
        apply (Hd e); [|cbn [map concat]; set_solver]. apply list_elem_of_In, in_concat. exists (module_endpoints m').
        split; [by apply in_map, list_elem_of_In|by apply list_elem_of_In]. }
  pose proof (with_module_wf s m Hs Hc) as Hs'. specialize (IH (with_module s m) Hs').
  cbn [modules with_module] in IH. rewrite <-app_assoc in IH. by apply IH.
Qed.
End registration.

Lemma server_new_wf {W : Type} n i v pk : server_wf (server_new (W := W) n i v pk).
Proof. split; simpl; [set_solver|..]; intros ? ? ? ? ?; by rewrite lookup_nil. Qed.

(** ** What is executed *)

Section safety.
Context `{Minicbor, Base32, Crc16, Clock, Coset} {W V : Type} `{!RequestValidator V}.
Implicit Types s : ManyServer W V.
Implicit Types sh : Shared (W := W) (V := V).

(** Everything but the validator. *)
Definition same_config s s' : Prop := set_validator s (validator s') = s'.
#[local] Instance same_config_preorder : PreOrder same_config.
Proof.
  split.
  - intros []. done.
  - intros s1 s2 s3 H12 H23. unfold same_config in *. rewrite <-H23, <-H12. by destruct s1, s2, s3.
Qed.

(** What the checks before a module establish of a message. *)
Record accepted s (x : Execution) : Prop := {
  acc_request : decode_request_from_cose_sign1 (ex_envelope x) (identity_verifier s) = Ok (ex_message x);
  acc_time : validate_time (ex_message x) (ex_time x) (timeout s) = Ok tt;
  acc_to : req_to (ex_message x) = ANONYMOUS ∨ req_to (ex_message x) = identity_address (identity s);
  acc_module : ∃ m, m ∈ modules s ∧ req_method (ex_message x) ∈ module_endpoints m;
}.
Lemma accepted_config s s' x : same_config s s' → accepted s x → accepted s' x.
Proof. intros <- [? ? ? ?]. by split. Qed.

Lemma decode_phase_inv e s r :
  decode_phase e s = Ok r →
  validate_envelope (validator s) e = Ok tt ∧ decode_request_from_cose_sign1 e (identity_verifier s) = Ok r.
Proof. by intros ([] & ? & ?)%bind_Ok_inv. Qed.

Lemma map_err_ok {E E' A} (f : E → E') (r : outcome E A) a : map_err f r = Ok a → r = Ok a.
Proof. by destruct r; intros [=->]. Qed.

Lemma check_phase_inv e request now w s m t x :
  check_phase e request now w s = Ok (m, t, x) →
  request = Ok m ∧ validate_time m t (timeout s) = Ok tt
  ∧ (req_to m = ANONYMOUS ∨ req_to m = identity_address (identity s)) ∧ x = find_module s m.
Proof.
  unfold check_phase. intros Hc. apply bind_Ok_inv in Hc as (m' & ->%map_err_ok & Hc).
  apply bind_Ok_inv in Hc as (t' & _ & Hc). apply bind_Ok_inv in Hc as ([] & _ & Hc).
  apply bind_Ok_inv in Hc as ([] & Ht%map_err_ok & Hc). apply bind_Ok_inv in Hc as ([] & Hi%map_err_ok & Hc).
  apply bind_Ok_inv in Hc as ([] & _ & Hc). injection Hc as -> -> <-. split_and!; try done.
  unfold validate_id in Hi. destruct (is_anonymous (req_to m)) eqn:Ha; [left; by apply is_anonymous_true|].
  right. cbn [orb] in Hi. by case_bool_decide.
Qed.

(** What a call carries from a phase to the next. *)
Definition task_ok s (t : Task (W := W)) : Prop :=
  match t with
  | Decoded e (Ok m) => decode_request_from_cose_sign1 e (identity_verifier s) = Ok m
  | Routed e _ m now (Some _) _ => accepted s (mkExecution e m now)
  | _ => True
  end.
Lemma task_ok_config s s' t : same_config s s' → task_ok s t → task_ok s' t.
Proof.
  intros Hs. destruct t as [|? []|? ? ? ? []| | |]; simpl; try done.
  - by rewrite <-Hs.
  - by apply accepted_config.
Qed.

Lemma executed_phase_config e r s : same_config s (executed_phase e r s).1.
Proof. unfold executed_phase. destruct (message_executed e r (validator s)) as [v []]; by destruct s. Qed.

Lemma with_lock_config {E A} (body : ManyServer W V → ManyServer W V * outcome E A) sh :
  same_config (server sh) (body (server sh)).1 → same_config (server sh) (server (with_lock body sh).1).
Proof. intros Hb. unfold with_lock. destruct (poisoned sh); [done|]. by destruct (body (server sh)). Qed.

(** A step keeps the configuration, and adds accepted messages only. *)
Lemma task_step_ok now t sh sh' t' :
  task_step now t sh = (sh', t') → task_ok (server sh) t →
  same_config (server sh) (server sh') ∧ task_ok (server sh) t'
  ∧ (history sh' = history sh ∨ ∃ x, history sh' = x :: history sh ∧ accepted (server sh) x).
Proof.
  destruct t as [e|e request|e a m tm [x|] fb|e r|r|r]; cbn [task_step]; intros Hst Hok.
  - unfold with_lock_read, with_lock in Hst. destruct (poisoned sh); injection Hst as <- <-; [by split_and!; try left|].
    split; [done|]. split; [|by left]. destruct (decode_phase e (server sh)) eqn:Hd; try done.
    by apply decode_phase_inv in Hd as [_ ?].
  - unfold with_lock_read, with_lock in Hst. destruct (poisoned sh); injection Hst as <- <-; [by split_and!; try left|].
    split; [done|]. split; [|by left].
    destruct (check_phase e request now (world sh) (server sh)) as [[[m tm] [x|]]|[]|?|] eqn:Hc; try done.
    apply check_phase_inv in Hc as (-> & Ht & Hto & Hx). split; [done..|]. symmetry in Hx.
    unfold find_module in Hx. apply find_some in Hx as [Hin%list_elem_of_In Hp%bool_decide_eq_true]. eauto.
  - destruct (module_execute x m (world sh)) as [w [r|err|p|]]; injection Hst as <- <-; split_and!; try done; eauto.
  - destruct fb as [fb|]; [destruct (fallback_execute fb e (world sh))|]; injection Hst as <- <-;
      by split_and!; try left.
  - destruct (with_lock (executed_phase e r) sh) as [sh1 r1] eqn:Hl. injection Hst as <- <-.
    pose proof (with_lock_config (executed_phase e r) sh (executed_phase_config _ _ _)) as Hcfg. rewrite Hl in Hcfg.
    split_and!; try done. left. unfold with_lock in Hl. destruct (poisoned sh); [by injection Hl as <- _|].
    destruct (executed_phase e r (server sh)). by injection Hl as <- _.
  - unfold with_lock_read, with_lock in Hst. destruct (poisoned sh); injection Hst as <- <-; by split_and!; try left.
  - injection Hst as <- <-. by split_and!; try left.
Qed.

(** C13: However calls interleave, every message that a module has answered came in an
    envelope that the verifier of the server accepts for its sender, was within the timeout of the
    server at the time it was checked, was addressed to the server or to nobody, and was for a method
    of one of the modules. *)
Theorem server_executes_only_valid sh ts sh' ts' :
  serves sh ts sh' ts' → history sh = [] → (∀ t, t ∈ ts → ∃ e, t = Received e) →
  same_config (server sh) (server sh') ∧ ∀ x, x ∈ history sh' → accepted (server sh) x.
Proof.
  intros Hs Hh Ht.
  enough (same_config (server sh) (server sh') ∧ Forall (accepted (server sh)) (history sh')
          ∧ Forall (task_ok (server sh)) ts') as (? & Hf & _).
  { split; [done|]. by apply Forall_forall. }
  assert (∀ s1 s2, same_config s1 s2 → same_config s2 s1) as Hsym.
  { intros s1 s2 <-. by destruct s1, s2. }
  induction Hs as [sh ts|sh ts sh1 ts1 i t now sh2 t2 Hs IH Hi Hst].
  - split_and!; [done|rewrite Hh; constructor|]. apply Forall_forall. by intros t [e ->]%Ht.
  - destruct (IH Hh Ht) as (Hc & Ha & Hok). pose proof Hok as Hti. rewrite Forall_lookup in Hti.
    specialize (Hti i t Hi). apply (task_ok_config _ _ _ Hc) in Hti.
    apply (task_step_ok _ _ _ _ _ Hst) in Hti as (Hc' & Hok' & Hh').
    split_and!; [by trans (server sh1)| |].
    + destruct Hh' as [->|(x & -> & Hx)]; [done|]. constructor; [|done]. eapply accepted_config; [by apply Hsym|done].
    + apply Forall_insert; [done|]. eapply task_ok_config; [by apply Hsym|done].
Qed.
End safety.
