(* ===== verification/ServerReplay.v ===== *)
(** * many-server: replays, panics and answers

    [ReplayGuard] is what a validator promises so that no message is executed twice: what it has
    been told of it refuses. The cache of executed messages keeps the promise, and so does a pair
    of validators of which one does; the server is proved against the promise. *)
From S2P Require Import Prelude Error ErrorDisplay External Address Types Account Events.
From S2P Require Import Cose Wire WireLaws Protocol ProtocolLaws Server ServerLaws.

#[local] Open Scope string_scope.
#[local] Open Scope list_scope.
#[local] Open Scope N_scope.

(** ** The promise, and who keeps it *)

Class ReplayGuard `{Sha512} (V : Type) `{!RequestValidator V} := {
  seen : V → bytes → Prop;
  seen_refused v e p : validate_envelope v e = Ok tt → cose_payload e = Some p → ¬ seen v (sha512 p);
  executed_seen v e r v' p : message_executed e r v = (v', Ok tt) → cose_payload e = Some p → seen v' (sha512 p);
  seen_kept v e r v' res h : message_executed e r v = (v', res) → seen v h → seen v' h;
}.

Class CacheBackendLaws (T : Type) `{RequestCacheBackend T} : Prop :=
  cache_has_put t k k' : cache_has (cache_put t k) k' = bool_decide (k = k') || cache_has t k'.
#[global] Instance rocksdb_cache_laws `{RocksDb, !RocksDbLaws} : CacheBackendLaws rocks_db.
Proof.
  intros d k k'. simpl. rewrite rocks_get_put. destruct (bool_decide_reflect (k = k')) as [_|_]; done.
Qed.

#[global] Program Instance cache_guard `{Sha512} {T} `{!RequestCacheBackend T, !CacheBackendLaws T} :
    ReplayGuard (RequestCacheValidator T) := {| seen v h := cache_has (cache_backend v) h = true |}.
Next Obligation.
  simpl. unfold cache_validate_envelope, cache_message_executed, request_hash. intros ? ? ? ? v e p Hv Hp. rewrite Hp in Hv. simpl in Hv.
  by destruct (cache_has (cache_backend v) (sha512 p)).
Qed.
Next Obligation.
  simpl. unfold cache_validate_envelope, cache_message_executed, request_hash. intros ? ? ? ? v e r v' p Hv Hp. rewrite Hp in Hv. injection Hv as <-. simpl.
  rewrite cache_has_put, bool_decide_true by done. done.
Qed.
Next Obligation.
  simpl. unfold cache_message_executed. intros ? ? ? ? v e r v' res h Hv Hh. destruct (request_hash e); injection Hv as <- _; try done.
  simpl. rewrite cache_has_put, Hh. apply orb_true_r.
Qed.

Section pairs.
Context `{Sha512} {A B : Type} `{!RequestValidator A, !RequestValidator B}.

Lemma pair_executed e r (v : A * B) v' res :
  message_executed e r v = (v', res) →
  ∃ a ra, message_executed e r v.1 = (a, ra) ∧ v'.1 = a
    ∧ ((ra = Ok tt ∧ ∃ b, message_executed e r v.2 = (b, res) ∧ v'.2 = b)
       ∨ (ra ≠ Ok tt ∧ res ≠ Ok tt ∧ v'.2 = v.2)).
Proof.
  simpl. destruct (message_executed e r v.1) as [a ra]. intros Hm. exists a, ra.
  destruct ra as [[]|?|?|]; [|injection Hm as <- <-; by split_and!; try right..].
  destruct (message_executed e r v.2) as [b rb]. injection Hm as <- <-. split_and!; try done. left. eauto.
Qed.

(** One guard of a pair is enough, on either side. *)
#[global] Program Instance pair_guard_left `{!ReplayGuard A} : ReplayGuard (A * B) :=
  {| seen v h := seen v.1 h |}.
Next Obligation. intros ? v e p ([] & Hv & _)%bind_Ok_inv Hp. by eapply seen_refused. Qed.
Next Obligation.
  intros ? v e r v' p (a & ra & Hm & <- & [[-> _]|[_ [? _]]])%pair_executed Hp; [|done].
  by eapply executed_seen.
Qed.
Next Obligation. intros ? v e r v' res h (a & ra & Hm & <- & _)%pair_executed Hh. by eapply seen_kept. Qed.

#[global] Program Instance pair_guard_right `{!ReplayGuard B} : ReplayGuard (A * B) :=
  {| seen v h := seen v.2 h |}.
Next Obligation. intros ? v e p ([] & _ & Hv)%bind_Ok_inv Hp. by eapply seen_refused. Qed.
Next Obligation.
  intros ? v e r v' p (a & ra & _ & _ & [[_ (b & Hm & <-)]|[_ [? _]]])%pair_executed Hp; [|done].
  by eapply executed_seen.
Qed.
Next Obligation.
  intros ? v e r v' res h (a & ra & _ & _ & [[_ (b & Hm & <-)]|[_ [_ ->]]])%pair_executed Hh; [|done].
  by eapply seen_kept.
Qed.
End pairs.

(** ** Calls in a row *)

Section replay.
Context `{Minicbor, Base32, Crc16, Clock, Coset} {W V : Type} `{!RequestValidator V}.
Implicit Types sh : Shared (W := W) (V := V).

(** A call answers nothing, and leaves the validator alone; or it answers its message, which the
    validator had accepted and was then told of. *)
Lemma execute_effect e now sh sh' r :
  execute e now sh = (sh', r) →
  (history sh' = history sh ∧ validator (server sh') = validator (server sh))
  ∨ ∃ m t resp res,
      history sh' = mkExecution e m t :: history sh
      ∧ validate_envelope (validator (server sh)) e = Ok tt
      ∧ decode_request_from_cose_sign1 e (identity_verifier (server sh)) = Ok m
      ∧ message_executed e resp (validator (server sh)) = (validator (server sh'), res)
      ∧ (res = Ok tt ∨ (∃ p, r = Panic p) ∨ r = OutOfFuel).
Proof.
  unfold execute, task_step at 1, with_lock_read, with_lock. destruct sh as [s p w h]. cbn [poisoned server world history].
  destruct p. { intros [= <- _]. by left. }
  destruct (decode_phase e s) as [m|err|?|] eqn:Hd.
  3, 4: intros [= <- _]; by left.
  2:{ cbn. intros [= <- _]. by left. }
  cbn [task_step]. unfold with_lock_read, with_lock. cbn [poisoned server world history].
  destruct (check_phase e (Ok m) now w s) as [[[m' t] x]|[i err]|?|] eqn:Hc.
  3, 4: intros [= <- _]; by left.
  2:{ cbn. intros [= <- _]. by left. }
  apply check_phase_inv in Hc as ([= <-] & _ & _ & _). apply decode_phase_inv in Hd as [Hv Hd].
  destruct x as [x|]; [|destruct (fallback s) as [fb|]].
  2:{ cbn. destruct (fallback_execute fb e w). intros [= <- _]. by left. }
  2:{ cbn. intros [= <- _]. by left. }
  cbn [task_step]. cbn [poisoned server world history].
  destruct (module_execute x m w) as [w' [r0|err|?|]]; cbn [task_step].
  3, 4: intros [= <- _]; by left.
  all: unfold with_lock, executed_phase; cbn [poisoned server world history].
  all: match goal with |- context [message_executed ?e' ?r0 ?v] =>
         destruct (message_executed e' r0 v) as [v' res] eqn:He; intros Hr; right; exists m, t, r0, res end.
  all: destruct res as [[]|?|?|]; injection Hr as <- <-; cbn; split_and!; eauto.
Qed.

Context `{!Sha512, !ReplayGuard V}.

Definition ex_hash (x : Execution) : option bytes := sha512 <$> cose_payload (ex_envelope x).
Record guarded sh : Prop := {
  guarded_once : NoDup (ex_hash <$> history sh);
  guarded_seen x : x ∈ history sh → ∃ h, ex_hash x = Some h ∧ seen (validator (server sh)) h;
}.

Lemma execute_guarded e now sh sh' r :
  execute e now sh = (sh', r) → guarded sh →
  NoDup (ex_hash <$> history sh') ∧ ((∃ p, r = Panic p) ∨ r = OutOfFuel ∨ guarded sh').
Proof.
  intros Hx [Hnd Hseen]. apply execute_effect in Hx as [[Hh Hv]|(m & t & resp & res & Hh & Hv & Hd & He & Hres)].
  - split; [by rewrite Hh|]. do 2 right. split; [by rewrite Hh|]. rewrite Hh, Hv. done.
  - assert (∃ p, cose_payload e = Some p) as [p Hp].
    { unfold decode_request_from_cose_sign1 in Hd. apply bind_Ok_inv in Hd as (a & _ & Hd).
      destruct (is_illegal a); [done|]. apply bind_Ok_inv in Hd as (m' & Hd & _).
      apply bind_Ok_inv in Hd as (p & Hp & _). destruct (cose_payload e); [eauto|done]. }
    assert (NoDup (ex_hash <$> history sh')) as Hnd'.
    { rewrite Hh. csimpl. apply NoDup_cons. split; [|done]. intros (x & Hx & Hin)%list_elem_of_fmap.
      destruct (Hseen x Hin) as (h & Hxh & Hs). rewrite <-Hx in Hxh. unfold ex_hash in Hxh. simpl in Hxh.
      rewrite Hp in Hxh. injection Hxh as <-. by eapply (seen_refused _ e p). }
    split; [done|]. destruct Hres as [->|[?|?]]; [|by left|by right; left]. do 2 right. split; [done|].
    intros x. rewrite Hh. intros [->|Hin]%elem_of_cons.
    + exists (sha512 p). unfold ex_hash. simpl. rewrite Hp. split; [done|]. by eapply executed_seen.
    + destruct (Hseen x Hin) as (h' & ? & ?). exists h'. split; [done|]. by eapply seen_kept.
Qed.

(** C14: With a validator that refuses what it was told of (the cache of executed messages,
    alone or in a pair with others), the calls of the HTTP server, one after the other, answer no
    two messages with the same hash: none is executed twice, whatever the modules do. *)
Theorem served_at_most_once l sh :
  history sh = [] → NoDup (ex_hash <$> history (serve l sh)).
Proof.
  intros Hh. assert (guarded sh) as Hg. { split; rewrite Hh; [constructor|]. by intros x ?%elem_of_nil. }
  clear Hh. revert sh Hg. induction l as [|[[len body] now] l IH]; intros sh Hg; [apply Hg|].
  cbn [serve]. unfold handle_request. destruct (match len with Some _ => _ | None => _ end); [by apply IH|].
  destruct (cose_from_tagged_slice body) as [e|?|?|]; [|by apply IH|apply Hg..].
  destruct (execute e now sh) as [sh' r] eqn:Hx.
  destruct (execute_guarded _ _ _ _ _ Hx Hg) as [Hnd Hr].
  destruct r as [e'|?|?|]; cbn [mbind outcome_bind]; try done.
  - destruct Hr as [[? ?]|[?|Hg']]; [done..|].
    destruct (cose_to_tagged_vec e') as [?|?|?|]; [by apply IH..|done|done].
  - destruct Hr as [[? ?]|[?|Hg']]; [done..|]. by apply IH.
Qed.
End replay.

(** ** Calls that interleave, and calls that panic *)

Section interleaving.
Context `{Minicbor, Base32, Crc16, Clock, Coset} {W V : Type} `{!RequestValidator V}.
Implicit Types sh : Shared (W := W) (V := V).

Lemma received_step e now sh m :
  poisoned sh = false → decode_phase e (server sh) = Ok m →
  task_step now (Received e) sh = (sh, Decoded e (Ok m)).
Proof.
  intros Hp Hd. destruct sh as [s p w h]. simpl in *. subst p. unfold with_lock_read, with_lock. simpl.
  by rewrite Hd.
Qed.
Lemma decoded_step e now sh m t x :
  poisoned sh = false → check_phase e (Ok m) now (world sh) (server sh) = Ok (m, t, x) →
  task_step now (Decoded e (Ok m)) sh
  = (sh, Routed e (identity_address (identity (server sh))) m t x (fallback (server sh))).
Proof.
  intros Hp Hc. destruct sh as [s p w h]. simpl in *. subst p. unfold with_lock_read, with_lock. simpl.
  by rewrite Hc.
Qed.
Lemma routed_step e a m t x fb now sh :
  answers (module_execute x m (world sh)).2 = true →
  ∃ w r, task_step now (Routed e a m t (Some x) fb) sh
         = (mkShared (server sh) (poisoned sh) w (mkExecution e m t :: history sh), Answered e r).
Proof.
  intros Ha. cbn [task_step]. destruct (module_execute x m (world sh)) as [w [r|err|?|]]; try done; eauto.
Qed.

(** The cache protects calls in a row only, since it is looked up in the first phase of a
    call and told in the third: two interleaved calls with the same acceptable envelope both have
    their message executed. *)
Theorem interleaved_replay e now sh m t x :
  poisoned sh = false → decode_phase e (server sh) = Ok m →
  check_phase e (Ok m) now (world sh) (server sh) = Ok (m, t, Some x) →
  (∀ w, answers (module_execute x m w).2 = true) →
  ∃ sh' r r', serves sh [Received e; Received e] sh' [Answered e r; Answered e r']
              ∧ history sh' = [mkExecution e m t; mkExecution e m t] ++ history sh.
Proof.
  intros Hp Hd Hc Hx.
  destruct (routed_step e (identity_address (identity (server sh))) m t x (fallback (server sh)) now sh (Hx _))
    as (w1 & r1 & Hs1).
  match type of Hs1 with _ = (?s, _) => set (sh1 := s) in * end.
  destruct (routed_step e (identity_address (identity (server sh))) m t x (fallback (server sh)) now sh1 (Hx _))
    as (w2 & r2 & Hs2).
  match type of Hs2 with _ = (?s, _) => exists s, r1, r2 end. split; [|done].
  pose proof (received_step e now sh m Hp Hd) as Hr. pose proof (decoded_step e now sh m t (Some x) Hp Hc) as Hdd.
  pose proof (serves_refl sh [Received e; Received e]) as Hs.
  apply (serves_step _ _ _ _ 0 _ now _ _ Hs eq_refl) in Hr as Hs'. cbn in Hs'.
  apply (serves_step _ _ _ _ 0 _ now _ _ Hs' eq_refl) in Hdd as Hs''. cbn in Hs''.
  apply (serves_step _ _ _ _ 1 _ now _ _ Hs'' eq_refl) in Hr as Hs3. cbn in Hs3.
  apply (serves_step _ _ _ _ 1 _ now _ _ Hs3 eq_refl) in Hdd as Hs4. cbn in Hs4.
  apply (serves_step _ _ _ _ 0 _ now _ _ Hs4 eq_refl) in Hs1 as Hs5. cbn in Hs5.
  by apply (serves_step _ _ _ _ 1 _ now _ _ Hs5 eq_refl) in Hs2.
Qed.

Lemma poisoned_panics e now sh : poisoned sh = true → ∃ t, execute e now sh = (sh, Panic t).
Proof. intros Hp. unfold execute, task_step at 1, with_lock_read, with_lock. rewrite Hp. by eexists. Qed.


(** What the server relies on: its parts answer, the validator can be told of a message that it has let
    through, and the payload does not make the decoder of addresses panic. *)
Record dependable (sh : Shared (W := W) (V := V)) (e : CoseSign1) : Prop := {
  dep_envelope : answers (validate_envelope (validator (server sh)) e) = true;
  dep_verifier : answers (identity_verifier (server sh) e) = true;
  dep_text p t : cose_payload e = Some p → request_from_bytes p ≠ Panic t;
  dep_time f w : time_fn (server sh) = Some f → answers (f w) = true;
  dep_validate_request m : answers (validate_request (validator (server sh)) m) = true;
  dep_told m r : decode_phase e (server sh) = Ok m → (message_executed e r (validator (server sh))).2 = Ok tt;
  dep_module x w m : x ∈ modules (server sh) →
    answers (module_validate x w m e) = true ∧ answers (module_execute x m w).2 = true;
  dep_fallback fb w : fallback (server sh) = Some fb → answers (fallback_execute fb e w).2 = true;
  dep_sign c : answers (sign_1 (identity (server sh)) c) = true;
}.

Lemma answers_bind {E A B} (m : outcome E A) (f : A → outcome E B) :
  answers m = true → (∀ a, m = Ok a → answers (f a) = true) → answers (m ≫= f) = true.
Proof. destruct m; naive_solver. Qed.
Lemma answers_map_err {E E' A} (f : E → E') (m : outcome E A) : answers m = true → answers (map_err f m) = true.
Proof. by destruct m. Qed.

Lemma check_phase_answers e m now sh :
  dependable sh e → answers (check_phase e (Ok m) now (world sh) (server sh)) = true.
Proof.
  intros Hd. unfold check_phase. apply answers_bind; [done|]. intros ? _.
  apply answers_bind. { destruct (time_fn (server sh)) eqn:Hf; [|done]. by eapply answers_map_err, dep_time. }
  intros t _. apply answers_bind; [by eapply answers_map_err, dep_validate_request|]. intros _ _.
  apply answers_bind; [apply answers_map_err, validate_time_answers|]. intros _ _.
  apply answers_bind. { unfold validate_id. by destruct (_ || _). } intros _ _.
  apply answers_bind; [|done]. unfold find_module. destruct (List.find _ _) as [x|] eqn:Hx; [|done].
  apply find_some in Hx as [Hx%list_elem_of_In _]. by eapply answers_map_err, dep_module.
Qed.
Lemma decode_phase_answers e sh : dependable sh e → answers (decode_phase e (server sh)) = true.
Proof.
  intros Hd. unfold decode_phase. apply answers_bind; [apply Hd|]. intros _ _.
  unfold decode_request_from_cose_sign1. apply answers_bind; [apply Hd|]. intros a _.
  destruct (is_illegal a); [done|]. apply answers_bind; [|intros m _; by destruct (_ || _)].
  unfold request_of_envelope. destruct (cose_payload e) as [p|] eqn:Hp; [|done].
  cbn [ok_or mbind outcome_bind]. apply answers_map_err. pose proof (dep_text _ _ Hd p) as Ht.
  pose proof (progresses_request (S (length (tokens p))) (tokens p) ltac:(lia)) as Hr.
  unfold request_from_bytes, decode_tokens in *. destruct (request_decode (tokens p)) as [[]|?|t|]; try done.
  by destruct (Ht t Hp).
Qed.
Lemma reply_answers (r : ResponseMessage) (s : ManyServer W V) :
  (∀ c, answers (sign_1 (identity s) c) = true) → answers (reply_phase r s) = true.
Proof. intros Hs. apply answers_map_err, Hs. Qed.

#[local] Arguments reply_phase : simpl never.

(** The answer to a call: the signed response to it (or the error of the signature), which is an error
    for a message that is refused or that nothing takes, and the response of the module otherwise; or what
    the fallback answers. *)
Inductive answer_to (sh : Shared (W := W) (V := V)) (e : CoseSign1) (now : SystemTime) :
    outcome string CoseSign1 → Prop :=
| answer_not_opened err :
    decode_phase e (server sh) = Err err →
    answer_to sh e now
      (reply_phase (response_error (identity_address (identity (server sh))) None err) (server sh))
| answer_refused m i err :
    decode_phase e (server sh) = Ok m →
    check_phase e (Ok m) now (world sh) (server sh) = Err (i, err) →
    answer_to sh e now
      (reply_phase (response_error (identity_address (identity (server sh))) i err) (server sh))
| answer_executed m t x r :
    decode_phase e (server sh) = Ok m →
    check_phase e (Ok m) now (world sh) (server sh) = Ok (m, t, Some x) →
    (module_execute x m (world sh)).2 = Ok r →
    answer_to sh e now
      (reply_phase (response_with_from r (identity_address (identity (server sh)))) (server sh))
| answer_failed m t x err :
    decode_phase e (server sh) = Ok m →
    check_phase e (Ok m) now (world sh) (server sh) = Ok (m, t, Some x) →
    (module_execute x m (world sh)).2 = Err err →
    answer_to sh e now
      (reply_phase (response_error (identity_address (identity (server sh))) (req_id m) err) (server sh))
| answer_fallback m t fb :
    decode_phase e (server sh) = Ok m →
    check_phase e (Ok m) now (world sh) (server sh) = Ok (m, t, None) → fallback (server sh) = Some fb →
    answer_to sh e now (fallback_execute fb e (world sh)).2
| answer_no_route m t :
    decode_phase e (server sh) = Ok m →
    check_phase e (Ok m) now (world sh) (server sh) = Ok (m, t, None) → fallback (server sh) = None →
    answer_to sh e now
      (reply_phase (response_error (identity_address (identity (server sh))) (req_id m) could_not_route_message)
         (server sh)).

(** C20: A server whose lock is not poisoned, whose parts answer (verifier, validators, clock, modules,
    fallback, signature), whose validator can be told of an executed message, and for a payload that does
    not make the decoder of addresses panic, answers the call within the four phases, and its lock is not
    poisoned afterwards. The answer is the signed response, or the error of its own signature: to a message
    whose envelope or content is refused, the response with that error; to a message for a module, the
    response of the module from the address of the server, or the response with the error of the module;
    to a message for no module, what the fallback answers, or without a fallback the response with the
    error that it cannot be routed. *)
Theorem server_answers e now sh :
  poisoned sh = false → dependable sh e →
  answer_to sh e now (execute e now sh).2
  ∧ answers (execute e now sh).2 = true ∧ poisoned (execute e now sh).1 = false.
Proof.
  intros Hp Hd. destruct sh as [s p w h]. simpl in Hp. subst p.
  pose proof (decode_phase_answers _ _ Hd) as Hv. pose proof (dep_sign _ _ Hd) as Hs. cbn [server] in *.
  destruct (execute e now _) as [sh' res'] eqn:Hex. cbn [fst snd]. revert Hex.
  unfold execute, task_step at 1, with_lock_read, with_lock. cbn [poisoned server world history].
  destruct (decode_phase e s) as [m|err|?|] eqn:Hm; [| |done..].
  2:{ cbn. pose proof (reply_answers (response_error (identity_address (identity s)) None err) s Hs) as Hr.
      intros [= <- <-]. split; [by apply (answer_not_opened (mkShared s false w h))|].
      by destruct (reply_phase _ s). }
  cbn [task_step]. unfold with_lock_read, with_lock. cbn [poisoned server world history].
  pose proof (check_phase_answers e m now _ Hd) as Hc. cbn [world server] in Hc.
  destruct (check_phase e (Ok m) now w s) as [[[m' t] x]|[i err]|?|] eqn:Hx; [| |done..].
  2:{ cbn. pose proof (reply_answers (response_error (identity_address (identity s)) i err) s Hs) as Hr.
      intros [= <- <-]. split; [by eapply (answer_refused (mkShared s false w h))|].
      by destruct (reply_phase _ s). }
  pose proof Hx as ([= <-] & _ & _ & Hf)%check_phase_inv.
  destruct x as [x|]; [|destruct (fallback s) as [fb|] eqn:Hfb].
  - symmetry in Hf. apply find_some in Hf as [Hf%list_elem_of_In _].
    pose proof (proj2 (dep_module _ _ Hd x w m Hf)) as Hx'. cbn [task_step poisoned server world history].
    pose proof (answer_executed (mkShared s false w h) e now m t x) as Hok.
    pose proof (answer_failed (mkShared s false w h) e now m t x) as Herr. cbn [server world] in Hok, Herr.
    destruct (module_execute x m w) as [w' [r0|err|?|]]; [| |done..]; cbn [task_step].
    all: unfold with_lock, executed_phase; cbn [poisoned server world history].
    all: match goal with |- context [message_executed ?e' ?r0 ?v] =>
           pose proof (dep_told _ _ Hd m r0 Hm) as Ht; cbn [server] in Ht;
           destruct (message_executed e' r0 v) as [v' res]; cbn [snd] in Ht; subst res;
           pose proof (reply_answers r0 (set_validator s v') Hs) as Hr end.
    all: intros [= <- <-]; split; [first [exact (Hok _ Hm Hx eq_refl)|exact (Herr _ Hm Hx eq_refl)]|by destruct (reply_phase _ (set_validator s v'))].
  - cbn. pose proof (dep_fallback _ _ Hd fb w Hfb) as Hb.
    pose proof (answer_fallback (mkShared s false w h) e now m t fb Hm Hx Hfb) as Ha. cbn [world] in Ha.
    destruct (fallback_execute fb e w). by intros [= <- <-].
  - cbn. pose proof (reply_answers (response_error (identity_address (identity s)) (req_id m) could_not_route_message)
      s Hs) as Hr. intros [= <- <-]. split; [by eapply (answer_no_route (mkShared s false w h))|].
    by destruct (reply_phase _ s).
Qed.
End interleaving.
