(* ===== verification/Endpoints.v ===== *)
(** * many-macros: the modules made from traits of endpoints

    Models the code that the attribute [many_module] of [many-macros/src/lib.rs] generates for a trait of
    endpoints: the table of methods, [validate] and [execute]. An [Endpoint] is what the macro reads of a
    method of the trait ([Endpoint::new]) with the call it generates; the constructors [command], [query], ... are
    the shapes of its table of calls (with or without a sender, an argument, a context, and [&mut self]).

    The backend is behind a lock that is held during the call, and that a panic poisons. A request may ask for
    a proof: the macro then waits for what the handler sent through the context. A handler that takes no
    context leaves the context alive in the caller, so that the wait does not end. *)
From S2P Require Import Prelude Error ErrorDisplay External Address Types Account Events.
From S2P Require Import Cose Wire WireLaws Protocol ProtocolLaws ProofOps Server.

#[local] Open Scope string_scope.
#[local] Open Scope list_scope.
#[local] Open Scope N_scope.

Definition sender_cannot_be_anonymous : ManyError :=
  many_error SenderCannotBeAnonymous "Invalid Identity; the sender cannot be anonymous." [].
Definition non_webauthn_request_denied (endpoint : string) : ManyError :=
  many_error NonWebAuthnRequestDenied "Non-WebAuthn request denied for endpoint '{endpoint}'."
    [("endpoint", endpoint)].

(** ** Endpoints *)

Record Endpoint (B : Type) : Type := mkEndpoint {
  ep_name : string;                                     (* with its namespace, in camel case *)
  ep_deny_anonymous : bool;
  ep_check_webauthn : bool;
  ep_mut : bool;
  ep_context : bool;
  ep_check : bytes → outcome string unit;               (* the argument decodes *)
  ep_call : RequestMessage → ST B ManyError (bytes * list ProofResult);
}.
Arguments mkEndpoint {B}.
Arguments ep_name {B} e : rename.
Arguments ep_deny_anonymous {B} e : rename.
Arguments ep_check_webauthn {B} e : rename.
Arguments ep_mut {B} e : rename.
Arguments ep_context {B} e : rename.
Arguments ep_check {B} e : rename.
Arguments ep_call {B} e : rename.

(** The attributes [#\[many(deny_anonymous)\]] and [#\[many(check_webauthn)\]]. *)
Definition deny_anonymous {B} (e : Endpoint B) : Endpoint B :=
  mkEndpoint (ep_name e) true (ep_check_webauthn e) (ep_mut e) (ep_context e) (ep_check e) (ep_call e).
Definition check_webauthn {B} (e : Endpoint B) : Endpoint B :=
  mkEndpoint (ep_name e) (ep_deny_anonymous e) true (ep_mut e) (ep_context e) (ep_check e) (ep_call e).

Section shapes.
Context {B : Type}.

(** [decode( data )?]. *)
Definition argument {Arg} `{!Cbor Arg} (m : RequestMessage) : outcome ManyError Arg :=
  map_err deserialization_error (decode (req_data m)).
Definition decodes (Arg : Type) `{!Cbor Arg} (l : bytes) : outcome string unit := (λ _ : Arg, tt) <$> decode l.
(** [encode( backend.f(..) )]. *)
Definition encoded {Ret} `{!Cbor Ret} (m : ST B ManyError Ret) : ST B ManyError (bytes * list ProofResult) :=
  r ← m; mret (to_vec r, []).

(** [fn f(&mut self, sender, args)]. *)
Definition command {Arg Ret} `{!Cbor Arg, !Cbor Ret} (name : string) (f : Address → Arg → ST B ManyError Ret) :
    Endpoint B :=
  mkEndpoint name false false true false (decodes Arg)
    (λ m, args ← lift (argument m); encoded (f (request_from m) args)).
(** [fn f(&mut self, args)], without or with its argument. *)
Definition command_arg {Arg Ret} `{!Cbor Arg, !Cbor Ret} (name : string) (f : Arg → ST B ManyError Ret) : Endpoint B :=
  mkEndpoint name false false true false (decodes Arg) (λ m, args ← lift (argument m); encoded (f args)).
Definition command_none {Ret} `{!Cbor Ret} (name : string) (f : ST B ManyError Ret) : Endpoint B :=
  mkEndpoint name false false true false (λ _, Ok tt) (λ _, encoded f).
(** [fn f(&self, sender, args)], [fn f(&self, args)] and [fn f(&self)]. *)
Definition query {Arg Ret} `{!Cbor Arg, !Cbor Ret} (name : string) (f : B → Address → Arg → outcome ManyError Ret) :
    Endpoint B :=
  mkEndpoint name false false false false (decodes Arg)
    (λ m, args ← lift (argument m); encoded (reads (λ s, f s (request_from m) args))).
Definition query_arg {Arg Ret} `{!Cbor Arg, !Cbor Ret} (name : string) (f : B → Arg → outcome ManyError Ret) :
    Endpoint B :=
  mkEndpoint name false false false false (decodes Arg)
    (λ m, args ← lift (argument m); encoded (reads (λ s, f s args))).
Definition query_none {Ret} `{!Cbor Ret} (name : string) (f : B → outcome ManyError Ret) : Endpoint B :=
  mkEndpoint name false false false false (λ _, Ok tt) (λ _, encoded (reads f)).
(** [fn f(&self, sender, args, context)]: the handler hands [keys] to [prove_state] once, and succeeds only
    after it. *)
Definition query_context {Arg Ret} `{!Cbor Arg, !Cbor Ret} (prover : B → list bytes → outcome ManyError (list ProofOperation))
    (name : string) (f : B → Address → Arg → (list bytes → outcome ManyError unit) → outcome ManyError Ret)
    (keys : B → Address → Arg → list bytes) : Endpoint B :=
  mkEndpoint name false false false true (decodes Arg) (λ m,
    args ← lift (argument m);
    r ← reads (λ s, f s (request_from m) args (λ ks, context_prove m (prover s ks);; Ok tt));
    p ← reads (λ s, context_prove m (prover s (keys s (request_from m) args)));
    mret (to_vec r, [p])).
End shapes.

(** ** The generated module *)

(** [Arc<Mutex<T>>]. *)
Record Mutex (B : Type) : Type := mkMutex { guarded : B; mutex_poisoned : bool }.
Arguments mkMutex {B}.
Arguments guarded {B} m : rename.
Arguments mutex_poisoned {B} m : rename.
(** [let mut backend = self.backend.lock().unwrap(); ..]. *)
Definition lock_backend {B A} (m : ST B ManyError A) : ST (Mutex B) ManyError A := λ w,
  if mutex_poisoned w then (w, Panic "called `Result::unwrap()` on an `Err` value: PoisonError")
  else
    let '(x, r) := m (guarded w) in
    (mkMutex x (match r with Panic _ => true | _ => false end), r).

Section module.
Context `{Minicbor} {B : Type}.
Implicit Types (ep : Endpoint B) (eps : list (Endpoint B)) (m : RequestMessage).

Definition find_endpoint eps (method : string) : option (Endpoint B) :=
  List.find (λ ep, bool_decide (ep_name ep = method)) eps.

Definition validate_endpoint ep m (e : CoseSign1) : outcome ManyError unit :=
  if ep_deny_anonymous ep && is_anonymous (request_from m) then Err sender_cannot_be_anonymous
  else if ep_check_webauthn ep
          && negb (bool_decide (is_Some (find_label (LText "webauthn") (hd_rest (header (protected e))))))
  then Err (non_webauthn_request_denied (req_method m))
  else map_err deserialization_error (ep_check ep (req_data m)).
Definition endpoints_validate eps m (e : CoseSign1) : outcome ManyError unit :=
  match find_endpoint eps (req_method m) with
  | Some ep => validate_endpoint ep m e
  | None => Err (invalid_method_name (req_method m))
  end.

Definition response_with_attributes (r : ResponseMessage) (l : list Attribute) : ResponseMessage :=
  foldl response_with_attribute r l.
(** [receiver.recv().await]: the first message; when there is none, an error if the context is gone, and no
    answer if it is not. *)
Definition receive_proof ep (sent : list ProofResult) : outcome ManyError ProofResult :=
  match sent with
  | p :: _ => Ok p
  | [] => if ep_context ep then Err (unknown "receiving from an empty and closed channel") else OutOfFuel
  end.
Definition endpoints_execute eps m : ST (Mutex B) ManyError ResponseMessage :=
  match find_endpoint eps (req_method m) with
  | Some ep =>
      r ← lock_backend (ep_call ep m);
      let response := response_from_request m (req_to m) (Ok r.1) in
      if proof_requested m then
        p ← lift (receive_proof ep r.2);
        l ← lift (proof_attributes p);
        mret (response_with_attributes response l)
      else mret response
  | None => fails internal_server_error
  end.

Definition many_module (name : string) (id : option N) eps : ManyModule (Mutex B) :=
  mkModule _ (mkModuleInfo name (attribute_id <$> id) (map ep_name eps)) (λ _, endpoints_validate eps)
    (endpoints_execute eps).
End module.

(** [AllowAddrsModule], of each application: only listed senders reach the inner module. *)
Definition allow_addrs_module {W} (allowed : gset Address) (inner : ManyModule W) : ManyModule W :=
  mkModule _ (module_info inner) (module_validate inner)
    (λ m, if bool_decide (request_from m ∈ allowed) then module_execute inner m else fails invalid_from_identity).
