(* ===== verification/EndpointLaws.v ===== *)
(** * many-macros and many-server: from an envelope to the call of an endpoint

    What a call of the server does to the backend: the one call of the endpoint that the message names, by the
    sender of the message; what a request for a proof does; and which endpoints change the backend. *)
From S2P Require Import Prelude Error ErrorDisplay External Address Types Account Events.
From S2P Require Import Cose Wire WireLaws Protocol ProtocolLaws ProofOps Server ServerLaws Endpoints.

#[local] Open Scope string_scope.
#[local] Open Scope list_scope.
#[local] Open Scope N_scope.

(** ** Servers with a base module *)

(** What the base module is to the others: its methods, its attribute, and that it reads the server only. *)
Record base_module_ok {W} (base : ManyModule W) : Prop := {
  base_endpoints : module_endpoints base = ["endpoints"; "heartbeat"; "status"];
  base_attribute : module_attribute_id base = Some 0;
  base_reads m w : (module_execute base m w).1 = w;
}.

(** How the binaries assemble their server: modules without a conflict, behind the base module; no limit on the
    age of messages when a chain delivers them. *)
Lemma server_assembled {W} name i v version (base : ManyModule W) ms (abci : bool) :
  base_module_ok base →
  NoDup (["endpoints"; "heartbeat"; "status"] ++ concat (map module_endpoints ms)) →
  NoDup (0 :: omap module_attribute_id ms) →
  ∃ s, (s ← server_simple name i v version base; s ← add_modules s ms; Ok (if abci then set_timeout s U64_MAX else s)) = Ok s
    ∧ server_wf s ∧ modules s = base :: ms
    ∧ identity s = i ∧ identity_verifier s = v ∧ fallback s = None ∧ time_fn s = None
    ∧ timeout s = (if abci then U64_MAX else MANYSERVER_DEFAULT_TIMEOUT).
Proof.
  intros Hb He Ha. unfold server_simple. cbn [server_new].
  match goal with |- context [add_module ?s0 base] => set (s := s0) end.
  assert (server_wf s) as Hs by (split; simpl; [set_solver|..]; intros ? ? ? ? ?; by rewrite lookup_nil).
  destruct (add_module_cases s base) as [[Hc ->]|[Hc _]].
  2:{ destruct Hc. split; [|set_solver]. intros a m' _ Hin. by apply elem_of_nil in Hin. }
  cbn [mbind outcome_bind].
  destruct (add_modules_ok ms (with_module s base)) as (s' & -> & Hs' & Hm & Hi & Hv & _ & Ht & Hf & Htf & _).
  - by apply with_module_wf.
  - change (modules (with_module s base)) with [base]. cbn [app map concat]. by rewrite (base_endpoints _ Hb).
  - change (modules (with_module s base)) with [base]. cbn [app omap list_omap]. by rewrite (base_attribute _ Hb).
  - exists (if abci then set_timeout s' U64_MAX else s'). cbn [mbind outcome_bind]. split; [done|].
    assert (∀ t, server_wf (set_timeout s' t)) as Hst by (intros t; destruct Hs'; by split).
    destruct abci; cbn [modules set_timeout identity identity_verifier fallback time_fn timeout];
      rewrite Hm, Hi, Hv, Hf, Htf; by rewrite ?Ht.
Qed.

(** ** Calls of a server *)

Section calls.
Context `{Minicbor, Base32, Crc16, Clock, Coset} {W V : Type} `{!RequestValidator V}.
Implicit Types s : ManyServer W V.
Implicit Types sh : Shared (W := W) (V := V).

(** The envelope [e] carries the message [m] to the module [x], at the time [t]. *)
Record routed sh e (now : SystemTime) m t (x : ManyModule W) : Prop := {
  routed_lock : poisoned sh = false;
  routed_decode : decode_phase e (server sh) = Ok m;
  routed_check : check_phase e (Ok m) now (world sh) (server sh) = Ok (m, t, Some x);
}.

Lemma routed_accepted sh e now m t x :
  routed sh e now m t x → accepted (server sh) (mkExecution e m t) ∧ find_module (server sh) m = Some x.
Proof.
  intros [_ [_ Hd]%decode_phase_inv Hc]. apply check_phase_inv in Hc as (_ & Ht & Hto & Hx). symmetry in Hx.
  split; [|done]. split; [done..|]. unfold find_module in Hx.
  apply find_some in Hx as [Hin%list_elem_of_In Hp%bool_decide_eq_true]. eauto.
Qed.

Lemma check_phase_validates e request now w s m t x :
  check_phase e request now w s = Ok (m, t, Some x) → module_validate x w m e = Ok tt.
Proof.
  unfold check_phase. intros Hc. apply bind_Ok_inv in Hc as (m' & _ & Hc).
  apply bind_Ok_inv in Hc as (t' & _ & Hc). apply bind_Ok_inv in Hc as ([] & _ & Hc).
  apply bind_Ok_inv in Hc as ([] & _ & Hc). apply bind_Ok_inv in Hc as ([] & _ & Hc).
  apply bind_Ok_inv in Hc as ([] & Hv%map_err_ok & Hc). injection Hc as -> -> Hx. by rewrite Hx in Hv.
Qed.
(** What the second phase asks for. *)
Lemma check_phase_ok e m now t w s x :
  match time_fn s with Some f => f w | None => Ok now end = Ok t → validate_request (validator s) m = Ok tt →
  validate_time m t (timeout s) = Ok tt → validate_id s m = Ok tt → find_module s m = Some x →
  module_validate x w m e = Ok tt →
  check_phase e (Ok m) now w s = Ok (m, t, Some x).
Proof.
  intros Hn Hr Ht Hi Hx Hv. unfold check_phase. cbn [map_err mbind outcome_bind]. rewrite Hn. cbn [map_err mbind outcome_bind].
  rewrite Hr. cbn [map_err mbind outcome_bind]. rewrite Ht. cbn [map_err mbind outcome_bind]. rewrite Hi.
  cbn [map_err mbind outcome_bind]. rewrite Hx, Hv. done.
Qed.

(** A call that is routed runs its module once. *)
Lemma execute_routed sh e now m t x :
  routed sh e now m t x →
  world (execute e now sh).1 = (module_execute x m (world sh)).1
  ∧ match (module_execute x m (world sh)).2 with
    | OutOfFuel => (execute e now sh).2 = OutOfFuel
    | _ => True
    end.
Proof.
  intros [Hl Hd Hc]. unfold execute, task_step, with_lock_read, with_lock. rewrite Hl. cbn [poisoned world server history].
  rewrite Hd. cbn [poisoned world server history]. rewrite Hc. cbn [poisoned world server history].
  destruct (module_execute x m (world sh)) as [w [r|r|p|]]; cbn [poisoned world server history fst snd]; [| |done|done].
  all: by destruct (executed_phase e _ (server sh)).
Qed.

(** A call that is not routed leaves the world alone. *)
Lemma execute_inv sh e now :
  fallback (server sh) = None →
  world (execute e now sh).1 = world sh ∨ ∃ m t x, routed sh e now m t x.
Proof.
  intros Hf. destruct (poisoned sh) eqn:Hl.
  { left. unfold execute, task_step, with_lock_read, with_lock. by rewrite Hl. }
  destruct (decode_phase e (server sh)) as [m|err|p|] eqn:Hd.
  1: destruct (check_phase e (Ok m) now (world sh) (server sh)) as [[[m' t] [x|]]|[i err]|p|] eqn:Hc.
  1: { right. exists m, t, x. pose proof (check_phase_inv _ _ _ _ _ _ _ _ Hc) as ([= <-] & _). by split. }
  all: left; unfold execute, task_step, with_lock_read, with_lock; rewrite Hl; cbn [poisoned world server history];
    rewrite Hd; cbn [poisoned world server history]; try done.
  all: rewrite ?Hc; cbn [poisoned world server history]; try done; rewrite ?Hf; cbn [poisoned world server history]; try done.
Qed.
End calls.

(** ** Generated modules *)

Section modules.
Context `{Minicbor, Base32, Crc16, Clock, Coset} {B V : Type} `{!RequestValidator V}.
Implicit Types (ep : Endpoint B) (eps : list (Endpoint B)) (m : RequestMessage) (w : Mutex B).
Implicit Types sh : Shared (W := Mutex B) (V := V).

Lemma find_endpoint_some eps method ep :
  find_endpoint eps method = Some ep → ep ∈ eps ∧ ep_name ep = method.
Proof. by intros [Hin%list_elem_of_In Hp%bool_decide_eq_true]%find_some. Qed.

Lemma lock_backend_state {A} (f : ST B ManyError A) w :
  mutex_poisoned w = false → guarded (lock_backend f w).1 = (f (guarded w)).1 ∧ (lock_backend f w).2 = (f (guarded w)).2.
Proof. intros Hp. unfold lock_backend. rewrite Hp. by destruct (f (guarded w)). Qed.

(** The state after a module is that after the call of its endpoint. *)
Lemma endpoints_execute_state eps m w :
  guarded (endpoints_execute eps m w).1 =
    match find_endpoint eps (req_method m) with
    | Some ep => if mutex_poisoned w then guarded w else (ep_call ep m (guarded w)).1
    | None => guarded w
    end.
Proof.
  unfold endpoints_execute. destruct (find_endpoint eps (req_method m)) as [ep|]; [|done].
  unfold mbind at 1, st_bind at 1. destruct (lock_backend (ep_call ep m) w) as [w' r] eqn:Hl.
  assert (guarded w' = if mutex_poisoned w then guarded w else (ep_call ep m (guarded w)).1) as Hw.
  { unfold lock_backend in Hl. destruct (mutex_poisoned w); [by injection Hl as <- _|].
    destruct (ep_call ep m (guarded w)). by injection Hl as <- _. }
  destruct r as [[l sent]|?|?|]; [|done..]. destruct (proof_requested m); [|done].
  unfold mbind, st_bind, lift. destruct (receive_proof ep _) as [p| | |]; [|done..].
  by destruct (proof_attributes p).
Qed.

(** An endpoint that leaves its backend alone. *)
Definition reads_only ep : Prop := ∀ m s, (ep_call ep m s).1 = s.
(** Endpoints without [&mut self] are such. *)
Lemma encoded_reads {Ret} `{!Cbor Ret} (f : B → outcome ManyError Ret) s : (encoded (reads f) s).1 = s.
Proof. unfold encoded, reads, mbind, st_bind. by destruct (f s). Qed.
Lemma argument_bind {Arg A} `{!Cbor Arg} m (k : Arg → ST B ManyError A) s :
  (∀ args, (k args s).1 = s) → ((lift (argument m) ≫= k) s).1 = s.
Proof. intros Hk. unfold lift, mbind, st_bind. by destruct (argument m). Qed.

(** C21: A request with the attribute that asks for a proof, to an endpoint that takes no context and
    succeeds, is never answered: the backend is changed, the call waits for a proof that nobody sends, and a server
    that reads such a request from its socket serves none of the requests that follow. *)
Theorem proof_request_hangs sh e now m t name id eps ep s' l :
  routed sh e now m t (many_module name id eps) →
  find_endpoint eps (req_method m) = Some ep → ep_context ep = false → proof_requested m = true →
  mutex_poisoned (world sh) = false → ep_call ep m (guarded (world sh)) = (s', Ok (l, [])) →
  (execute e now sh).2 = OutOfFuel ∧ guarded (world (execute e now sh).1) = s'
  ∧ ∀ body rest, cose_from_tagged_slice body = Ok e →
      serve ((None, body, now) :: rest) sh = (execute e now sh).1.
Proof.
  intros Hr Hep Hctx Hp Hlock Hcall. destruct (execute_routed _ _ _ _ _ _ Hr) as [Hw Ho].
  assert (module_execute (many_module name id eps) m (world sh) = (mkMutex s' false, OutOfFuel)) as Hx.
  { simpl. unfold endpoints_execute. rewrite Hep. unfold mbind, st_bind, lock_backend. rewrite Hlock, Hcall.
    cbn [snd fst]. rewrite Hp. unfold lift, receive_proof. by rewrite Hctx. }
  rewrite Hx in Hw, Ho. cbn [fst snd] in Hw, Ho. split_and!; [done|by rewrite Hw|].
  intros body rest Hb. cbn [serve handle_request]. rewrite Hb.
  destruct (execute e now sh) as [sh' r]. cbn [snd] in Ho. by rewrite Ho.
Qed.
End modules.
