(* ===== verification/AbciBridge.v ===== *)
(** * many-client and many-abci: between the application and the consensus

    Models [many-client/src/client.rs] ([send_envelope], [ManyClient]),
    [many-modules/src/_8_async.rs] (the [ASYNC] attribute), [many-abci/src/abci_app.rs] ([AbciApp], the
    ABCI application that Tendermint calls and that forwards to the MANY server of the backend)
    and [many-abci/src/many_app.rs] ([AbciModuleMany], the MANY server in front, which forwards to
    Tendermint).

    The HTTP client ([reqwest]) and the RPC client of Tendermint are parameters: operations on the
    state [B] of what is behind them. *)
From S2P Require Import Prelude Error ErrorDisplay External Address Types Account Events Migration.
From S2P Require Import Cose Wire WireLaws Protocol ProtocolLaws Server BaseStatus.

#[local] Open Scope string_scope.
#[local] Open Scope list_scope.
#[local] Open Scope N_scope.

Definition unexpected_transport_error (inner : string) : ManyError :=
  many_error UnexpectedTransportError
    ("The transport returned an error unexpectedly:" +:+ nl +:+ "{inner}") [("inner", inner)].
Definition invalid_attribute_id (i : N) : ManyError :=
  many_error InvalidAttribtueId "Unexpected attribute ID: {id}." [("id", pretty i)].

(** ** [many-client] *)

(** [client.post(url).body(bytes).send()]: the status of the response, and its body. *)
Class Http (B : Type) := post : bytes → ST B string (N * outcome string bytes).

Section client.
Context `{Minicbor, Base32, Crc16, Clock, Coset} {B : Type} `{!Http B}.

Definition send_envelope (e : CoseSign1) : ST B ManyError CoseSign1 :=
  l ← lift (map_err (λ _, internal_server_error) (cose_to_tagged_vec e));
  response ← st_map_err unexpected_transport_error (post l);
  if response.1 =? 413 then
    fails (unexpected_transport_error
             ("413: Content Too Large : " +:+ pretty (N.of_nat (length l)) +:+ " bytes"))
  else if response.1 =? 500 then fails (unexpected_transport_error "500: Internal Server Error")
  else
    body ← lift (map_err unexpected_transport_error response.2);
    lift (map_err deserialization_error (cose_from_tagged_slice body)).

(** [ManyClient]; the verifier is the pair of the anonymous one and of that of COSE keys. *)
Record ManyClient : Type := mkClient {
  client_identity : Identity;
  client_to : option Address;
  cose_key_verifier : Verifier;
}.
Definition client_verifier (c : ManyClient) : Verifier :=
  verify_tuple [AnonymousVerifier; cose_key_verifier c].
Definition client_new (to : Address) (i : Identity) (v : Verifier) : ManyClient := mkClient i (Some to) v.

(** [.unwrap()]. *)
Definition unwrap {E A} (r : outcome E A) : outcome ManyError A :=
  match r with
  | Ok a => Ok a
  | Err _ => Panic "called `Result::unwrap()` on an `Err` value"
  | Panic t => Panic t
  | OutOfFuel => OutOfFuel
  end.

Definition send_message (c : ManyClient) (m : RequestMessage) : ST B ManyError ResponseMessage :=
  e ← lift (unwrap (encode_cose_sign1_from_request m (client_identity c)));
  e' ← send_envelope e;
  lift (decode_and_verify e' (client_verifier c)).
(** [nonce] is the random one. *)
Definition call_raw (c : ManyClient) (method : string) (argument nonce : bytes) : ST B ManyError ResponseMessage :=
  send_message c
    (mkRequest (Some 1) (Some (identity_address (client_identity c))) (default ANONYMOUS (client_to c)) method
       argument None None (Some nonce) ∅).
Definition call_ (c : ManyClient) (method : string) (argument nonce : bytes) : ST B ManyError bytes :=
  r ← call_raw c method argument nonce; lift (resp_data r).
(** [minicbor::to_vec(())]. *)
Definition unit_argument : bytes := tokens_to_vec [TkArray (Some 0)].
End client.

(** ** The [ASYNC] attribute *)

Definition ASYNC : Attribute := attribute_id 1.
(** [AsyncAttribute::try_from(Attribute)] and [try_from_set]: the token. *)
Definition async_try_from (a : Attribute) : outcome ManyError bytes :=
  if negb (attr_id a =? attr_id ASYNC) then Err (invalid_attribute_id (attr_id a))
  else match attr_arguments a with
       | [CBytes token] => Ok token
       | _ => Err invalid_attribute_arguments
       end.
Definition async_try_from_set (s : AttributeSet) : outcome ManyError bytes :=
  match AttributeSet_get_attribute s (attr_id ASYNC) with
  | Some a => async_try_from a
  | None => Err (attribute_not_found (pretty (attr_id ASYNC)))
  end.
Definition async_attribute (token : bytes) : Attribute := attribute_with_argument ASYNC (CBytes token).

(** ** [AbciApp] *)

Inductive ManyAbciCheckErrorCodes : Type :=
| CheckSuccess | CoseDeserializeError | MessageDeserializeError | RwLockPoisonedError | TimestampError
| CannotGetSystemTimeError | TimestampOutsideOfRangeError | ValidationError.
Definition check_code (c : ManyAbciCheckErrorCodes) : N :=
  match c with
  | CheckSuccess => 0 | CoseDeserializeError => 4 | MessageDeserializeError => 5 | RwLockPoisonedError => 6
  | TimestampError => 7 | CannotGetSystemTimeError => 8 | TimestampOutsideOfRangeError => 9 | ValidationError => 10
  end.
(** [ManyAbciErrorCodes] and [ManyAbciDeliverErrorCodes]. *)
Definition QUERY_SUCCESS : N := 0.
Definition QUERY_TRANSPORT_ERROR : N := 1.
Definition QUERY_FRONTEND_ERROR : N := 2.
Definition DELIVER_SUCCESS : N := 0.
Definition DELIVER_TRANSPORT_REQUEST_ERROR : N := 1.
Definition DELIVER_COSE_DESERIALIZE_ERROR : N := 2.
Definition DELIVER_RWLOCK_POISONED_ERROR : N := 11.

Definition MANYABCI_DEFAULT_TIMEOUT : N := 300.
Definition EPOCH : Timestamp := 0.

Definition LEGACY_ERROR_CODE_TRIGGER : InnerMigration unit ManyError :=
  new_trigger true "LegacyErrorCode" "Trigger a legacy bug in attribute-specific error codes decoding in ABCI.".
Definition LegacyErrorCode : string := mname LEGACY_ERROR_CODE_TRIGGER.

(** The responses: a code, a log, and the data. *)
Record AbciResponse : Type := mkAbciResponse { abci_code : N; abci_log : string; abci_data : bytes }.

Record AbciApp (V : Type) : Type := mkAbciApp {
  app_name : string;
  many_client : ManyClient;
  app_cache : V;
  cache_poisoned : bool;
  app_migrations : MigrationSet unit ManyError;
  app_block_time : option N;
}.
Arguments mkAbciApp {V}.
Arguments app_name {V} a : rename.
Arguments many_client {V} a : rename.
Arguments app_cache {V} a : rename.
Arguments cache_poisoned {V} a : rename.
Arguments app_migrations {V} a : rename.
Arguments app_block_time {V} a : rename.

Section app.
Context `{Minicbor, Base32, Crc16} {clk : Clock} `{Coset} {V B : Type} `{!RequestValidator V, !Http B}.
Context `{!Cbor AbciBlock, !Cbor AbciInfo, !Cbor AbciCommitInfo}.
Abbreviation App := (AbciApp V).

Definition set_cache (a : App) (v : V) (p : bool) : App :=
  mkAbciApp (app_name a) (many_client a) v p (app_migrations a) (app_block_time a).

(** The transaction as a message; its signature is not verified here. *)
Definition do_check_tx (a : App) (tx : bytes) : outcome (ManyAbciCheckErrorCodes * string) unit :=
  let logged c (e : ManyError) := (c, ManyError_to_string e) in
  cose ← map_err (pair CoseDeserializeError) (cose_from_slice tx);
  m ← map_err (logged MessageDeserializeError) (request_of_envelope cose);
  (if cache_poisoned a then Err (RwLockPoisonedError, "poisoned lock: another task failed inside") else Ok tt);;
  map_err (λ _, (ValidationError, "Transaction already in cache")) (validate_envelope (app_cache a) cose);;
  map_err (logged ValidationError) (validate_request (app_cache a) m);;
  now ← map_err (logged CannotGetSystemTimeError) (as_system_time (default clock_now (app_block_time a)));
  map_err (logged TimestampOutsideOfRangeError) (validate_time m (now * NANOS) MANYABCI_DEFAULT_TIMEOUT).
Definition check_tx (a : App) (tx : bytes) : outcome string AbciResponse :=
  match do_check_tx a tx with
  | Ok _ => Ok (mkAbciResponse (check_code CheckSuccess) "" [])
  | Err (c, log) => Ok (mkAbciResponse (check_code c) log [])
  | Panic t => Panic t
  | OutOfFuel => OutOfFuel
  end.

(** What all nodes of the chain agree on of a response. *)
Definition legacy_data (legacy : bool) (d : outcome ManyError bytes) : outcome ManyError bytes :=
  match d with
  | Err e => if legacy && is_attribute_specific (code e) then Err (Reason_with_code e Unknown) else Err e
  | d => d
  end.
Definition agreed_response (legacy : bool) (r : ResponseMessage) : ResponseMessage :=
  mkResponse None ANONYMOUS (resp_to r) (legacy_data legacy (resp_data r)) (Some EPOCH) (resp_id r) (resp_attributes r).

(** [ResponseMessage::from_bytes(&payload).unwrap_or_default()]. *)
Definition response_or_default (l : bytes) : outcome string ResponseMessage :=
  match response_from_bytes l with Err _ => Ok response_default | r => r end.

Definition deliver_error (c : N) (log : string) : AbciResponse := mkAbciResponse c log [].
Definition deliver_tx (tx : bytes) : ST (App * B) string AbciResponse := λ s,
  let '(a, w) := s in
  match cose_from_slice tx with
  | Err err => (s, Ok (deliver_error DELIVER_COSE_DESERIALIZE_ERROR err))
  | Panic t => (s, Panic t)
  | OutOfFuel => (s, OutOfFuel)
  | Ok cose =>
      let '(w, sent) := send_envelope cose w in
      match sent with
      | Err err => ((a, w), Ok (deliver_error DELIVER_TRANSPORT_REQUEST_ERROR (ManyError_to_string err)))
      | Panic t => ((a, w), Panic t)
      | OutOfFuel => ((a, w), OutOfFuel)
      | Ok cose_sign =>
          match response_or_default (default [] (cose_payload cose_sign)) with
          | Ok r =>
              let r := agreed_response (is_active (app_migrations a) LegacyErrorCode) r in
              if cache_poisoned a then ((a, w), Ok (deliver_error DELIVER_RWLOCK_POISONED_ERROR ""))
              else
                let '(v, told) := message_executed cose r (app_cache a) in
                match told with
                | Ok _ =>
                    ((set_cache a v false, w), Ok (mkAbciResponse DELIVER_SUCCESS "" (response_to_bytes r)))
                | Err err =>
                    ((set_cache a v true, w), Panic (message_executed_failed err))
                | Panic t => ((set_cache a v true, w), Panic t)
                | OutOfFuel => ((set_cache a v false, w), OutOfFuel)
                end
          | Err err => ((a, w), Err err)
          | Panic t => ((a, w), Panic t)
          | OutOfFuel => ((a, w), OutOfFuel)
          end
      end
  end.

Definition bridge_query (data : bytes) : ST B string AbciResponse := λ w,
  match cose_from_slice data with
  | Err err => (w, Ok (mkAbciResponse QUERY_FRONTEND_ERROR err []))
  | Panic t => (w, Panic t)
  | OutOfFuel => (w, OutOfFuel)
  | Ok cose =>
      let '(w, sent) := send_envelope cose w in
      (w, match sent with
          | Err err => Ok (mkAbciResponse QUERY_TRANSPORT_ERROR (ManyError_to_string err) [])
          | Panic t => Panic t
          | OutOfFuel => OutOfFuel
          | Ok value =>
              match cose_to_vec value with
              | Ok l => Ok (mkAbciResponse QUERY_SUCCESS "" l)
              | Err err => Ok (mkAbciResponse QUERY_FRONTEND_ERROR err [])
              | Panic t => Panic t
              | OutOfFuel => OutOfFuel
              end
          end)
  end.

(** A call of the backend whose result is dropped ([let _ = ..]). *)
Definition ignoring {A} (m : ST B ManyError A) (a : App) (w : B) : (App * B) * outcome string unit :=
  let '(w, r) := m w in
  ((a, w), match r with Panic t => Panic t | OutOfFuel => OutOfFuel | _ => Ok tt end).

(** [x as u64] of an [i64], and back. *)
Definition as_u64 (z : Z) : N := Z.to_N (z mod 2 ^ 64).
Definition as_i64 (n : N) : Z := if n <? 2 ^ 63 then Z.of_N n else (Z.of_N n - 2 ^ 64)%Z.

(** The header of a block: the seconds of its time and its height, as [i64]. *)
Definition bridge_begin_block (header : option (option Z * Z)) (nonce : bytes) : ST (App * B) string unit := λ s,
  let '(a, w) := s in
  let time := header ≫= λ x, as_u64 <$> x.1 in
  let ms :=
    match header with
    | Some (_, h) =>
        (update_at_height (app_migrations a) tt (if (0 <? h)%Z then as_u64 h else 0)).1.1
    | None => app_migrations a
    end in
  let a := mkAbciApp (app_name a) (many_client a) (app_cache a) (cache_poisoned a) ms time in
  ignoring (call_ (many_client a) "abci.beginBlock" (to_vec (mkAbciBlock time)) nonce) a w.
Definition bridge_end_block (nonce : bytes) : ST (App * B) string unit := λ s,
  ignoring (call_ (many_client s.1) "abci.endBlock" unit_argument nonce) s.1 s.2.

(** The hash and the height to retain ([as i64]). *)
Definition bridge_commit (nonce : bytes) : ST (App * B) string (bytes * Z) := λ s,
  let '(a, w) := s in
  let '(w, r) := call_ (many_client a) "abci.commit" unit_argument nonce w in
  ((a, w),
   match r with
   | Err err => Ok (b (ManyError_to_string err), 0%Z)
   | Ok msg =>
       match decode (A := AbciCommitInfo) msg with
       | Ok i => Ok (commit_hash i, as_i64 (retain_height i))
       | Err _ => Panic "called `Result::unwrap()` on an `Err` value"
       | Panic t => Panic t
       | OutOfFuel => OutOfFuel
       end
   | Panic t => Panic t
   | OutOfFuel => OutOfFuel
   end).

Definition get_abci_info_ (c : ManyClient) (nonce : bytes) : ST B ManyError AbciInfo :=
  payload ← call_ c "abci.info" unit_argument nonce; lift (map_err deserialization_error (decode payload)).
End app.

(** ** [AbciModuleMany] *)

(** [tendermint_rpc::Client]: the hash of a transaction that was accepted, and the value of a query. *)
Class Tendermint (B : Type) := {
  broadcast_tx_sync : bytes → ST B string bytes;
  tm_abci_query : bytes → ST B string bytes;
}.

Record AbciModuleMany : Type := mkAbciModule {
  frontend_identity : Identity;
  backend_endpoints : gmap string bool;      (* is it a command? *)
  allow_addrs : option (gset Address);
  backend_status : Status;
  frontend_verifiers : list Verifier;        (* [AnonymousVerifier], [CoseKeyVerifier], [WebAuthnVerifier] *)
}.

Section frontend.
Context `{Minicbor, Base32, Crc16, Clock, Coset} {B : Type} `{!Tendermint B}.

Definition execute_message (f : AbciModuleMany) (e : CoseSign1) : ST B ManyError CoseSign1 :=
  m ← lift (decode_request_from_cose_sign1 e (verify_tuple (frontend_verifiers f)));
  match (backend_endpoints f !! req_method m : option bool) with
  | Some is_command =>
      data ← lift (map_err unexpected_transport_error (cose_to_vec e));
      if is_command then
        if match allow_addrs f with Some l => negb (bool_decide (request_from m ∈ l)) | None => false end
        then fails invalid_from_identity
        else
          hash ← st_map_err unexpected_transport_error (broadcast_tx_sync data);
          let response :=
            response_with_attribute (response_from_request m (identity_address (frontend_identity f)) (Ok []))
              (async_attribute hash) in
          lift (map_err (λ err, unexpected_transport_error (ManyError_to_string err))
                  (encode_cose_sign1_from_response response (frontend_identity f)))
      else
        value ← st_map_err unexpected_transport_error (tm_abci_query data);
        lift (map_err unexpected_transport_error (cose_from_slice value))
  | None => fails (invalid_method_name (req_method m))
  end.

Definition frontend_execute (f : AbciModuleMany) (e : CoseSign1) : ST B string CoseSign1 := λ w,
  let '(w, r) := execute_message f e w in
  match r with
  | Ok x => (w, Ok x)
  | Err err =>
      (w, map_err ManyError_to_string
            (encode_cose_sign1_from_response
               (response_error (identity_address (frontend_identity f)) None err) (frontend_identity f)))
  | Panic t => (w, Panic t)
  | OutOfFuel => (w, OutOfFuel)
  end.
Definition frontend_endpoints (f : AbciModuleMany) : gset string := dom (backend_endpoints f).
(** [ABCI_MODULE_ATTRIBUTE], and [std::env!("CARGO_PKG_VERSION")] of many-abci. *)
Definition ABCI_MODULE_ATTRIBUTE : Attribute := attribute_id 1000.
Definition ABCI_PKG_VERSION : string := "0.2.6".
Definition frontend_status (f : AbciModuleMany) : Status :=
  mkStatus 1 ("AbciModule(" +:+ st_name (backend_status f) +:+ ")") (public_key (frontend_identity f))
    (identity_address (frontend_identity f))
    (attributes_from_iter (filter (λ a, attr_id a ≠ attr_id ABCI_MODULE_ATTRIBUTE) (st_attributes (backend_status f))))
    (Some ABCI_PKG_VERSION) None ∅.
(** As the fallback of the server in front. *)
Definition frontend_fallback (f : AbciModuleMany) : ManyServerFallback B :=
  mkFallback _ (frontend_execute f) (λ _, Ok (frontend_endpoints f)) (λ _, Ok (frontend_status f)).
End frontend.
