(* ===== verification/AbciBridgeLaws.v ===== *)
(** * many-abci: what the consensus sees

    Theorems about [AbciBridge.v]: which transactions enter the mempool, that the nodes of a chain
    agree on the result of a transaction, what reaches Tendermint, and what a client learns of a command. *)
From S2P Require Import Prelude Error ErrorDisplay External Address Types Account Events Migration.
From S2P Require Import Cose Wire WireLaws Protocol ProtocolLaws Server AbciBridge.

#[local] Open Scope string_scope.
#[local] Open Scope list_scope.
#[local] Open Scope N_scope.

(** ** The mempool *)

Section check.
Context `{Minicbor, Base32, Crc16, Clock, Coset} {V : Type} `{!RequestValidator V}.

Lemma map_err_ok_iff {E E' A} (f : E → E') (r : outcome E A) a : map_err f r = Ok a ↔ r = Ok a.
Proof. destruct r; simpl; naive_solver. Qed.

Lemma do_check_tx_ok (a : AbciApp V) tx :
  do_check_tx a tx = Ok tt ↔
    ∃ cose m, cose_from_slice tx = Ok cose ∧ request_of_envelope cose = Ok m ∧ cache_poisoned a = false
      ∧ validate_envelope (app_cache a) cose = Ok tt ∧ validate_request (app_cache a) m = Ok tt
      ∧ default clock_now (app_block_time a) ≤ I64_MAX
      ∧ validate_time m (default clock_now (app_block_time a) * NANOS) MANYABCI_DEFAULT_TIMEOUT = Ok tt.
Proof.
  unfold do_check_tx. set (t := default clock_now (app_block_time a)). split.
  - intros (cose & Hc%map_err_ok_iff & Hr)%bind_Ok_inv.
    apply bind_Ok_inv in Hr as (m & Hm%map_err_ok_iff & Hr). apply bind_Ok_inv in Hr as ([] & Hp & Hr).
    apply bind_Ok_inv in Hr as ([] & He%map_err_ok_iff & Hr). apply bind_Ok_inv in Hr as ([] & Hq%map_err_ok_iff & Hr).
    apply bind_Ok_inv in Hr as (now & [-> Hnow]%map_err_ok_iff%as_system_time_ok & Hr%map_err_ok_iff).
    exists cose, m. split_and!; try done. by destruct (cache_poisoned a).
  - intros (cose & m & -> & Hm & -> & He & Hq & Hnow & Ht). cbn [map_err mbind outcome_bind].
    rewrite Hm. cbn [map_err mbind outcome_bind].
    rewrite He. cbn [map_err mbind outcome_bind]. rewrite Hq. cbn [map_err mbind outcome_bind].
    unfold as_system_time. rewrite (proj2 (N.leb_le _ _) Hnow). cbn [map_err mbind outcome_bind]. by rewrite Ht.
Qed.

Lemma do_check_tx_err (a : AbciApp V) tx log : do_check_tx a tx ≠ Err (CheckSuccess, log).
Proof.
  unfold do_check_tx. destruct (cose_from_slice tx) as [cose|?|?|]; cbn [map_err mbind outcome_bind]; [|done..].
  destruct (request_of_envelope cose) as [m|?|?|]; cbn [map_err mbind outcome_bind]; [|done..].
  destruct (cache_poisoned a); cbn [mbind outcome_bind]; [done|].
  destruct (validate_envelope _ cose); cbn [map_err mbind outcome_bind]; [|done..].
  destruct (validate_request _ m); cbn [map_err mbind outcome_bind]; [|done..].
  destruct (as_system_time _); cbn [map_err mbind outcome_bind]; [|done..].
  by destruct (validate_time _ _ _).
Qed.

(** A transaction enters the mempool exactly when it is an envelope with a request in it,
    the validator (the cache of executed messages) accepts both, and the timestamp of the request is
    less than 300 seconds away from the time of the current block (from the clock, before the first
    block). The signature is not looked at: that is left to the backend. Any other transaction gets a
    code that is not 0, unless its decoding panics. *)
Theorem check_tx_spec (a : AbciApp V) tx :
  ((∃ r, check_tx a tx = Ok r ∧ abci_code r = 0) ↔
     ∃ cose m t, cose_from_slice tx = Ok cose ∧ request_of_envelope cose = Ok m ∧ cache_poisoned a = false
       ∧ validate_envelope (app_cache a) cose = Ok tt ∧ validate_request (app_cache a) m = Ok tt
       ∧ req_timestamp m = Some t ∧ t ≤ I64_MAX ∧ default clock_now (app_block_time a) ≤ I64_MAX
       ∧ t < default clock_now (app_block_time a) + 300 ∧ default clock_now (app_block_time a) < t + 300)
  ∧ ∀ e, check_tx a tx ≠ Err e.
Proof.
  assert ((∃ r, check_tx a tx = Ok r ∧ abci_code r = 0) ↔ do_check_tx a tx = Ok tt) as ->.
  { unfold check_tx. pose proof (do_check_tx_err a tx) as Hn. destruct (do_check_tx a tx) as [[]|[c log]|?|].
    - split; [done|]. eauto.
    - split; [|done]. intros (r & [= <-] & Hr). by destruct c; try done; destruct (Hn log).
    - naive_solver.
    - naive_solver. }
  split; [|unfold check_tx; intros e; by destruct (do_check_tx a tx) as [|[]| |]].
  rewrite do_check_tx_ok. setoid_rewrite validate_time_iff. unfold MANYABCI_DEFAULT_TIMEOUT, NANOS.
  split.
  - intros (cose & m & ? & ? & ? & ? & ? & ? & t & ? & ? & ? & ?). exists cose, m, t. split_and!; try done; lia.
  - intros (cose & m & t & ? & ? & ? & ? & ? & ? & ? & ? & ? & ?). exists cose, m. split_and!; try done.
    exists t. split_and!; try done; lia.
Qed.
End check.

(** ** Agreement between nodes *)

Section agreement.
Context `{Minicbor, Base32, Crc16, Coset} `{!MinicborLaws} {V B : Type} `{!RequestValidator V, !Http B}.

(** The backend of the node [a] answers the envelope with [r], by the clock [k], and the validator of
    the node can be told. *)
Record node_answers (k : Clock) (a : AbciApp V) (w : B) (cose : CoseSign1) (r : ResponseMessage) : Prop := {
  node_sent : ∃ w' c, send_envelope cose w = (w', Ok c) ∧ cose_payload c = Some (response_to_bytes r);
  node_wf : response_wf r;
  node_fits : Forall token_fits (response_encode r);
  node_no_id : resp_id r = None;
  node_cache : cache_poisoned a = false;
  node_told r' : (message_executed cose r' (app_cache a)).2 = Ok tt;
}.

(** The result, of which nothing is the node's own. *)
Definition delivered (legacy : bool) (to : option Address) (data : outcome ManyError bytes) (attrs : AttributeSet) :
    bytes :=
  response_to_bytes (H2 := 0)
    (mkResponse None ANONYMOUS (if sent_address to then to else None) (legacy_data legacy data) (Some EPOCH) None attrs).

Lemma deliver_tx_result (k : Clock) (a : AbciApp V) w tx cose r :
  cose_from_slice tx = Ok cose → node_answers k a w cose r →
  (deliver_tx tx (a, w)).2
  = Ok (mkAbciResponse DELIVER_SUCCESS ""
          (delivered (is_active (app_migrations a) LegacyErrorCode) (resp_to r) (resp_data r) (resp_attributes r))).
Proof.
  intros Htx [(w' & c & Hs & Hc) Hwf Hf Hid Hp Ht]. unfold deliver_tx. rewrite Htx, Hs, Hc.
  unfold response_or_default, response_from_bytes, response_to_bytes at 1. cbn [default from_option id].
  rewrite decode_tokens_ok, response_decode_ok by done. rewrite Hp. set (r' := agreed_response _ _).
  specialize (Ht r'). destruct (message_executed cose r' (app_cache a)) as [v res]. simpl in Ht. by subst res.
Qed.

(** C15: The nodes of a chain agree on the result of a transaction: two nodes whose backends
    answer it with the same destination, data and attributes deliver the same bytes with code 0, although
    the answers have different senders, versions and timestamps, the clocks differ and the caches may
    too, when both or neither apply the legacy error codes. *)
Theorem deliver_tx_agreement (k1 k2 : Clock) (a1 a2 : AbciApp V) w1 w2 tx cose r1 r2 :
  cose_from_slice tx = Ok cose →
  node_answers k1 a1 w1 cose r1 → node_answers k2 a2 w2 cose r2 →
  is_active (app_migrations a1) LegacyErrorCode = is_active (app_migrations a2) LegacyErrorCode →
  resp_to r1 = resp_to r2 → resp_data r1 = resp_data r2 → resp_attributes r1 = resp_attributes r2 →
  (deliver_tx (clk := k1) tx (a1, w1)).2 = (deliver_tx (clk := k2) tx (a2, w2)).2
  ∧ ∃ data, (deliver_tx (clk := k1) tx (a1, w1)).2 = Ok (mkAbciResponse DELIVER_SUCCESS "" data).
Proof.
  intros Htx Hn1 Hn2 Hm Hto Hd Ha.
  rewrite (deliver_tx_result k1 a1 w1 tx cose r1 Htx Hn1), (deliver_tx_result k2 a2 w2 tx cose r2 Htx Hn2), Hm, Hto, Hd, Ha.
  eauto.
Qed.
End agreement.

(** ** The server in front *)

Section frontend.
Context `{Minicbor, Base32, Crc16, Clock, Coset} {B : Type} `{!Tendermint B}.

(** Nothing reaches Tendermint but authenticated requests for endpoints of the backend: if
    handling an envelope touches the state behind the RPC client, the verifiers accept the envelope for
    the sender of its request, the endpoint is one the backend listed, and when it is a command and
    there is a list of allowed addresses the sender is on it. *)
Theorem frontend_safety f e w w' r :
  frontend_execute f e w = (w', r) → w' ≠ w →
  ∃ m is_command, decode_request_from_cose_sign1 e (verify_tuple (frontend_verifiers f)) = Ok m
    ∧ backend_endpoints f !! req_method m = Some is_command
    ∧ (is_command = true → ∀ l, allow_addrs f = Some l → request_from m ∈ l).
Proof.
  unfold frontend_execute, execute_message, lift, fails, mbind, st_bind. intros Hx Hw.
  destruct (decode_request_from_cose_sign1 e _) as [m|?|?|]; try (by injection Hx as <- _; destruct Hw).
  destruct (backend_endpoints f !! req_method m) as [c|] eqn:Hm; [|by injection Hx as <- _; destruct Hw].
  exists m, c. split_and!; [done|done|]. intros -> l Hl. rewrite Hl in Hx.
  destruct (cose_to_vec e); try (by injection Hx as <- _; destruct Hw). cbn [map_err] in Hx.
  case_bool_decide as Hin; [done|]. injection Hx as <- _. by destruct Hw.
Qed.

(** The answer to a command. *)
Definition async_response (f : AbciModuleMany) (m : RequestMessage) (hash : bytes) : ResponseMessage :=
  response_with_attribute (response_from_request m (identity_address (frontend_identity f)) (Ok []))
    (async_attribute hash).

Lemma async_response_wf f m hash i :
  clock_now < 2 ^ 64 → (∀ i, req_id m = Some i → i < 2 ^ 63) → i = resp_id (async_response f m hash) →
  response_wf (async_response f m hash)
  ∧ resp_attributes (async_response f m hash) = {[1 := [CBytes hash]]} ∧ i = req_id m.
Proof.
  intros Hc Hi ->. split; [|done]. split; try done. simpl.
  unfold AttributeSet_insert. simpl. apply map_Forall_insert_2; [|apply map_Forall_empty].
  split; [simpl; lia|]. repeat constructor.
Qed.

(** A command that is accepted is broadcast once, as it came, and answered with no data and
    the hash of its transaction as a token in the attribute [ASYNC]. A client that sent no id finds the token
    in the answer it decodes; a client that sent an id above 8 does not: the decoder of responses loses
    the attributes of a response that has an id, and the answer looks like that of a command which has
    already run. *)
Theorem async_token_delivery `{!MinicborLaws} f e w w' m data hash :
  decode_request_from_cose_sign1 e (verify_tuple (frontend_verifiers f)) = Ok m →
  backend_endpoints f !! req_method m = Some true →
  (∀ l, allow_addrs f = Some l → request_from m ∈ l) →
  cose_to_vec e = Ok data → broadcast_tx_sync data w = (w', Ok hash) →
  clock_now < 2 ^ 64 → (∀ i, req_id m = Some i → i < 2 ^ 63) →
  Forall token_fits (response_encode (async_response f m hash)) →
  execute_message f e w
    = (w', map_err (λ err, unexpected_transport_error (ManyError_to_string err))
             (encode_cose_sign1_from_payload (response_to_bytes (async_response f m hash)) (frontend_identity f)))
  ∧ ((req_id m = None ∨ ∃ i, req_id m = Some i ∧ 8 < i) →
     ∃ r, response_from_bytes (response_to_bytes (async_response f m hash)) = Ok r
       ∧ resp_data r = Ok []
       ∧ async_try_from_set (resp_attributes r)
         = match req_id m with None => Ok hash | Some _ => Err (attribute_not_found "1") end).
Proof.
  intros Hd Hm Hl Hv Hb Hc Hi Hf. split.
  - unfold execute_message, lift, fails, mbind, st_bind. rewrite Hd, Hm, Hv. cbn [map_err].
    assert (match allow_addrs f with Some l => negb (bool_decide (request_from m ∈ l)) | None => false end = false) as ->.
    { destruct (allow_addrs f); [|done]. rewrite bool_decide_true; [done|]. by apply Hl. }
    unfold st_map_err. rewrite Hb. done.
  - intros Hid. destruct (async_response_wf f m hash _ Hc Hi eq_refl) as (Hwf & Ha & Hri).
    unfold response_from_bytes, response_to_bytes. rewrite decode_tokens_ok by done.
    destruct Hid as [Hid|(i & Hid & Hi8)]; rewrite Hid in *.
    + rewrite response_decode_ok by done. eexists. split; [done|]. by rewrite Ha.
    + rewrite (response_decode_id _ i) by (try done; by right). by eexists.
Qed.
End frontend.
