(* ===== verification/Blockchain.v ===== *)
(** * many-abci: the blocks and transactions of the chain

    Models [many-abci/src/module.rs] ([AbciBlockchainModuleImpl], behind the modules [blockchain] and [async]),
    the types and hand-written CBOR of [many-types/src/blockchain.rs], of [CborRange] in
    [many-types/src/lib.rs] and of [StatusReturn] in [many-modules/src/_8_async.rs], and the traits of
    endpoints of [_1_blockchain.rs] and [_8_async.rs].

    The RPC client of Tendermint, SHA-256 and base64 are parameters; its blocks and answers are records of
    the fields that the code reads. *)
From S2P Require Import Prelude Error ErrorDisplay External Address Types Account Events Migration.
From S2P Require Import Cose Wire WireLaws Protocol ProtocolLaws ProofOps Server Endpoints.

#[local] Open Scope string_scope.
#[local] Open Scope list_scope.
#[local] Open Scope N_scope.

(** ** Types *)

Inductive SingleBlockQuery : Type := BlockHash (h : bytes) | BlockHeight (n : N).
Record BlockIdentifier : Type := mkBlockIdentifier { bid_hash : bytes; bid_height : N }.
Definition genesis_identifier : BlockIdentifier := mkBlockIdentifier [] 0.
Record TransactionIdentifier : Type := mkTransactionIdentifier { tid_hash : bytes }.
Record Transaction : Type := mkTransaction {
  txn_id : TransactionIdentifier;
  txn_request : option bytes;
  txn_response : option bytes;
}.
Record Block : Type := mkBlock {
  blk_id : BlockIdentifier;
  blk_parent : BlockIdentifier;
  blk_app_hash : option bytes;
  blk_timestamp : Timestamp;
  blk_txs_count : N;
  blk_txs : list Transaction;
}.
Inductive SingleTransactionQuery : Type := TransactionHash (h : bytes).
Inductive RangeBlockQuery : Type := RangeHeight (r : CborRange N) | RangeTime (r : CborRange Timestamp).

Record BlockchainInfoReturns : Type := mkBlockchainInfo {
  bci_latest_block : BlockIdentifier;
  bci_app_hash : option bytes;
  bci_retained_height : option N;
}.
Record BlockListArgs : Type := mkBlockListArgs {
  bla_count : option N;
  bla_order : option SortOrder;
  bla_filter : option RangeBlockQuery;
}.
Record BlockListReturns : Type := mkBlockListReturns { blr_height : N; blr_blocks : list Block }.

(** [many-modules/src/_8_async.rs]. *)
Inductive StatusReturn : Type :=
| StatusUnknown
| StatusQueued
| StatusProcessing
| StatusDone (response : CoseSign1)
| StatusExpired.
Definition status_variant (s : StatusReturn) : N :=
  match s with
  | StatusUnknown => 0
  | StatusQueued => 1
  | StatusProcessing => 2
  | StatusDone _ => 3
  | StatusExpired => 4
  end.
Definition status_from_kind (kind : N) (response : option CoseSign1) : option StatusReturn :=
  match kind, response with
  | 0, None => Some StatusUnknown
  | 1, None => Some StatusQueued
  | 2, None => Some StatusProcessing
  | 3, Some e => Some (StatusDone e)
  | 4, None => Some StatusExpired
  | _, _ => None
  end.

(** ** CBOR *)

(** What the library skips at an item that is not a break. *)
Class MinicborSkip := skip_item : Dec unit.

Section codec.
Context `{Minicbor, !MinicborSkip}.

(** [d.skip()]: a break, or an item with all it contains. *)
Definition d_skip_one : Dec unit := λ ts,
  match ts with
  | TkBreak :: ts => Ok (tt, ts)
  | _ => skip_item ts
  end.

Definition block_query_encode (q : SingleBlockQuery) : list Token :=
  match q with
  | BlockHash h => [TkMap (Some 1); TkInt 0; TkBytes h]
  | BlockHeight n => [TkMap (Some 1); TkInt 1; TkInt (Z.of_N n)]
  end.
(** The error of an unknown key is given only after the item that is skipped. *)
Definition unknown_after_skip {A} (indefinite : bool) (x : N) : Dec A :=
  if indefinite then d_skip_one;; unknown_variant x else unknown_variant x.
Definition block_query_decode : Dec SingleBlockQuery :=
  n ← d_map;
  key ← match n with
        | None | Some 1 => d_u8
        | Some _ => d_fail "Invalid length for single block query map."
        end;
  let indefinite := match n with None => true | Some _ => false end in
  match key with
  | 0 => h ← d_bytes; (if indefinite then d_skip_one else mret tt);; mret (BlockHash h)
  | 1 => x ← d_u64; (if indefinite then d_skip_one else mret tt);; mret (BlockHeight x)
  | x => unknown_after_skip indefinite x
  end.

Definition transaction_query_encode (q : SingleTransactionQuery) : list Token :=
  match q with TransactionHash h => [TkMap (Some 1); TkInt 0; TkBytes h] end.
Definition transaction_query_decode : Dec SingleTransactionQuery :=
  n ← d_map;
  key ← match n with
        | None | Some 1 => d_u8
        | Some _ => d_fail "Invalid hash for single transaction query."
        end;
  let indefinite := match n with None => true | Some _ => false end in
  match key with
  | 0 => h ← d_bytes; (if indefinite then d_skip_one else mret tt);; mret (TransactionHash h)
  | x => unknown_after_skip indefinite x
  end.

(** [CborRange]. *)
Definition bound_encode {T} (enc : T → list Token) (x : Bound T) : list Token :=
  match x with
  | Included v => [TkArray (Some 2); TkInt 0] ++ enc v
  | Excluded v => [TkArray (Some 2); TkInt 1] ++ enc v
  | Unbounded => [TkArray (Some 0)]
  end.
Definition range_encode {T} (enc : T → list Token) (r : CborRange T) : list Token :=
  match start r, end_ r with
  | Unbounded, Unbounded => [TkMap (Some 0)]
  | st, Unbounded => [TkMap (Some 1); TkInt 0] ++ bound_encode enc st
  | Unbounded, en => [TkMap (Some 1); TkInt 1] ++ bound_encode enc en
  | st, en => [TkMap (Some 2); TkInt 0] ++ bound_encode enc st ++ [TkInt 1] ++ bound_encode enc en
  end.
Definition bound_decode {T} (d : Dec T) : Dec (Bound T) :=
  len ← d_array;
  match len with
  | Some 0 => mret Unbounded
  | Some 2 =>
      x ← d_u32;
      match x with
      | 0 => v ← d; mret (Included v)
      | 1 => v ← d; mret (Excluded v)
      | x => unknown_variant x
      end
  | Some x => unknown_variant (wrap32 x)
  | None => d_fail (lib_error [TkArray None])
  end.
Definition range_decode {T} (d : Dec T) : Dec (CborRange T) :=
  len ← d_map;
  items ← d_all len (d_pair d_u8 (bound_decode d));
  mret (foldl (λ r kv, match kv.1 with
                       | 0 => mkRange kv.2 (end_ r)
                       | 1 => mkRange (start r) kv.2
                       | _ => r
                       end) range_default items).

Definition uint_encode (n : N) : list Token := [TkInt (Z.of_N n)].
Definition range_query_encode (q : RangeBlockQuery) : list Token :=
  match q with
  | RangeHeight r => [TkMap (Some 1); TkInt 1] ++ range_encode uint_encode r
  | RangeTime r => [TkMap (Some 1); TkInt 2] ++ range_encode timestamp_encode r
  end.
Definition range_query_decode : Dec RangeBlockQuery :=
  n ← d_map;
  key ← match n with
        | None | Some 1 => d_u8
        | Some _ => d_fail "Invalid key for range block query."
        end;
  let indefinite := match n with None => true | Some _ => false end in
  match key with
  | 1 => r ← range_decode d_u64; (if indefinite then d_skip_one else mret tt);; mret (RangeHeight r)
  | 2 => r ← range_decode timestamp_decode; (if indefinite then d_skip_one else mret tt);; mret (RangeTime r)
  | x => unknown_after_skip indefinite x
  end.
End codec.

(** [StatusReturn]: the response comes before the kind. *)
Section status_codec.
Context `{Minicbor, Base32, Crc16, Clock, Coset}.

Definition status_encode (s : StatusReturn) : outcome string (list Token) :=
  match s with
  | StatusDone e =>
      l ← cose_to_vec e;
      Ok [TkMap (Some 2); TkInt 1; TkBytes l; TkInt 0; TkInt (Z.of_N (status_variant s))]
  | _ => Ok [TkMap (Some 1); TkInt 0; TkInt (Z.of_N (status_variant s))]
  end.
Definition status_entry (acc : option N * option bytes) : Dec (option N * option bytes) :=
  t ← d_datatype;
  if match t with TkInt z => (0 <=? z)%Z | _ => false end then
    k ← d_u8;
    match k with
    | 0 => kind ← d_u8; mret (Some kind, acc.2)
    | 1 => l ← d_bytes; mret (acc.1, Some l)
    | x => unknown_variant x
    end
  else d_fail "Invalid key type.".
(** An envelope with the bytes of a response. *)
Definition response_envelope (l : bytes) : outcome string CoseSign1 :=
  e ← cose_from_slice l;
  p ← ok_or (cose_payload e) "Empty payload, expected CoseSign1.";
  map_err (λ _, "Invalid envelope payload type, expected ResponseMessage.") (response_from_bytes p);;
  Ok e.
Definition status_decode : Dec StatusReturn :=
  acc ← d_struct status_entry (None, None);
  kind ← d_lift (ok_or acc.1 "Invalid variant.");
  response ← d_lift match acc.2 with
                    | Some l => e ← response_envelope l; Ok (Some e)
                    | None => Ok None
                    end;
  d_lift (ok_or (status_from_kind kind response) "Invalid variant or result.").
End status_codec.

(** ** The client of Tendermint *)

Record TmBlock : Type := mkTmBlock {
  tmb_height : N;
  tmb_hash : bytes;
  tmb_last_block_id : option bytes;
  tmb_app_hash : bytes;
  tmb_time : Z;                          (* nanoseconds since the epoch *)
  tmb_data : list bytes;
}.
Record TmTx : Type := mkTmTx { tmt_hash : bytes; tmt_tx : bytes; tmt_data : bytes }.
Record TmStatus : Type := mkTmStatus {
  tms_block_hash : bytes;
  tms_block_height : N;
  tms_app_hash : bytes;
}.
(** [ErrorDetail::Response], and any other; the text is that of the error. *)
Inductive TmError : Type := TmResponse (e : string) | TmTransport (e : string).
Definition tm_error_to_string (e : TmError) : string := match e with TmResponse e | TmTransport e => e end.
Inductive TmOrder : Type := TmAscending | TmDescending.
(** Conditions on [block.height]; a query is their conjunction. *)
Inductive TmCondition : Type := HeightGte (n : N) | HeightGt (n : N) | HeightLte (n : N) | HeightLt (n : N).
Definition TmQuery : Type := list TmCondition.

Class TendermintRpc (B : Type) := {
  tm_tx : bytes → ST B TmError TmTx;
  tm_status : ST B TmError TmStatus;
  tm_block_by_hash : bytes → ST B TmError (option TmBlock);
  tm_block : N → ST B TmError TmBlock;                                        (* the height is a [u32] *)
  tm_block_search : TmQuery → N → N → TmOrder → ST B TmError (list TmBlock);   (* page, blocks per page *)
}.
Class ChainCrypto := {
  tx_sha256 : bytes → bytes;
  base64_standard_decode : bytes → outcome string bytes;
}.

Definition abci_transport_error (details : string) : ManyError :=
  attribute_specific 1001 1 "ABCI interface returned an error: {details}." [("details", details)].
Definition unknown_block : ManyError :=
  attribute_specific 1 3 "Requested block query does not match any block." [].

Definition MAXIMUM_BLOCK_COUNT : N := 100.
Definition DEFAULT_BLOCK_LIST_QUERY : TmQuery := [HeightGte 0].

Section chain.
Context `{ChainCrypto, Hex, Minicbor, Base32, Crc16, Clock, Coset} {B : Type} `{!TendermintRpc B}.
Abbreviation ChainM A := (ST B ManyError A).

Definition _many_block_from_tendermint_block (block : TmBlock) : outcome ManyError Block :=
  let height := tmb_height block in
  parent ← (if height <=? 1 then Ok genesis_identifier
            else match tmb_last_block_id block with
                 | Some h => Ok (mkBlockIdentifier h (height - 1))
                 | None => Panic "called `Option::unwrap()` on a `None` value"
                 end);
  timestamp ← (if (tmb_time block <? 0)%Z then Panic "called `Result::unwrap()` on an `Err` value"
               else Ok (Z.to_N (tmb_time block / 1000000000)));
  Ok (mkBlock (mkBlockIdentifier (tmb_hash block) height) parent (Some (tmb_app_hash block)) timestamp
        (N.of_nat (length (tmb_data block)))
        (map (λ x, mkTransaction (mkTransactionIdentifier (tx_sha256 x)) None None) (tmb_data block))).
Fixpoint many_blocks (l : list TmBlock) : outcome ManyError (list Block) :=
  match l with
  | [] => Ok []
  | x :: l => b ← _many_block_from_tendermint_block x; r ← many_blocks l; Ok (b :: r)
  end.

Definition _tm_order_from_many_order (o : SortOrder) : TmOrder :=
  match o with Ascending => TmAscending | Descending => TmDescending | Indeterminate => TmAscending end.
Definition _tm_query_from_many_filter (f : RangeBlockQuery) : outcome ManyError TmQuery :=
  query ← match f with
          | RangeHeight r =>
              Ok (match start r with Included x => [HeightGte x] | Excluded x => [HeightGt x] | Unbounded => [] end
                  ++ match end_ r with Included x => [HeightLte x] | Excluded x => [HeightLt x] | Unbounded => [] end)
          | RangeTime _ => Err (unknown "Unimplemented")
          end;
  Ok (match query with [] => DEFAULT_BLOCK_LIST_QUERY | _ => query end).

(** The transaction and its result; [None] when the hash is not found. *)
Definition chain_tx (q : SingleTransactionQuery) : ChainM (option (bytes * bytes)) :=
  match q with
  | TransactionHash h =>
      if bool_decide (length h = 32%nat) then λ w,
        let '(w, r) := tm_tx h w in
        (w, match r with
            | Ok t =>
                l ← map_err abci_transport_error (base64_standard_decode (tmt_data t));
                Ok (Some (tmt_tx t, l))
            | Err (TmResponse _) => Ok None
            | Err (TmTransport e) => Err (abci_transport_error e)
            | Panic t => Panic t
            | OutOfFuel => OutOfFuel
            end)
      else fails (unknown ("Invalid transaction hash x'" +:+ hex_encode h +:+ "'."))
  end.

Definition async_status (token : bytes) : ChainM StatusReturn :=
  r ← chain_tx (TransactionHash token);
  match r with
  | None => mret StatusUnknown
  | Some (_, result) =>
      response ← lift (map_err abci_transport_error (response_from_bytes result));
      e ← lift (map_err (λ err, abci_transport_error (ManyError_to_string err))
                  (encode_cose_sign1_from_response response AnonymousIdentity));
      mret (StatusDone e)
  end.

(** [.map_err(|e| abci_transport_error(e.to_string()))]. *)
Definition rpc {A} (m : ST B TmError A) : ChainM A := st_map_err (λ e, abci_transport_error (tm_error_to_string e)) m.

Definition blockchain_info : ChainM BlockchainInfoReturns :=
  status ← rpc tm_status;
  mret (mkBlockchainInfo (mkBlockIdentifier (tms_block_hash status) (tms_block_height status))
          (Some (tms_app_hash status)) None).
Definition blockchain_transaction (q : SingleTransactionQuery) : ChainM Transaction :=
  match q with
  | TransactionHash h =>
      if bool_decide (length h = 32%nat) then
        t ← rpc (tm_tx h);
        mret (mkTransaction (mkTransactionIdentifier (tmt_hash t)) None None)
      else fails (unknown "Invalid transaction hash .")
  end.
Definition blockchain_block (q : SingleBlockQuery) : ChainM Block :=
  block ← match q with
          | BlockHash h =>
              if bool_decide (length h = 32%nat) then rpc (tm_block_by_hash h)
              else fails (unknown "Invalid hash length.")
          | BlockHeight height => x ← rpc (tm_block (wrap32 height)); mret (Some x)
          end;
  match block with
  | Some block => lift (_many_block_from_tendermint_block block)
  | None => fails unknown_block
  end.

(** The number of pages, and of blocks in a page. *)
Definition list_pages (count : N) : outcome ManyError (N * N) :=
  if 255 <? count then
    let pages := (count + 254) / 255 in
    if U32_MAX <? pages then Err (unknown "Unable to cast u64 to u32") else Ok (pages, 255)
  else Ok (1, count mod 256).
Definition blockchain_list (args : BlockListArgs) : ChainM BlockListReturns :=
  let count := default MAXIMUM_BLOCK_COUNT (N.min MAXIMUM_BLOCK_COUNT <$> bla_count args) in
  pages ← lift (list_pages count);
  let order := default TmAscending (_tm_order_from_many_order <$> bla_order args) in
  query ← lift match bla_filter args with
               | Some f => _tm_query_from_many_filter f
               | None => Ok DEFAULT_BLOCK_LIST_QUERY
               end;
  ((λ w,
    let '(w, status) := tm_status w in
    let '(w, block) := tm_block_search query pages.1 pages.2 order w in
    (w, found ← map_err (λ e, unknown (tm_error_to_string e)) block;
        blocks ← many_blocks found;
        st ← map_err (λ e, unknown (tm_error_to_string e)) status;
        Ok (mkBlockListReturns (tms_block_height st) blocks))) : ChainM BlockListReturns).

Definition blockchain_request (q : SingleTransactionQuery) : ChainM bytes :=
  r ← chain_tx q;
  r ← lift (ok_or r (unknown "Hash not found."));
  mret r.1.
Definition blockchain_response (q : SingleTransactionQuery) : ChainM bytes :=
  r ← chain_tx q;
  r ← lift (ok_or r (unknown "Hash not found."));
  response ← lift (map_err deserialization_error (response_from_bytes r.2));
  e ← lift (encode_cose_sign1_from_response response AnonymousIdentity);
  lift (map_err serialization_error (cose_to_vec e)).

(** ** Endpoints *)

Context `{!Cbor BlockchainInfoReturns, !Cbor SingleBlockQuery, !Cbor Block, !Cbor SingleTransactionQuery}.
Context `{!Cbor Transaction, !Cbor BlockListArgs, !Cbor BlockListReturns, !Cbor bytes, !Cbor StatusReturn}.

(** [&self] methods whose answers come from Tendermint. *)
Definition remote {Arg Ret} `{!Cbor Arg, !Cbor Ret} (name : string) (f : Arg → ChainM Ret) : Endpoint B :=
  mkEndpoint name false false false false (decodes Arg) (λ m, args ← lift (argument m); encoded (f args)).
Definition remote_none {Ret} `{!Cbor Ret} (name : string) (f : ChainM Ret) : Endpoint B :=
  mkEndpoint name false false false false (λ _, Ok tt) (λ _, encoded f).
Definition blockchain_endpoints : list (Endpoint B) := [
  remote_none "blockchain.info" blockchain_info;
  remote "blockchain.block" blockchain_block;
  remote "blockchain.transaction" blockchain_transaction;
  remote "blockchain.list" blockchain_list;
  remote "blockchain.request" blockchain_request;
  remote "blockchain.response" blockchain_response
].
Definition async_endpoints : list (Endpoint B) := [remote "async.status" async_status].
End chain.
