(* ===== verification/BlockchainLaws.v ===== *)
(** * many-abci: what the blockchain and async modules answer

    Theorems about [Blockchain.v]: the queries and statuses are read back from their CBOR; a list asks
    Tendermint for exactly the heights of the range; a height is cut to 32 bits; and the result of a
    delivered transaction reaches the client that asks for its token. *)
From S2P Require Import Prelude Error ErrorDisplay External Address Types Account Events Migration.
From S2P Require Import Cose Wire WireLaws Protocol ProtocolLaws ProofOps Server Endpoints.
From S2P Require Import AbciBridge AbciBridgeLaws Blockchain.

#[local] Open Scope string_scope.
#[local] Open Scope list_scope.
#[local] Open Scope N_scope.

(** ** CBOR *)

Section codec_laws.
Context `{Minicbor, !MinicborSkip}.

Definition bound_ok {T} (P : T → Prop) (x : Bound T) : Prop :=
  match x with Included v | Excluded v => P v | Unbounded => True end.
Definition range_ok {T} (P : T → Prop) (r : CborRange T) : Prop := bound_ok P (start r) ∧ bound_ok P (end_ r).

Lemma bound_decode_ok {T} (d : Dec T) enc x :
  bound_ok (λ v, reads_back d (enc v) v) x → reads_back (bound_decode d) (bound_encode enc x) x.
Proof.
  intros Hx rest. destruct x as [v|v|]; [..|done]; unfold bound_decode, bound_encode, d_array; cbn [app].
  all: erewrite d_read_ok by done; cbn beta iota.
  1: rewrite (dec_bind_ok d_u32 _ _ 0 (enc v ++ rest)) by done.
  2: rewrite (dec_bind_ok d_u32 _ _ 1 (enc v ++ rest)) by done.
  all: cbn beta iota; by rewrite (dec_bind_ok _ _ _ _ _ (Hx rest)).
Qed.

(** The entries of a range: those of its bounds that are there. *)
Definition range_entries_of {T} (r : CborRange T) : list (N * Bound T) :=
  match start r, end_ r with
  | Unbounded, Unbounded => []
  | st, Unbounded => [(0, st)]
  | Unbounded, en => [(1, en)]
  | st, en => [(0, st); (1, en)]
  end.
Lemma range_encode_entries {T} (enc : T → list Token) r :
  range_encode enc r = TkMap (Some (N.of_nat (length (range_entries_of r))))
    :: concat (map (λ kv, TkInt (Z.of_N kv.1) :: bound_encode enc kv.2) (range_entries_of r)).
Proof.
  destruct r as [[s|s|] [e|e|]]; unfold range_encode, range_entries_of; cbn [start end_ length map concat fst snd];
    by rewrite ?app_nil_r, <-?app_assoc.
Qed.
Lemma range_decode_ok {T} (d : Dec T) enc r :
  range_ok (λ v, reads_back d (enc v) v) r → reads_back (range_decode d) (range_encode enc r) r.
Proof.
  intros [Hs He] rest. rewrite range_encode_entries. unfold range_decode, d_map. cbn [app].
  erewrite d_read_ok by done.
  rewrite (dec_bind_ok _ _ _ (range_entries_of r) rest).
  - by destruct r as [[] []].
  - apply d_all_ok; [|by apply Forall_true].
    assert (∀ k x, k < 256 → bound_ok (λ v, reads_back d (enc v) v) x →
      reads_back (d_pair d_u8 (bound_decode d)) (TkInt (Z.of_N k) :: bound_encode enc x) (k, x)) as Hp.
    { intros k x Hk Hx. apply (d_pair_ok _ _ [TkInt (Z.of_N k)]); [|by apply bound_decode_ok].
      intros ts. apply d_unsigned_ok. lia. }
    destruct r as [[] []]; repeat constructor; by apply Hp.
Qed.

Lemma block_query_decode_ok q :
  (if q is BlockHeight n then n < 2 ^ 64 else True) → reads_back block_query_decode (block_query_encode q) q.
Proof.
  intros Hq rest. destruct q as [h|n]; [done|]. unfold block_query_decode, block_query_encode, d_map. cbn [app].
  erewrite d_read_ok by done. cbn beta iota. rewrite (dec_bind_ok d_u8 _ _ 1 (TkInt (Z.of_N n) :: rest)) by done.
  cbn beta iota. by rewrite (dec_bind_ok d_u64 _ _ n rest) by (apply d_unsigned_ok; lia).
Qed.
Lemma transaction_query_decode_ok q : reads_back transaction_query_decode (transaction_query_encode q) q.
Proof. by destruct q. Qed.
Definition range_query_ok (q : RangeBlockQuery) : Prop :=
  match q with RangeHeight r | RangeTime r => range_ok (λ n, n < 2 ^ 64) r end.
Lemma range_ok_impl {T} (P Q : T → Prop) r : range_ok P r → (∀ x, P x → Q x) → range_ok Q r.
Proof. destruct r as [[] []]; unfold range_ok; simpl; naive_solver. Qed.
Lemma range_query_decode_ok q : range_query_ok q → reads_back range_query_decode (range_query_encode q) q.
Proof.
  intros Hq rest. destruct q as [r|r]; unfold range_query_decode, range_query_encode, d_map; rewrite <-app_assoc; cbn [app].
  all: erewrite d_read_ok by done; cbn beta iota.
  1: rewrite (dec_bind_ok d_u8 _ _ 1 (range_encode uint_encode r ++ rest)) by done.
  2: rewrite (dec_bind_ok d_u8 _ _ 2 (range_encode timestamp_encode r ++ rest)) by done.
  all: cbn beta iota; erewrite dec_bind_ok; [done|]; apply range_decode_ok; (eapply range_ok_impl; [exact Hq|]); intros n Hn.
  - intros ts. apply d_unsigned_ok. simpl in Hn. lia.
  - by apply timestamp_decode_ok.
Qed.
End codec_laws.

Section status_laws.
Context `{Minicbor, Base32, Crc16, Clock, Coset}.

(** An envelope that a status can carry: its bytes are read back as [e'], which holds a response. *)
Definition carried (e e' : CoseSign1) : Prop :=
  ∃ l p r, cose_to_vec e = Ok l ∧ cose_from_slice l = Ok e' ∧ cose_payload e' = Some p ∧ response_from_bytes p = Ok r.

Lemma status_entry_kind acc k rest :
  k < 256 → status_entry acc (TkInt 0 :: TkInt (Z.of_N k) :: rest) = Ok ((Some k, acc.2), rest).
Proof.
  intros Hk. unfold status_entry. rewrite d_peek. change (0 <=? 0)%Z with true. cbn beta iota.
  rewrite (dec_bind_ok d_u8 _ _ 0 (TkInt (Z.of_N k) :: rest)) by done. cbn beta iota.
  by rewrite (dec_bind_ok d_u8 _ _ k rest) by (apply d_unsigned_ok; lia).
Qed.
Lemma status_entry_response acc l rest :
  status_entry acc (TkInt 1 :: TkBytes l :: rest) = Ok ((acc.1, Some l), rest).
Proof. done. Qed.

(** What the entries of a status are read into, then its kind and response. *)
Lemma status_decode_entries es k o rest :
  Forall (entry_ok status_entry) es → es ≠ [] → foldl (λ x e, e.2 x) (None, None) es = (Some k, o) →
  status_decode (TkMap (Some (N.of_nat (length es))) :: concat es.*1 ++ rest)
  = (response ← d_lift match o with Some l => e ← response_envelope l; Ok (Some e) | None => Ok None end;
     d_lift (ok_or (status_from_kind k response) "Invalid variant or result.")) rest.
Proof.
  intros Hes Hne Hf. unfold status_decode.
  rewrite (dec_bind_ok _ _ _ _ _ (d_struct_ok status_entry es (None, None) rest Hes Hne)), Hf. done.
Qed.
Definition kind_entry (k : N) : list Token * (option N * option bytes → option N * option bytes) :=
  ([TkInt 0; TkInt (Z.of_N k)], λ acc, (Some k, acc.2)).
Definition response_entry_of (l : bytes) : list Token * (option N * option bytes → option N * option bytes) :=
  ([TkInt 1; TkBytes l], λ acc, (acc.1, Some l)).
Lemma kind_entry_ok k : k < 256 → entry_ok status_entry (kind_entry k).
Proof. intros Hk. split; [by eexists _, _|]. intros acc rest. by apply status_entry_kind. Qed.
Lemma response_entry_of_ok l : entry_ok status_entry (response_entry_of l).
Proof. split; [by eexists _, _|done]. Qed.

(** A finished status is read back with the envelope as it arrives. *)
Lemma status_done_decode_ok e e' :
  carried e e' → ∃ ts, status_encode (StatusDone e) = Ok ts ∧ reads_back status_decode ts (StatusDone e').
Proof.
  intros (l & p & r & Hl & Hl' & Hp & Hr). cbn [status_encode status_variant]. rewrite Hl. eexists. split; [done|].
  intros rest.
  etrans; [refine (status_decode_entries [response_entry_of l; kind_entry 3] 3 (Some l) rest _ _ _); [|done..]|].
  - repeat constructor; [apply response_entry_of_ok|by apply kind_entry_ok].
  - unfold response_envelope, d_lift, mbind, dec_bind. rewrite Hl'. cbn [outcome_bind]. rewrite Hp.
    cbn [ok_or outcome_bind]. by rewrite Hr.
Qed.
End status_laws.

(** ** Lists and heights *)

Section chain_laws.
Context `{ChainCrypto, Hex, Minicbor, Base32, Crc16, Clock, Coset} {B : Type} `{!TendermintRpc B}.
Implicit Types w : B.

(** What a query means for the height of a block. *)
Definition condition_holds (h : N) (c : TmCondition) : bool :=
  match c with
  | HeightGte n => n <=? h
  | HeightGt n => n <? h
  | HeightLte n => h <=? n
  | HeightLt n => h <? n
  end.
Definition query_holds (q : TmQuery) (h : N) : bool := forallb (condition_holds h) q.

Lemma tm_query_exact r q h :
  _tm_query_from_many_filter (RangeHeight r) = Ok q → query_holds q h = range_contains N.leb r h.
Proof.
  unfold _tm_query_from_many_filter. cbn [mbind outcome_bind]. intros [= <-].
  destruct r as [[s|s|] [e|e|]]; unfold query_holds, range_contains; cbn [app forallb condition_holds start end_];
    rewrite ?andb_true_r, ?N.ltb_antisym; try done. by destruct h.
Qed.

(** The heights that a list is about. *)
Definition wanted (f : option RangeBlockQuery) (h : N) : bool :=
  match f with
  | Some (RangeHeight r) => range_contains N.leb r h
  | _ => true
  end.

(** A block as the client sees it. *)
Definition translates (x : TmBlock) (y : Block) : Prop :=
  blk_id y = mkBlockIdentifier (tmb_hash x) (tmb_height x)
  ∧ blk_parent y = (if tmb_height x <=? 1 then genesis_identifier
                    else mkBlockIdentifier (default [] (tmb_last_block_id x)) (tmb_height x - 1))
  ∧ blk_app_hash y = Some (tmb_app_hash x) ∧ Z.of_N (blk_timestamp y) = (tmb_time x / 1000000000)%Z
  ∧ blk_txs_count y = N.of_nat (length (blk_txs y))
  ∧ map (λ t, tid_hash (txn_id t)) (blk_txs y) = map tx_sha256 (tmb_data x).
(** Blocks that a chain has: all but the first have a parent, and none is before the epoch. *)
Definition chain_block (x : TmBlock) : Prop :=
  (1 < tmb_height x → is_Some (tmb_last_block_id x)) ∧ (0 <= tmb_time x)%Z.

Lemma block_translates x :
  chain_block x → ∃ y, _many_block_from_tendermint_block x = Ok y ∧ translates x y.
Proof.
  intros [Hp Ht]. unfold _many_block_from_tendermint_block, translates.
  destruct (Z.ltb_spec (tmb_time x) 0); [lia|].
  assert (0 <= tmb_time x / 1000000000)%Z by (apply Z.div_pos; lia).
  destruct (N.leb_spec (tmb_height x) 1) as [Hh|Hh]; cbn [mbind outcome_bind].
  2: destruct (Hp Hh) as [h ->]; cbn [mbind outcome_bind].
  all: eexists; split; [done|]; cbn [blk_id blk_parent blk_app_hash blk_timestamp blk_txs_count blk_txs];
    rewrite map_map, length_map, Z2N.id by done; done.
Qed.
Lemma many_blocks_ok l : Forall chain_block l → ∃ bs, many_blocks l = Ok bs ∧ Forall2 translates l bs.
Proof.
  induction 1 as [|x l Hx _ (bs & IH & Hbs)]; [by exists []|]. destruct (block_translates x Hx) as (y & Hy & Hxy).
  exists (y :: bs). cbn [many_blocks]. rewrite Hy. cbn [mbind outcome_bind]. rewrite IH. split; [done|]. by constructor.
Qed.

Lemma list_pages_small c : c ≤ 100 → list_pages c = Ok (1, c).
Proof. intros Hc. unfold list_pages. destruct (N.ltb_spec 255 c); [lia|]. by rewrite N.mod_small by lia. Qed.
Lemma blockchain_list_run args q w :
  match bla_filter args with Some f => _tm_query_from_many_filter f | None => Ok DEFAULT_BLOCK_LIST_QUERY end = Ok q →
  blockchain_list args w =
    let count := default 100 (N.min 100 <$> bla_count args) in
    let order := match bla_order args with Some Descending => TmDescending | _ => TmAscending end in
    let '(w1, status) := tm_status w in
    let '(w2, found) := tm_block_search q 1 count order w1 in
    (w2, found ← map_err (λ e, unknown (tm_error_to_string e)) found;
         blocks ← many_blocks found;
         st ← map_err (λ e, unknown (tm_error_to_string e)) status;
         Ok (mkBlockListReturns (tms_block_height st) blocks)).
Proof.
  intros Hq. unfold blockchain_list. change MAXIMUM_BLOCK_COUNT with 100.
  rewrite list_pages_small by (destruct (bla_count args); simpl; lia).
  rewrite Hq. destruct (bla_order args) as [[]|]; done.
Qed.

(** The one search that a list makes, and its answer. *)
Definition lists_by (q : TmQuery) args w : Prop :=
  let count := default 100 (N.min 100 <$> bla_count args) in
  let order := match bla_order args with Some Descending => TmDescending | _ => TmAscending end in
  let '(w1, status) := tm_status w in
  let '(w2, found) := tm_block_search q 1 count order w1 in
  (blockchain_list args w).1 = w2
  ∧ ∀ l st, found = Ok l → status = Ok st → Forall chain_block l →
      ∃ blocks, (blockchain_list args w).2 = Ok (mkBlockListReturns (tms_block_height st) blocks)
        ∧ Forall2 translates l blocks.
Lemma blockchain_list_by args q w :
  match bla_filter args with Some f => _tm_query_from_many_filter f | None => Ok DEFAULT_BLOCK_LIST_QUERY end = Ok q →
  lists_by q args w.
Proof.
  intros Hq. unfold lists_by. rewrite (blockchain_list_run _ q) by done. cbv zeta.
  destruct (tm_status w) as [w1 status]. destruct (tm_block_search _ _ _ _ w1) as [w2 found]. split; [done|].
  intros l st -> -> Hl. destruct (many_blocks_ok l Hl) as (bs & Hbs & Ht). exists bs. split; [|done].
  cbn [snd map_err mbind outcome_bind]. by rewrite Hbs.
Qed.

(** A list of blocks by heights asks Tendermint once, for the first page, in the order asked for, with at
    most a hundred blocks and no more than the client wants, by a query that holds for exactly the heights in the range; and gives
    back the blocks found, each with its hashes, its parent, its time in seconds and the hashes of its transactions,
    and the height of the chain. A list by times is refused. *)
Theorem blockchain_list_spec args w :
  match bla_filter args with
  | Some (RangeTime _) => blockchain_list args w = (w, Err (unknown "Unimplemented"))
  | f => ∃ q, (∀ h, query_holds q h = wanted f h) ∧ lists_by q args w
  end.
Proof.
  destruct (bla_filter args) as [[r|r]|] eqn:Hf.
  - destruct (_tm_query_from_many_filter (RangeHeight r)) as [q| | |] eqn:Hq; try done. exists q. split.
    + intros h. by apply tm_query_exact.
    + apply blockchain_list_by. by rewrite Hf.
  - unfold blockchain_list. change MAXIMUM_BLOCK_COUNT with 100.
    rewrite list_pages_small by (destruct (bla_count args); simpl; lia). by rewrite Hf.
  - exists DEFAULT_BLOCK_LIST_QUERY. split; [by intros []|]. apply blockchain_list_by. by rewrite Hf.
Qed.

(** A query for the block at a height is cut to 32 bits before it is sent: above 2^32 it answers with a block
    at another height, without an error. *)
Theorem block_height_truncated h x w w' :
  2 ^ 32 ≤ h → tm_block (h mod 2 ^ 32) w = (w', Ok x) → tmb_height x = h mod 2 ^ 32 → chain_block x →
  ∃ y, blockchain_block (BlockHeight h) w = (w', Ok y) ∧ bid_height (blk_id y) ≠ h.
Proof.
  intros Hh Hb Hx Hc. destruct (block_translates x Hc) as (y & Hy & Hid & _). exists y.
  unfold blockchain_block, rpc, st_map_err, mbind, st_bind, wrap32. rewrite Hb. cbn [map_err]. unfold mret, st_ret, lift.
  rewrite Hy. split; [done|]. rewrite Hid. cbn [bid_height]. rewrite Hx. assert (h mod 2 ^ 32 < 2 ^ 32) by (by apply N.mod_upper_bound). lia.
Qed.
End chain_laws.

(** ** The result of a transaction *)

Section delivery.
Context `{ChainCrypto, Hex, Minicbor, Base32, Crc16, Coset} `{!MinicborLaws, !CosetTransport} {clk : Clock}.
Context {V B C : Type} `{!RequestValidator V, !Http B, !TendermintRpc C}.

(** The response that [deliver_tx] puts into the chain. *)
Definition agreed (legacy : bool) (r : ResponseMessage) : ResponseMessage :=
  mkResponse None ANONYMOUS (if sent_address (resp_to r) then resp_to r else None) (legacy_data legacy (resp_data r))
    (Some EPOCH) None (resp_attributes r).

Lemma agreed_wf legacy r : response_wf r → response_wf (agreed legacy r).
Proof.
  intros [Hd Ht Hi Ha]. split; [|done..]. unfold agreed, legacy_data. cbn [resp_data].
  destruct (resp_data r) as [d|e| |]; try done. by destruct (legacy && is_attribute_specific (code e)).
Qed.
Lemma agreed_received legacy r : response_received (agreed legacy r) (resp_attributes r) = agreed legacy r.
Proof.
  unfold response_received, agreed. cbn [resp_from resp_to resp_data resp_timestamp default].
  by destruct (resp_to r) as [a|]; [destruct (sent_address (Some a)) eqn:Ha; rewrite ?Ha|].
Qed.
Lemma agreed_roundtrip legacy r :
  response_wf r → Forall token_fits (response_encode (agreed legacy r)) →
  response_from_bytes (response_to_bytes (agreed legacy r)) = Ok (agreed legacy r).
Proof.
  intros Hr Hf. unfold response_from_bytes, response_to_bytes.
  rewrite decode_tokens_ok, response_decode_ok by (try done; by apply agreed_wf).
  cbn [resp_attributes agreed]. f_equal. apply agreed_received.
Qed.

(** What the anonymous verifier makes of an envelope with a payload only, on the way or after it. *)
Lemma anonymous_opens p e' r :
  same_envelope (cose_of_payload p) e' → response_from_bytes p = Ok r →
  resp_from r = ANONYMOUS → decode_and_verify e' AnonymousVerifier = Ok r.
Proof.
  intros [Hh Hp Hs _] Hr Ha. unfold decode_and_verify.
  assert (AnonymousVerifier e' = Ok ANONYMOUS) as ->.
  { unfold AnonymousVerifier, cose_key_id. rewrite Hh, Hs. done. }
  cbn [mbind outcome_bind]. assert (is_illegal ANONYMOUS = false) as -> by done.
  rewrite Hp. cbn [cose_payload cose_of_payload ok_or mbind outcome_bind]. rewrite Hr.
  cbn [map_err mbind outcome_bind]. by rewrite Ha.
Qed.

(** C16: When the backend answers a transaction with [r], a response without an id, and Tendermint gives the
    result of that transaction back under the token of the client, [async.status] is [Done] with an envelope that
    the client accepts, and in it the data and attributes of [r] (errors with their legacy code, where it
    applies). The status encodes, and the client decodes it as [Done] with an envelope that has the same header,
    payload and signature, which it accepts with the same response in it. *)
Theorem async_result_delivery (a : AbciApp V) (w : B) tx cose r resp hash (c c' : C) t :
  let legacy := is_active (app_migrations a) LegacyErrorCode in
  cose_from_slice tx = Ok cose → node_answers clk a w cose r →
  (deliver_tx tx (a, w)).2 = Ok resp → Forall token_fits (response_encode (agreed legacy r)) →
  length hash = 32%nat → tm_tx hash c = (c', Ok t) → base64_standard_decode (tmt_data t) = Ok (abci_data resp) →
  ∃ e, async_status hash c = (c', Ok (StatusDone e))
    ∧ decode_and_verify e AnonymousVerifier = Ok (agreed legacy r)
    ∧ ∃ ts e', status_encode (StatusDone e) = Ok ts ∧ reads_back status_decode ts (StatusDone e')
        ∧ same_envelope e e' ∧ decode_and_verify e' AnonymousVerifier = Ok (agreed legacy r).
Proof.
  intros legacy Htx Hn Hd Hf Hh Ht Hb. rewrite (deliver_tx_result clk a w tx cose r Htx Hn) in Hd.
  injection Hd as <-. cbn [abci_data] in Hb.
  change (delivered _ _ _ _) with (response_to_bytes (agreed legacy r)) in Hb.
  pose proof (agreed_roundtrip legacy r (node_wf _ _ _ _ _ Hn) Hf) as Hr. set (p := response_to_bytes _) in *.
  exists (cose_of_payload p). split_and!.
  - unfold async_status, chain_tx. rewrite bool_decide_true by done. unfold mbind at 1, st_bind at 1. rewrite Ht, Hb.
    cbn [map_err mbind outcome_bind]. unfold mbind, st_bind, lift. rewrite Hr. done.
  - by apply (anonymous_opens p).
  - destruct (slice_transport _ (payload_plain p)) as (l & e' & Hl & Hl' & Hs).
    destruct (status_done_decode_ok (cose_of_payload p) e') as (ts & Hts & Hback).
    { exists l, p, (agreed legacy r). split_and!; [done..| |done]. by rewrite (same_payload _ _ Hs). }
    exists ts, e'. split_and!; [done..|]. by apply (anonymous_opens p).
Qed.
End delivery.
