(* ===== verification/FrontServer.v ===== *)
(** * many-abci: the server in front of the chain

    Models how [many-abci/src/main.rs] puts the MANY server in front of a chain together: the base module, the
    modules [blockchain] and [async] on a client of Tendermint behind a lock, the ABCI backend as the fallback, which has
    a client of its own, and the cache of messages, which is asked but not told. The base module is a
    parameter, as in [LedgerServer]. *)
From S2P Require Import Prelude Error ErrorDisplay External Address Types Account Events Migration.
From S2P Require Import Cose Wire WireLaws Protocol ProtocolLaws ProofOps BaseStatus Server ServerLaws Endpoints EndpointLaws.
From S2P Require Import AbciBridge AbciBridgeLaws Blockchain.

#[local] Open Scope string_scope.
#[local] Open Scope list_scope.
#[local] Open Scope N_scope.

(** A call that does not take the lock. *)
Definition unguarded {B E A} (m : ST B E A) : ST (Mutex B) E A := λ w,
  let '(x, r) := m (guarded w) in (mkMutex x (mutex_poisoned w), r).

Section front.
Context `{ChainCrypto, Hex, Minicbor, Base32, Crc16, Clock, Coset} {B : Type} `{!TendermintRpc B, !Tendermint B}.
Context `{!Cbor BlockchainInfoReturns, !Cbor SingleBlockQuery, !Cbor Block, !Cbor SingleTransactionQuery}.
Context `{!Cbor Transaction, !Cbor BlockListArgs, !Cbor BlockListReturns, !Cbor bytes, !Cbor StatusReturn}.
Context {C : Type} `{!RequestValidator C}.
Implicit Types (f : AbciModuleMany) (base : ManyModule (Mutex B)).

Definition front_fallback f : ManyServerFallback (Mutex B) :=
  let fb : ManyServerFallback B := frontend_fallback f in
  mkFallback _ (λ e, unguarded (fallback_execute fb e)) (λ w, fallback_endpoints fb (guarded w))
    (λ w, fallback_status fb (guarded w)).
Definition front_modules base : list (ManyModule (Mutex B)) :=
  [base; many_module "BlockchainModule" (Some 1) blockchain_endpoints; many_module "AsyncModule" (Some 8) async_endpoints].
Definition front_server f base (cache : C) :
    outcome ManyError (ManyServer (Mutex B) (unit * ValidateOnlyRequestValidator C)) :=
  let key := frontend_identity f in
  let s := server_new ("AbciModule(" +:+ st_name (backend_status f) +:+ ")") key (verify_tuple (frontend_verifiers f))
             (public_key key) in
  s ← add_modules s (front_modules base);
  Ok (add_validator (set_fallback_module s (front_fallback f)) (ValidateOnly cache)).

(** What the base module is to the others. *)
Record front_base_ok base : Prop := {
  front_base_endpoints : module_endpoints base = ["endpoints"; "heartbeat"; "status"];
  front_base_attribute : info_attribute (module_info base) = Some (attribute_id 0);
}.

Definition front_methods : list string :=
  ["endpoints"; "heartbeat"; "status"; "blockchain.info"; "blockchain.block"; "blockchain.transaction"; "blockchain.list";
   "blockchain.request"; "blockchain.response"; "async.status"].

(** The server in front of the chain is put together without a conflict between its modules. It offers its own
    methods and those of the backend, and its own win where a method is on both sides; its status has its own
    address, key and version, the name of the backend, and the attributes of its modules and of the backend, except
    that of the ABCI module, which stays behind it. *)
Theorem front_server_spec f base cache w :
  front_base_ok base →
  ∃ s, front_server f base cache = Ok s
    ∧ server_endpoints s w = Ok (list_to_set front_methods ∪ dom (backend_endpoints f))
    ∧ (∀ m, req_method m ∈ front_methods ↔ is_Some (find_module s m))
    ∧ ∃ attributes,
        server_status s w = Ok (mkStatus 1 ("AbciModule(" +:+ st_name (backend_status f) +:+ ")")
          (public_key (frontend_identity f)) (identity_address (frontend_identity f)) attributes (Some ABCI_PKG_VERSION)
          (Some MANYSERVER_DEFAULT_TIMEOUT) ∅)
        ∧ ∀ a, a ∈ attributes ↔ a ∈ map attribute_id [0; 1; 8]
                                ∨ a ∈ st_attributes (backend_status f) ∧ attr_id a ≠ 1000.
Proof.
  intros [He Ha]. unfold front_server. set (s0 := server_new _ _ _ _).
  assert (concat (map module_endpoints (front_modules base)) = front_methods) as Hm.
  { cbn [front_modules map concat]. by rewrite He. }
  assert (omap module_attribute_id (front_modules base) = [0; 1; 8]) as Hat.
  { cbn [front_modules omap list_omap]. unfold module_attribute_id at 1. rewrite Ha. done. }
  destruct (add_modules_ok (front_modules base) s0) as (s & -> & [Hc Hu _] & Hms & Hi & _ & _ & Ht & _ & _ & Hk & Hn & Hv).
  { split; cbn; [set_solver|..]; intros i j m m' e; by rewrite lookup_nil. }
  { cbn [s0 server_new modules app]. rewrite Hm. decided. }
  { cbn [s0 server_new modules app]. rewrite Hat. decided. }
  assert (∀ e, e ∈ method_cache s ↔ e ∈ front_methods) as Hcache.
  { intros e. rewrite Hc, <-Hm, Hms. cbn [s0 server_new modules app]. rewrite list_elem_of_In, in_concat.
    setoid_rewrite in_map_iff. setoid_rewrite list_elem_of_In. split; [intros (m & Hin & Hme)|intros (l & (m & <- & Hin) & Hme)]; eauto 6. }
  eexists. split; [done|]. split_and!.
  - cbn [server_endpoints fallback add_validator set_fallback_module front_fallback fallback_endpoints frontend_fallback].
    cbn [mbind outcome_bind method_cache]. do 2 f_equal. apply set_eq. intros e. rewrite Hcache. set_solver.
  - intros m. unfold find_module. cbn [modules add_validator set_fallback_module]. rewrite <-Hcache, Hc.
    split.
    + intros (x & Hx & Hxm). destruct (List.find _ _) eqn:Hf; [done|]. rewrite find_none_iff in Hf.
      specialize (Hf x Hx). by rewrite bool_decide_eq_false in Hf.
    + intros [x Hx]. apply find_some in Hx as [Hin%list_elem_of_In Hx%bool_decide_eq_true]. eauto.
  - unfold server_status. cbn [fallback add_validator set_fallback_module front_fallback fallback_status frontend_fallback].
    cbn [mbind outcome_bind identity srv_version frontend_status st_identity st_version st_server_version st_name st_attributes st_extras].
    cbn [add_validator set_fallback_module identity srv_version srv_public_key timeout].
    rewrite Hi, Hv, Hk, Ht. cbn [s0 server_new identity srv_version srv_public_key timeout].
    rewrite bool_decide_true by done. rewrite andb_false_r.
    change (negb true || negb (1 =? 1) || false) with false. cbn beta iota. eexists. split; [done|]. intros a.
    rewrite elem_of_attributes_from_iter, elem_of_app, !elem_of_attributes_from_iter, list_elem_of_filter.
    unfold module_attributes. cbn [modules add_validator set_fallback_module]. rewrite Hms.
    cbn [s0 server_new modules app front_modules omap list_omap]. rewrite Ha. cbn [ABCI_MODULE_ATTRIBUTE attribute_id attr_id].
    cbn. naive_solver.
Qed.
End front.
