(* ===== verification/ValueWire.v ===== *)
(** * The CBOR of values inside arguments, events and filters

    Models the hand-written [Encode] and [Decode] instances of [many-types] for [AttributeRelatedIndex],
    [VecOrSingle], [Percent] and [SortOrder] ([lib.rs]), [TokenAmount] ([ledger.rs]), [Memo], [MemoLegacy] and
    [DataLegacy] ([memo.rs], [memo/legacy.rs]), [CborNull] and [Either] ([cbor.rs], [either.rs]); of
    [many-modules] for [Role] ([_9_account.rs]), [MultisigTransactionState], [TokenExtendedInfo] and
    [VisualTokenLogo] ([_11_ledger_tokens/extended_info.rs]); and of [many-error] for [Reason<u64>].

    The instances that [minicbor] has itself for [Option], [Vec], [BTreeMap] and [BTreeSet] are written out for the
    types that need them: [None] is a null, the others are a count and their items in order. *)
From S2P Require Import Prelude Error ErrorDisplay External Address Types Account Events.
From S2P Require Import Cose Wire WireLaws Protocol ProtocolLaws ProofOps Blockchain.

#[local] Open Scope string_scope.
#[local] Open Scope list_scope.
#[local] Open Scope N_scope.

(** An encoder with its decoder. *)
Record Codec (A : Type) : Type := mkCodec { c_encode : A → list Token; c_decode : Dec A }.
Arguments mkCodec {A} _ _.
Arguments c_encode {A} _ _.
Arguments c_decode {A} _ _.

Section library.
Context `{Minicbor}.

Definition u8_codec : Codec N := mkCodec uint_encode d_u8.
Definition u64_codec : Codec N := mkCodec uint_encode d_u64.
Definition bool_codec : Codec bool := mkCodec (λ x, [TkBool x]) d_bool.
Definition string_codec : Codec string := mkCodec (λ s, [TkString s]) d_str.
Definition bytes_codec : Codec bytes := mkCodec (λ l, [TkBytes l]) d_bytes.

Definition option_codec {A} (c : Codec A) : Codec (option A) := {|
  c_encode o := match o with Some x => c_encode c x | None => [TkNull] end;
  c_decode :=
    t ← d_datatype;
    match t with TkNull => d_skip;; mret None | _ => x ← c_decode c; mret (Some x) end;
|}.
Definition vec_codec {A} (c : Codec A) : Codec (list A) := {|
  c_encode l := TkArray (Some (N.of_nat (length l))) :: concat (map (c_encode c) l);
  c_decode := n ← d_array; d_all n (c_decode c);
|}.
(** A [BTreeMap] keyed by addresses. *)
Definition address_map_codec `{Base32, Crc16} {V} (c : Codec V) : Codec (gmap Address V) := {|
  c_encode m := TkMap (Some (N.of_nat (size m)))
    :: concat (map (λ kv, address_encode kv.1 ++ c_encode c kv.2) (btree_iter m));
  c_decode :=
    n ← d_map; l ← d_all n (d_pair address_decode (c_decode c));
    mret (foldl (λ m kv, <[kv.1 := kv.2]> m) ∅ l);
|}.
(** A [BTreeSet<Role>], in the order of the roles. *)
Definition role_set_codec (c : Codec Role) : Codec (gset Role) := {|
  c_encode s := c_encode (vec_codec c) (filter (λ r, r ∈ s) all_roles);
  c_decode := l ← c_decode (vec_codec c); mret (list_to_set l);
|}.
End library.

(** ** [AttributeRelatedIndex] *)

Section index.
Context `{Minicbor}.

(** The indices, by chunks of two. *)
Fixpoint indices_encode (l : list N) : list Token :=
  match l with
  | [] => []
  | [a] => uint_encode a
  | [a; c] => TkArray (Some 2) :: uint_encode a ++ uint_encode c
  | a :: c :: rest => TkArray (Some 2) :: uint_encode a ++ TkArray (Some 2) :: uint_encode c ++ indices_encode rest
  end.
Definition index_encode (x : AttributeRelatedIndex) : list Token :=
  match ix_indices x with
  | [] => uint_encode (ix_attribute x)
  | a => TkArray (Some 2) :: uint_encode (ix_attribute x) ++ indices_encode a
  end.

Definition is_unsigned (t : Token) : bool := match t with TkInt z => (0 <=? z)%Z | _ => false end.
Definition two_elements : Dec unit :=
  n ← d_array;
  match n with Some 2 => mret tt | _ => d_fail "Expected array of 2 elements" end.
(** The loop reads an index at every level of nesting. *)
Fixpoint indices_decode (fuel : nat) (x : AttributeRelatedIndex) : Dec AttributeRelatedIndex :=
  match fuel with
  | O => λ _, OutOfFuel
  | S fuel =>
      t ← d_datatype;
      match t with
      | TkArray (Some _) => two_elements;; i ← d_u32; indices_decode fuel (with_index x i)
      | _ => if is_unsigned t then i ← d_u32; mret (with_index x i) else d_fail (lib_error [t])
      end
  end.
Definition indices_all (x : AttributeRelatedIndex) : Dec AttributeRelatedIndex := λ ts,
  indices_decode (S (length ts)) x ts.
Definition index_decode : Dec AttributeRelatedIndex :=
  t ← d_datatype;
  match t with
  | TkArray (Some _) => two_elements;; a ← d_u32; indices_all (index_new a)
  | _ => if is_unsigned t then a ← d_u32; mret (index_new a) else d_fail (lib_error [t])
  end.
Definition index_codec : Codec AttributeRelatedIndex := mkCodec index_encode index_decode.

(** ** [VecOrSingle], [Percent], [SortOrder] *)

Definition vec_or_single_codec {A} (c : Codec A) : Codec (list A) := {|
  c_encode l := match l with [x] => c_encode c x | _ => c_encode (vec_codec c) l end;
  c_decode :=
    t ← d_datatype;
    match t with TkArray _ => c_decode (vec_codec c) | _ => x ← c_decode c; mret [x] end;
|}.

Definition percent_codec : Codec N := u64_codec.

Definition sort_order_codec : Codec SortOrder := {|
  c_encode o := uint_encode match o with Indeterminate => 0 | Ascending => 1 | Descending => 2 end;
  c_decode :=
    x ← d_u8;
    match x with
    | 0 => mret Indeterminate
    | 1 => mret Ascending
    | 2 => mret Descending
    | x => unknown_variant x
    end;
|}.

(** ** Amounts *)

Definition POS_BIGNUM_TAG : N := 2.
Definition amount_codec `{BigUintBytes} : Codec TokenAmount := {|
  c_encode a := if a <? 2 ^ 64 then uint_encode a else [TkTag POS_BIGNUM_TAG; TkBytes (to_bytes_be a)];
  c_decode :=
    t ← d_datatype;
    match t with
    | TkTag _ =>
        n ← d_tag;
        if negb (n =? POS_BIGNUM_TAG) then d_fail "Invalid tag." else l ← d_bytes; mret (from_bytes_be l)
    | _ => d_u64
    end;
|}.

(** ** Memos *)

Definition memo_inner_codec (M : N) : Codec MemoInner := {|
  c_encode i := match i with MemoString s => [TkString s] | MemoBytes l => [TkBytes l] end;
  c_decode :=
    t ← d_datatype;
    match t with
    | TkBytes _ => l ← d_bytes; d_lift (map_err ManyError_to_string (memo_inner_try_from M (MemoBytes l)))
    | TkString _ => s ← d_str; d_lift (map_err ManyError_to_string (memo_inner_try_from M (MemoString s)))
    | _ => d_fail (lib_error [t])
    end;
|}.
Definition memo_codec : Codec Memo := {|
  c_encode := c_encode (vec_codec (memo_inner_codec MEMO_DATA_DEFAULT_MAX_SIZE));
  c_decode :=
    l ← c_decode (vec_codec (memo_inner_codec MEMO_DATA_DEFAULT_MAX_SIZE));
    if bool_decide (l = []) then d_fail "Cannot build empty Memo." else mret l;
|}.
Definition memo_legacy_codec : Codec MemoLegacy := {|
  c_encode m := [TkString (memo_legacy m)];
  c_decode :=
    s ← d_str;
    if MULTISIG_MEMO_DATA_MAX_SIZE <? str_len s then d_fail "Memo size over limit" else mret (mkMemoLegacy s);
|}.
Definition data_legacy_codec : Codec DataLegacy := {|
  c_encode d := [TkBytes (data_legacy d)];
  c_decode :=
    l ← d_bytes;
    if MULTISIG_MEMO_DATA_MAX_SIZE <? bytes_len l then d_fail "Data size over limit" else mret (mkDataLegacy l);
|}.

(** ** [Reason<u64>] *)

Definition reason64_codec : Codec (Reason N) := mkCodec (reason_encode_with uint_encode) (reason_decode_with d_u64 0).

(** ** Roles, states of transactions, features *)

Definition role_codec : Codec Role := {|
  c_encode r := [TkString (role_to_string r)];
  c_decode := s ← d_str; d_lift (ok_or (role_from_str s) "Invalid role");
|}.
Definition multisig_state_codec : Codec MultisigTransactionState := {|
  c_encode s := uint_encode match s with
    | Pending => 0 | ExecutedAutomatically => 1 | ExecutedManually => 2 | Withdrawn => 3 | Expired => 4 end;
  c_decode :=
    x ← d_u32;
    match x with
    | 0 => mret Pending
    | 1 => mret ExecutedAutomatically
    | 2 => mret ExecutedManually
    | 3 => mret Withdrawn
    | 4 => mret Expired
    | x => unknown_variant x
    end;
|}.
(** A set of features is a set of attributes. *)
Definition feature_set_codec : Codec FeatureSet := mkCodec AttributeSet_encode AttributeSet_decode.
Definition timestamp_codec : Codec Timestamp := mkCodec timestamp_encode timestamp_decode.
End index.

(** ** [Either], and owners *)

(** [L] is tried first; when it fails, [R] starts where [L] did. *)
Definition either_decode {L R} (l : Dec L) (r : Dec R) : Dec (L + R) := λ ts,
  match l ts with
  | Ok (x, ts') => Ok (inl x, ts')
  | Err _ => (y ← r; mret (inr y)) ts
  | Panic t => Panic t
  | OutOfFuel => OutOfFuel
  end.

Section addresses.
Context `{Minicbor, Base32, Crc16}.

Definition either_codec {L R} (l : Codec L) (r : Codec R) : Codec (L + R) := {|
  c_encode x := match x with inl a => c_encode l a | inr c => c_encode r c end;
  c_decode := either_decode (c_decode l) (c_decode r);
|}.
Definition d_null : Dec unit := d_read (λ t, match t with TkNull => Some tt | _ => None end).
Definition null_codec : Codec unit := mkCodec (λ _, [TkNull]) d_null.

Definition address_codec : Codec Address := mkCodec address_encode address_decode.
Definition maybe_owner_codec : Codec TokenMaybeOwner := {|
  c_encode o := c_encode (either_codec address_codec null_codec)
                  match o with OwnerLeft a => inl a | OwnerNull => inr tt end;
  c_decode :=
    x ← c_decode (either_codec address_codec null_codec);
    mret (match x with inl a => OwnerLeft a | inr _ => OwnerNull end);
|}.
Definition role_map_codec : Codec AddressRoleMap := address_map_codec (role_set_codec role_codec).
Definition distribution_codec `{BigUintBytes} : Codec LedgerTokensAddressMap := address_map_codec amount_codec.

(** [Option<TokenMaybeOwner>], the owner in the commands and events of tokens. *)
Definition opt_owner_codec : Codec (option TokenMaybeOwner) := option_codec maybe_owner_codec.
End addresses.

(** ** Logos and extended information of tokens *)

Section logos.
Context `{Minicbor}.

(** A loop over a number of entries that is known. *)
Fixpoint d_times {B} (fuel : nat) (n : N) (step : B → Dec B) (acc : B) : Dec B :=
  match fuel with
  | O => λ _, OutOfFuel
  | S fuel => if n =? 0 then mret acc else acc ← step acc; d_times fuel (n - 1) step acc
  end.
(** Every entry takes a token. *)
Definition d_for {B} (n : N) (step : B → Dec B) (init : B) : Dec B := λ ts,
  d_times (S (length ts)) n step init ts.

Inductive SingleVisualTokenLogoKey : Type := LogoUnicodeChar | LogoImage.
Definition logo_as_key (l : SingleVisualTokenLogo) : SingleVisualTokenLogoKey :=
  match l with UnicodeChar _ => LogoUnicodeChar | Image _ _ => LogoImage end.
Definition logo_key_index (k : SingleVisualTokenLogoKey) : N := match k with LogoUnicodeChar => 0 | LogoImage => 1 end.
(** [derive(Decode)] with [index_only]. *)
Definition logo_key_decode : Dec SingleVisualTokenLogoKey :=
  x ← d_u32;
  match x with 0 => mret LogoUnicodeChar | 1 => mret LogoImage | x => unknown_variant x end.

Definition logo_encode (l : SingleVisualTokenLogo) : list Token :=
  match l with
  | UnicodeChar c =>
      [TkMap (Some 2); TkInt 0; TkInt (Z.of_N (logo_key_index (logo_as_key l)));
       TkInt 1; TkString (String.string_of_list_byte (char_to_utf8 c))]
  | Image content_type binary =>
      [TkMap (Some 3); TkInt 0; TkInt (Z.of_N (logo_key_index (logo_as_key l)));
       TkInt 1; TkString content_type; TkInt 2; TkBytes binary]
  end.
Definition image_entry (acc : option string * option bytes) : Dec (option string * option bytes) :=
  k ← d_u8;
  match k with
  | 1 => s ← d_str; mret (Some s, acc.2)
  | 2 => l ← d_bytes; mret (acc.1, Some l)
  | i => d_fail ("Unknown key " +:+ pretty i)
  end.
Definition logo_decode : Dec SingleVisualTokenLogo :=
  n ← d_map;
  l ← d_lift (ok_or n "Indefinite length map not supported");
  if l <? 2 then d_fail (lib_error []) else
  k ← d_u8;
  if negb (k =? 0) then d_fail "Expected key 0 first" else
  key ← logo_key_decode;
  match key with
  | LogoUnicodeChar =>
      k ← d_u8;
      if negb (k =? 1) then d_fail "Expected key 1" else
      s ← d_str;
      c ← d_lift (ok_or (head (utf8_chars 0 0 (b s))) "Unicode character empty");
      if negb (l - 1 =? 1) then d_fail "Too many keys in the map." else mret (UnicodeChar c)
  | LogoImage =>
      acc ← d_for (l - 1) image_entry (None, None);
      content_type ← d_lift (ok_or acc.1 "Missing content type.");
      binary ← d_lift (ok_or acc.2 "Missing binary data.");
      mret (Image content_type binary)
  end.
Definition logo_codec : Codec VisualTokenLogo := vec_codec (mkCodec logo_encode logo_decode).

(** [VisualTokenLogo]: a queue, which grows at both ends. *)
Definition logo_front (x : SingleVisualTokenLogo) (l : VisualTokenLogo) : VisualTokenLogo := x :: l.
Definition logo_back (x : SingleVisualTokenLogo) (l : VisualTokenLogo) : VisualTokenLogo := l ++ [x].
Definition unicode_front (c : N) : VisualTokenLogo → VisualTokenLogo := logo_front (UnicodeChar c).
Definition unicode_back (c : N) : VisualTokenLogo → VisualTokenLogo := logo_back (UnicodeChar c).
Definition image_front (content_type : string) (data : bytes) : VisualTokenLogo → VisualTokenLogo :=
  logo_front (Image content_type data).
Definition image_back (content_type : string) (data : bytes) : VisualTokenLogo → VisualTokenLogo :=
  logo_back (Image content_type data).

Definition ext_key_encode (k : ExtendedInfoKey) : list Token := index_encode (key_to_index k).
Definition ext_key_decode : Dec ExtendedInfoKey :=
  x ← index_decode; d_lift (ok_or (key_try_from x) "Invalid attribute.").

(** The map in the order of its keys. *)
Definition ext_info_encode (e : TokenExtendedInfo) : list Token :=
  let entries :=
    match ext_memo e with Some m => [ext_key_encode KeyMemo ++ c_encode memo_codec m] | None => [] end
    ++ match ext_visual_logo e with
       | Some v => [ext_key_encode KeyVisualLogo ++ c_encode logo_codec v]
       | None => []
       end in
  TkMap (Some (N.of_nat (length entries))) :: concat entries.
Definition ext_info_entry (e : TokenExtendedInfo) : Dec TokenExtendedInfo :=
  key ← ext_key_decode;
  match key with
  | KeyMemo => m ← c_decode memo_codec; mret (ext_with_memo e m)
  | KeyVisualLogo => v ← c_decode logo_codec; mret (ext_with_visual_logo e v)
  end.
Definition ext_info_decode : Dec TokenExtendedInfo :=
  n ← d_map;
  l ← d_lift (ok_or n "Indefinite length map unsupported.");
  d_for l ext_info_entry ext_new.
Definition ext_info_codec : Codec TokenExtendedInfo := mkCodec ext_info_encode ext_info_decode.
End logos.
