(* ===== verification/ValueWireLaws.v ===== *)
(** * Round trips of values

    Every value that the types of the program hold is read back from its encoding, with three exceptions that are
    proved beside the round trips: an owner that is explicitly none is read as an owner that is not given, a list of
    exactly one value that is itself an array is not read back, and the fifth index of an attribute is dropped. *)
From S2P Require Import Prelude Error ErrorDisplay External Address Types Account Events.
From S2P Require Import Cose Wire WireLaws Protocol ProtocolLaws ProofOps Blockchain BlockchainLaws ValueWire.

#[local] Open Scope string_scope.
#[local] Open Scope list_scope.
#[local] Open Scope N_scope.

Create HintDb codec.

(** Reading with a decoder that evaluates. *)
Ltac d_step d v := erewrite (dec_bind_ok d _ _ v) by reflexivity; cbn beta iota.

(** The value is read back, and its encoding is not empty. *)
Record codec_ok {A} (c : Codec A) (a : A) : Prop := {
  ok_reads : reads_back (c_decode c) (c_encode c a) a;
  ok_nonempty : c_encode c a ≠ [];
}.
(** The first token of the encoding is not a null. *)
Definition not_null {A} (c : Codec A) (a : A) : Prop := head (c_encode c a) ≠ Some TkNull.

Section library.
Context `{Minicbor}.

Lemma u8_ok n : n < 2 ^ 8 → codec_ok u8_codec n.
Proof. intros Hn. split; [|done]. intros rest. apply d_unsigned_ok. lia. Qed.
Lemma u64_ok n : n < 2 ^ 64 → codec_ok u64_codec n.
Proof. intros Hn. split; [|done]. intros rest. apply d_unsigned_ok. lia. Qed.
Lemma bool_ok x : codec_ok bool_codec x.
Proof. by split. Qed.
Lemma string_ok s : codec_ok string_codec s.
Proof. by split. Qed.
Lemma bytes_ok l : codec_ok bytes_codec l.
Proof. by split. Qed.

Lemma option_none_ok {A} (c : Codec A) : codec_ok (option_codec c) None.
Proof. by split. Qed.
Lemma option_some_ok {A} (c : Codec A) x : codec_ok c x → not_null c x → codec_ok (option_codec c) (Some x).
Proof.
  intros [Hr Hne] Hnull. split; [|done]. intros rest. specialize (Hr rest). unfold not_null in Hnull. simpl.
  destruct (c_encode c x) as [|t ts]; [done|]. rewrite <-app_comm_cons in *. rewrite d_peek.
  destruct t; try (by rewrite (dec_bind_ok _ _ _ _ _ Hr)). done.
Qed.
Lemma option_ok {A} (c : Codec A) o :
  (∀ x, o = Some x → codec_ok c x ∧ not_null c x) → codec_ok (option_codec c) o.
Proof. intros Ho. destruct o as [x|]; [|apply option_none_ok]. by apply option_some_ok; apply Ho. Qed.

Lemma vec_ok {A} (c : Codec A) l : Forall (codec_ok c) l → codec_ok (vec_codec c) l.
Proof.
  intros Hl. split; [|done]. intros rest. simpl. unfold d_array. erewrite d_read_ok by done.
  apply d_all_ok; (eapply Forall_impl; [exact Hl|]); by intros x [].
Qed.

(** A list of one value whose encoding is not an array, or a list of none or several. *)
Lemma vec_or_single_ok {A} (c : Codec A) l :
  Forall (codec_ok c) l → (∀ x n, l = [x] → head (c_encode c x) ≠ Some (TkArray n)) →
  codec_ok (vec_or_single_codec c) l.
Proof.
  intros Hl Hs. pose proof (vec_ok c l Hl) as [Hv Hvne]. destruct l as [|x [|y l]]; [by split| |by split].
  apply Forall_singleton in Hl as [Hr Hne]. split; [|done]. intros rest. simpl. specialize (Hr rest).
  destruct (c_encode c x) as [|t ts] eqn:E; [done|]. rewrite <-app_comm_cons in *. rewrite d_peek.
  destruct t; try (by rewrite (dec_bind_ok _ _ _ _ _ Hr)). destruct (Hs x n); [done|]. by rewrite E.
Qed.

(** Maps and sets, from the list of their entries. *)
Lemma address_map_ok `{Base32, Crc16} {V} (c : Codec V) (m : gmap Address V) :
  map_Forall (λ _ v, codec_ok c v) m → codec_ok (address_map_codec c) m.
Proof.
  intros Hm. split; [|done]. intros rest. simpl. unfold d_map. erewrite d_read_ok by done.
  replace (size m) with (length (btree_iter m)) by (rewrite btree_iter_perm; apply length_map_to_list).
  erewrite (dec_bind_ok (d_all _ _)).
  2:{ apply (d_all_ok _ (λ kv, address_encode kv.1 ++ c_encode c kv.2)); [|by apply Forall_true].
      apply Forall_forall. intros [k v] Hin. apply elem_of_btree_iter in Hin.
      apply d_pair_ok; [apply address_decode_ok|]. by apply (Hm k v). }
  unfold mret, dec_ret. rewrite collect_insert; [|apply NoDup_fst_btree_iter|done].
  rewrite (left_id_L ∅ (∪)), (list_to_map_proper _ (map_to_list m)), list_to_map_to_list; [done| |apply btree_iter_perm].
  apply NoDup_fst_btree_iter.
Qed.
Lemma role_set_ok (c : Codec Role) s : (∀ r, codec_ok c r) → codec_ok (role_set_codec c) s.
Proof.
  intros Hc. destruct (vec_ok c (filter (λ r, r ∈ s) all_roles)) as [Hr Hne]; [by apply Forall_true|].
  split; [|done]. intros rest. simpl. simpl in Hr. rewrite (dec_bind_ok _ _ _ _ _ (Hr rest)).
  unfold mret, dec_ret. do 2 f_equal. apply set_eq. intros r. rewrite elem_of_list_to_set, list_elem_of_filter.
  split; [by intros []|]. intros Hin. split; [done|]. destruct r; set_solver.
Qed.
End library.

#[global] Hint Resolve u8_ok u64_ok bool_ok string_ok bytes_ok option_none_ok : codec.

(** ** [AttributeRelatedIndex] *)

Section index.
Context `{Minicbor}.

(** What the code can build: an attribute and at most four indices, of 32 bits. *)
Definition index_wf (x : AttributeRelatedIndex) : Prop :=
  ix_attribute x < 2 ^ 32 ∧ (length (ix_indices x) ≤ 4)%nat ∧ Forall (λ i, i < 2 ^ 32) (ix_indices x).

Lemma d_u32_key {B} (f : N → Dec B) n rest :
  n < 2 ^ 32 → (d_u32 ≫= f) (TkInt (Z.of_N n) :: rest) = f n rest.
Proof. intros Hn. apply dec_bind_ok, d_unsigned_ok. lia. Qed.
Lemma is_unsigned_of_N n : is_unsigned (TkInt (Z.of_N n)) = true.
Proof. apply Z.leb_le. lia. Qed.

(** One more level of nesting, and the last index. *)
Lemma indices_decode_nested fuel x i ts :
  i < 2 ^ 32 →
  indices_decode (S fuel) x (TkArray (Some 2) :: TkInt (Z.of_N i) :: ts) = indices_decode fuel (with_index x i) ts.
Proof.
  intros Hi. cbn [indices_decode]. rewrite d_peek. cbn beta iota.
  rewrite (dec_bind_ok two_elements _ _ tt (TkInt (Z.of_N i) :: ts)) by done. by rewrite d_u32_key.
Qed.
Lemma indices_decode_last fuel x i ts :
  i < 2 ^ 32 → indices_decode (S fuel) x (TkInt (Z.of_N i) :: ts) = Ok (with_index x i, ts).
Proof. intros Hi. cbn [indices_decode]. rewrite d_peek, is_unsigned_of_N. by rewrite d_u32_key. Qed.

Lemma index_ok x : index_wf x → codec_ok index_codec x.
Proof.
  intros (Ha & Hlen & Hi). split; [|by destruct x as [a []]]. intros rest. destruct x as [a l].
  cbn [index_codec c_decode c_encode]. unfold index_encode, index_decode. simpl in Ha, Hlen, Hi.
  destruct l as [|i l]; cbn [ix_attribute ix_indices].
  { cbn [uint_encode app]. rewrite d_peek, is_unsigned_of_N. by rewrite d_u32_key. }
  cbn [app uint_encode]. rewrite d_peek. cbn beta iota.
  erewrite (dec_bind_ok two_elements) by done. rewrite d_u32_key by done. unfold indices_all.
  destruct l as [|i2 [|i3 [|i4 [|i5 l]]]]; [..|simpl in Hlen; lia].
  all: repeat (apply Forall_cons in Hi as [? Hi]); cbn [indices_encode app uint_encode length].
  all: by rewrite ?indices_decode_nested, indices_decode_last by done.
Qed.
Lemma index_not_null x : not_null index_codec x.
Proof. unfold not_null. destruct x as [a []]; done. Qed.

Lemma sort_order_ok o : codec_ok sort_order_codec o.
Proof. by destruct o. Qed.
Lemma multisig_state_ok s : codec_ok multisig_state_codec s.
Proof. by destruct s. Qed.
Lemma timestamp_ok t : t < 2 ^ 64 → codec_ok timestamp_codec t.
Proof. intros Ht. split; [by apply timestamp_decode_ok|done]. Qed.
Lemma feature_set_ok (s : FeatureSet) :
  map_Forall (λ i args, attribute_wf (mkAttribute i args)) s → codec_ok feature_set_codec s.
Proof. intros Hs. split; [by apply AttributeSet_decode_ok|done]. Qed.

(** ** Amounts: of any size *)

Lemma amount_ok `{BigUintBytes, !BigUintBytesLaws} a : codec_ok amount_codec a.
Proof.
  split.
  - intros rest. unfold amount_codec. cbn [c_encode c_decode]. destruct (N.ltb_spec a (2 ^ 64)) as [Ha|Ha]; cbn [app].
    + cbn [uint_encode app]. rewrite d_peek. apply d_unsigned_ok. lia.
    + rewrite d_peek. unfold d_tag, d_bytes. erewrite d_read_ok by done. rewrite N.eqb_refl. cbn [negb].
      erewrite d_read_ok by done. unfold mret, dec_ret. by rewrite from_bytes_be_value, to_bytes_be_value.
  - unfold amount_codec. cbn [c_encode]. by destruct (a <? 2 ^ 64).
Qed.

(** ** Memos: exactly the valid ones *)

Lemma memo_inner_ok M i : memo_inner_len i ≤ M → codec_ok (memo_inner_codec M) i.
Proof.
  intros Hi. split; [|by destruct i]. intros rest.
  assert (memo_inner_try_from M i = Ok i) as Ht by (by apply memo_inner_try_from_ok).
  destruct i; cbn [memo_inner_codec c_encode c_decode app]; rewrite d_peek; unfold d_str, d_bytes;
    (erewrite d_read_ok by done); unfold d_lift; by rewrite Ht.
Qed.
Lemma memo_ok m : memo_valid m → codec_ok memo_codec m.
Proof.
  intros [Hne Hm]. destruct (vec_ok (memo_inner_codec MEMO_DATA_DEFAULT_MAX_SIZE) m) as [Hr Hn].
  { eapply Forall_impl; [exact Hm|]. intros i. apply memo_inner_ok. }
  split; [|done]. intros rest. cbn [memo_codec c_decode c_encode]. rewrite (dec_bind_ok _ _ _ _ _ (Hr rest)).
  by rewrite bool_decide_false.
Qed.
Lemma memo_legacy_ok m : memo_legacy_valid m → codec_ok memo_legacy_codec m.
Proof.
  intros Hm. unfold memo_legacy_valid in Hm. split; [|done]. intros rest.
  cbn [memo_legacy_codec c_encode c_decode app]. unfold d_str. erewrite d_read_ok by done.
  destruct (N.ltb_spec MULTISIG_MEMO_DATA_MAX_SIZE (str_len (memo_legacy m))); [lia|]. by destruct m.
Qed.
Lemma data_legacy_ok m : data_legacy_valid m → codec_ok data_legacy_codec m.
Proof.
  intros Hm. unfold data_legacy_valid in Hm. split; [|done]. intros rest.
  cbn [data_legacy_codec c_encode c_decode app]. unfold d_bytes. erewrite d_read_ok by done.
  destruct (N.ltb_spec MULTISIG_MEMO_DATA_MAX_SIZE (bytes_len (data_legacy m))); [lia|]. by destruct m.
Qed.

Lemma role_ok r : codec_ok role_codec r.
Proof. split; [|done]. intros rest. by destruct r. Qed.
End index.

#[global] Hint Resolve index_ok index_not_null sort_order_ok multisig_state_ok timestamp_ok feature_set_ok amount_ok memo_ok
  memo_legacy_ok data_legacy_ok role_ok : codec.

Section reasons.
Context `{Minicbor}.

Lemma reason64_ok r : code r < 2 ^ 64 → codec_ok reason64_codec r.
Proof.
  intros Hc. split; [|done]. apply reason_with_ok. intros rest. apply d_unsigned_ok. lia.
Qed.

(** ** [Either] *)

Lemma either_left_ok {L R} (l : Codec L) (r : Codec R) x : codec_ok l x → codec_ok (either_codec l r) (inl x).
Proof.
  intros [Hr Hne]. split; [|done]. intros rest. cbn [either_codec c_encode c_decode]. unfold either_decode.
  by rewrite Hr.
Qed.
(** A value on the right is read back when the decoder of the left refuses it. *)
Lemma either_right_ok {L R} (l : Codec L) (r : Codec R) y :
  codec_ok r y → (∀ rest, ∃ e, c_decode l (c_encode r y ++ rest) = Err e) → codec_ok (either_codec l r) (inr y).
Proof.
  intros [Hr Hne] Hl. split; [|done]. intros rest. cbn [either_codec c_encode c_decode]. unfold either_decode.
  destruct (Hl rest) as [e ->]. by rewrite (dec_bind_ok _ _ _ _ _ (Hr rest)).
Qed.
End reasons.

Section addresses.
Context `{Minicbor, Base32, Crc16}.

Lemma address_ok a : codec_ok address_codec a.
Proof. split; [apply address_decode_ok|done]. Qed.
Lemma address_not_null a : not_null address_codec a.
Proof. done. Qed.
Lemma maybe_owner_ok o : codec_ok maybe_owner_codec o.
Proof.
  assert (codec_ok (either_codec address_codec null_codec) match o with OwnerLeft a => inl a | OwnerNull => inr tt end)
    as [Hr Hne].
  { destruct o; [apply either_left_ok, address_ok|]. apply either_right_ok; [by split|]. intros rest. by eexists. }
  split; [|done]. intros rest. cbn [maybe_owner_codec c_encode c_decode].
  rewrite (dec_bind_ok _ _ _ _ _ (Hr rest)). by destruct o.
Qed.

(** The owner of a token that a command or an event gives: an explicit absence is encoded as no owner at
    all, and only the others are read back. *)
Lemma opt_owner_ok o : o ≠ Some OwnerNull → codec_ok opt_owner_codec o.
Proof.
  intros Ho. apply option_ok. intros x ->. split; [apply maybe_owner_ok|]. by destruct x.
Qed.
Lemma opt_owner_lost rest :
  c_encode opt_owner_codec (Some OwnerNull) = c_encode opt_owner_codec None
  ∧ c_decode opt_owner_codec (c_encode opt_owner_codec (Some OwnerNull) ++ rest) = Ok (None, rest).
Proof. done. Qed.

Lemma role_map_ok m : codec_ok role_map_codec m.
Proof. apply address_map_ok. intros a s _. apply role_set_ok, role_ok. Qed.
Lemma distribution_ok `{BigUintBytes, !BigUintBytesLaws} m : codec_ok distribution_codec m.
Proof. apply address_map_ok. intros a n _. apply amount_ok. Qed.
End addresses.

(** ** Logos and extended information *)

Section logos.
Context `{Minicbor}.

(** A step of a loop, as its tokens and what reading them does. *)
Record step_ok {B} (step : B → Dec B) (e : list Token * (B → B)) : Prop := {
  step_nonempty : e.1 ≠ [];
  step_reads acc rest : step acc (e.1 ++ rest) = Ok (e.2 acc, rest);
}.
Lemma d_times_ok {B} (step : B → Dec B) es fuel acc rest :
  Forall (step_ok step) es → (length es < fuel)%nat →
  d_times fuel (N.of_nat (length es)) step acc (concat es.*1 ++ rest) = Ok (foldl (λ x e, e.2 x) acc es, rest).
Proof.
  intros Hes. revert fuel acc. induction Hes as [|e es He Hes IH]; intros [|fuel] acc Hf; simpl in Hf; try lia; [done|].
  cbn [length d_times fmap list_fmap concat]. rewrite <-app_assoc.
  destruct (N.eqb_spec (N.of_nat (S (length es))) 0); [lia|].
  rewrite (dec_bind_ok _ _ _ _ _ (step_reads _ _ He acc _)).
  replace (N.of_nat (S (length es)) - 1) with (N.of_nat (length es)) by lia. apply IH. lia.
Qed.
Lemma d_for_ok {B} (step : B → Dec B) es init rest n :
  Forall (step_ok step) es → n = N.of_nat (length es) →
  d_for n step init (concat es.*1 ++ rest) = Ok (foldl (λ x e, e.2 x) init es, rest).
Proof.
  intros Hes ->. apply d_times_ok; [done|]. rewrite length_app.
  assert (length es ≤ length (concat es.*1))%nat; [|lia].
  apply (length_concat_nonempty fst). eapply Forall_impl; [exact Hes|]. by intros e [].
Qed.

(** A character is a scalar value of Unicode. *)
Definition logo_wf (l : SingleVisualTokenLogo) : Prop := match l with UnicodeChar c => c < 0x110000 | Image _ _ => True end.

Lemma utf8_char_first c rest : c < 0x110000 → head (utf8_chars 0 0 (char_to_utf8 c ++ rest)) = Some c.
Proof.
  intros Hc. unfold char_to_utf8, utf8_tail. rewrite !N.shiftr_div_pow2.
  change (2 ^ 6) with 64; change (2 ^ 12) with 4096; change (2 ^ 18) with 262144; change (2 ^ 0) with 1.
  destruct (N.ltb_spec c 0x80); [|destruct (N.ltb_spec c 0x800); [|destruct (N.ltb_spec c 0x10000)]];
    cbn [app utf8_chars].
  all: rewrite !to_N_as_u8_small by (zify; Z.to_euclidean_division_equations; lia).
  all: repeat match goal with |- context [?x <? ?y] =>
         destruct (N.ltb_spec x y); try (zify; Z.to_euclidean_division_equations; lia) end.
  all: cbn [head]; f_equal; zify; Z.to_euclidean_division_equations; lia.
Qed.

Lemma logo_decode_ok l : logo_wf l → reads_back logo_decode (logo_encode l) l.
Proof.
  intros Hl rest. unfold logo_encode. destruct l as [c|t l].
  - assert (head (utf8_chars 0 0 (b (String.string_of_list_byte (char_to_utf8 c)))) = Some c) as Hc.
    { unfold b. rewrite String.list_byte_of_string_of_list_byte.
      rewrite <-(app_nil_r (char_to_utf8 c)). by apply utf8_char_first. }
    generalize dependent (String.string_of_list_byte (char_to_utf8 c)). intros s Hc.
    cbn [app logo_key_index logo_as_key]. unfold logo_decode, d_map. erewrite d_read_ok by done. cbn [ok_or].
    d_step (d_lift (Ok 2 : outcome string N)) 2. change (2 <? 2) with false. cbn beta iota.
    d_step d_u8 0. change (negb (0 =? 0)) with false. cbn beta iota. d_step logo_key_decode LogoUnicodeChar.
    d_step d_u8 1. change (negb (1 =? 1)) with false. cbn beta iota. d_step d_str s. by rewrite Hc.
  - done.
Qed.
Lemma logo_ok v : Forall logo_wf v → codec_ok logo_codec v.
Proof.
  intros Hv. apply vec_ok. eapply Forall_impl; [exact Hv|]. intros l Hl. split; [by apply logo_decode_ok|by destruct l].
Qed.

Definition ext_info_wf (e : TokenExtendedInfo) : Prop :=
  match ext_memo e with Some m => memo_valid m | None => True end
  ∧ match ext_visual_logo e with Some v => Forall logo_wf v | None => True end.

(** The entries of the map. *)
Definition ext_info_steps (e : TokenExtendedInfo) : list (list Token * (TokenExtendedInfo → TokenExtendedInfo)) :=
  match ext_memo e with
  | Some m => [(ext_key_encode KeyMemo ++ c_encode memo_codec m, λ e, ext_with_memo e m)]
  | None => []
  end
  ++ match ext_visual_logo e with
     | Some v => [(ext_key_encode KeyVisualLogo ++ c_encode logo_codec v, λ e, ext_with_visual_logo e v)]
     | None => []
     end.
Lemma ext_key_ok k : reads_back ext_key_decode (ext_key_encode k) k.
Proof. intros rest. by destruct k. Qed.
Lemma ext_info_steps_ok e : ext_info_wf e → Forall (step_ok ext_info_entry) (ext_info_steps e).
Proof.
  intros [Hm Hv]. unfold ext_info_steps. apply Forall_app. split.
  - destruct (ext_memo e) as [m|]; [|done]. apply Forall_singleton. split; [done|]. intros acc rest. cbn [fst snd].
    unfold ext_info_entry. rewrite <-app_assoc, (reads_bind _ _ _ _ _ (ext_key_ok _)).
    by rewrite (reads_bind _ _ _ _ _ (ok_reads _ _ (memo_ok m Hm))).
  - destruct (ext_visual_logo e) as [v|]; [|done]. apply Forall_singleton. split; [done|]. intros acc rest. cbn [fst snd].
    unfold ext_info_entry. rewrite <-app_assoc, (reads_bind _ _ _ _ _ (ext_key_ok _)).
    by rewrite (reads_bind _ _ _ _ _ (ok_reads _ _ (logo_ok v Hv))).
Qed.
Lemma ext_info_ok e : ext_info_wf e → codec_ok ext_info_codec e.
Proof.
  intros He. split; [|done]. intros rest. cbn [ext_info_codec c_encode c_decode].
  assert (ext_info_encode e = TkMap (Some (N.of_nat (length (ext_info_steps e)))) :: concat (ext_info_steps e).*1) as ->.
  { unfold ext_info_encode, ext_info_steps. by destruct (ext_memo e), (ext_visual_logo e). }
  unfold ext_info_decode, d_map. rewrite <-app_comm_cons. erewrite d_read_ok by done. cbn [ok_or].
  rewrite (dec_bind_ok (d_lift (Ok _)) _ _ _ (concat (ext_info_steps e).*1 ++ rest) eq_refl).
  rewrite d_for_ok; [|by apply ext_info_steps_ok|done]. by destruct e as [[] []].
Qed.
End logos.

#[global] Hint Resolve reason64_ok address_ok address_not_null maybe_owner_ok opt_owner_ok role_map_ok distribution_ok
  ext_info_ok logo_ok : codec.
