(* ===== verification/EventWire.v ===== *)
(** * The CBOR of events, their filters and multisig transactions

    Models the instances of [many-modules/src/_4_events.rs] that are written by hand or generated by its macros:
    [EventKind], [EventId], [EventFilter] with its attribute-specific part, [EventInfo] ([encode_event_info!]) and
    [AccountMultisigTransaction] ([define_multisig_event!]).

    The macros work from the table of [define_event!]: for each kind of event its fields, with their index, type and
    tags. The table is [event_fields] here, and the definitions over it are generic in the fields as the macros
    are. The arguments of commands have derived instances, which are a parameter ([DerivedCbor]). *)
From S2P Require Import Prelude Error ErrorDisplay External Address Types Account Events.
From S2P Require Import Cose Wire WireLaws Protocol ProtocolLaws ProofOps Blockchain ValueWire.

#[local] Open Scope string_scope.
#[local] Open Scope list_scope.
#[local] Open Scope N_scope.

(** ** Derived instances *)

(** The structures with derived instances that events and transactions hold. Those with one field that is a
    token are that token here. *)
Inductive Derived : Type → Type :=
| D_TokenInfoSummary : Derived TokenInfoSummary
| D_SendArgs : Derived SendArgs
| D_KvPutArgs : Derived KvPutArgs
| D_KvDisableArgs : Derived KvDisableArgs
| D_KvTransferArgs : Derived KvTransferArgs
| D_CreateArgs : Derived CreateArgs
| D_SetDescriptionArgs : Derived SetDescriptionArgs
| D_AddRolesArgs : Derived AddRolesArgs
| D_RemoveRolesArgs : Derived RemoveRolesArgs
| D_DisableArgs : Derived DisableArgs
| D_AddFeaturesArgs : Derived AddFeaturesArgs
| D_ApproveArgs : Derived bytes
| D_RevokeArgs : Derived bytes
| D_ExecuteArgs : Derived bytes
| D_WithdrawArgs : Derived bytes
| D_SetDefaultsArgs : Derived SetDefaultsArgs
| D_TokenCreateArgs : Derived TokenCreateArgs
| D_TokenUpdateArgs : Derived TokenUpdateArgs
| D_TokenAddExtendedInfoArgs : Derived TokenAddExtendedInfoArgs
| D_TokenRemoveExtendedInfoArgs : Derived TokenRemoveExtendedInfoArgs
| D_TokenMintArgs : Derived TokenMintArgs
| D_TokenBurnArgs : Derived TokenBurnArgs
| D_WebDeployArgs : Derived WebDeployArgs
| D_WebRemoveArgs : Derived WebRemoveArgs
| D_WebUpdateArgs : Derived WebDeployArgs.

Class DerivedCbor := {
  derived {A : Type} : Derived A → Codec A;
  (** [SubmitTransactionArgs], around the transaction in it. *)
  submit_encode : SubmitTransactionArgs (list Token) → list Token;
  submit_decode {T : Type} : Dec T → Dec (SubmitTransactionArgs T);
}.

(** ** Kinds *)

Section kinds.
Context `{Minicbor}.

Definition kind_encode (k : EventKind) : list Token := index_encode (kind_to_index k).
Definition kind_decode : Dec EventKind :=
  x ← index_decode; d_lift (map_err (λ _, "Invalid attribute index") (kind_try_from x)).
Definition kind_codec : Codec EventKind := mkCodec kind_encode kind_decode.

Definition event_id_codec : Codec EventId := bytes_codec.

(** ** [EventFilter] *)

Inductive EventFilterAttributeSpecificIndex : Type := FilterMultisigTransactionState.
Definition specific_to_index (i : EventFilterAttributeSpecificIndex) : AttributeRelatedIndex :=
  match i with FilterMultisigTransactionState => with_index (with_index (index_new 9) 1) 0 end.
Definition specific_try_from (x : AttributeRelatedIndex) : option EventFilterAttributeSpecificIndex :=
  if bool_decide (x = with_index (with_index (index_new 9) 1) 0) then Some FilterMultisigTransactionState else None.
Definition specific_encode (i : EventFilterAttributeSpecificIndex) : list Token := index_encode (specific_to_index i).
(** The message shows the index, in the library's format. *)
Definition specific_decode : Dec EventFilterAttributeSpecificIndex :=
  x ← index_decode; d_lift (ok_or (specific_try_from x) ("Unknown variant " +:+ lib_error (index_encode x))).

Definition d_u16 : Dec N := d_unsigned 16.
End kinds.

Section filters.
Context `{Minicbor, Base32, Crc16}.

Definition accounts_codec : Codec (option (list Address)) := option_codec (vec_or_single_codec address_codec).
Definition kinds_codec : Codec (option (list EventKind)) := option_codec (vec_or_single_codec kind_codec).
Definition id_range_codec : Codec (option (CborRange EventId)) :=
  option_codec (mkCodec (range_encode (c_encode bytes_codec)) (range_decode d_bytes)).
Definition date_range_codec : Codec (option (CborRange Timestamp)) :=
  option_codec (mkCodec (range_encode timestamp_encode) (range_decode timestamp_decode)).
Definition states_codec : Codec (list MultisigTransactionState) := vec_or_single_codec multisig_state_codec.

Definition filter_encode (f : EventFilter) : list Token :=
  TkMap (Some (5 + (match ef_multisig_state f with Some _ => 1 | None => 0 end)))
    :: (TkInt 0 :: c_encode accounts_codec (ef_account f))
    ++ (TkInt 1 :: c_encode kinds_codec (ef_kind f))
    ++ (TkInt 2 :: c_encode accounts_codec (ef_symbol f))
    ++ (TkInt 3 :: c_encode id_range_codec (ef_id_range f))
    ++ (TkInt 4 :: c_encode date_range_codec (ef_date_range f))
    ++ match ef_multisig_state f with
       | Some l => specific_encode FilterMultisigTransactionState ++ c_encode states_codec l
       | None => []
       end.
Definition filter_entry (f : EventFilter) : Dec EventFilter :=
  let '(mkEventFilter account kind symbol id_range date_range state) := f in
  t ← d_datatype;
  match t with
  | TkArray (Some _) =>
      key ← specific_decode;
      match key with
      | FilterMultisigTransactionState =>
          l ← c_decode states_codec; mret (mkEventFilter account kind symbol id_range date_range (Some l))
      end
  | _ =>
      if negb (is_unsigned t) then d_fail (lib_error [t]) else
      index ← d_u16;
      match index with
      | 0 => x ← c_decode accounts_codec; mret (mkEventFilter x kind symbol id_range date_range state)
      | 1 => x ← c_decode kinds_codec; mret (mkEventFilter account x symbol id_range date_range state)
      | 2 => x ← c_decode accounts_codec; mret (mkEventFilter account kind x id_range date_range state)
      | 3 => x ← c_decode id_range_codec; mret (mkEventFilter account kind symbol x date_range state)
      | 4 => x ← c_decode date_range_codec; mret (mkEventFilter account kind symbol id_range x state)
      | i => d_fail ("Unknown key " +:+ pretty i)
      end
  end.
(** [for _ in 0..len.unwrap_or_default()]. *)
Definition filter_decode : Dec EventFilter :=
  len ← d_map; d_for (default 0 len) filter_entry filter_default.
End filters.

(** ** [AccountMultisigTransaction] *)

Section transactions.
Context `{Minicbor, DerivedCbor}.

(** The map of the kind and its argument. *)
Definition transaction_map (k : EventKind) (arg : list Token) : list Token :=
  TkMap (Some 2) :: TkInt 0 :: kind_encode k ++ TkInt 1 :: arg.
Definition d_encode {A} (d : Derived A) : A → list Token := c_encode (derived d).

Fixpoint transaction_encode (t : AccountMultisigTransaction) : list Token :=
  match t with
  | T_Send a => transaction_map K_Send (d_encode D_SendArgs a)
  | T_KvStorePut a => transaction_map K_KvStorePut (d_encode D_KvPutArgs a)
  | T_KvStoreDisable a => transaction_map K_KvStoreDisable (d_encode D_KvDisableArgs a)
  | T_AccountCreate a => transaction_map K_AccountCreate (d_encode D_CreateArgs a)
  | T_AccountSetDescription a => transaction_map K_AccountSetDescription (d_encode D_SetDescriptionArgs a)
  | T_AccountAddRoles a => transaction_map K_AccountAddRoles (d_encode D_AddRolesArgs a)
  | T_AccountRemoveRoles a => transaction_map K_AccountRemoveRoles (d_encode D_RemoveRolesArgs a)
  | T_AccountDisable a => transaction_map K_AccountDisable (d_encode D_DisableArgs a)
  | T_AccountAddFeatures a => transaction_map K_AccountAddFeatures (d_encode D_AddFeaturesArgs a)
  | T_AccountMultisigSubmit (mkSubmitArgs account memo_ tx threshold timeout automatically data_ memo) =>
      transaction_map K_AccountMultisigSubmit
        (submit_encode (mkSubmitArgs account memo_ (transaction_encode tx) threshold timeout automatically data_ memo))
  | T_AccountMultisigApprove t => transaction_map K_AccountMultisigApprove (d_encode D_ApproveArgs t)
  | T_AccountMultisigRevoke t => transaction_map K_AccountMultisigRevoke (d_encode D_RevokeArgs t)
  | T_AccountMultisigExecute t => transaction_map K_AccountMultisigExecute (d_encode D_ExecuteArgs t)
  | T_AccountMultisigWithdraw t => transaction_map K_AccountMultisigWithdraw (d_encode D_WithdrawArgs t)
  | T_AccountMultisigSetDefaults a => transaction_map K_AccountMultisigSetDefaults (d_encode D_SetDefaultsArgs a)
  | T_TokenCreate a => transaction_map K_TokenCreate (d_encode D_TokenCreateArgs a)
  | T_TokenUpdate a => transaction_map K_TokenUpdate (d_encode D_TokenUpdateArgs a)
  | T_TokenAddExtendedInfo a => transaction_map K_TokenAddExtendedInfo (d_encode D_TokenAddExtendedInfoArgs a)
  | T_TokenRemoveExtendedInfo a => transaction_map K_TokenRemoveExtendedInfo (d_encode D_TokenRemoveExtendedInfoArgs a)
  | T_TokenMint a => transaction_map K_TokenMint (d_encode D_TokenMintArgs a)
  | T_TokenBurn a => transaction_map K_TokenBurn (d_encode D_TokenBurnArgs a)
  | T_KvStoreTransfer a => transaction_map K_KvStoreTransfer (d_encode D_KvTransferArgs a)
  | T_WebDeploy a => transaction_map K_WebDeploy (d_encode D_WebDeployArgs a)
  | T_WebRemove a => transaction_map K_WebRemove (d_encode D_WebRemoveArgs a)
  | T_WebUpdate a => transaction_map K_WebUpdate (d_encode D_WebUpdateArgs a)
  end.

(** [if d.u8()? != 1 { Err(..) } else { Ok(Self::$name(d.decode()?)) }]. *)
Definition transaction_arg {A} (make : A → AccountMultisigTransaction) (d : Dec A) : Dec AccountMultisigTransaction :=
  i ← d_u8; if negb (i =? 1) then d_fail "Invalid field index" else a ← d; mret (make a).
Definition d_arg {A} (make : A → AccountMultisigTransaction) (d : Derived A) : Dec AccountMultisigTransaction :=
  transaction_arg make (c_decode (derived d)).

Definition transaction_of_kind (inner : Dec AccountMultisigTransaction) (k : EventKind) :
    Dec AccountMultisigTransaction :=
  match k with
  | K_Send => d_arg T_Send D_SendArgs
  | K_KvStorePut => d_arg T_KvStorePut D_KvPutArgs
  | K_KvStoreDisable => d_arg T_KvStoreDisable D_KvDisableArgs
  | K_AccountCreate => d_arg T_AccountCreate D_CreateArgs
  | K_AccountSetDescription => d_arg T_AccountSetDescription D_SetDescriptionArgs
  | K_AccountAddRoles => d_arg T_AccountAddRoles D_AddRolesArgs
  | K_AccountRemoveRoles => d_arg T_AccountRemoveRoles D_RemoveRolesArgs
  | K_AccountDisable => d_arg T_AccountDisable D_DisableArgs
  | K_AccountAddFeatures => d_arg T_AccountAddFeatures D_AddFeaturesArgs
  | K_AccountMultisigSubmit => transaction_arg T_AccountMultisigSubmit (submit_decode inner)
  | K_AccountMultisigApprove => d_arg T_AccountMultisigApprove D_ApproveArgs
  | K_AccountMultisigRevoke => d_arg T_AccountMultisigRevoke D_RevokeArgs
  | K_AccountMultisigExecute => d_arg T_AccountMultisigExecute D_ExecuteArgs
  | K_AccountMultisigWithdraw => d_arg T_AccountMultisigWithdraw D_WithdrawArgs
  | K_AccountMultisigSetDefaults => d_arg T_AccountMultisigSetDefaults D_SetDefaultsArgs
  | K_AccountMultisigExpired => d_fail "Unsupported transaction kind"
  | K_TokenCreate => d_arg T_TokenCreate D_TokenCreateArgs
  | K_TokenUpdate => d_arg T_TokenUpdate D_TokenUpdateArgs
  | K_TokenAddExtendedInfo => d_arg T_TokenAddExtendedInfo D_TokenAddExtendedInfoArgs
  | K_TokenRemoveExtendedInfo => d_arg T_TokenRemoveExtendedInfo D_TokenRemoveExtendedInfoArgs
  | K_TokenMint => d_arg T_TokenMint D_TokenMintArgs
  | K_TokenBurn => d_arg T_TokenBurn D_TokenBurnArgs
  | K_KvStoreTransfer => d_arg T_KvStoreTransfer D_KvTransferArgs
  | K_WebDeploy => d_arg T_WebDeploy D_WebDeployArgs
  | K_WebRemove => d_arg T_WebRemove D_WebRemoveArgs
  | K_WebUpdate => d_arg T_WebUpdate D_WebUpdateArgs
  end.
Definition kind_first : Dec EventKind :=
  i ← d_u8;
  if negb (i =? 0) then d_fail "EventKind should be the first item." else kind_decode.
(** [depth] bounds the nesting of submissions. *)
Fixpoint transaction_decode_at (depth : nat) : Dec AccountMultisigTransaction :=
  match depth with
  | O => λ _, OutOfFuel
  | S depth =>
      n ← d_map;
      len ← d_lift (ok_or n "Invalid event type.");
      if negb (len =? 2) then d_fail "Transactions must have 2 values" else
      k ← kind_first;
      transaction_of_kind (transaction_decode_at depth) k
  end.
(** Every submission takes a token. *)
Definition transaction_decode : Dec AccountMultisigTransaction := λ ts, transaction_decode_at (S (length ts)) ts.
Definition transaction_codec : Codec AccountMultisigTransaction := mkCodec transaction_encode transaction_decode.
End transactions.

(** ** Fields *)

(** A row of the table: the index of the field, its type, how a value is written (or left out), read, and
    what a field that was not read is ([encode_event_info_field!], [encode_event_info_unpack_decode!]). *)
Record Field : Type := mkField {
  f_idx : N;
  f_type : Type;
  f_encode : f_type → option (list Token);
  f_decode : Dec f_type;
  f_missing : option f_type;
}.
Definition field {A} (idx : N) (c : Codec A) : Field := mkField idx A (λ x, Some (c_encode c x)) (c_decode c) None.
(** With the tag [memo]: only a memo that is there is written, and one that is not there may be missing. *)
Definition memo_field `{Minicbor} (idx : N) : Field :=
  mkField idx (option Memo) (fmap (c_encode memo_codec)) (c_decode (option_codec memo_codec)) (Some None).

(** The values of the fields, and what was read of them. *)
Fixpoint values (l : list Field) : Type :=
  match l with [] => unit | f :: l => (f_type f * values l)%type end.
Fixpoint slots (l : list Field) : Type :=
  match l with [] => unit | f :: l => (option (f_type f) * slots l)%type end.

Section fields.
Context `{Minicbor}.

Fixpoint no_slots (l : list Field) : slots l :=
  match l with [] => tt | f :: l => (None, no_slots l) end.
Fixpoint fields_encode (l : list Field) : values l → list (list Token) :=
  match l with
  | [] => λ _, []
  | f :: l => λ v,
      match f_encode f v.1 with Some ts => [TkInt (Z.of_N (f_idx f)) :: ts] | None => [] end ++ fields_encode l v.2
  end.
(** [match d.u32()? { $idx => $name = Some(d.decode()?), .. x => Err(unknown_variant(x)) }]. *)
Fixpoint slot_decode (x : N) (l : list Field) : slots l → Dec (slots l) :=
  match l with
  | [] => λ _, unknown_variant x
  | f :: l => λ s,
      if x =? f_idx f then v ← f_decode f; mret (Some v, s.2)
      else s' ← slot_decode x l s.2; mret (s.1, s')
  end.
Definition slot_entry (l : list Field) (s : slots l) : Dec (slots l) := x ← d_u32; slot_decode x l s.
Fixpoint unpack_slots (l : list Field) : slots l → outcome string (values l) :=
  match l with
  | [] => λ _, Ok tt
  | f :: l => λ s,
      v ← (match s.1 with
           | Some v => Ok v
           | None => ok_or (f_missing f) (lib_error [TkInt (Z.of_N (f_idx f))])    (* [missing_value] *)
           end);
      vs ← unpack_slots l s.2; Ok (v, vs)
  end.
End fields.

(** ** [EventInfo] *)

Section events.
Context `{Minicbor, Base32, Crc16, Clock, BigUintBytes, DerivedCbor}.

Definition response_codec : Codec ResponseMessage := mkCodec response_encode response_decode.

Definition event_fields (k : EventKind) : list Field :=
  match k with
  | K_Send => [field 1 address_codec; field 2 address_codec; field 3 address_codec; field 4 amount_codec; memo_field 5]
  | K_KvStorePut => [field 1 bytes_codec; field 2 bytes_codec; field 3 address_codec]
  | K_KvStoreDisable => [field 1 bytes_codec; field 2 (option_codec reason64_codec)]
  | K_AccountCreate =>
      [field 1 address_codec; field 2 (option_codec string_codec); field 3 role_map_codec; field 4 feature_set_codec]
  | K_AccountSetDescription => [field 1 address_codec; field 2 string_codec]
  | K_AccountAddRoles | K_AccountRemoveRoles => [field 1 address_codec; field 2 role_map_codec]
  | K_AccountDisable => [field 1 address_codec]
  | K_AccountAddFeatures => [field 1 address_codec; field 2 role_map_codec; field 3 feature_set_codec]
  | K_AccountMultisigSubmit =>
      [field 1 address_codec; field 2 address_codec; field 3 (option_codec memo_legacy_codec); field 4 transaction_codec;
       field 5 (option_codec bytes_codec); field 6 u64_codec; field 7 timestamp_codec; field 8 bool_codec;
       field 9 (option_codec data_legacy_codec); memo_field 10]
  | K_AccountMultisigApprove | K_AccountMultisigRevoke | K_AccountMultisigWithdraw =>
      [field 1 address_codec; field 2 bytes_codec; field 3 address_codec]
  | K_AccountMultisigExecute =>
      [field 1 address_codec; field 2 bytes_codec; field 3 (option_codec address_codec); field 4 response_codec]
  | K_AccountMultisigSetDefaults =>
      [field 1 address_codec; field 2 address_codec; field 3 (option_codec u64_codec); field 4 (option_codec u64_codec);
       field 5 (option_codec bool_codec)]
  | K_AccountMultisigExpired => [field 1 address_codec; field 2 bytes_codec; field 3 timestamp_codec]
  | K_TokenCreate =>
      [field 1 (derived D_TokenInfoSummary); field 2 address_codec; field 3 opt_owner_codec;
       field 4 (option_codec distribution_codec); field 5 (option_codec amount_codec);
       field 6 (option_codec ext_info_codec); memo_field 7]
  | K_TokenUpdate =>
      [field 1 address_codec; field 2 (option_codec string_codec); field 3 (option_codec string_codec);
       field 4 (option_codec u64_codec); field 5 opt_owner_codec; memo_field 6]
  | K_TokenAddExtendedInfo | K_TokenRemoveExtendedInfo =>
      [field 1 address_codec; field 2 (vec_codec index_codec); memo_field 3]
  | K_TokenMint | K_TokenBurn => [field 1 address_codec; field 2 distribution_codec; memo_field 3]
  | K_KvStoreTransfer => [field 1 bytes_codec; field 2 address_codec; field 3 address_codec]
  | K_WebDeploy | K_WebUpdate =>
      [field 1 address_codec; field 2 string_codec; field 3 (option_codec string_codec); field 4 string_codec;
       memo_field 5; field 6 (option_codec string_codec)]
  | K_WebRemove => [field 1 address_codec; field 2 string_codec; memo_field 3]
  end.

(** [EventInfo::$sname { $( $name, )* }], as a pattern and as an expression. *)
Definition event_values (e : EventInfo) : values (event_fields (kind_of e)) :=
  match e return values (event_fields (kind_of e)) with
  | E_Send from to symbol amount memo => (from, (to, (symbol, (amount, (memo, tt)))))
  | E_KvStorePut key value owner => (key, (value, (owner, tt)))
  | E_KvStoreDisable key reason => (key, (reason, tt))
  | E_AccountCreate account description roles features => (account, (description, (roles, (features, tt))))
  | E_AccountSetDescription account description => (account, (description, tt))
  | E_AccountAddRoles account roles => (account, (roles, tt))
  | E_AccountRemoveRoles account roles => (account, (roles, tt))
  | E_AccountDisable account => (account, tt)
  | E_AccountAddFeatures account roles features => (account, (roles, (features, tt)))
  | E_AccountMultisigSubmit submitter account memo_ transaction token threshold timeout automatically data_ memo =>
      (submitter, (account, (memo_, (transaction, (token, (threshold, (timeout, (automatically, (data_, (memo, tt))))))))))
  | E_AccountMultisigApprove account token approver => (account, (token, (approver, tt)))
  | E_AccountMultisigRevoke account token revoker => (account, (token, (revoker, tt)))
  | E_AccountMultisigExecute account token executer response => (account, (token, (executer, (response, tt))))
  | E_AccountMultisigWithdraw account token withdrawer => (account, (token, (withdrawer, tt)))
  | E_AccountMultisigSetDefaults submitter account threshold timeout_in_secs automatically =>
      (submitter, (account, (threshold, (timeout_in_secs, (automatically, tt)))))
  | E_AccountMultisigExpired account token time => (account, (token, (time, tt)))
  | E_TokenCreate summary symbol owner initial_distribution maximum_supply extended_info memo =>
      (summary, (symbol, (owner, (initial_distribution, (maximum_supply, (extended_info, (memo, tt)))))))
  | E_TokenUpdate symbol name ticker decimals owner memo =>
      (symbol, (name, (ticker, (decimals, (owner, (memo, tt))))))
  | E_TokenAddExtendedInfo symbol extended_info memo => (symbol, (extended_info, (memo, tt)))
  | E_TokenRemoveExtendedInfo symbol extended_info memo => (symbol, (extended_info, (memo, tt)))
  | E_TokenMint symbol distribution memo => (symbol, (distribution, (memo, tt)))
  | E_TokenBurn symbol distribution memo => (symbol, (distribution, (memo, tt)))
  | E_KvStoreTransfer key owner new_owner => (key, (owner, (new_owner, tt)))
  | E_WebDeploy owner site_name site_description source_hash memo domain =>
      (owner, (site_name, (site_description, (source_hash, (memo, (domain, tt))))))
  | E_WebRemove owner site_name memo => (owner, (site_name, (memo, tt)))
  | E_WebUpdate owner site_name site_description source_hash memo domain =>
      (owner, (site_name, (site_description, (source_hash, (memo, (domain, tt))))))
  end.
Definition event_make (k : EventKind) : values (event_fields k) → EventInfo :=
  match k return values (event_fields k) → EventInfo with
  | K_Send => λ '(from, (to, (symbol, (amount, (memo, _))))), E_Send from to symbol amount memo
  | K_KvStorePut => λ '(key, (value, (owner, _))), E_KvStorePut key value owner
  | K_KvStoreDisable => λ '(key, (reason, _)), E_KvStoreDisable key reason
  | K_AccountCreate => λ '(account, (description, (roles, (features, _)))), E_AccountCreate account description roles features
  | K_AccountSetDescription => λ '(account, (description, _)), E_AccountSetDescription account description
  | K_AccountAddRoles => λ '(account, (roles, _)), E_AccountAddRoles account roles
  | K_AccountRemoveRoles => λ '(account, (roles, _)), E_AccountRemoveRoles account roles
  | K_AccountDisable => λ '(account, _), E_AccountDisable account
  | K_AccountAddFeatures => λ '(account, (roles, (features, _))), E_AccountAddFeatures account roles features
  | K_AccountMultisigSubmit =>
      λ '(submitter, (account, (memo_, (transaction, (token, (threshold, (timeout, (automatically, (data_, (memo, _)))))))))),
        E_AccountMultisigSubmit submitter account memo_ transaction token threshold timeout automatically data_ memo
  | K_AccountMultisigApprove => λ '(account, (token, (approver, _))), E_AccountMultisigApprove account token approver
  | K_AccountMultisigRevoke => λ '(account, (token, (revoker, _))), E_AccountMultisigRevoke account token revoker
  | K_AccountMultisigExecute =>
      λ '(account, (token, (executer, (response, _)))), E_AccountMultisigExecute account token executer response
  | K_AccountMultisigWithdraw => λ '(account, (token, (withdrawer, _))), E_AccountMultisigWithdraw account token withdrawer
  | K_AccountMultisigSetDefaults =>
      λ '(submitter, (account, (threshold, (timeout_in_secs, (automatically, _))))),
        E_AccountMultisigSetDefaults submitter account threshold timeout_in_secs automatically
  | K_AccountMultisigExpired => λ '(account, (token, (time, _))), E_AccountMultisigExpired account token time
  | K_TokenCreate =>
      λ '(summary, (symbol, (owner, (initial_distribution, (maximum_supply, (extended_info, (memo, _))))))),
        E_TokenCreate summary symbol owner initial_distribution maximum_supply extended_info memo
  | K_TokenUpdate =>
      λ '(symbol, (name, (ticker, (decimals, (owner, (memo, _)))))), E_TokenUpdate symbol name ticker decimals owner memo
  | K_TokenAddExtendedInfo => λ '(symbol, (extended_info, (memo, _))), E_TokenAddExtendedInfo symbol extended_info memo
  | K_TokenRemoveExtendedInfo => λ '(symbol, (extended_info, (memo, _))), E_TokenRemoveExtendedInfo symbol extended_info memo
  | K_TokenMint => λ '(symbol, (distribution, (memo, _))), E_TokenMint symbol distribution memo
  | K_TokenBurn => λ '(symbol, (distribution, (memo, _))), E_TokenBurn symbol distribution memo
  | K_KvStoreTransfer => λ '(key, (owner, (new_owner, _))), E_KvStoreTransfer key owner new_owner
  | K_WebDeploy =>
      λ '(owner, (site_name, (site_description, (source_hash, (memo, (domain, _)))))),
        E_WebDeploy owner site_name site_description source_hash memo domain
  | K_WebRemove => λ '(owner, (site_name, (memo, _))), E_WebRemove owner site_name memo
  | K_WebUpdate =>
      λ '(owner, (site_name, (site_description, (source_hash, (memo, (domain, _)))))),
        E_WebUpdate owner site_name site_description source_hash memo domain
  end.

Definition event_encode (e : EventInfo) : list Token :=
  let fields := fields_encode (event_fields (kind_of e)) (event_values e) in
  TkMap (Some (1 + N.of_nat (length fields))) :: TkInt 0 :: kind_encode (kind_of e) ++ concat fields.
(** [while len > 1]. *)
Definition event_decode : Dec EventInfo :=
  n ← d_map;
  len ← d_lift (ok_or n "Invalid event type.");
  k ← kind_first;
  s ← d_for (len - 1) (slot_entry (event_fields k)) (no_slots (event_fields k));
  v ← d_lift (unpack_slots (event_fields k) s);
  mret (event_make k v).
Definition event_codec : Codec EventInfo := mkCodec event_encode event_decode.
End events.
