(* ===== verification/EventWireLaws.v ===== *)
(** * Events, filters and multisig transactions on the wire

    Round trips of [EventWire.v], generic in the fields of the table of events, and two values that do not survive
    them: a filter by exactly one kind of event, and an owner that is explicitly none. *)
From S2P Require Import Prelude Error ErrorDisplay External Address Types Account Events Migration Storage.
From S2P Require Import Cose Wire WireLaws Protocol ProtocolLaws ProofOps Blockchain BlockchainLaws ValueWire ValueWireLaws.
From S2P Require Import EventWire.

#[local] Open Scope string_scope.
#[local] Open Scope list_scope.
#[local] Open Scope N_scope.

(** ** Kinds and filters *)

Section kinds.
Context `{Minicbor}.

Lemma kind_ok k : codec_ok kind_codec k.
Proof. split; [|by destruct k]. intros rest. by destruct k. Qed.
Lemma kind_array k : head (kind_encode k) = Some (TkArray (Some 2)).
Proof. by destruct k. Qed.
Lemma specific_ok i : reads_back specific_decode (specific_encode i) i.
Proof. intros rest. by destruct i. Qed.

(** The kind of an event, read as a list of kinds. *)
Lemma single_kind_refused k rest : ∃ e, c_decode (vec_or_single_codec kind_codec) (kind_encode k ++ rest) = Err e.
Proof. destruct k; by eexists. Qed.
End kinds.

Section filters.
Context `{Minicbor, Base32, Crc16}.

Definition filter_wf (f : EventFilter) : Prop :=
  match ef_date_range f with Some r => range_ok (λ t, t < 2 ^ 64) r | None => True end.

Lemma vec_or_single_not_null {A} (c : Codec A) l : (∀ x, not_null c x) → not_null (vec_or_single_codec c) l.
Proof. intros Hc. destruct l as [|x [|y l]]; [done| |done]. apply Hc. Qed.
Lemma accounts_ok o : codec_ok accounts_codec o.
Proof.
  apply option_ok. intros l ->. split; [|by apply vec_or_single_not_null].
  apply vec_or_single_ok; [apply Forall_true; intros; apply address_ok|done].
Qed.
Lemma kinds_ok o : (∀ k, o ≠ Some [k]) → codec_ok kinds_codec o.
Proof.
  intros Ho. apply option_ok. intros l ->. split.
  - apply vec_or_single_ok; [apply Forall_true; intros; apply kind_ok|]. intros k n ->. by destruct (Ho k).
  - apply vec_or_single_not_null. intros k. unfold not_null. cbn. by rewrite kind_array.
Qed.
Lemma id_range_ok o : codec_ok id_range_codec o.
Proof.
  apply option_ok. intros r ->. split.
  - split; [apply range_decode_ok; by destruct r as [[] []]|]. by destruct r as [[] []].
  - unfold not_null. by destruct r as [[] []].
Qed.
Lemma date_range_ok o :
  (∀ r, o = Some r → range_ok (λ t, t < 2 ^ 64) r) → codec_ok date_range_codec o.
Proof.
  intros Ho. apply option_ok. intros r ->. split.
  - split; [|by destruct r as [[] []]]. apply range_decode_ok. eapply range_ok_impl; [by apply Ho|].
    intros t. apply timestamp_decode_ok.
  - unfold not_null. by destruct r as [[] []].
Qed.
Lemma states_ok l : codec_ok states_codec l.
Proof.
  apply vec_or_single_ok; [apply Forall_true; intros; apply multisig_state_ok|]. by intros [] n ->.
Qed.

(** The first four entries of a filter, and the others. *)
Lemma d_u16_key {B} (f : N → Dec B) n rest :
  n < 2 ^ 16 → (d_u16 ≫= f) (TkInt (Z.of_N n) :: rest) = f n rest.
Proof. intros Hn. apply dec_bind_ok, d_unsigned_ok. lia. Qed.

Ltac filter_step lem :=
  split; [done|]; intros [] ?; cbn [fst snd]; rewrite <-app_comm_cons; unfold filter_entry;
  rewrite d_peek; cbn [is_unsigned Z.leb Z.compare negb];
  match goal with |- context [(_ ≫= _) (TkInt (Zpos ?p) :: _)] => change (Zpos p) with (Z.of_N (Npos p)) | _ => change 0%Z with (Z.of_N 0) end;
  rewrite d_u16_key by lia; cbn beta iota; erewrite (reads_bind _ _ _ _ _ (ok_reads _ _ lem)); done.

Definition filter_steps (f : EventFilter) : list (list Token * (EventFilter → EventFilter)) :=
  [(TkInt 0 :: c_encode accounts_codec (ef_account f),
    λ '(mkEventFilter _ k s i d m), mkEventFilter (ef_account f) k s i d m);
   (TkInt 1 :: c_encode kinds_codec (ef_kind f),
    λ '(mkEventFilter a _ s i d m), mkEventFilter a (ef_kind f) s i d m);
   (TkInt 2 :: c_encode accounts_codec (ef_symbol f),
    λ '(mkEventFilter a k _ i d m), mkEventFilter a k (ef_symbol f) i d m);
   (TkInt 3 :: c_encode id_range_codec (ef_id_range f),
    λ '(mkEventFilter a k s _ d m), mkEventFilter a k s (ef_id_range f) d m);
   (TkInt 4 :: c_encode date_range_codec (ef_date_range f),
    λ '(mkEventFilter a k s i _ m), mkEventFilter a k s i (ef_date_range f) m)]
  ++ match ef_multisig_state f with
     | Some l => [(specific_encode FilterMultisigTransactionState ++ c_encode states_codec l,
                   λ '(mkEventFilter a k s i d _), mkEventFilter a k s i d (Some l))]
     | None => []
     end.
Lemma filter_encode_steps f :
  filter_encode f = TkMap (Some (N.of_nat (length (filter_steps f)))) :: concat (filter_steps f).*1.
Proof.
  unfold filter_encode, filter_steps. destruct (ef_multisig_state f); cbn [app length fmap list_fmap concat fst];
    rewrite ?app_nil_r; done.
Qed.
Lemma filter_steps_ok f :
  filter_wf f → (∀ k, ef_kind f ≠ Some [k]) → Forall (step_ok filter_entry) (filter_steps f).
Proof.
  intros Hd Hk. assert (codec_ok date_range_codec (ef_date_range f)) as Hdr.
  { apply date_range_ok. intros r Hr. unfold filter_wf in Hd. by rewrite Hr in Hd. }
  unfold filter_steps. apply Forall_app. split.
  - repeat (apply Forall_cons; split); [..|by apply Forall_nil].
    + filter_step (accounts_ok (ef_account f)).
    + filter_step (kinds_ok _ Hk).
    + filter_step (accounts_ok (ef_symbol f)).
    + filter_step (id_range_ok (ef_id_range f)).
    + filter_step Hdr.
  - destruct (ef_multisig_state f) as [l|]; [|by apply Forall_nil]. apply Forall_singleton. split; [done|].
    intros [] rest. cbn [fst snd]. rewrite <-app_assoc. unfold filter_entry.
    assert (∃ ts, specific_encode FilterMultisigTransactionState ++ c_encode states_codec l ++ rest = TkArray (Some 2) :: ts)
      as [ts Hts] by by eexists.
    rewrite Hts, d_peek, <-Hts. cbn beta iota. rewrite (reads_bind _ _ _ _ _ (specific_ok _)).
    by rewrite (reads_bind _ _ _ _ _ (ok_reads _ _ (states_ok l))).
Qed.

(** A loop stops at the first step that fails. *)
Lemma d_for_err {B} (step : B → Dec B) es e init n rest err :
  Forall (step_ok step) es → N.of_nat (length es) < n → e ≠ [] →
  step (foldl (λ x e, e.2 x) init es) (e ++ rest) = Err err →
  d_for n step init (concat es.*1 ++ e ++ rest) = Err err.
Proof.
  intros Hes Hn Hne Hs. unfold d_for.
  assert (∃ fuel, S (length (concat es.*1 ++ e ++ rest)) = (length es + S fuel)%nat) as [fuel ->].
  { exists (length (concat es.*1 ++ e ++ rest) - length es)%nat. rewrite length_app.
    assert (length es ≤ length (concat es.*1))%nat; [|lia].
    apply (length_concat_nonempty fst). eapply Forall_impl; [exact Hes|]. by intros ? []. }
  revert n init Hn Hs. induction Hes as [|x es Hx Hes IH]; intros n init Hn Hs.
  - cbn [length Nat.add d_times fmap list_fmap concat app]. simpl in Hn. destruct (N.eqb_spec n 0); [lia|].
    unfold mbind, dec_bind. simpl in Hs. by rewrite Hs.
  - cbn [length Nat.add d_times fmap list_fmap concat]. rewrite <-app_assoc. cbn [length] in Hn.
    destruct (N.eqb_spec n 0); [lia|]. rewrite (dec_bind_ok _ _ _ _ _ (step_reads _ _ Hx init _)).
    apply IH; [lia|done].
Qed.
Lemma single_kind_entry_fails f k rest :
  ∃ e, filter_entry f (TkInt 1 :: c_encode kinds_codec (Some [k]) ++ rest) = Err e.
Proof.
  destruct f. unfold filter_entry. rewrite d_peek. cbn [is_unsigned Z.leb Z.compare negb].
  change 1%Z with (Z.of_N 1). rewrite d_u16_key by lia. cbn beta iota.
  destruct (single_kind_refused k rest) as [e He]. exists e. unfold mbind at 1, dec_bind at 1.
  cbn [kinds_codec option_codec c_decode c_encode vec_or_single_codec].
  assert (∃ ts, kind_encode k ++ rest = TkArray (Some 2) :: ts) as [ts Hts] by (destruct k; by eexists).
  change (c_encode kind_codec k) with (kind_encode k). rewrite Hts, d_peek, <-Hts.
  unfold mbind at 1, dec_bind at 1. cbn [vec_or_single_codec c_decode] in He. by rewrite He.
Qed.

(** C30: A filter of events that a client sends arrives as it is, unless it asks for exactly one kind of event:
    then the server refuses it. (The list of one kind is written as that kind alone, which is itself an array, and
    is read as the list of its numbers.) *)
Theorem event_filter_roundtrip f rest :
  filter_wf f →
  match ef_kind f with
  | Some [_] => ∃ e, filter_decode (filter_encode f ++ rest) = Err e
  | _ => filter_decode (filter_encode f ++ rest) = Ok (f, rest)
  end.
Proof.
  intros Hf. assert ((∀ k, ef_kind f ≠ Some [k]) → filter_decode (filter_encode f ++ rest) = Ok (f, rest)) as Hok.
  { intros Hk. rewrite filter_encode_steps, <-app_comm_cons. unfold filter_decode, d_map. erewrite d_read_ok by done.
    cbn [default]. rewrite d_for_ok; [|by apply filter_steps_ok|done]. by destruct f as [a k s i d []]. }
  destruct (ef_kind f) as [[|k [|]]|] eqn:Hk; try (by apply Hok).
  set (step := (TkInt 0 :: c_encode accounts_codec (ef_account f),
                λ '(mkEventFilter _ k s i d m), mkEventFilter (ef_account f) k s i d m)).
  assert (∃ n ts, 1 < n ∧ filter_encode f ++ rest
    = TkMap (Some n) :: concat [step].*1 ++ (TkInt 1 :: c_encode kinds_codec (Some [k])) ++ ts) as (n & ts & Hn & ->).
  { eexists _, _. split; [|unfold filter_encode; rewrite Hk, <-app_comm_cons, <-!app_assoc; cbn [fmap list_fmap concat fst];
      rewrite app_nil_r; reflexivity]. destruct (ef_multisig_state f); lia. }
  destruct (single_kind_entry_fails (step.2 filter_default) k ts) as [e He]. exists e.
  unfold filter_decode, d_map. erewrite d_read_ok by done. cbn [default]. apply d_for_err; [|done..].
  apply Forall_singleton. unfold step. filter_step (accounts_ok (ef_account f)).
Qed.
End filters.

(** ** Transactions *)

Section wf.
Context `{Minicbor}.

Definition fits_u64 (n : N) : Prop := n < 2 ^ 64.
Definition features_wf (s : FeatureSet) : Prop := map_Forall (λ i args, attribute_wf (mkAttribute i args)) s.
Definition reason_wf (r : Reason N) : Prop := fits_u64 (code r).
Definition owner_given (o : option TokenMaybeOwner) : Prop := o ≠ Some OwnerNull.

(** What the structures hold: integers within 64 bits, memos, keys and values within their limits, and no owner that is
    explicitly none, which a derived instance cannot tell from an owner that is not given. *)
Definition derived_wf {A} (d : Derived A) : A → Prop :=
  match d with
  | D_TokenInfoSummary => λ a, fits_u64 (decimals a)
  | D_SendArgs => λ a, opt_all memo_valid (send_memo a)
  | D_KvPutArgs => λ a, bytes_len (kv_put_key a) ≤ 254 ∧ bytes_len (kv_put_value a) ≤ 524288
  | D_KvDisableArgs => λ a, opt_all reason_wf (kv_disable_reason a)
  | D_CreateArgs => λ a, features_wf (ca_features a)
  | D_AddFeaturesArgs => λ a, features_wf (af_features a)
  | D_SetDefaultsArgs => λ a, opt_all fits_u64 (msd_threshold a) ∧ opt_all fits_u64 (msd_timeout_in_secs a)
  | D_TokenCreateArgs => λ a,
      fits_u64 (decimals (tc_summary a)) ∧ owner_given (tc_owner a) ∧ opt_all ext_info_wf (tc_extended_info a)
      ∧ opt_all memo_valid (tc_memo a)
  | D_TokenUpdateArgs => λ a,
      opt_all fits_u64 (tu_decimals a) ∧ owner_given (tu_owner a) ∧ opt_all memo_valid (tu_memo a)
  | D_TokenAddExtendedInfoArgs => λ a, ext_info_wf (tae_extended_info a) ∧ opt_all memo_valid (tae_memo a)
  | D_TokenRemoveExtendedInfoArgs => λ a, Forall index_wf (tre_extended_info a) ∧ opt_all memo_valid (tre_memo a)
  | D_TokenMintArgs => λ a, opt_all memo_valid (tm_memo a)
  | D_TokenBurnArgs => λ a, opt_all memo_valid (tb_memo a)
  | D_WebDeployArgs | D_WebUpdateArgs => λ a, opt_all memo_valid (web_memo a)
  | D_WebRemoveArgs => λ a, opt_all memo_valid (web_remove_memo a)
  | _ => λ _, True
  end.
Definition submit_wf {T} (a : SubmitTransactionArgs T) : Prop :=
  opt_all memo_legacy_valid (sub_memo_ a) ∧ opt_all fits_u64 (sub_threshold a) ∧ opt_all fits_u64 (sub_timeout_in_secs a)
  ∧ opt_all data_legacy_valid (sub_data_ a) ∧ opt_all memo_valid (sub_memo a).
Definition submit_with {T U} (a : SubmitTransactionArgs T) (t : U) : SubmitTransactionArgs U :=
  mkSubmitArgs (sub_account a) (sub_memo_ a) t (sub_threshold a) (sub_timeout_in_secs a) (sub_execute_automatically a)
    (sub_data_ a) (sub_memo a).

(** A derived instance reads back what it wrote when the instances of the fields do, and writes all of them. *)
Class DerivedCborLaws `{DerivedCbor} : Prop := {
  derived_ok {A} (d : Derived A) a : derived_wf d a → codec_ok (derived d) a;
  submit_ok {T} (dec : Dec T) (ts : list Token) (a : SubmitTransactionArgs T) :
    submit_wf a → reads_back dec ts (sub_transaction a) →
    reads_back (submit_decode dec) (submit_encode (submit_with a ts)) a;
  submit_length a : (length (sub_transaction a) ≤ length (submit_encode a))%nat;
}.

Fixpoint transaction_wf (t : AccountMultisigTransaction) : Prop :=
  match t with
  | T_Send a => derived_wf D_SendArgs a
  | T_KvStorePut a => derived_wf D_KvPutArgs a
  | T_KvStoreDisable a => derived_wf D_KvDisableArgs a
  | T_AccountCreate a => derived_wf D_CreateArgs a
  | T_AccountAddFeatures a => derived_wf D_AddFeaturesArgs a
  | T_AccountMultisigSubmit a => submit_wf a ∧ transaction_wf (sub_transaction a)
  | T_AccountMultisigSetDefaults a => derived_wf D_SetDefaultsArgs a
  | T_TokenCreate a => derived_wf D_TokenCreateArgs a
  | T_TokenUpdate a => derived_wf D_TokenUpdateArgs a
  | T_TokenAddExtendedInfo a => derived_wf D_TokenAddExtendedInfoArgs a
  | T_TokenRemoveExtendedInfo a => derived_wf D_TokenRemoveExtendedInfoArgs a
  | T_TokenMint a => derived_wf D_TokenMintArgs a
  | T_TokenBurn a => derived_wf D_TokenBurnArgs a
  | T_WebDeploy a => derived_wf D_WebDeployArgs a
  | T_WebRemove a => derived_wf D_WebRemoveArgs a
  | T_WebUpdate a => derived_wf D_WebUpdateArgs a
  | _ => True
  end.
End wf.

Section transactions.
Context `{Minicbor, DerivedCbor, !DerivedCborLaws}.

Lemma kind_first_ok k rest : kind_first (TkInt 0 :: kind_encode k ++ rest) = Ok (k, rest).
Proof. unfold kind_first. d_step d_u8 0. change (negb (0 =? 0)) with false. apply (ok_reads _ _ (kind_ok k)). Qed.

(** A transaction of a kind, given how its argument is read. *)
Lemma transaction_at_ok {A} depth k arg (make : A → AccountMultisigTransaction) d a rest :
  transaction_of_kind (transaction_decode_at depth) k = transaction_arg make d → reads_back d arg a →
  transaction_decode_at (S depth) (transaction_map k arg ++ rest) = Ok (make a, rest).
Proof.
  intros Hk Hd. unfold transaction_map. cbn [transaction_decode_at]. rewrite <-!app_comm_cons, <-app_assoc.
  d_step d_map (Some 2). cbn [ok_or]. d_step (d_lift (Ok 2 : outcome string N)) 2.
  change (negb (2 =? 2)) with false. cbn beta iota. rewrite (dec_bind_ok _ _ _ _ _ (kind_first_ok k _)), Hk.
  unfold transaction_arg. rewrite <-app_comm_cons. d_step d_u8 1. change (negb (1 =? 1)) with false. cbn beta iota.
  by rewrite (reads_bind _ _ _ _ _ Hd).
Qed.
Lemma derived_reads {A} (d : Derived A) a : derived_wf d a → reads_back (c_decode (derived d)) (d_encode d a) a.
Proof. intros Ha. apply (ok_reads _ _ (derived_ok d a Ha)). Qed.

Lemma transaction_decode_at_ok depth t :
  (length (transaction_encode t) ≤ depth)%nat → transaction_wf t →
  reads_back (transaction_decode_at depth) (transaction_encode t) t.
Proof.
  revert t. induction depth as [|depth IH]; intros t Hd Ht rest.
  { exfalso. destruct t as [| | | | | | | | |[]| | | | | | | | | | | | | | |]; simpl in Hd; lia. }
  destruct t as [a|a|a|a|a|a|a|a|a|a|a|a|a|a|a|a|a|a|a|a|a|a|a|a|a]; cbn [transaction_encode transaction_wf] in *.
  10: { destruct Ht as [Ha Ht]. pose proof (submit_length (submit_with a (transaction_encode (sub_transaction a)))) as Hl.
    destruct a as [account memo_ tx threshold timeout automatically data_ memo].
    eapply transaction_at_ok; [done|]. apply (submit_ok _ _ (mkSubmitArgs account memo_ tx threshold timeout automatically data_ memo));
      [done|]. apply IH; [|done]. unfold submit_with in Hl. cbn -[submit_encode] in *. lia. }
  all: eapply transaction_at_ok; [done|]; by apply derived_reads.
Qed.
Lemma transaction_ok t : transaction_wf t → codec_ok transaction_codec t.
Proof.
  intros Ht. split; [|by destruct t as [| | | | | | | | |[]| | | | | | | | | | | | | | |]].
  intros rest. cbn [transaction_codec c_decode c_encode]. unfold transaction_decode.
  apply transaction_decode_at_ok; [|done]. rewrite length_app. lia.
Qed.
End transactions.

(** ** Fields *)

Section fields.
Context `{Minicbor}.

(** A field whose value is written is read back, and one that is left out is what a missing one becomes. *)
Definition field_ok (f : Field) (v : f_type f) : Prop :=
  match f_encode f v with
  | Some ts => reads_back (f_decode f) ts v
  | None => f_missing f = Some v
  end.
Fixpoint fields_ok (l : list Field) : values l → Prop :=
  match l with [] => λ _, True | f :: l => λ v, field_ok f v.1 ∧ fields_ok l v.2 end.

(** The steps of the loop, one per field that is written. *)
Fixpoint field_steps (l : list Field) : values l → list (N * list Token * (slots l → slots l)) :=
  match l with
  | [] => λ _, []
  | f :: l => λ v,
      match f_encode f v.1 with Some ts => [(f_idx f, ts, λ s, (Some v.1, s.2))] | None => [] end
      ++ map (λ e, (e.1, λ s, (s.1, e.2 s.2))) (field_steps l v.2)
  end.
Definition step_tokens {B} (e : N * list Token * B) : list Token * B := (TkInt (Z.of_N e.1.1) :: e.1.2, e.2).

Lemma fields_encode_steps l v : fields_encode l v = (step_tokens <$> field_steps l v).*1.
Proof.
  induction l as [|f l IH]; [done|]. destruct v as [x v]. cbn [fields_encode field_steps fst snd].
  rewrite !fmap_app, IH. f_equal; [by destruct (f_encode f x)|].
  rewrite <-!list_fmap_compose. by apply list_fmap_ext.
Qed.
Lemma field_steps_length l v : length (fields_encode l v) = length (field_steps l v).
Proof. by rewrite fields_encode_steps, !length_fmap. Qed.

(** What the steps do together: every written field is there. *)
Fixpoint filled (l : list Field) : values l → slots l :=
  match l with
  | [] => λ _, tt
  | f :: l => λ v, (match f_encode f v.1 with Some _ => Some v.1 | None => None end, filled l v.2)
  end.
Lemma lifted_effect {A B} (es : list (N * list Token * (B → B))) (a : A) s :
  foldl (λ (x : A * B) (e : N * list Token * (A * B → A * B)), e.2 x) (a, s) (map (λ e, (e.1, λ s, (s.1, e.2 s.2))) es)
  = (a, foldl (λ x e, e.2 x) s es).
Proof. revert s. induction es as [|e es IH]; intros s; [done|]. cbn [map foldl fst snd]. apply IH. Qed.
Lemma field_steps_effect l v : foldl (λ x e, e.2 x) (no_slots l) (field_steps l v) = filled l v.
Proof.
  induction l as [|f l IH]; [done|]. destruct v as [x v]. cbn [field_steps no_slots filled fst snd].
  rewrite foldl_app.
  destruct (f_encode f x); cbn [foldl snd fst]; (etrans; [apply lifted_effect|]); by rewrite IH.
Qed.
Lemma unpack_filled l v : fields_ok l v → unpack_slots l (filled l v) = Ok v.
Proof.
  induction l as [|f l IH]; [by destruct v|]. destruct v as [x v]. cbn [fields_ok unpack_slots filled fst snd].
  intros [Hf Hl]. unfold field_ok in Hf. destruct (f_encode f x) as [ts|]; cbn [mbind outcome_bind].
  - by rewrite (IH v Hl).
  - rewrite Hf. cbn [ok_or mbind outcome_bind]. by rewrite (IH v Hl).
Qed.

(** Every step is read by the arm of its index, the indices being distinct. *)
Lemma field_steps_read l v :
  NoDup (map f_idx l) → fields_ok l v →
  Forall (λ e, e.1.1 ∈ map f_idx l ∧ ∀ s rest, slot_decode e.1.1 l s (e.1.2 ++ rest) = Ok (e.2 s, rest)) (field_steps l v).
Proof.
  induction l as [|f l IH]; [intros; by apply Forall_nil|]. destruct v as [x v]. cbn [map fields_ok field_steps fst snd].
  intros [Hf Hnd]%NoDup_cons [Hx Hv]. apply Forall_app. split.
  - unfold field_ok in Hx. destruct (f_encode f x) as [ts|]; [|by apply Forall_nil]. apply Forall_singleton.
    split; [by left|]. intros s rest. cbn [fst snd slot_decode]. rewrite N.eqb_refl.
    by rewrite (reads_bind _ _ _ _ _ Hx).
  - rewrite Forall_map. eapply Forall_impl; [by apply IH|]. intros e [Hin He]. cbn [fst snd]. split; [by right|].
    intros s rest. cbn [slot_decode]. destruct (N.eqb_spec e.1.1 (f_idx f)) as [Heq|_]; [by rewrite Heq in Hin|].
    by rewrite (dec_bind_ok _ _ _ _ _ (He s.2 rest)).
Qed.
Lemma slots_decode_ok l v rest :
  NoDup (map f_idx l) → Forall (λ i, i < 2 ^ 32) (map f_idx l) → fields_ok l v →
  d_for (N.of_nat (length (fields_encode l v))) (slot_entry l) (no_slots l) (concat (fields_encode l v) ++ rest)
  = Ok (filled l v, rest).
Proof.
  intros Hnd Hidx Hv. rewrite fields_encode_steps, d_for_ok; [| |by rewrite length_fmap].
  - rewrite <-field_steps_effect. do 2 f_equal. generalize (no_slots l). induction (field_steps l v) as [|e es IH]; [done|].
    intros s. cbn [fmap list_fmap foldl]. apply IH.
  - apply Forall_fmap. eapply Forall_impl; [by apply field_steps_read|]. intros e [Hin He].
    split; [done|]. intros s rest'. cbn [step_tokens fst snd]. unfold slot_entry. rewrite <-app_comm_cons.
    rewrite d_u32_key; [apply He|]. rewrite Forall_forall in Hidx. by apply Hidx.
Qed.
End fields.

(** ** Events *)

Section events.
Context `{Minicbor, Base32, Crc16, Clock, BigUintBytes, !BigUintBytesLaws, DerivedCbor, !DerivedCborLaws}.

(** A response as the ledger logs it: the version is not written, nor the anonymous address, and without a time the
    clock of the machine is. *)
Definition response_logged (r : ResponseMessage) : Prop :=
  response_wf r ∧ resp_version r = None ∧ resp_id r = None ∧ resp_to r ≠ Some ANONYMOUS ∧ is_Some (resp_timestamp r).

Definition event_wf (e : EventInfo) : Prop :=
  opt_all memo_valid (event_memo e)
  ∧ match e with
    | E_KvStoreDisable _ reason => opt_all reason_wf reason
    | E_AccountCreate _ _ _ features | E_AccountAddFeatures _ _ features => features_wf features
    | E_AccountMultisigSubmit _ _ memo_ transaction _ threshold timeout _ data_ _ =>
        opt_all memo_legacy_valid memo_ ∧ transaction_wf transaction ∧ fits_u64 threshold ∧ fits_u64 timeout
        ∧ opt_all data_legacy_valid data_
    | E_AccountMultisigExecute _ _ _ response => response_logged response
    | E_AccountMultisigSetDefaults _ _ threshold timeout _ => opt_all fits_u64 threshold ∧ opt_all fits_u64 timeout
    | E_AccountMultisigExpired _ _ time => fits_u64 time
    | E_TokenCreate summary _ owner _ _ extended_info _ =>
        fits_u64 (decimals summary) ∧ owner_given owner ∧ opt_all ext_info_wf extended_info
    | E_TokenUpdate _ _ _ decimals owner _ => opt_all fits_u64 decimals ∧ owner_given owner
    | E_TokenAddExtendedInfo _ extended_info _ | E_TokenRemoveExtendedInfo _ extended_info _ =>
        Forall index_wf extended_info
    | _ => True
    end.

Lemma plain_ok {A} idx (c : Codec A) x : codec_ok c x → field_ok (field idx c) x.
Proof. by intros [Hr _]. Qed.
Lemma memo_field_ok idx m : opt_all memo_valid m → field_ok (memo_field idx) m.
Proof.
  intros Hm. destruct m as [m|]; [|done]. unfold field_ok. cbn [memo_field f_encode f_decode fmap option_fmap option_map].
  pose proof (option_some_ok memo_codec m (memo_ok m Hm) ltac:(done)) as [Hr _]. exact Hr.
Qed.
Lemma opt_ok {A} (c : Codec A) (P : A → Prop) o :
  (∀ x, P x → codec_ok c x) → (∀ x, not_null c x) → opt_all P o → codec_ok (option_codec c) o.
Proof. intros Hc Hn Ho. apply option_ok. intros x ->. split; [by apply Hc|apply Hn]. Qed.
Lemma opt_any_ok {A} (c : Codec A) o : (∀ x, codec_ok c x) → (∀ x, not_null c x) → codec_ok (option_codec c) o.
Proof. intros Hc Hn. apply option_ok. by intros x ->. Qed.
Lemma response_ok r : response_logged r → codec_ok response_codec r.
Proof.
  intros (Hr & Hv & Hi & Hto & [t Ht]). split; [|done]. intros rest. cbn [response_codec c_decode c_encode].
  rewrite response_reads_back by done. do 2 f_equal. destruct r as [v f to d ts i a]. cbn in *. subst.
  unfold response_received. cbn. destruct to as [to|]; [|done]. cbn.
  rewrite anonymous_negb, bool_decide_false by congruence. done.
Qed.
Lemma amount_not_null a : not_null amount_codec a.
Proof. unfold not_null, amount_codec. cbn [c_encode]. by destruct (a <? 2 ^ 64). Qed.
Lemma event_make_values e : event_make (kind_of e) (event_values e) = e.
Proof. by destruct e. Qed.
Lemma event_fields_distinct k : NoDup (map f_idx (event_fields k)).
Proof. destruct k; repeat constructor; cbn; set_solver. Qed.
Lemma event_fields_small k : Forall (λ i, i < 2 ^ 32) (map f_idx (event_fields k)).
Proof. destruct k; repeat constructor. Qed.

Lemma opt_string_ok o : codec_ok (option_codec string_codec) o.
Proof. apply opt_any_ok; [apply string_ok|done]. Qed.
Lemma opt_bytes_ok o : codec_ok (option_codec bytes_codec) o.
Proof. apply opt_any_ok; [apply bytes_ok|done]. Qed.
Lemma opt_bool_ok o : codec_ok (option_codec bool_codec) o.
Proof. apply opt_any_ok; [apply bool_ok|done]. Qed.
Lemma opt_address_ok o : codec_ok (option_codec address_codec) o.
Proof. apply opt_any_ok; [apply address_ok|done]. Qed.
Lemma opt_amount_ok o : codec_ok (option_codec amount_codec) o.
Proof. apply opt_any_ok; [apply amount_ok|apply amount_not_null]. Qed.
Lemma opt_distribution_ok o : codec_ok (option_codec distribution_codec) o.
Proof. apply opt_any_ok; [apply distribution_ok|done]. Qed.
Lemma opt_u64_ok o : opt_all fits_u64 o → codec_ok (option_codec u64_codec) o.
Proof. apply opt_ok; [apply u64_ok|done]. Qed.
Lemma opt_reason_ok o : opt_all reason_wf o → codec_ok (option_codec reason64_codec) o.
Proof. apply opt_ok; [apply reason64_ok|done]. Qed.
Lemma opt_memo_legacy_ok o : opt_all memo_legacy_valid o → codec_ok (option_codec memo_legacy_codec) o.
Proof. apply opt_ok; [apply memo_legacy_ok|done]. Qed.
Lemma opt_data_legacy_ok o : opt_all data_legacy_valid o → codec_ok (option_codec data_legacy_codec) o.
Proof. apply opt_ok; [apply data_legacy_ok|done]. Qed.
Lemma opt_ext_info_ok o : opt_all ext_info_wf o → codec_ok (option_codec ext_info_codec) o.
Proof. apply opt_ok; [apply ext_info_ok|done]. Qed.
Lemma indices_ok l : Forall index_wf l → codec_ok (vec_codec index_codec) l.
Proof. intros Hl. apply vec_ok. eapply Forall_impl; [exact Hl|]. apply index_ok. Qed.
Lemma summary_ok x : fits_u64 (decimals x) → codec_ok (derived D_TokenInfoSummary) x.
Proof. apply (derived_ok D_TokenInfoSummary). Qed.

Hint Resolve opt_string_ok opt_bytes_ok opt_bool_ok opt_address_ok opt_amount_ok opt_distribution_ok opt_u64_ok opt_reason_ok
  opt_memo_legacy_ok opt_data_legacy_ok opt_ext_info_ok indices_ok summary_ok response_ok transaction_ok : codec.

Lemma event_fields_ok e : event_wf e → fields_ok (event_fields (kind_of e)) (event_values e).
Proof.
  intros [Hm He]. destruct e; cbn in Hm, He; destruct_and?;
    repeat (apply conj; [first [by apply memo_field_ok | apply plain_ok; cbn [fst snd event_values]; eauto with codec]|]); try done.
Qed.

Lemma events_read_back e rest : event_wf e → event_decode (event_encode e ++ rest) = Ok (e, rest).
Proof.
  intros He. unfold event_decode, event_encode. rewrite <-!app_comm_cons, <-app_assoc.
  unfold d_map. erewrite d_read_ok by done. cbn [ok_or].
  set (fields := fields_encode _ _). d_step (d_lift (Ok (1 + N.of_nat (length fields)) : outcome string N)) (1 + N.of_nat (length fields)).
  rewrite (dec_bind_ok _ _ _ _ _ (kind_first_ok (kind_of e) _)).
  replace (1 + N.of_nat (length fields) - 1) with (N.of_nat (length fields)) by lia. unfold fields.
  rewrite (dec_bind_ok _ _ _ _ _ (slots_decode_ok _ _ rest (event_fields_distinct _) (event_fields_small _) (event_fields_ok e He))).
  rewrite unpack_filled by by apply event_fields_ok.
  d_step (d_lift (Ok (event_values e) : outcome string _)) (event_values e).
  unfold mret, dec_ret. by rewrite event_make_values.
Qed.

(** C31: Every event of the log is read back from its CBOR, whatever its kind, when it holds what the ledger can
    put in it: memos within their limits, integers of 64 bits, and no owner that is explicitly none. *)
Theorem event_roundtrip e rest : event_wf e → event_decode (event_encode e ++ rest) = Ok (e, rest).
Proof. apply events_read_back. Qed.

(** Nothing is read as an owner that is explicitly none. *)
Lemma opt_owner_never_null ts rest : c_decode opt_owner_codec ts ≠ Ok (Some OwnerNull, rest).
Proof.
  cbn [opt_owner_codec option_codec c_decode]. destruct ts as [|t ts]; [done|]. rewrite d_peek.
  assert ((x ← c_decode maybe_owner_codec; mret (Some x)) (t :: ts) = Ok (Some OwnerNull, rest) → t = TkNull) as Hn.
  2: { destruct t; try (intros Ht%Hn; done). done. }
  cbn [maybe_owner_codec c_decode either_codec address_codec null_codec]. unfold either_decode, mbind, dec_bind.
  destruct (address_decode (t :: ts)) as [[a ts']|e|?|]; [done| |done|done]. unfold d_null, d_read. by destruct t.
Qed.

(** No message says that a token has no owner any more, and no event of the log: the removal of an owner is written
    as if the owner were not mentioned, and read as such; and no bytes at all are read as a removal. *)
Theorem owner_removal_lost symbol name ticker decimals memo rest :
  opt_all memo_valid memo → opt_all fits_u64 decimals →
  event_decode (event_encode (E_TokenUpdate symbol name ticker decimals (Some OwnerNull) memo) ++ rest)
  = Ok (E_TokenUpdate symbol name ticker decimals None memo, rest)
  ∧ ∀ ts ts', c_decode opt_owner_codec ts ≠ Ok (Some OwnerNull, ts').
Proof.
  intros Hm Hd. split; [|apply opt_owner_never_null].
  change (event_encode (E_TokenUpdate symbol name ticker decimals (Some OwnerNull) memo))
    with (event_encode (E_TokenUpdate symbol name ticker decimals None memo)).
  apply events_read_back. by repeat split.
Qed.
End events.
