(* ===== verification/LedgerMigrations.v ===== *)
(** * many-ledger: its migrations

    Models [many-ledger/src/migration.rs] and the migrations it registers:
    [migration/memo.rs], [data.rs], [tokens.rs], [block_9400.rs] and the triggers
    [disable_token_create.rs], [disable_token_mint.rs], [legacy_remove_roles.rs] and
    [token_create.rs]. ([dummy_hotfix.rs] is compiled for tests only.)

    A migration runs on the store itself, [merk]. Reading the parameters of the token
    migration ([serde_json::from_value]) and the hexadecimal form of a transaction id
    ([hex::encode]) are those of the libraries. *)
From S2P Require Import Prelude Error External Address Types Account Events Migration Storage.
From S2P Require Import StorageLaws LedgerEvent Ledger Tokens MultisigSpec LedgerModule.

#[local] Open Scope string_scope.
#[local] Open Scope list_scope.
#[local] Open Scope N_scope.

(** [serde_json::from_value] at the types of the parameters. *)
Class FromJson := {
  json_string : JsonValue → outcome string string;
  json_u32 : JsonValue → outcome string N;
  json_u64 : JsonValue → outcome string N;
  json_amount : JsonValue → outcome string TokenAmount;
  json_maybe_amount : JsonValue → outcome string (option TokenAmount);
  json_maybe_address : JsonValue → outcome string (option Address);
}.

Section migrations.
Context `{LedgerEnv, FromJson, Hex}.

Abbreviation MerkM A := (ST merk ManyError A).

Definition raw_get (k : bytes) (m : merk) : outcome ManyError (option bytes) :=
  map_err storage_get_failed (merk_get m k).
Definition raw_apply (l : list BatchEntry) : MerkM unit := λ m,
  match merk_apply m l with
  | Ok m' => (m', Ok tt)
  | Err e => (m, Err (storage_apply_failed e))
  | Panic t => (m, Panic t)
  | OutOfFuel => (m, OutOfFuel)
  end.
Definition raw_commit : MerkM unit := λ m,
  match merk_commit m with
  | Ok m' => (m', Ok tt)
  | Err e => (m, Err (storage_commit_failed e))
  | Panic t => (m, Panic t)
  | OutOfFuel => (m, OutOfFuel)
  end.

(** ** [memo.rs] *)

(** The memo that stands for the two legacy fields. *)
Definition legacy_memo (memo_ : option MemoLegacy) (data_ : option DataLegacy) :
    outcome ManyError (option Memo) :=
  match memo_, data_ with
  | Some m, Some d =>
      m ← memo_from_legacy m;
      match memo_push_bytes MEMO_DATA_DEFAULT_MAX_SIZE (data_legacy d) m with
      | (m', Ok _) => Ok (Some m')
      | (_, Err e) => Err e
      | (_, Panic t) => Panic t
      | (_, OutOfFuel) => OutOfFuel
      end
  | Some m, None => m ← memo_from_legacy m; Ok (Some m)
  | None, Some d => m ← memo_from_data_legacy d; Ok (Some m)
  | None, None => Ok None
  end.

Definition migrated_event (e : EventLog) : outcome ManyError (option EventLog) :=
  match log_content e with
  | E_AccountMultisigSubmit submitter account memo_ tx token threshold timeout automatic data_ memo =>
      match memo with
      | Some _ => Ok None
      | None =>
          (λ o, (λ memo, mkEventLog (log_id e) (log_time e)
                   (E_AccountMultisigSubmit submitter account None tx token threshold timeout automatic
                      None (Some memo))) <$> (o : option Memo))
          <$> legacy_memo memo_ data_
      end
  | _ => Ok None
  end.

Definition migrated_transaction (t : MultisigTransactionStorage) :
    outcome ManyError (option MultisigTransactionStorage) :=
  let i := ms_info t in
  match mi_memo i with
  | Some _ => Ok None
  | None =>
      (λ o, (λ memo, mkMultisigStorage (ms_account t)
               (mkMultisigInfo None (mi_transaction i) (mi_submitter i) (mi_approvers i) (mi_threshold i)
                  (mi_execute_automatically i) (mi_timeout i) None (mi_state i) (Some memo))
               (ms_creation t) (ms_disabled t)) <$> (o : option Memo))
      <$> legacy_memo (mi_memo_ i) (mi_data_ i)
  end.

(** The loop over decoded entries, with the change [f]. *)
Fixpoint migration_batch {A} `{Cbor A} (f : A → outcome ManyError (option A))
    (l : list (outcome string (bytes * bytes))) : outcome ManyError (list BatchEntry) :=
  match l with
  | [] => Ok []
  | item :: l =>
      kv ← map_err unknown item;
      x ← decode_or kv.2;
      o ← f x;
      r ← migration_batch f l;
      Ok (match o with Some y => (kv.1, Put (to_vec y)) :: r | None => r end)
  end.

Definition update_multisig_submit_events : MerkM unit :=
  batch ← reads (λ m, migration_batch migrated_event (all_events m));
  raw_apply batch;;
  raw_commit.
Definition update_multisig_storage : MerkM unit :=
  batch ← reads (λ m, migration_batch migrated_transaction (all_multisig m Ascending));
  raw_apply batch;;
  raw_commit.
Definition memo_initialize : FnPtr merk ManyError := λ _,
  update_multisig_submit_events;; update_multisig_storage.
Definition MEMO_MIGRATION_INNER : InnerMigration merk ManyError :=
  new_initialize memo_initialize MEMO_MIGRATION
    "Move the database from legacy memo and data to the new memo data type.".

(** ** [data.rs] *)

Definition BALANCES_ROOT_BYTES : bytes := b "/balances".

Fixpoint count_balances (l : list (outcome string (bytes * bytes))) (unique non_zero : N) :
    outcome ManyError (N * N) :=
  match l with
  | [] => Ok (unique, non_zero)
  | item :: l =>
      kn ← map_err unknown item;
      let amount := from_bytes_be (merk_tree_value kn.1 kn.2) in
      count_balances l (wrap64 (unique + 1))
        (if token_is_zero amount then non_zero else wrap64 (non_zero + 1))
  end.
Definition get_data_from_db (m : merk) : outcome ManyError (N * N) :=
  count_balances (merk_iter m IterStart (PrefixRange BALANCES_ROOT_BYTES)) 0 0.
Definition initial_data_info : gmap DataIndex DataInfo :=
  list_to_map [(ACCOUNT_TOTAL_COUNT_INDEX, mkDataInfo TypeCounter "accountTotalCount");
               (NON_ZERO_ACCOUNT_TOTAL_COUNT_INDEX, mkDataInfo TypeCounter "nonZeroAccountTotalCount")].
Definition data_value (unique non_zero : N) : gmap DataIndex DataValue :=
  list_to_map [(ACCOUNT_TOTAL_COUNT_INDEX, DataCounter unique);
               (NON_ZERO_ACCOUNT_TOTAL_COUNT_INDEX, DataCounter non_zero)].
Definition data_initialize : FnPtr merk ManyError := λ _,
  n ← reads get_data_from_db;
  raw_apply [(DATA_ATTRIBUTES_KEY, Put (to_vec (data_value n.1 n.2)));
             (DATA_INFO_KEY, Put (to_vec initial_data_info))].
Definition ACCOUNT_COUNT_DATA_ATTRIBUTE : InnerMigration merk ManyError :=
  new_initialize data_initialize "Account Count Data Attribute"
    (nl +:+ "            Provides the total number of unique addresses." +:+ nl +:+
     "            Provides the total number of unique addresses with a non-zero balance." +:+ nl +:+
     "            ").

(** ** [tokens.rs] *)

Definition migrate_account_identity : MerkM unit :=
  o ← reads (raw_get (b IDENTITY_ROOT));
  root_identity ← lift (ok_or o (storage_key_not_found IDENTITY_ROOT));
  c ← reads (raw_get (b ACCOUNT_SUBRESOURCE_ID_ROOT));
  counter ← lift (read_be_or_zero 4 c);
  root_address ← lift (from_bytes root_identity);
  raw_apply [(b ACCOUNT_SUBRESOURCE_ID_ROOT, Delete);
             (b ACCOUNT_IDENTITY_ROOT, Put root_identity);
             (key_for_subresource_counter root_address true, Put (be_bytes 4 counter))].

Definition token_params : list string :=
  ["token_identity"; "token_next_subresource"; "symbol"; "symbol_name"; "symbol_decimals";
   "symbol_total"; "symbol_circulating"; "symbol_maximum"; "symbol_owner"].
Fixpoint check_params (x : Extra) (l : list string) : outcome ManyError unit :=
  match l with
  | [] => Ok tt
  | p :: l =>
      if bool_decide (is_Some (x !! p)) then check_params x l
      else Err (unknown ("Missing extra parameter '" +:+ p +:+ "' for Token Migration"))
  end.
(** [serde_json::from_value(extra[p].clone()).map_err(ManyError::deserialization_error)]. *)
Definition param {A} (f : JsonValue → outcome string A) (x : Extra) (p : string) : outcome ManyError A :=
  match x !! p with
  | Some v => map_err deserialization_error (f v)
  | None => Panic "no entry found for key"
  end.

Definition migrate_token (x : Extra) : MerkM unit :=
  lift (check_params x token_params);;
  ti ← lift (param json_string x "token_identity");
  token_identity ← lift (address_from_str ti);
  token_next_subresource ← lift (param json_u32 x "token_next_subresource");
  sy ← lift (param json_string x "symbol");
  symbol ← lift (address_from_str sy);
  o ← reads (raw_get (b SYMBOLS_ROOT));
  enc ← lift (ok_or o (storage_key_not_found SYMBOLS_ROOT));
  symbol_and_ticker ← lift (decode_or (A := gmap Address string) enc);
  tick ← lift (ok_or (symbol_and_ticker !! symbol)
                 (unknown ("Symbol " +:+ address_to_string symbol +:+ " not found in DB")));
  name ← lift (param json_string x "symbol_name");
  decimals ← lift (param json_u64 x "symbol_decimals");
  total ← lift (param json_amount x "symbol_total");
  circulating ← lift (param json_amount x "symbol_circulating");
  maximum ← lift (param json_maybe_amount x "symbol_maximum");
  owner ← lift (param json_maybe_address x "symbol_owner");
  let info := mkTokenInfo symbol (mkSummary name tick decimals)
                (mkSupply total circulating maximum) owner in
  raw_apply [(key_for_ext_info symbol, Put (to_vec ext_new));
             (key_for_subresource_counter token_identity true, Put (be_bytes 4 token_next_subresource));
             (key_for_symbol symbol, Put (to_vec info));
             (b TOKEN_IDENTITY_ROOT, Put (address_to_vec token_identity))].

Definition token_initialize : FnPtr merk ManyError := λ x,
  migrate_account_identity;; migrate_token x.
Definition TOKEN_MIGRATION_INNER : InnerMigration merk ManyError :=
  new_initialize token_initialize TOKEN_MIGRATION
    "Move the database to new subresource counter and new token metadata".

(** ** [block_9400.rs] *)

Definition BLOCK_9400_TX_ID : string := "241e00000001".
Definition BLOCK_9400_NEW_TIMESTAMP : N := 1658348752.
Definition block_9400 (l : bytes) : option bytes :=
  match decode l with
  | Ok tx =>
      if bool_decide (hex_encode (tx_id tx) = BLOCK_9400_TX_ID) then
        let r := tx_response tx in
        Some (to_vec (mkResponse (resp_version r) (resp_from r) (resp_to r) (resp_data r)
                        (Some BLOCK_9400_NEW_TIMESTAMP) (resp_id r) (resp_attributes r)))
      else None
  | _ => None
  end.
Definition B9400 : InnerMigration merk ManyError :=
  new_hotfix block_9400 "Block 9400"
    ("Fix Block 9400 timestamp. Lifted Initiative Ledger network." +:+ nl +:+
     "        https://github.com/liftedinit/many-framework/issues/205").

(** ** Triggers, and the registry *)

Definition DISABLE_TOKEN_CREATE_INNER : InnerMigration merk ManyError :=
  new_trigger false DISABLE_TOKEN_CREATE_MIGRATION "Disables token creation for all".
Definition DISABLE_TOKEN_MINT_INNER : InnerMigration merk ManyError :=
  new_trigger false DISABLE_TOKEN_MINT_MIGRATION "Disables token mint for all".
Definition LEGACY_REMOVE_ROLES_INNER : InnerMigration merk ManyError :=
  new_trigger true LEGACY_REMOVE_ROLES_TRIGGER "Trigger a legacy bug in role removal.".
Definition TOKEN_CREATE_INNER : InnerMigration merk ManyError :=
  new_trigger false TOKEN_CREATE_MIGRATION "Enables token creation for all".

(** [MIGRATIONS]; the linker chooses the order, which no name clash makes matter. *)
Definition MIGRATIONS : list (InnerMigration merk ManyError) :=
  [B9400; ACCOUNT_COUNT_DATA_ATTRIBUTE; DISABLE_TOKEN_CREATE_INNER; DISABLE_TOKEN_MINT_INNER;
   LEGACY_REMOVE_ROLES_INNER; MEMO_MIGRATION_INNER; TOKEN_CREATE_INNER; TOKEN_MIGRATION_INNER].
End migrations.

(** ** Laws *)

Section migration_laws.
Context `{LedgerEnv, !LedgerEnvLaws, FromJson, Hex}.

Lemma raw_apply_ok_inv l m m' u :
  raw_apply l m = (m', Ok u) → merk_view m' = apply_batch (merk_view m) l.
Proof.
  unfold raw_apply. destruct (decide (keys_ascending l)) as [Hl|Hl].
  - destruct (merk_apply_ok m l Hl) as (m1 & -> & Hv & _). by intros [= <- _].
  - destruct (merk_apply_err m l Hl) as (e & ->). done.
Qed.

Lemma raw_get_view k m : raw_get k m = Ok (merk_view m !! k).
Proof. unfold raw_get. by rewrite merk_get_view. Qed.

Lemma counter_key_inj a c :
  key_for_subresource_counter a true = key_for_subresource_counter c true → a = c.
Proof. intros Hk%(inj (app _)). by apply ab_inj. Qed.

Lemma migrate_account_identity_inv m m' :
  migrate_account_identity m = (m', Ok tt) →
  ∃ root l n, merk_view m !! b IDENTITY_ROOT = Some l ∧ from_bytes l = Ok root
    ∧ read_be_or_zero 4 (merk_view m !! b ACCOUNT_SUBRESOURCE_ID_ROOT) = Ok n
    ∧ merk_view m' = <[key_for_subresource_counter root true := be_bytes 4 n]>
        (<[b ACCOUNT_IDENTITY_ROOT := l]> (delete (b ACCOUNT_SUBRESOURCE_ID_ROOT) (merk_view m))).
Proof.
  unfold migrate_account_identity. intros (o & Ho & Hr)%reads_ok_inv. rewrite raw_get_view in Ho.
  apply lift_ok_inv in Hr as (l & Hl & Hr). apply reads_ok_inv in Hr as (c & Hc & Hr).
  rewrite raw_get_view in Hc. apply lift_ok_inv in Hr as (n & Hn & Hr).
  apply lift_ok_inv in Hr as (root & Hroot & Hr%raw_apply_ok_inv).
  injection Ho as Ho. injection Hc as Hc. exists root, l, n. rewrite Hc. split_and!; auto.
  rewrite Ho. destruct o; simpl in Hl; by simplify_eq.
Qed.

Lemma migrate_token_inv x m m' :
  migrate_token x m = (m', Ok tt) →
  ∃ tid next symbol info txt v w,
    x !! "token_identity" = Some v ∧ json_string v = Ok txt ∧ address_from_str txt = Ok tid
    ∧ x !! "token_next_subresource" = Some w ∧ json_u32 w = Ok next
    ∧ merk_view m' = <[b TOKEN_IDENTITY_ROOT := address_to_vec tid]>
        (<[key_for_symbol symbol := to_vec (info : TokenInfo)]>
        (<[key_for_subresource_counter tid true := be_bytes 4 next]>
        (<[key_for_ext_info symbol := to_vec ext_new]> (merk_view m)))).
Proof.
  unfold migrate_token. intros ([] & _ & Hr)%lift_ok_inv.
  apply lift_ok_inv in Hr as (txt & Htxt & Hr). apply lift_ok_inv in Hr as (tid & Htid & Hr).
  apply lift_ok_inv in Hr as (next & Hnext & Hr). apply lift_ok_inv in Hr as (sy & _ & Hr).
  apply lift_ok_inv in Hr as (symbol & _ & Hr). apply reads_ok_inv in Hr as (o & _ & Hr).
  do 3 (apply lift_ok_inv in Hr as (? & _ & Hr)).
  apply lift_ok_inv in Hr as (name & _ & Hr). apply lift_ok_inv in Hr as (decimals & _ & Hr).
  apply lift_ok_inv in Hr as (total & _ & Hr). apply lift_ok_inv in Hr as (circ & _ & Hr).
  apply lift_ok_inv in Hr as (maxi & _ & Hr). apply lift_ok_inv in Hr as (owner & _ & Hr).
  cbv zeta in Hr. apply raw_apply_ok_inv in Hr.
  unfold param in Htxt, Hnext.
  destruct (x !! "token_identity") as [v|]; [|done]. destruct (x !! "token_next_subresource") as [w|]; [|done].
  destruct (json_string v) as [txt'| | |] eqn:Ev; simplify_eq/=.
  destruct (json_u32 w) as [next'| | |] eqn:Ew; simplify_eq/=.
  eexists tid, next, symbol, _, txt, v, w. do 5 (split; [done|]). exact Hr.
Qed.

(** the token migration gives the accounts their own identity, the one of the server,
    and moves their subresource counter to that identity's own key, deleting the old one, so
    that new accounts go on with unused ids. But when the token identity is the server identity too,
    the counter for tokens, a parameter, takes its place: ids of existing accounts below the old
    counter may be given out again. *)
Theorem token_migration_counters x m m' :
  token_initialize x m = (m', Ok tt) →
  ∃ root l n tid next txt v w,
    merk_view m !! b IDENTITY_ROOT = Some l ∧ from_bytes l = Ok root
    ∧ read_be_or_zero 4 (merk_view m !! b ACCOUNT_SUBRESOURCE_ID_ROOT) = Ok n
    ∧ x !! "token_identity" = Some v ∧ json_string v = Ok txt ∧ address_from_str txt = Ok tid
    ∧ x !! "token_next_subresource" = Some w ∧ json_u32 w = Ok next
    ∧ merk_view m' !! b ACCOUNT_IDENTITY_ROOT = Some l
    ∧ merk_view m' !! b ACCOUNT_SUBRESOURCE_ID_ROOT = None
    ∧ merk_view m' !! b TOKEN_IDENTITY_ROOT = Some (address_to_vec tid)
    ∧ merk_view m' !! key_for_subresource_counter root true
      = Some (be_bytes 4 (if bool_decide (tid = root) then next else n))
    ∧ merk_view m' !! key_for_subresource_counter tid true = Some (be_bytes 4 next).
Proof.
  unfold token_initialize. intros (m1 & [] & Ha%migrate_account_identity_inv & Hb%migrate_token_inv)%bind_ok_inv.
  destruct Ha as (root & l & n & Hl & Hroot & Hn & Hv1).
  destruct Hb as (tid & next & symbol & info & txt & v & w & Hv & Htxt & Htid & Hw & Hnext & Hv2).
  exists root, l, n, tid, next, txt, v, w. do 8 (split; [done|]). rewrite Hv2. split_and!.
  - rewrite !lookup_insert_ne by key_discr. rewrite Hv1, lookup_insert_ne by key_discr.
    by rewrite lookup_insert_eq.
  - rewrite !lookup_insert_ne by key_discr. rewrite Hv1, !lookup_insert_ne by key_discr.
    by rewrite lookup_delete_eq.
  - by rewrite lookup_insert_eq.
  - rewrite !(lookup_insert_ne _ _ (key_for_subresource_counter root true)) by key_discr.
    case_bool_decide as Heq; [subst; by rewrite lookup_insert_eq|].
    rewrite lookup_insert_ne by (by intros ?%counter_key_inj).
    by rewrite lookup_insert_ne, Hv1, lookup_insert_eq by key_discr.
  - rewrite !(lookup_insert_ne _ _ (key_for_subresource_counter tid true)) by key_discr.
    by rewrite lookup_insert_eq.
Qed.
End migration_laws.
