(* ===== verification/IdStore.v ===== *)
(** * many-ledger: the identity store

    Models [many-ledger/src/storage/idstore.rs] (the credentials of web authenticators,
    stored under a recall phrase and under an address), [module/idstore.rs] (the handlers
    of the [idstore] attribute), [module/idstore_webauthn.rs] (the check of the envelope) and
    the types and errors of [many-modules/src/_1002_idstore].

    The word list and the checksum of BIP 39 ([bip39_dict]), the parsing of COSE keys
    ([coset]), base64 ([base64]) and the CBOR of the stored types are those of the libraries. *)
From S2P Require Import Prelude Error External Address Types Account Events Migration Storage.
From S2P Require Import StorageLaws.

#[local] Open Scope string_scope.
#[local] Open Scope list_scope.
#[local] Open Scope N_scope.

(** ** Types and errors *)

Abbreviation RecallPhrase := (list string).
Record CredentialId : Type := mkCredentialId { cred_bytes : bytes }.
Record PublicKey : Type := mkPublicKey { key_bytes : bytes }.
Record CredentialStorage : Type := mkCredential { cs_cred_id : CredentialId; cs_public_key : PublicKey }.
Record StoreArgs : Type := mkStoreArgs {
  st_address : Address;
  st_cred_id : CredentialId;
  st_public_key : PublicKey;
}.
Record GetReturns : Type := mkGetReturns { get_cred_id : CredentialId; get_public_key : PublicKey }.

Definition existing_entry : ManyError :=
  attribute_specific 1002 1 "The entry key already exists in the storage." [].
Definition entry_not_found (e : string) : ManyError :=
  attribute_specific 1002 2 "Storage was unable to find entry: '{entry}'." [("entry", e)].
Definition invalid_address (a : string) : ManyError :=
  attribute_specific 1002 3 "The identity '{addr}' is invalid." [("addr", a)].
Definition invalid_credential_id (c : string) : ManyError :=
  attribute_specific 1002 4 "The credential ID '{cred_id}' is invalid." [("cred_id", c)].
Definition recall_phrase_generation_failed : ManyError :=
  attribute_specific 1002 5 "The recall phrase generation failed." [].

(** ** The libraries *)

Class IdStoreEnv := {
  cbor_recall_phrase :: Cbor RecallPhrase;
  cbor_credential :: Cbor CredentialStorage;
  idstore_hex :: Hex;
  base64_decode : string → option bytes;
  (** [CoseKey::from_slice]; the key itself is not used. *)
  cose_key_from_slice : bytes → outcome string unit;
  (** [Entropy::<FB>::to_mnemonics::<W, CS>] with the English word list, as text; no value where
      the sizes do not fit. *)
  mnemonic_text (W FB CS : nat) : bytes → option string;
}.
Class IdStoreLaws `{IdStoreEnv} : Prop := {
  laws_recall_phrase :: CborLaws RecallPhrase (λ _, True);
  laws_credential :: CborLaws CredentialStorage (λ _, True);
}.

(** [split_whitespace], on the ASCII text of a mnemonic: [word] is the word being read. *)
Definition is_space (c : ascii) : bool :=
  let n := N_of_ascii c in (n =? 32) || ((9 <=? n) && (n <=? 13)).
Definition flush (word : string) (rest : list string) : list string :=
  if bool_decide (word = "") then rest else word :: rest.
Fixpoint split_whitespace (word : string) (s : string) : list string :=
  match s with
  | EmptyString => flush word []
  | String c s =>
      if is_space c then flush word (split_whitespace "" s)
      else split_whitespace (word +:+ String c EmptyString) s
  end.

(** ** Storage *)

Inductive IdStoreRootSeparator : Type := SepRecallPhrase | SepAddress.
Definition separator_value (s : IdStoreRootSeparator) : bytes :=
  match s with SepRecallPhrase => b "00" | SepAddress => b "01" end.

Section idstore.
Context `{LedgerEnv, IdStoreEnv}.

Definition IDSTORE_ROOT : bytes := b "/idstore/".
Definition IDSTORE_SEED_ROOT : bytes := b "/config/idstore_seed".
Definition idstore_key (sep : IdStoreRootSeparator) (key : bytes) : bytes :=
  IDSTORE_ROOT ++ separator_value sep ++ key.

(** The keys of the initial state, decoded; a later entry replaces an earlier one. *)
Fixpoint decode_keys (l : list (string * string)) (acc : gmap bytes bytes) :
    outcome ManyError (gmap bytes bytes) :=
  match l with
  | [] => Ok acc
  | (k, v) :: l =>
      match base64_decode k with
      | None => Panic "Invalid base64 for key"
      | Some k =>
          match base64_decode v with
          | None => Panic "Invalid base64 for value"
          | Some v => decode_keys l (<[k := v]> acc)
          end
      end
  end.
Fixpoint apply_keys (l : list (bytes * bytes)) : LedgerM unit :=
  match l with
  | [] => mret tt
  | (k, v) :: l => store_apply [(k, Put v)];; apply_keys l
  end.
Definition with_idstore (maybe_seed : option N) (maybe_keys : option (gmap string string)) :
    LedgerM unit :=
  keys ← lift match maybe_keys with
              | Some m => Some <$> decode_keys (btree_iter m) ∅
              | None => Ok None
              end;
  match maybe_seed with
  | Some seed => store_apply [(IDSTORE_SEED_ROOT, Put (be_bytes 8 seed))]
  | None => mret tt
  end;;
  match keys with Some m => apply_keys (btree_iter m) | None => mret tt end.

Definition get_idstore_seed (s : LedgerStorage) : outcome ManyError N :=
  o ← store_get s IDSTORE_SEED_ROOT; read_be_or_zero 8 o.
Definition inc_idstore_seed : LedgerM N :=
  idstore_seed ← reads get_idstore_seed;
  store_apply [(IDSTORE_SEED_ROOT, Put (be_bytes 8 (wrap64 (idstore_seed + 1))))];;
  maybe_commit;;
  mret idstore_seed.

Definition store (recall_phrase : RecallPhrase) (address : Address) (cred_id : CredentialId)
    (public_key : PublicKey) : LedgerM (list bytes) :=
  let recall_phrase_cbor := to_vec recall_phrase in
  o ← reads (λ s, store_get s recall_phrase_cbor);
  if bool_decide (is_Some o) then fails existing_entry
  else
    let value := to_vec (mkCredential cred_id public_key) in
    let k1 := idstore_key SepRecallPhrase recall_phrase_cbor in
    let k2 := idstore_key SepAddress (address_to_vec address) in
    store_apply [(k1, Put value); (k2, Put value)];;
    maybe_commit;;
    mret [recall_phrase_cbor; k1; k2].

Definition get_from_storage (s : LedgerStorage) (key : bytes) (sep : IdStoreRootSeparator) :
    outcome ManyError (option bytes * bytes) :=
  let key := idstore_key sep key in
  value ← store_get s key; Ok (value, key).
Definition get_from_recall_phrase (s : LedgerStorage) (recall_phrase : RecallPhrase) :
    outcome ManyError (CredentialId * PublicKey * bytes) :=
  p ← get_from_storage s (to_vec recall_phrase) SepRecallPhrase;
  match p with
  | (Some value, storage_key) =>
      c ← decode_or value; Ok (cs_cred_id c, cs_public_key c, storage_key)
  | (None, _) => Err (entry_not_found (String.concat " " recall_phrase))
  end.
Definition get_from_address (s : LedgerStorage) (address : Address) :
    outcome ManyError (CredentialId * PublicKey * bytes) :=
  p ← get_from_storage s (address_to_vec address) SepAddress;
  match p with
  | (Some value, storage_key) =>
      c ← decode_or value; Ok (cs_cred_id c, cs_public_key c, storage_key)
  | (None, _) => Err (entry_not_found (address_to_string address))
  end.

(** ** Handlers *)

Definition generate_recall_phrase (W FB CS : nat) (seed : bytes) : outcome ManyError RecallPhrase :=
  if negb (length seed =? FB)%nat then Err (unknown "Unable to generate entropy")
  else match mnemonic_text W FB CS seed with
       | Some t => Ok (split_whitespace "" t)
       | None => Panic "called `Result::unwrap()` on an `Err` value"
       end.
Definition recall_phrase_of_seed (seed : N) : outcome ManyError RecallPhrase :=
  let be := be_bytes 8 seed in
  if seed <=? 0xFFFF then generate_recall_phrase 2 2 6 (drop 6 be)
  else if seed <=? 0xFFFFFF then generate_recall_phrase 3 4 1 (drop 4 be)
  else if seed <=? 0xFFFFFFFF then generate_recall_phrase 4 5 4 (drop 3 be)
  else if seed <=? 0xFFFFFFFFFF then generate_recall_phrase 5 6 7 (drop 2 be)
  else Panic "not implemented".

(** The [loop]; [tries] are left ([current_try] is [9 - tries]). *)
Fixpoint find_recall_phrase (tries : nat) : LedgerM RecallPhrase :=
  match tries with
  | O => fails recall_phrase_generation_failed
  | S tries =>
      seed ← inc_idstore_seed;
      recall_phrase ← lift (recall_phrase_of_seed seed);
      found ← catch (reads (λ s, get_from_recall_phrase s recall_phrase));
      if is_ok found then find_recall_phrase tries else mret recall_phrase
  end.

Definition idstore_store (sender : Address) (args : StoreArgs) : LedgerM RecallPhrase :=
  if is_anonymous sender then fails invalid_identity
  else if negb (is_public_key (st_address args)) then
    fails (invalid_address (address_to_string (st_address args)))
  else if negb ((16 <=? length (cred_bytes (st_cred_id args)))
                && (length (cred_bytes (st_cred_id args)) <=? 1023))%nat then
    fails (invalid_credential_id (hex_encode (cred_bytes (st_cred_id args))))
  else
    lift (map_err deserialization_error (cose_key_from_slice (key_bytes (st_public_key args))));;
    recall_phrase ← find_recall_phrase 8;
    store recall_phrase (st_address args) (st_cred_id args) (st_public_key args);;
    mret recall_phrase.
Definition idstore_get_from_recall_phrase (s : LedgerStorage) (p : RecallPhrase) :
    outcome ManyError GetReturns :=
  r ← get_from_recall_phrase s p; Ok (mkGetReturns r.1.1 r.1.2).
Definition idstore_get_from_address (s : LedgerStorage) (a : Address) :
    outcome ManyError GetReturns :=
  r ← get_from_address s a; Ok (mkGetReturns r.1.1 r.1.2).
End idstore.

(** [IdStoreWebAuthnModule::validate]; [inner] is the answer of the generated module. *)
Definition webauthn_validate (check_webauthn : bool) (inner : outcome ManyError unit) :
    outcome ManyError unit :=
  match inner with
  | Err e =>
      if bool_decide (code e = NonWebAuthnRequestDenied) && negb check_webauthn then Ok tt else Err e
  | r => r
  end.

(** ** Laws *)

Section idstore_laws.
Context `{LedgerEnv, !LedgerEnvLaws, IdStoreEnv, !IdStoreLaws}.
Implicit Types (s : LedgerStorage) (p q : RecallPhrase).
#[local] Arguments be_bytes : simpl never.

(** The entries, and everything the reads see of them, are those of the view. *)
Lemma get_from_recall_phrase_view s s' p :
  view s' !! idstore_key SepRecallPhrase (to_vec p) = view s !! idstore_key SepRecallPhrase (to_vec p) →
  get_from_recall_phrase s' p = get_from_recall_phrase s p.
Proof. intros Hv. unfold get_from_recall_phrase, get_from_storage. by rewrite !store_get_view, Hv. Qed.
Lemma get_from_address_view s s' a :
  view s' !! idstore_key SepAddress (address_to_vec a) = view s !! idstore_key SepAddress (address_to_vec a) →
  get_from_address s' a = get_from_address s a.
Proof. intros Hv. unfold get_from_address, get_from_storage. by rewrite !store_get_view, Hv. Qed.

Lemma idstore_key_inj sep1 sep2 k1 k2 :
  idstore_key sep1 k1 = idstore_key sep2 k2 → sep1 = sep2 ∧ k1 = k2.
Proof. intros Hk%(inj (app _)). destruct sep1, sep2; try discriminate Hk; by simplify_eq/=. Qed.
Lemma recall_phrase_cbor_inj p q : to_vec p = to_vec q → p = q.
Proof.
  intros Hv. assert (decode (A := RecallPhrase) (to_vec p) = decode (to_vec q)) as Hd by (by rewrite Hv).
  rewrite !(decode_to_vec (A := RecallPhrase)) in Hd by done. by injection Hd.
Qed.
Lemma idstore_key_seed sep k : idstore_key sep k ≠ IDSTORE_SEED_ROOT.
Proof. destruct sep; discriminate. Qed.

Lemma inc_idstore_seed_ok s n :
  get_idstore_seed s = Ok n →
  ∃ s', inc_idstore_seed s = (s', Ok n)
    ∧ view s' = <[IDSTORE_SEED_ROOT := be_bytes 8 (wrap64 (n + 1))]> (view s).
Proof.
  intros Hn. unfold inc_idstore_seed. erewrite (bind_reads _ _ s) by exact Hn.
  destruct (store_apply_one IDSTORE_SEED_ROOT (Put (be_bytes 8 (wrap64 (n + 1)))) s) as (s1 & E1 & V1 & _).
  rewrite (bind_ok _ _ _ _ _ E1). destruct (maybe_commit_ok s1) as (s2 & E2 & V2 & _).
  rewrite (bind_ok _ _ _ _ _ E2). exists s2. split; [done|]. by rewrite V2, V1.
Qed.

Lemma get_idstore_seed_insert s n m :
  view s = <[IDSTORE_SEED_ROOT := be_bytes 8 (wrap64 n)]> m → get_idstore_seed s = Ok (wrap64 n).
Proof.
  intros Hv. unfold get_idstore_seed. rewrite store_get_view, Hv, lookup_insert_eq.
  change (read_be 8 (be_bytes 8 (wrap64 n)) = Ok (wrap64 n)).
  unfold read_be. rewrite length_be_bytes, be_value_be_bytes. cbn [Nat.eqb]. f_equal.
  unfold wrap64. rewrite N.mod_small; [done|]. apply N.mod_lt. done.
Qed.

(** The phrase found is free; the loop changes nothing but the seed, which it advances by one
    per try. *)
Lemma find_recall_phrase_ok tries s s' n p :
  get_idstore_seed s = Ok n → find_recall_phrase tries s = (s', Ok p) →
  (∃ e, get_from_recall_phrase s p = Err e)
  ∧ ∃ k, (k < tries)%nat
      ∧ recall_phrase_of_seed (if (k =? 0)%nat then n else wrap64 (n + N.of_nat k)) = Ok p
      ∧ view s' = <[IDSTORE_SEED_ROOT := be_bytes 8 (wrap64 (n + N.of_nat k + 1))]> (view s).
Proof.
  revert s n. induction tries as [|tries IH]; intros s n Hn Hr; [done|].
  destruct (inc_idstore_seed_ok s n Hn) as (s1 & E1 & V1). simpl in Hr.
  rewrite (bind_ok _ _ _ _ _ E1) in Hr. apply lift_ok_inv in Hr as (q & Hq & Hr).
  assert (∀ q, get_from_recall_phrase s1 q = get_from_recall_phrase s q) as Hsame.
  { intros q'. apply get_from_recall_phrase_view. rewrite V1, lookup_insert_ne; [done|].
    apply not_eq_sym, idstore_key_seed. }
  apply bind_ok_inv in Hr as (s2 & found & Hc & Hr). unfold catch, reads in Hc.
  destruct (get_from_recall_phrase s1 q) as [x|e|t|] eqn:Eq; simplify_eq/=.
  - pose proof (get_idstore_seed_insert _ _ _ V1) as Hn1.
    destruct (IH _ _ Hn1 Hr) as [(e & He) (k & Hk & Hp & Hv)]. rewrite Hsame in He.
    split; [eauto|]. exists (S k). split; [lia|].
    assert (∀ d, wrap64 (wrap64 (n + 1) + d) = wrap64 (n + 1 + d)) as Hw.
    { intros d. unfold wrap64. by rewrite N.Div0.add_mod_idemp_l. }
    replace (n + N.of_nat (S k)) with (n + 1 + N.of_nat k) by lia. split.
    + destruct k as [|k]; [by rewrite N.add_0_r|]. simpl. by rewrite <-Hw.
    + rewrite Hv, V1, insert_insert_eq. by rewrite <-N.add_assoc, Hw, N.add_assoc.
  - injection Hr as <- <-. rewrite Hsame in Eq. split; [eauto|]. exists 0%nat. split; [lia|]. split; [done|].
    by rewrite N.add_0_r.
Qed.

Lemma store_inv p a c k s s' l :
  store p a c k s = (s', Ok l) →
  view s' = <[idstore_key SepAddress (address_to_vec a) := to_vec (mkCredential c k)]>
    (<[idstore_key SepRecallPhrase (to_vec p) := to_vec (mkCredential c k)]> (view s)).
Proof.
  unfold store. cbv zeta. rewrite bind_get. case_bool_decide; [done|].
  assert (keys_ascending [(idstore_key SepRecallPhrase (to_vec p), Put (to_vec (mkCredential c k)));
    (idstore_key SepAddress (address_to_vec a), Put (to_vec (mkCredential c k)))]) as Hasc.
  { apply keys_ascending_pair. unfold idstore_key. rewrite lexico_app. right. split; [done|]. by left. }
  destruct (store_apply_with_ok storage_apply_failed _ s Hasc) as (s1 & E1 & V1 & _).
  unfold store_apply. rewrite (bind_ok _ _ _ _ _ E1).
  destruct (maybe_commit_ok s1) as (s2 & E2 & V2 & _). rewrite (bind_ok _ _ _ _ _ E2).
  intros [= <- _]. by rewrite V2, V1.
Qed.

(** storing a credential gives a recall phrase that nothing was stored
    under, and afterwards the credential is found under that phrase and under the address;
    what is stored under any other phrase or address is as before. The phrase is made from one
    of at most eight seeds from the stored one on, and the stored seed moves past it. *)
Theorem idstore_roundtrip sender args n s s' p :
  get_idstore_seed s = Ok n → idstore_store sender args s = (s', Ok p) →
  is_anonymous sender = false ∧ is_public_key (st_address args) = true
  ∧ (16 ≤ length (cred_bytes (st_cred_id args)) ≤ 1023)%nat
  ∧ (∃ e, get_from_recall_phrase s p = Err e)
  ∧ idstore_get_from_recall_phrase s' p = Ok (mkGetReturns (st_cred_id args) (st_public_key args))
  ∧ idstore_get_from_address s' (st_address args)
    = Ok (mkGetReturns (st_cred_id args) (st_public_key args))
  ∧ (∀ q, q ≠ p → get_from_recall_phrase s' q = get_from_recall_phrase s q)
  ∧ (∀ a, a ≠ st_address args → get_from_address s' a = get_from_address s a)
  ∧ ∃ k, (k < 8)%nat
      ∧ recall_phrase_of_seed (if (k =? 0)%nat then n else wrap64 (n + N.of_nat k)) = Ok p
      ∧ get_idstore_seed s' = Ok (wrap64 (n + N.of_nat k + 1)).
Proof.
  intros Hn. unfold idstore_store. destruct (is_anonymous sender); [done|].
  destruct (is_public_key _); [|done]. destruct (_ && _) eqn:Hlen; [|done]. cbn [negb].
  apply andb_true_iff in Hlen as [?%Nat.leb_le ?%Nat.leb_le].
  intros (? & _ & Hr)%lift_ok_inv. apply bind_ok_inv in Hr as (s1 & q & Hq & Hr).
  apply bind_ok_inv in Hr as (s2 & l & Hst & [= -> ->]).
  destruct (find_recall_phrase_ok _ _ _ _ _ Hn Hq) as (He & k & Hk & Hp & V1).
  apply store_inv in Hst. rewrite V1 in Hst.
  split_and!; try done.
  - unfold idstore_get_from_recall_phrase, get_from_recall_phrase, get_from_storage.
    rewrite store_get_view, Hst, lookup_insert_ne, lookup_insert_eq
      by (by intros [? _]%idstore_key_inj). simpl.
    unfold decode_or. by rewrite (decode_to_vec (A := CredentialStorage)).
  - unfold idstore_get_from_address, get_from_address, get_from_storage.
    rewrite store_get_view, Hst, lookup_insert_eq. simpl.
    unfold decode_or. by rewrite (decode_to_vec (A := CredentialStorage)).
  - intros q Hne. apply get_from_recall_phrase_view. rewrite Hst, !lookup_insert_ne; [done|..].
    + apply not_eq_sym, idstore_key_seed.
    + by intros [_ ?%recall_phrase_cbor_inj]%idstore_key_inj.
    + by intros [? _]%idstore_key_inj.
  - intros a Hne. apply get_from_address_view. rewrite Hst, !lookup_insert_ne; [done|..].
    + apply not_eq_sym, idstore_key_seed.
    + by intros [? _]%idstore_key_inj.
    + by intros [_ ?%to_vec_inj]%idstore_key_inj.
  - exists k. split_and!; [done..|]. eapply get_idstore_seed_insert.
    rewrite Hst, !(insert_insert_ne _ _ IDSTORE_SEED_ROOT) by apply idstore_key_seed. done.
Qed.
End idstore_laws.
