(* ===== verification/Genesis.v ===== *)
(** * many-ledger: the genesis file and the opening of a ledger

    Models [many-ledger/src/json.rs] (the schema of the initial state, the resolution of
    token names, the conversion of accounts and metadata), [module.rs]
    ([LedgerModuleImpl::new] and [load]: the order in which the builders of the storage are
    called, and the check of the hash) and the part of [main.rs] that chooses between an
    existing database and a genesis file.

    The text of JSON and JSON5 is that of the libraries: [json5_state] and
    [json_migrations] are what [serde] makes of a text, [json_value] is [serde_json]'s
    [Value] and [multisig_arg_of] what it makes of one as an argument of the multisig feature. *)
From S2P Require Import Prelude Error External Address Types Account Events Migration Storage.
From S2P Require Import LedgerEvent Ledger Tokens AccountStorage IdStore.

#[local] Open Scope string_scope.
#[local] Open Scope list_scope.
#[local] Open Scope N_scope.

Definition invalid_initial_state (expected actual : string) : ManyError :=
  attribute_specific 2 5 "Invalid initial state hash. Expected '{expected}', was '{actual}'."
    [("expected", expected); ("actual", actual)].

(** ** The schema *)

Record MultisigFeatureArgJson : Type := mkMultisigArgJson {
  mj_threshold : option N;
  mj_timeout_in_secs : option N;
  mj_execute_automatically : option bool;
}.

Section schema.
Context {json_value : Type}.

Record FeatureJson : Type := mkFeatureJson { fj_id : N; fj_arg : option json_value }.

(** [features] is a [BTreeSet] of features that are compared by their id: a map from the id. *)
Record AccountJson : Type := mkAccountJson {
  aj_id : option Address;
  aj_subresource_id : option N;
  aj_description : option string;
  aj_roles : gmap Address (gset string);
  aj_features : gmap N (option json_value);
}.
Record SymbolMetaJson : Type := mkSymbolMetaJson {
  smj_name : string;
  smj_decimals : N;
  smj_owner : option Address;
  smj_maximum : option TokenAmount;
}.
Record InitialStateJson : Type := mkInitialState {
  is_identity : Address;
  is_initial : gmap Address (gmap string TokenAmount);
  is_token_identity : option Address;
  is_account_identity : option Address;
  is_token_next_subresource : option N;
  is_symbols : gmap Address string;
  is_symbols_meta : option (gmap Address SymbolMetaJson);
  is_accounts : option (list AccountJson);
  is_id_store_seed : option N;
  is_id_store_keys : option (gmap string string);
  is_hash : option string;
}.

(** *** The order of features *)

Definition FeatureJson_eqb (x y : FeatureJson) : bool := fj_id x =? fj_id y.
Definition FeatureJson_cmp (x y : FeatureJson) : comparison := fj_id x ?= fj_id y.

Definition SymbolMeta_of_json (m : SymbolMetaJson) : SymbolMeta :=
  mkSymbolMeta (smj_name m) (smj_decimals m) (smj_owner m) (smj_maximum m).
End schema.
Arguments FeatureJson : clear implicits.
Arguments AccountJson : clear implicits.
Arguments InitialStateJson : clear implicits.

(** ** The libraries *)

Class GenesisEnv := {
  json_value : Type;
  (** [serde_json::from_str(&serde_json::to_string(a))] as a [MultisigFeatureArgJson]. *)
  multisig_arg_of : json_value → outcome string MultisigFeatureArgJson;
  (** [json5::from_str] as an initial state, [serde_json::from_str] as a configuration. *)
  json5_state : string → outcome string (InitialStateJson json_value);
  json_migrations : string → outcome string MigrationConfig;
}.

(** [r.expect(message)]. *)
Definition expect {E F A} (message : string) (o : outcome E A) : outcome F A :=
  match o with
  | Ok a => Ok a
  | Err _ => Panic message
  | Panic t => Panic t
  | OutOfFuel => OutOfFuel
  end.
Definition expect_some {E A} (message : string) (o : option A) : outcome E A :=
  match o with Some a => Ok a | None => Panic message end.

Section genesis.
Context `{LedgerEnv, IdStoreEnv, GenesisEnv}.

(** ** Balances by symbol *)

(** [*s == token_name.as_str() || n == token_name], in the order of the addresses. *)
Definition names_symbol (token_name : string) (p : Address * string) : bool :=
  bool_decide (address_to_string p.1 = token_name) || bool_decide (p.2 = token_name).
Definition find_symbol (symbols : gmap Address string) (token_name : string) :
    outcome ManyError Symbol :=
  match list_find (names_symbol token_name) (btree_iter symbols) with
  | Some (_, p) => Ok p.1
  | None => Err (unknown ("Could not resolve symbol '" +:+ token_name +:+ "'"))
  end.
Fixpoint resolve_tokens (symbols : gmap Address string) (l : list (string * TokenAmount))
    (acc : gmap Symbol TokenAmount) : outcome ManyError (gmap Symbol TokenAmount) :=
  match l with
  | [] => Ok acc
  | (token_name, amount) :: l =>
      symbol ← find_symbol symbols token_name;
      resolve_tokens symbols l (<[symbol := amount]> acc)
  end.
Fixpoint resolve_holders (symbols : gmap Address string)
    (l : list (Address * gmap string TokenAmount)) (acc : gmap Address (gmap Symbol TokenAmount)) :
    outcome ManyError (gmap Address (gmap Symbol TokenAmount)) :=
  match l with
  | [] => Ok acc
  | (i, v) :: l =>
      m ← resolve_tokens symbols (btree_iter v) ∅;
      resolve_holders symbols l (<[i := m]> acc)
  end.
Definition state_balances (s : InitialStateJson json_value) :
    outcome ManyError (gmap Address (gmap Symbol TokenAmount)) :=
  resolve_holders (is_symbols s) (btree_iter (is_initial s)) ∅.

(** ** Conversion of accounts *)

Definition MultisigAccountFeature_create (threshold timeout_in_secs : option N)
    (execute_automatically : option bool) : MultisigAccountFeature :=
  mkMultisigFeature (mkMultisigArg threshold timeout_in_secs execute_automatically).

Definition arg_into_multisig (f : FeatureJson json_value) : outcome ManyError (option Feature) :=
  match fj_arg f with
  | None => Ok None
  | Some v =>
      a ← expect "Invalid Feature argument." (multisig_arg_of v);
      Ok (Some (as_feature (MultisigAccountFeature_create (mj_threshold a) (mj_timeout_in_secs a)
                              (mj_execute_automatically a))))
  end.
Definition try_into_feature (f : FeatureJson json_value) : outcome ManyError (option Feature) :=
  if fj_id f =? ID AccountLedger then Ok (Some (attribute_id (ID AccountLedger)))
  else if fj_id f =? ID MultisigAccountFeature then arg_into_multisig f
  else Ok None.

Fixpoint roles_of_json (l : list string) : outcome ManyError (gset Role) :=
  match l with
  | [] => Ok ∅
  | t :: l =>
      r ← expect_some "Invalid role." (role_from_str t);
      rs ← roles_of_json l;
      Ok ({[r]} ∪ rs)
  end.
(** The elements of a [BTreeSet<String>], in order. *)
Definition string_set_iter (x : gset string) : list string := (btree_iter (gset_to_gmap tt x)).*1.
Fixpoint role_map_of_json (l : list (Address * gset string)) : outcome ManyError AddressRoleMap :=
  match l with
  | [] => Ok ∅
  | (i, rs) :: l =>
      x ← roles_of_json (string_set_iter rs);
      m ← role_map_of_json l;
      Ok (<[i := x]> m)
  end.
(** The feature ids are distinct: nothing is dropped when the set is collected. *)
Fixpoint features_of_json (l : list (N * option json_value)) : outcome ManyError FeatureSet :=
  match l with
  | [] => Ok ∅
  | (i, a) :: l =>
      o ← try_into_feature (mkFeatureJson i a);
      f ← expect_some "Unsupported feature." o;
      fs ← features_of_json l;
      Ok (<[attr_id f := attr_arguments f]> fs)
  end.
Definition AccountMeta_of_json (a : AccountJson json_value) : outcome ManyError AccountMeta :=
  rs ← role_map_of_json (btree_iter (aj_roles a));
  fs ← features_of_json (btree_iter (aj_features a));
  Ok (mkAccountMeta (aj_id a) (aj_subresource_id a) (aj_description a) rs fs).
Fixpoint accounts_of_json (l : list (AccountJson json_value)) : outcome ManyError (list AccountMeta) :=
  match l with
  | [] => Ok []
  | a :: l =>
      m ← AccountMeta_of_json a;
      ms ← accounts_of_json l;
      Ok (m :: ms)
  end.

(** ** Reading the file *)

(** [content] is what reading the file gave. *)
Definition state_read (content : outcome string string) :
    outcome string (InitialStateJson json_value) :=
  t ← content;
  s ← json5_state t;
  match is_token_identity s, is_account_identity s with
  | Some ti, Some ai =>
      if bool_decide (ti = ai) then Err "Token and account identities must be different."
      else Ok s
  | _, _ => Ok s
  end.

(** ** Opening *)

Definition symbols_meta_of (state : InitialStateJson json_value) : option (gmap Symbol SymbolMeta) :=
  match is_symbols_meta state with
  | Some m => Some (SymbolMeta_of_json <$> m)
  | None => None
  end.

(** The builders, in the order [LedgerModuleImpl::new] calls them. *)
Definition build_state (registry : list (InnerMigration merk ManyError))
    (config : option MigrationConfig) (state : InitialStateJson json_value)
    (balances : gmap Address (gmap Symbol TokenAmount)) (accounts : option (list AccountMeta)) :
    LedgerM unit :=
  with_migrations registry config;;
  with_balances (is_identity state) (is_symbols state) balances;;
  with_idstore (is_id_store_seed state) (is_id_store_keys state);;
  with_tokens (is_symbols state) (symbols_meta_of state)
    (is_token_identity state) (is_token_next_subresource state) balances;;
  with_account (is_account_identity state) accounts;;
  build.

(** The hash the file names, if it does, is that of the ledger. *)
Definition check_hash (expected : option string) (actual : string) : outcome ManyError unit :=
  match expected with
  | Some h => if bool_decide (actual ≠ h) then Err (invalid_initial_state h actual) else Ok tt
  | None => Ok tt
  end.

(** [opened] is the result of opening the database; [info_logged] tells whether the log
    line that reads the height is enabled. *)
Definition ledger_module_new (registry : list (InnerMigration merk ManyError))
    (info_logged : bool) (opened : outcome string merk) (state : InitialStateJson json_value)
    (config : option MigrationConfig) (is_blockchain : bool) : outcome ManyError LedgerStorage :=
  balances ← state_balances state;
  accounts ← match is_accounts state with
             | Some l => ms ← accounts_of_json l; Ok (Some ms)
             | None => Ok None
             end;
  s ← ledger_new opened is_blockchain;
  let r := build_state registry config state balances accounts s in
  r.2;;
  check_hash (is_hash state) (hex_encode (hash r.1));;
  (if info_logged then get_height r.1;; Ok tt else Ok tt);;
  Ok r.1.

Definition ledger_module_load (registry : list (InnerMigration merk ManyError))
    (opened : outcome string merk) (config : option MigrationConfig) (is_blockchain : bool) :
    outcome ManyError LedgerStorage :=
  expect "called `Result::unwrap()` on an `Err` value"
    (ledger_load registry opened is_blockchain config).

(** *** The choice [main] makes *)

Inductive RemoveDir : Type := Removed | DirNotFound | RemoveFailed (e : string).

(** The options of the command line and what the file system answers: the files are given
    by the result of reading them. *)
Record OpenOpts : Type := mkOpenOpts {
  oo_clean : bool;
  oo_state : option (outcome string string);
  oo_migrations : option (outcome string string);
  oo_abci : bool;
  oo_exists : bool;                            (* before [main] starts *)
  oo_remove : RemoveDir;                       (* of [remove_dir_all] *)
  oo_open : bool → outcome string merk;        (* on an existing database, or a new one *)
}.

Definition open_ledger (registry : list (InnerMigration merk ManyError)) (info_logged : bool)
    (o : OpenOpts) : outcome ManyError LedgerStorage :=
  '(exists_, state) ←
    (if oo_clean o then
       match oo_remove o with
       | RemoveFailed e => Panic ("Error: " +:+ e)
       | _ => Ok (false, oo_state o)
       end
     else Ok (oo_exists o, if oo_exists o then None else oo_state o));
  state ← match state with
          | Some p => s ← expect "Could not read state file." (state_read p); Ok (Some s)
          | None => Ok None
          end;
  config ← match oo_migrations o with
           | Some file =>
               t ← expect "Could not read file passed to --migrations_config" file;
               c ← expect "called `Result::unwrap()` on an `Err` value" (json_migrations t);
               Ok (Some (config_strict c))
           | None => Ok None
           end;
  if (exists_ : bool) then
    expect "called `Result::unwrap()` on an `Err` value"
      (ledger_module_load registry (oo_open o true) config (oo_abci o))
  else
    match state with
    | Some s =>
        expect "called `Result::unwrap()` on an `Err` value"
          (ledger_module_new registry info_logged (oo_open o false) s config (oo_abci o))
    | None => Panic "Persistent store or staging file not found."
    end.
End genesis.
