(* ===== verification/GenesisLaws.v ===== *)
(** * What a genesis file establishes

    A ledger opened from a genesis file on an empty database starts in the states the other
    theorems are about: the balances are those of the file, the recorded supply of every token
    is their sum, every account owns itself. *)
From S2P Require Import Prelude Error External Address Types Account Events Migration Storage.
From S2P Require Import StorageLaws LedgerEvent Ledger Tokens Supply Subresource AccountStorage.
From S2P Require Import AccountModule IdStore Genesis.

#[local] Open Scope string_scope.
#[local] Open Scope list_scope.
#[local] Open Scope N_scope.

Abbreviation Holdings := (gmap Address (gmap Symbol TokenAmount)).

(** What an address holds of a token. *)
Definition holding (bs : Holdings) (a : Address) (x : Symbol) : TokenAmount :=
  default 0 (bs !! a ≫= (.!! x)).

(** ** Names of tokens *)

Section names.
Context `{LedgerEnv, IdStoreEnv, GenesisEnv}.
Implicit Types (symbols : gmap Address string).

Lemma find_symbol_known symbols t x : find_symbol symbols t = Ok x → is_Some (symbols !! x).
Proof.
  unfold find_symbol. destruct (list_find _ _) as [[n [a y]]|] eqn:E; [|done]. intros [= <-].
  apply list_find_Some in E as (Hl & _ & _). exists y. apply elem_of_btree_iter.
  by eapply list_elem_of_lookup_2.
Qed.

Definition knows symbols (m : gmap Symbol TokenAmount) : Prop :=
  ∀ x n, m !! x = Some n → is_Some (symbols !! x).

Lemma resolve_tokens_known symbols l acc m :
  resolve_tokens symbols l acc = Ok m → knows symbols acc → knows symbols m.
Proof.
  revert acc. induction l as [|[t n] l IH]; intros acc; simpl; [by intros [= <-]|].
  destruct (find_symbol symbols t) as [x| | |] eqn:Hx; try done. simpl. intros Hm Hacc.
  eapply IH; [exact Hm|]. intros y c [[<- <-]|[_ ?]]%lookup_insert_Some; [|eauto].
  by eapply find_symbol_known.
Qed.
Lemma resolve_holders_known symbols l acc bs :
  resolve_holders symbols l acc = Ok bs →
  (∀ a m, acc !! a = Some m → knows symbols m) → ∀ a m, bs !! a = Some m → knows symbols m.
Proof.
  revert acc. induction l as [|[i v] l IH]; intros acc; simpl; [by intros [= <-]|].
  destruct (resolve_tokens symbols (btree_iter v) ∅) as [m| | |] eqn:Hm; try done. simpl.
  intros Hbs Hacc. eapply IH; [exact Hbs|].
  intros a m' [[<- <-]|[_ ?]]%lookup_insert_Some; [|eauto].
  eapply resolve_tokens_known; [exact Hm|]. intros x n. by rewrite lookup_empty.
Qed.
Lemma state_balances_known (state : InitialStateJson json_value) bs a m :
  state_balances state = Ok bs → bs !! a = Some m → knows (is_symbols state) m.
Proof.
  intros Hs. eapply resolve_holders_known; [exact Hs|]. intros ? ?. by rewrite lookup_empty.
Qed.
End names.

(** ** The supply of the file *)

Lemma add_supplies_lookup (l : list (Symbol * TokenAmount)) acc x :
  NoDup l.*1 →
  foldl add_supply acc l !! x =
    match (list_to_map l : gmap Symbol TokenAmount) !! x with
    | Some n => Some (default 0 (acc !! x) + n)
    | None => acc !! x
    end.
Proof.
  revert acc. induction l as [|[y n] l IH]; intros acc; csimpl; [done|].
  intros [Hy Hl]%NoDup_cons. rewrite IH by done. unfold add_supply. simpl.
  destruct (decide (x = y)) as [->|Hne].
  - rewrite lookup_insert_eq, not_elem_of_list_to_map_1 by done. by rewrite lookup_insert_eq.
  - by rewrite !lookup_insert_ne by done.
Qed.
Lemma list_to_map_btree_iter (m : gmap Symbol TokenAmount) : list_to_map (btree_iter m) = m.
Proof.
  rewrite <-(list_to_map_to_list m) at 2. apply list_to_map_proper; [|apply btree_iter_perm].
  apply NoDup_fst_btree_iter.
Qed.
Lemma add_holder_lookup (v acc : gmap Symbol TokenAmount) x :
  foldl add_supply acc (btree_iter v) !! x =
    match v !! x with Some n => Some (default 0 (acc !! x) + n) | None => acc !! x end.
Proof. by rewrite add_supplies_lookup, list_to_map_btree_iter by apply NoDup_fst_btree_iter. Qed.

Definition list_total (x : Symbol) (l : list (gmap Symbol TokenAmount)) : TokenAmount :=
  foldr (λ v t, default 0 (v !! x) + t) 0 l.
Lemma list_total_perm x l l' : l ≡ₚ l' → list_total x l = list_total x l'.
Proof. unfold list_total. induction 1; simpl; lia. Qed.

Lemma add_holders_lookup l (acc : gmap Symbol TokenAmount) x :
  let r := foldl (λ m v, foldl add_supply m (btree_iter v)) acc l !! x in
  default 0 r = default 0 (acc !! x) + list_total x l
  ∧ (is_Some r ↔ is_Some (acc !! x) ∨ Exists (λ v, is_Some (v !! x)) l).
Proof.
  revert acc. induction l as [|v l IH]; intros acc; simpl.
  - rewrite Exists_nil. split; [lia|tauto].
  - destruct (IH (foldl add_supply acc (btree_iter v))) as [-> ->]. rewrite Exists_cons.
    rewrite add_holder_lookup. destruct (v !! x); simpl; split; try lia.
    + split; [intros _; right; left; eauto|intros _; left; eauto].
    + split; [intros [?|?]|intros [?|[[? [=]]|?]]]; auto.
Qed.

Lemma total_supply_some (bs : Holdings) x :
  is_Some (_total_supply bs !! x) ↔ ∃ a, is_Some (bs !! a ≫= (.!! x)).
Proof.
  unfold _total_supply. rewrite (proj2 (add_holders_lookup _ _ x)), lookup_empty, Exists_exists. split.
  - intros [[? ?]|(v & Hv & Hx)]; [done|]. apply list_elem_of_fmap in Hv as ([a w] & -> & Ha).
    apply elem_of_btree_iter in Ha. exists a. by rewrite Ha.
  - intros (a & n & Ha). apply bind_Some in Ha as (v & Hv & Hx). right. exists v. split; [|by eexists].
    apply list_elem_of_fmap. exists (a, v). split; [done|]. by apply elem_of_btree_iter.
Qed.

(** The total supply is the sum of the balances. *)
Lemma total_supply_total (bs : Holdings) x :
  default 0 (_total_supply bs !! x) = set_total (dom bs) (λ a, holding bs a x).
Proof.
  unfold _total_supply. rewrite (proj1 (add_holders_lookup _ _ x)), lookup_empty. cbn [default from_option].
  rewrite N.add_0_l, (list_total_perm x _ (map_to_list bs).*2) by by rewrite btree_iter_perm.
  induction bs as [|a v bs Ha IH] using map_ind; [done|].
  rewrite (list_total_perm x _ (v :: (map_to_list bs).*2))
    by by rewrite (map_to_list_insert bs a v) by done.
  rewrite dom_insert_L, set_total_insert by by apply not_elem_of_dom.
  unfold holding at 1. rewrite lookup_insert_eq. simpl. f_equal. rewrite IH.
  apply set_total_ext. intros c Hc. unfold holding. rewrite lookup_insert_ne; [done|].
  intros <-. by apply not_elem_of_dom in Ha.
Qed.

(** ** The builders, one after the other *)

(** The cases of a key that is [reserved], below. *)
Ltac reserved_cases H :=
  destruct H as [[? ->]|[[? ->]|[[? ->]|H]]];
  [| | |repeat (apply elem_of_cons in H as [->|H]); [..|by apply elem_of_nil in H]].

Section builders.
Context `{LedgerEnv, !LedgerEnvLaws}.
Implicit Types (s : LedgerStorage) (bs : Holdings) (symbols : gmap Symbol string).

(** *** Balances *)

Definition holder_entries (kv : Address * gmap Symbol TokenAmount) : list BatchEntry :=
  (λ st, (key_for_account_balance kv.1 st.1, Put (to_bytes_be st.2))) <$> btree_iter kv.2.

Lemma balance_batch_symbols_ok symbols a (l : list (Symbol * TokenAmount)) :
  Forall (λ st, is_Some (symbols !! st.1)) l →
  balance_batch_symbols symbols a l
  = Ok ((λ st, (key_for_account_balance a st.1, Put (to_bytes_be st.2))) <$> l).
Proof.
  induction 1 as [|[x n] l Hx _ IH]; csimpl; [done|].
  by rewrite bool_decide_eq_true_2, IH by done.
Qed.
Lemma balance_batch_ok symbols (l : list (Address * gmap Symbol TokenAmount)) :
  Forall (λ kv, knows symbols kv.2) l → balance_batch symbols l = Ok (l ≫= holder_entries).
Proof.
  induction 1 as [|[a v] l Hv _ IH]; csimpl; [done|].
  rewrite balance_batch_symbols_ok, IH; [done|].
  apply Forall_forall. intros [x n] Hx%elem_of_btree_iter. by eapply Hv.
Qed.

Definition balance_entries bs : list BatchEntry := btree_iter bs ≫= holder_entries.

Lemma elem_of_balance_entries bs k o :
  (k, o) ∈ balance_entries bs ↔
  ∃ a x n, bs !! a ≫= (.!! x) = Some n ∧ k = key_for_account_balance a x ∧ o = Put (to_bytes_be n).
Proof.
  unfold balance_entries. rewrite list_elem_of_bind. split.
  - intros ([a v] & ([x n] & Heq & Hx)%list_elem_of_fmap & Ha). simplify_eq/=.
    apply elem_of_btree_iter in Hx, Ha. exists a, x, n. by rewrite Ha.
  - intros (a & x & n & (v & Ha & Hx)%bind_Some & -> & ->). exists (a, v).
    rewrite elem_of_btree_iter. split; [|done]. apply list_elem_of_fmap. exists (x, n).
    by rewrite elem_of_btree_iter.
Qed.
Lemma balance_entries_keys bs k : k ∈ (balance_entries bs).*1 → ¬ not_balance k.
Proof.
  intros ([k' o] & -> & (a & x & n & _ & -> & _)%elem_of_balance_entries)%list_elem_of_fmap Hk.
  by apply (Hk a x).
Qed.

Lemma holder_entries_key kv k : k ∈ (holder_entries kv).*1 → ∃ x, k = key_for_account_balance kv.1 x.
Proof.
  intros ([k' o] & -> & ([x n] & Heq & _)%list_elem_of_fmap)%list_elem_of_fmap. simplify_eq/=. eauto.
Qed.
Lemma NoDup_holder_entries kv : NoDup (holder_entries kv).*1.
Proof.
  assert ((holder_entries kv).*1 = key_for_account_balance kv.1 <$> (btree_iter kv.2).*1) as ->
    by (unfold holder_entries; by rewrite <-!list_fmap_compose).
  apply NoDup_fmap_2_strong; [|apply NoDup_fst_btree_iter].
  by intros x y _ _ [_ ?]%key_balance_inj.
Qed.
Lemma NoDup_entries_bind (l : list (Address * gmap Symbol TokenAmount)) :
  NoDup l.*1 → NoDup (l ≫= holder_entries).*1.
Proof.
  induction l as [|kv l IH]; csimpl; [constructor|]. intros [Hkv Hl]%NoDup_cons.
  rewrite fmap_app. apply NoDup_app. split; [apply NoDup_holder_entries|]. split; [|by apply IH].
  intros k (x & ->)%holder_entries_key ([k' o] & Hk & (kv' & Hin & Hl')%list_elem_of_bind)%list_elem_of_fmap.
  simpl in Hk. subst k'. apply (list_elem_of_fmap_2 fst), holder_entries_key in Hin as (y & Hy).
  simpl in Hy. apply key_balance_inj in Hy as [Hy _]. apply Hkv. rewrite Hy. by apply list_elem_of_fmap_2.
Qed.
Lemma NoDup_balance_entries bs : NoDup (balance_entries bs).*1.
Proof. apply NoDup_entries_bind, NoDup_fst_btree_iter. Qed.

(** Keys that the balances of a genesis file leave free. *)
Definition reserved (k : bytes) : Prop :=
  b "/config/symbols/" `prefix_of` k ∨ b "/accounts/" `prefix_of` k
  ∨ b "/config/subresource_counter/" `prefix_of` k
  ∨ k ∈ [EVENT_COUNT_ROOT; DATA_ATTRIBUTES_KEY; b ACCOUNT_IDENTITY_ROOT;
         b ACCOUNT_SUBRESOURCE_ID_ROOT; b HEIGHT_ROOT].

(** The store after the balances: those of [bs], the identity and the symbols. *)
Record booted (m : gmap bytes bytes) bs (identity : Address) symbols : Prop := {
  boot_bal a x : bal_of m a x = holding bs a x;
  boot_identity : m !! b IDENTITY_ROOT = Some (address_to_vec identity);
  boot_symbols : m !! b SYMBOLS_ROOT = Some (to_vec symbols);
  boot_clear k : reserved k → m !! k = None;
}.

Lemma with_balances_ok identity symbols bs s :
  (∀ a v, bs !! a = Some v → knows symbols v) → view s = ∅ →
  ∃ s', with_balances identity symbols bs s = (s', Ok tt)
    ∧ booted (view s') bs identity symbols ∧ committed s' = committed s ∧ frame s s'.
Proof.
  intros Hk Hs. unfold with_balances.
  rewrite (bind_lift _ _ s (balance_entries bs)).
  2:{ apply balance_batch_ok, Forall_forall. intros [a v] Ha%elem_of_btree_iter. by eapply Hk. }
  set (E := [(b IDENTITY_ROOT, Put (address_to_vec identity)); (b SYMBOLS_ROOT, Put (to_vec symbols))]).
  assert (∀ k, k ∈ E.*1 → not_balance k) as HE.
  { intros k Hin a x. repeat (apply elem_of_cons in Hin as [->|Hin]; [key_discr|]). by apply elem_of_nil in Hin. }
  assert (NoDup (balance_entries bs ++ E).*1) as Hnd.
  { rewrite fmap_app. apply NoDup_app. split; [apply NoDup_balance_entries|]. split.
    - intros k Hk1%balance_entries_keys Hk2%HE. done.
    - apply NoDup_cons. split; [|apply NoDup_singleton]. csimpl. rewrite list_elem_of_singleton. key_discr. }
  destruct (store_apply_with_ok storage_apply_failed (sort_by_key (balance_entries bs ++ E)) s)
    as (s' & Hs' & Hv & Hc & _ & Hf); [by apply sort_by_key_ascending|].
  exists s'. split; [exact Hs'|]. split; [|done]. rewrite Hv, Hs.
  assert (NoDup (sort_by_key (balance_entries bs ++ E)).*1) as Hnds by by rewrite sort_by_key_perm.
  assert (∀ k v, (k, Put v) ∈ E → apply_batch ∅ (sort_by_key (balance_entries bs ++ E)) !! k = Some v) as Hput.
  { intros k v Hin. apply lookup_apply_batch_put; [done|]. rewrite sort_by_key_perm. set_solver. }
  assert (∀ k, k ∉ (balance_entries bs).*1 → k ∉ E.*1 →
    apply_batch ∅ (sort_by_key (balance_entries bs ++ E)) !! k = None) as Hnone.
  { intros k H1 H2. rewrite lookup_apply_batch_ne; [done|]. rewrite sort_by_key_perm, fmap_app. set_solver. }
  split.
  - intros a x. unfold bal_of, holding. destruct (bs !! a ≫= (.!! x)) as [n|] eqn:Hn.
    + rewrite (lookup_apply_batch_put _ _ _ (to_bytes_be n)); [apply to_bytes_be_value|done|].
      rewrite sort_by_key_perm. apply elem_of_app. left. apply elem_of_balance_entries. eauto 10.
    + rewrite Hnone; [done| |intros Hx%HE; by apply (Hx a x)].
      intros ([k o] & Hk' & (a' & x' & n & Hn' & -> & _)%elem_of_balance_entries)%list_elem_of_fmap.
      simpl in Hk'. apply key_balance_inj in Hk' as [-> ->]. congruence.
  - apply Hput. by left.
  - apply Hput. right. by left.
  - intros k Hr. apply Hnone.
    + intros Hin%balance_entries_keys. apply Hin. intros a x. reserved_cases Hr; key_discr.
    + intros Hin. repeat (apply elem_of_cons in Hin as [->|Hin]); [..|by apply elem_of_nil in Hin].
      all: destruct Hr as [[? Hr]|[[? Hr]|[[? Hr]|Hr]]]; try key_discr.
      all: repeat (apply elem_of_cons in Hr as [Hr|Hr]; [key_discr|]); by apply elem_of_nil in Hr.
Qed.

(** *** Tokens *)

Section tokens.
Context (symbols : gmap Symbol string) (metas : gmap Symbol SymbolMeta) (bs : Holdings).
Context (Hknown : ∀ x, x ∈ dom metas ↔ x ∈ dom symbols).
Context (Hheld : ∀ x, x ∈ dom symbols → ∃ a, is_Some (bs !! a ≫= (.!! x))).

(** The information recorded for a token of the file. *)
Definition declared_info (x : Symbol) (meta : SymbolMeta) : TokenInfo :=
  _token_info x (default "" (symbols !! x)) meta (set_total (dom bs) (λ a, holding bs a x)).

Definition token_entries (kv : Symbol * SymbolMeta) : list BatchEntry :=
  [(key_for_ext_info kv.1, Put (to_vec ext_new));
   (key_for_symbol kv.1, Put (to_vec (declared_info kv.1 kv.2)))].

Lemma supply_of x : x ∈ dom symbols →
  _total_supply bs !! x = Some (set_total (dom bs) (λ a, holding bs a x)).
Proof.
  intros Hx. destruct (proj2 (total_supply_some bs x) (Hheld x Hx)) as [n Hn].
  rewrite Hn, <-total_supply_total. by rewrite Hn.
Qed.

Lemma check_symbols_ok l : Forall (λ x, x ∈ dom symbols) l → check_symbols l metas (_total_supply bs) = Ok tt.
Proof.
  induction 1 as [|x l Hx _ IH]; simpl; [done|].
  rewrite bool_decide_eq_false_2 by (apply Hknown, elem_of_dom in Hx as [? ->]; done).
  rewrite supply_of by done. by rewrite bool_decide_eq_false_2.
Qed.

Lemma tokens_batch_ok l : Forall (λ kv, kv.1 ∈ dom symbols) l →
  tokens_batch l symbols (_total_supply bs) = Ok (l ≫= token_entries).
Proof.
  induction 1 as [|[x meta] l Hx _ IH]; simpl; [done|]. simpl in Hx. unfold index_or_panic.
  rewrite supply_of by done. apply elem_of_dom in Hx as [tick Ht]. rewrite Ht. simpl.
  rewrite IH. unfold token_entries, declared_info. simpl. by rewrite Ht.
Qed.

Lemma elem_of_token_entries l k o :
  (k, o) ∈ l ≫= token_entries ↔ ∃ x meta, (x, meta) ∈ l
    ∧ ((k = key_for_ext_info x ∧ o = Put (to_vec ext_new))
       ∨ (k = key_for_symbol x ∧ o = Put (to_vec (declared_info x meta)))).
Proof.
  rewrite list_elem_of_bind. unfold token_entries. split.
  - intros ([x meta] & Hin & Hl). exists x, meta. split; [done|]. simpl in Hin. set_solver.
  - intros (x & meta & Hl & Ho). exists (x, meta). split; [|done]. simpl. set_solver.
Qed.

Lemma elem_of_token_entries_keys l k :
  k ∈ (l ≫= token_entries).*1 → ∃ x, x ∈ l.*1 ∧ (k = key_for_ext_info x ∨ k = key_for_symbol x).
Proof.
  intros ([k' o] & -> & (x & meta & Hl & Ho)%elem_of_token_entries)%list_elem_of_fmap.
  exists x. split; [by apply (list_elem_of_fmap_2 fst) in Hl|naive_solver].
Qed.

Lemma NoDup_token_entries l : NoDup l.*1 → NoDup (l ≫= token_entries).*1.
Proof.
  induction l as [|[x meta] l IH]; csimpl; [constructor|]. intros [Hx Hl]%NoDup_cons.
  assert (∀ k, k ∈ (l ≫= token_entries).*1 → k ≠ key_for_ext_info x ∧ k ≠ key_for_symbol x) as Hne.
  { intros k (y & Hy & [-> | ->])%elem_of_token_entries_keys; (split; [|]); try key_discr.
    - by intros ->%key_ext_info_inj.
    - by intros ->%key_symbol_inj. }
  apply NoDup_cons. split.
  - rewrite not_elem_of_cons. split; [key_discr|]. by intros [? _]%Hne.
  - apply NoDup_cons. split; [by intros [_ ?]%Hne|auto].
Qed.

(** Keys [with_tokens] writes. *)
Definition token_key (counter k : bytes) : Prop :=
  (∃ x, x ∈ dom metas ∧ (k = key_for_ext_info x ∨ k = key_for_symbol x))
  ∨ k = counter ∨ k = b TOKEN_IDENTITY_ROOT.

(** The store after the tokens; [counter] is the key of the counter of their identity. *)
Record minted_tokens (counter : bytes) (next : N) (m m' : gmap bytes bytes) : Prop := {
  mt_info x meta : metas !! x = Some meta →
    m' !! key_for_symbol x = Some (to_vec (declared_info x meta))
    ∧ m' !! key_for_ext_info x = Some (to_vec ext_new);
  mt_counter : m' !! counter = Some (be_bytes 4 next);
  mt_rest k : ¬ token_key counter k → m' !! k = m !! k;
}.

(** The batch of the tokens. *)
Lemma token_batch_applied s :
  let E := btree_iter metas ≫= token_entries in
  ∃ s1, store_apply (sort_by_key E) s = (s1, Ok tt)
    ∧ (∀ x meta, metas !! x = Some meta →
         view s1 !! key_for_symbol x = Some (to_vec (declared_info x meta))
         ∧ view s1 !! key_for_ext_info x = Some (to_vec ext_new))
    ∧ (∀ k, (∀ x, x ∈ dom metas → k ≠ key_for_ext_info x ∧ k ≠ key_for_symbol x) →
         view s1 !! k = view s !! k)
    ∧ frame s s1.
Proof.
  intros E. assert (NoDup E.*1) as Hnd by (apply NoDup_token_entries, NoDup_fst_btree_iter).
  destruct (store_apply_with_ok storage_apply_failed (sort_by_key E) s)
    as (s1 & Hs1 & Hv1 & _ & _ & Hf1); [by apply sort_by_key_ascending|].
  exists s1. split; [exact Hs1|]. rewrite Hv1. split; [|split; [|done]].
  - intros x meta Hm.
    split; (apply lookup_apply_batch_put; [by rewrite sort_by_key_perm|]); rewrite sort_by_key_perm;
      apply elem_of_token_entries; exists x, meta; rewrite elem_of_btree_iter; auto.
  - intros k Hk. rewrite lookup_apply_batch_ne; [done|]. rewrite sort_by_key_perm.
    intros (x & ([y meta] & -> & Hy%elem_of_btree_iter)%list_elem_of_fmap & Hx)%elem_of_token_entries_keys.
    destruct (Hk y) as [??]; [apply elem_of_dom; by eexists|naive_solver].
Qed.

Lemma with_tokens_ok s i token_identity next :
  migration_active s TOKEN_MIGRATION = true → view s !! b IDENTITY_ROOT = Some (address_to_vec i) →
  let ti := default i token_identity in
  ∃ s', with_tokens symbols (Some metas) token_identity next bs s = (s', Ok tt)
    ∧ minted_tokens (counter_key s ti) (default 0 next) (view s) (view s')
    ∧ committed s' = view s' ∧ frame s s'.
Proof.
  intros Hact Hid ti. unfold with_tokens. erewrite (bind_reads _ _ s) by done. rewrite Hact.
  erewrite (bind_lift _ _ s metas) by done.
  erewrite (bind_lift _ _ s tt).
  2:{ apply check_symbols_ok, Forall_forall. intros x ([y t] & -> & Hy)%list_elem_of_fmap.
      apply elem_of_btree_iter in Hy. apply elem_of_dom. by eexists. }
  erewrite (bind_lift _ _ s (btree_iter metas ≫= token_entries)).
  2:{ apply tokens_batch_ok, Forall_forall. intros [x meta] Hx%elem_of_btree_iter.
      apply Hknown, elem_of_dom. by eexists. }
  destruct (token_batch_applied s) as (s1 & Hs1 & Hinfo & Hu1 & Hf1).
  rewrite (bind_ok _ _ _ _ _ Hs1).
  erewrite (bind_reads _ _ s1 i).
  2:{ unfold get_identity. rewrite store_get_view, Hu1, Hid; [apply from_to_vec|].
      intros x _. split; key_discr. }
  fold ti. erewrite (bind_reads _ _ s1) by done.
  assert (counter_key s1 ti = counter_key s ti) as -> by (by apply counter_key_frame).
  assert (counter_key s ti = b "/config/subresource_counter/" ++ ab ti) as Hck
    by (unfold counter_key; by rewrite Hact).
  destruct (store_apply_with_ok storage_apply_failed
    [(counter_key s ti, Put (be_bytes 4 (default 0 next))); (b TOKEN_IDENTITY_ROOT, Put (address_to_vec ti))] s1)
    as (s2 & Hs2 & Hv2 & Hc2 & _ & Hf2).
  { apply keys_ascending_pair. rewrite Hck. by repeat (right; split; [done|]); left. }
  rewrite (bind_ok _ _ _ _ _ Hs2).
  destruct (commit_storage_ok s2) as (s3 & Hs3 & Hv3 & Hc3 & _ & Hf3).
  exists s3. split; [exact Hs3|]. split; [|split; [congruence|by trans s1; [|trans s2]]].
  assert (view s2 = <[b TOKEN_IDENTITY_ROOT := address_to_vec ti]>
    (<[counter_key s ti := be_bytes 4 (default 0 next)]> (view s1))) as Hw2 by done.
  rewrite Hv3, Hw2, Hck. split.
  - intros x meta Hm. rewrite !lookup_insert_ne by key_discr. by apply Hinfo.
  - by rewrite lookup_insert_ne, lookup_insert_eq by key_discr.
  - intros k Hk. unfold token_key in Hk. rewrite !lookup_insert_ne by naive_solver.
    apply Hu1. naive_solver.
Qed.
End tokens.

(** *** Accounts *)

(** Accounts of the file are added, or the file is refused; the invariant holds all along. *)
Definition account_area (base : Address) s (k : bytes) : Prop :=
  b "/accounts/" `prefix_of` k ∨ k = counter_key s base.

Record account_step_to base s s' : Prop := {
  as_inv : accounts_inv s' base;
  as_frame : frame s s';
  as_untouched k : ¬ account_area base s k → untouched s s' k;
}.
Lemma account_step_refl base s : accounts_inv s base → account_step_to base s s.
Proof. intros Hs. split; [done|done|]. intros. apply untouched_refl. Qed.
Lemma account_step_trans base s1 s2 s3 :
  account_step_to base s1 s2 → account_step_to base s2 s3 → account_step_to base s1 s3.
Proof.
  intros [I1 F1 U1] [I2 F2 U2]. split; [done|by trans s2|]. intros k Hk.
  apply (untouched_trans s1 s2 s3); [by apply U1|]. apply U2. unfold account_area in *.
  by rewrite (counter_key_frame s1 s2).
Qed.

Lemma commit_account_updated i a s :
  (∃ n, nb_events s = Ok n) →
  ∃ s', commit_account i a s = (s', Ok (key_for_account i)) ∧ updated s i a s'
    ∧ ∀ k, k ≠ key_for_account i → untouched s s' k.
Proof.
  intros [n Hn]. destruct (commit_account_writes i a s) as [Hf Hu].
  destruct (commit_account_ok i a s) as (s' & Hs & Hv & _ & _). rewrite Hs in *. exists s'.
  split; [done|]. split; [|exact Hu]. split; [|done| |].
  - exists (to_vec a). rewrite Hv, lookup_insert_eq. split; [done|by apply decode_to_vec].
  - exists n. rewrite nb_events_view, Hv, lookup_insert_ne, <-nb_events_view by key_discr. done.
  - intros k Hk. apply Hu. intros ->. apply Hk. by left.
Qed.

(** An id that is given out for the first time has no account. *)
Lemma fresh_account base s c n i :
  accounts_inv s base → get_subresource_counter s base = Ok c → c ≤ n → subresource base n i →
  view s !! key_for_account i = None.
Proof.
  intros Hinv Hc Hn Hi. destruct (inv_ids _ _ Hinv) as (c' & Hc' & Hids).
  rewrite Hc in Hc'. injection Hc' as <-. apply eq_None_not_Some. intros Hs.
  destruct (Hids i Hs) as (x & Hx & Hsx). pose proof (subresource_inj _ _ _ _ _ Hi Hsx). lia.
Qed.

(** What adding an account without an event does. *)
Definition account_added (a : Account) base s s' (i : Address) : Prop :=
  account_step_to base s s' ∧ stored s' i (set_multisig_arg (add_role a i Owner))
  ∧ view s !! key_for_account i = None
  ∧ ∀ j, j ≠ i → view s' !! key_for_account j = view s !! key_for_account j.

Lemma add_account_silent a base s :
  accounts_inv s base →
  _add_account a false s = (s, Err (subresource_exhausted (address_to_string base)))
  ∨ ∃ s' i ks, _add_account a false s = (s', Ok (i, ks)) ∧ account_added a base s s' i.
Proof.
  intros Hinv. unfold _add_account. destruct (accounts_inv_allocates s base Hinv) as (c & X & Halloc).
  destruct (get_next_subresource_spec s _ base c X Halloc)
    as [(n & i & s1 & ks & Hg & Hcn & Hsub & _ & _ & Hv1 & Hcom1 & _ & Hf1)|[He _]].
  2:{ left. by erewrite bind_err. }
  pose proof (subresource_id_of _ _ _ Hsub) as [_ Hmax].
  assert (accounts_inv s1 base) as Hinv1 by (apply (allocated_inv s s1 base c n); auto; apply Halloc).
  destruct (commit_account_updated i (set_multisig_arg (add_role a i Owner)) s1 (inv_events _ _ Hinv1))
    as (s2 & Hs2 & Hup & Hu2).
  assert (∀ k, k ≠ counter_key s base → untouched s s1 k) as Hu1.
  { intros k Hk. split; [by rewrite Hv1, lookup_insert_ne|left; by rewrite Hcom1]. }
  right. exists s2, i. eexists. split; [|split_and!].
  - rewrite (bind_ok _ _ _ _ _ Hg). cbn [fst snd]. rewrite bind_ret. by rewrite (bind_ok _ _ _ _ _ Hs2).
  - split.
    + eapply updated_inv; [exact Hinv1| |by rewrite holds_set_multisig_arg, holds_add_role; right|exact Hup].
      intros c' Hc'. rewrite (counter_after s s1 base n) in Hc' by (auto; by rewrite Hv1, lookup_insert_eq).
      injection Hc' as <-. exists n. split; [lia|done].
    + trans s1; [done|apply Hup].
    + intros k Hk. apply (untouched_trans s s1 s2); [apply Hu1; by intros ->; apply Hk; right|].
      apply Hu2. intros ->. apply Hk. left. by eexists.
  - apply Hup.
  - apply (fresh_account base s c n); auto. apply Halloc.
  - intros j Hj. rewrite (proj1 (Hu2 (key_for_account j) (λ E, Hj (key_account_inj _ _ E)))).
    apply Hu1. destruct (counter_key_config s base) as [r ->]. key_discr.
Qed.

(** The account of the file [m] is under [i], which is the id the file expects, if it does. *)
Definition meta_account (m : AccountMeta) (i : Address) : Account :=
  set_multisig_arg (add_role (mkAccount (am_description m) (am_roles m) (am_features m) None) i Owner).
Definition meta_stored s (m : AccountMeta) (i : Address) : Prop :=
  stored s i (meta_account m i)
  ∧ (∀ j, am_id m = Some j → i = j)
  ∧ (∀ n, am_subresource_id m = Some n → subresource_id i = None ∨ subresource_id i = Some n).

(** Why an account of the file is refused: the id it is given is not the one the file expects, or there is no
    id left. *)
Definition meta_refused (m : AccountMeta) (i : Address) (e : ManyError) : Prop :=
  (∃ n x, am_subresource_id m = Some n ∧ subresource_id i = Some x ∧ x ≠ n
     ∧ e = unexpected_subresource_id (pretty x) (pretty n))
  ∨ (∃ j, am_id m = Some j ∧ i ≠ j ∧ e = unexpected_account_id (address_to_string i) (address_to_string j)).
Definition account_refusal (base : Address) (l : list AccountMeta) (e : ManyError) : Prop :=
  ∃ m, m ∈ l ∧ (e = subresource_exhausted (address_to_string base) ∨ ∃ i, meta_refused m i e).

Lemma meta_checks_ok (m : AccountMeta) i (k : LedgerM unit) s :
  let checked :=
    (match am_subresource_id m, subresource_id i with
     | Some e, Some x =>
         if bool_decide (x ≠ e) then fails (unexpected_subresource_id (pretty x) (pretty e))
         else mret tt
     | _, _ => mret tt
     end;;
     match am_id m with
     | Some self =>
         if bool_decide (i ≠ self)
         then fails (unexpected_account_id (address_to_string i) (address_to_string self))
         else mret tt
     | None => mret tt
     end;; k) s in
  (∃ e, checked = (s, Err e) ∧ meta_refused m i e)
  ∨ checked = k s ∧ (∀ j, am_id m = Some j → i = j)
    ∧ (∀ n, am_subresource_id m = Some n → subresource_id i = None ∨ subresource_id i = Some n).
Proof.
  unfold meta_refused.
  destruct (am_subresource_id m) as [n|], (subresource_id i) as [x|]; simpl;
    try (case_bool_decide; [left; eexists; split; [done|left; eauto 10]|]).
  all: destruct (am_id m) as [j|]; simpl; try (case_bool_decide; [left; eexists; split; [done|right; eauto 10]|]); right.
  all: split; [done|]; naive_solver (auto; by apply dec_stable).
Qed.

Lemma add_account_metas_ok l base s :
  accounts_inv s base →
  let r := add_account_metas l s in
  account_step_to base s r.1
  ∧ (∀ i, is_Some (view s !! key_for_account i) →
       view r.1 !! key_for_account i = view s !! key_for_account i)
  ∧ match r.2 with
    | Ok _ => ∃ ids, Forall2 (meta_stored r.1) l ids
    | Err e => account_refusal base l e
    | _ => False
    end.
Proof.
  revert s. induction l as [|m l IH]; intros s Hinv.
  { split; [by apply account_step_refl|]. split; [done|]. by exists []. }
  cbn [add_account_metas].
  destruct (add_account_silent (mkAccount (am_description m) (am_roles m) (am_features m) None) base s Hinv)
    as [He|(s1 & i & ks & Hs1 & Hstep & Hst & Hfresh & Hother)].
  { rewrite (bind_err _ _ _ _ _ He). split; [by apply account_step_refl|]. split; [done|].
    exists m. split; [by left|by left]. }
  rewrite (bind_ok _ _ _ _ _ Hs1). cbn [fst].
  assert (∀ j, is_Some (view s !! key_for_account j) →
    view s1 !! key_for_account j = view s !! key_for_account j) as Hold.
  { intros j Hj. apply Hother. intros ->. rewrite Hfresh in Hj. by destruct Hj. }
  destruct (meta_checks_ok m i (add_account_metas l) s1) as [(e & -> & He)|(-> & Hid & Hsub)].
  { split_and!; [done..|]. exists m. split; [by left|]. right. by exists i. }
  destruct (IH s1 (as_inv _ _ _ Hstep)) as (Hstep2 & Hold2 & Hr).
  destruct (add_account_metas l s1) as [s2 r]. cbn [fst snd] in *. split; [|split].
  - by eapply account_step_trans.
  - intros j Hj. rewrite Hold2, Hold; [done..|]. by rewrite Hold.
  - destruct r as [|e| |]; try done.
    2:{ destruct Hr as (m' & Hm' & He). exists m'. split; [by right|done]. }
    destruct Hr as (ids & Hids). exists (i :: ids). constructor; [|done].
    split; [|done]. destruct Hst as (v & Hv & Hd). exists v. rewrite Hold2; [done|by eexists].
Qed.
End builders.

(** ** The id store *)

Section id_store.
Context `{LedgerEnv, !LedgerEnvLaws, IdStoreEnv}.
Implicit Types s : LedgerStorage.

(** The keys of the file are base64 and, decoded, keys of the id store. *)
Definition confined (kv : string * string) : Prop :=
  ∃ r w, base64_decode kv.1 = Some (IDSTORE_ROOT ++ r) ∧ base64_decode kv.2 = Some w.
Definition keys_confined (o : option (gmap string string)) : Prop :=
  ∀ m, o = Some m → Forall confined (btree_iter m).

Definition idstore_area (k : bytes) : Prop := k = IDSTORE_SEED_ROOT ∨ IDSTORE_ROOT `prefix_of` k.

Lemma decode_keys_ok l acc :
  Forall confined l → (∀ k, is_Some (acc !! k) → IDSTORE_ROOT `prefix_of` k) →
  ∃ m, decode_keys l acc = Ok m ∧ ∀ k, is_Some (m !! k) → IDSTORE_ROOT `prefix_of` k.
Proof.
  intros Hl. revert acc. induction Hl as [|[k v] l (r & w & Hk & Hv) _ IH]; intros acc Hacc; simpl; [eauto|].
  simpl in *. rewrite Hk, Hv. apply IH. intros k' [w' Hk'].
  apply lookup_insert_Some in Hk' as [[<- _]|[_ Hk']]; [by eexists|]. apply Hacc. by eexists.
Qed.

Lemma apply_keys_ok l s :
  Forall (λ kv, IDSTORE_ROOT `prefix_of` kv.1) l →
  ∃ s', apply_keys l s = (s', Ok tt) ∧ committed s' = committed s ∧ frame s s'
    ∧ ∀ k, ¬ idstore_area k → view s' !! k = view s !! k.
Proof.
  intros Hl. revert s. induction Hl as [|[k v] l Hk _ IH]; intros s; simpl; [by exists s|].
  destruct (store_apply_one k (Put v) s) as (s1 & Hs1 & Hv1 & Hc1 & _ & Hf1).
  rewrite (bind_ok _ _ _ _ _ Hs1). destruct (IH s1) as (s2 & Hs2 & Hc2 & Hf2 & Hu2).
  exists s2. split_and!; [done|congruence|by trans s1|]. intros k' Hk'. rewrite Hu2, Hv1 by done.
  unfold apply_op. simpl. rewrite lookup_insert_ne; [done|]. intros ->. apply Hk'. by right.
Qed.

Lemma with_idstore_ok seed keys s :
  keys_confined keys →
  ∃ s', with_idstore seed keys s = (s', Ok tt) ∧ committed s' = committed s ∧ frame s s'
    ∧ ∀ k, ¬ idstore_area k → view s' !! k = view s !! k.
Proof.
  intros Hk. unfold with_idstore.
  assert (∃ o, match keys with Some m => Some <$> decode_keys (btree_iter m) ∅ | None => Ok None end = Ok o
    ∧ ∀ m, o = Some m → Forall (λ kv, IDSTORE_ROOT `prefix_of` kv.1) (btree_iter m)) as (o & -> & Ho).
  { destruct keys as [m|]; [|by exists None].
    destruct (decode_keys_ok (btree_iter m) ∅ (Hk m eq_refl)) as (m' & -> & Hm').
    { intros k. rewrite lookup_empty. by intros [? ?]. }
    exists (Some m'). split; [done|]. intros ? [= <-]. apply Forall_forall.
    intros [k v] Hin%elem_of_btree_iter. apply Hm'. by eexists. }
  rewrite (bind_lift _ _ _ o) by done.
  assert (∃ s1, (match seed with
                 | Some seed => store_apply [(IDSTORE_SEED_ROOT, Put (be_bytes 8 seed))]
                 | None => mret tt end : LedgerM unit) s = (s1, Ok tt)
    ∧ committed s1 = committed s ∧ frame s s1 ∧ ∀ k, ¬ idstore_area k → view s1 !! k = view s !! k)
    as (s1 & Hs1 & Hc1 & Hf1 & Hu1).
  { destruct seed as [n|]; [|by exists s].
    destruct (store_apply_one IDSTORE_SEED_ROOT (Put (be_bytes 8 n)) s) as (s1 & Hs1 & Hv1 & Hc1 & _ & Hf1).
    exists s1. split_and!; [done..|]. intros k Hk'. rewrite Hv1. unfold apply_op. simpl.
    rewrite lookup_insert_ne; [done|]. intros <-. apply Hk'. by left. }
  rewrite (bind_ok _ _ _ _ _ Hs1). destruct o as [m|]; [|by exists s1].
  destruct (apply_keys_ok (btree_iter m) s1 (Ho m eq_refl)) as (s2 & Hs2 & Hc2 & Hf2 & Hu2).
  exists s2. split_and!; [done|congruence|by trans s1|]. intros k Hk'. by rewrite Hu2, Hu1.
Qed.

Ltac idstore_discr :=
  intros [?|[? ?]]; unfold IDSTORE_SEED_ROOT, IDSTORE_ROOT in *; key_discr.

(** The id store leaves the rest alone. *)
Lemma booted_step (m m' : gmap bytes bytes) bs identity symbols :
  (∀ k, ¬ idstore_area k → m' !! k = m !! k) → booted m bs identity symbols → booted m' bs identity symbols.
Proof.
  intros Hu [Hb Hi Hs Hc]. split.
  - intros a x. unfold bal_of. rewrite Hu by idstore_discr. apply Hb.
  - rewrite Hu by idstore_discr. done.
  - rewrite Hu by idstore_discr. done.
  - intros k Hk. rewrite Hu; [by apply Hc|]. reserved_cases Hk; idstore_discr.
Qed.
End id_store.

(** ** From a file to a ledger *)

Section establish.
Context `{LedgerEnv, !LedgerEnvLaws, IdStoreEnv, GenesisEnv}.
Implicit Types (s : LedgerStorage) (bs : Holdings) (symbols : gmap Symbol string).

(** What the storage holds before the accounts. *)
Record prepared (active : bool) (identity : Address) symbols (metas : gmap Symbol SymbolMeta) bs s : Prop := {
  pr_bal a x : bal s a x = holding bs a x;
  pr_identity : view s !! b IDENTITY_ROOT = Some (address_to_vec identity);
  pr_symbols : view s !! b SYMBOLS_ROOT = Some (to_vec symbols);
  pr_accounts i : view s !! key_for_account i = None;
  pr_clear k : k ∈ [EVENT_COUNT_ROOT; DATA_ATTRIBUTES_KEY; b ACCOUNT_IDENTITY_ROOT; b HEIGHT_ROOT] →
    view s !! k = None;
  pr_counter a : ∃ c, get_subresource_counter s a = Ok c;
  pr_view : symbols_wf (view s);
  pr_committed : symbols_wf (committed s);
  pr_active : migration_active s TOKEN_MIGRATION = active;
  pr_tokens : active = true → ∀ x meta, metas !! x = Some meta →
    view s !! key_for_symbol x = Some (to_vec (declared_info symbols bs x meta))
    ∧ view s !! key_for_ext_info x = Some (to_vec ext_new);
}.

(** Without the token migration, the store is as the balances left it. *)
Lemma prepared_inactive s identity symbols metas bs :
  migration_active s TOKEN_MIGRATION = false → booted (view s) bs identity symbols →
  committed s = ∅ → prepared false identity symbols metas bs s.
Proof.
  intros Hact [Hb Hi Hs Hc] Hdb. split; try done.
  - intros i. apply Hc. right; left. by eexists.
  - intros k Hk. apply Hc. right; right; right. set_solver.
  - intros a. unfold get_subresource_counter, counter_key. rewrite store_get_view, Hact. simpl.
    rewrite Hc; [by eexists|]. right; right; right. set_solver.
  - intros k [v Hk] Hp. by rewrite Hc in Hk by (by left).
  - intros k [v Hk]. by rewrite Hdb, lookup_empty in Hk.
Qed.

Lemma read_be4 n : ∃ c, read_be_or_zero 4 (Some (be_bytes 4 n)) = Ok c.
Proof. unfold read_be_or_zero, read_be. rewrite length_be_bytes. by eexists. Qed.

(** With it, [with_tokens] adds the tokens. *)
Lemma prepared_active s s' identity symbols metas bs ti next :
  migration_active s TOKEN_MIGRATION = true → booted (view s) bs identity symbols →
  minted_tokens symbols metas bs (counter_key s ti) next (view s) (view s') →
  committed s' = view s' → frame s s' → prepared true identity symbols metas bs s'.
Proof.
  intros Hact [Hb Hi Hs Hc] [Hinfo Hcnt Hrest] Hdb Hf.
  assert (counter_key s ti = b "/config/subresource_counter/" ++ ab ti) as Hck
    by (unfold counter_key; by rewrite Hact).
  assert (migration_active s' TOKEN_MIGRATION = true) as Hact'
    by (unfold migration_active in *; by rewrite (frame_migrations _ _ Hf)).
  assert (∀ k, (∀ x, k ≠ key_for_ext_info x ∧ k ≠ key_for_symbol x) → k ≠ counter_key s ti →
    k ≠ b TOKEN_IDENTITY_ROOT → view s' !! k = view s !! k) as Hu.
  { intros k Hx Hy Hz. apply Hrest. intros [(x & _ & [-> | ->])|[-> | ->]]; naive_solver. }
  rewrite Hck in *.
  assert (symbols_wf (view s')) as Hwf.
  { intros k Hk [r ->]. destruct (decide (∃ x, x ∈ dom metas ∧ b SYMBOLS_ROOT_DASH ++ r = key_for_symbol x))
      as [(x & _ & ->)|Hn]; [by eexists|].
    rewrite Hrest in Hk; [rewrite Hc in Hk by (left; by eexists); by destruct Hk|].
    intros [(x & Hx & [E|E])|[E|E]]; try key_discr. apply Hn. eauto. }
  split; try done.
  - intros a x. unfold bal, bal_of. rewrite Hu; [apply Hb|intros y; split|..]; key_discr.
  - rewrite Hu; [done|intros y; split|..]; key_discr.
  - rewrite Hu; [done|intros y; split|..]; key_discr.
  - intros i. rewrite Hu; [|intros y; split|..]; [|key_discr..]. apply Hc. right; left. by eexists.
  - intros k Hk. rewrite Hu; [apply Hc; right; right; right; set_solver|intros y; split|..].
    all: repeat (apply elem_of_cons in Hk as [->|Hk]; [key_discr|]); by apply elem_of_nil in Hk.
  - intros a. unfold get_subresource_counter, counter_key. rewrite store_get_view, Hact'.
    cbn [key_for_subresource_counter mbind outcome_bind].
    destruct (decide (a = ti)) as [->|Hne]; [rewrite Hcnt; apply read_be4|].
    rewrite Hu; [rewrite Hc; [by eexists|]; right; right; left; by eexists|intros y; split; key_discr|..|key_discr].
    by intros ?%(inj (app _))%ab_inj.
  - by rewrite Hdb.
Qed.

(** Before the first account, the invariant of the accounts holds. *)
Lemma prepared_accounts_inv active identity symbols metas bs s s' base :
  prepared active identity symbols metas bs s → frame s s' → can_sign base = true →
  subresource_identity s' ACCOUNT_IDENTITY_ROOT = Ok base →
  (∀ k, k ≠ b ACCOUNT_IDENTITY_ROOT → untouched s s' k) → accounts_inv s' base.
Proof.
  intros [_ _ Hsym Hacc Hcl Hcnt Hv Hc Hact _] Hf Hsign Hid Hu.
  assert (∀ i, view s' !! key_for_account i = None) as Hnone.
  { intros i. rewrite (proj1 (Hu (key_for_account i) ltac:(key_discr))). apply Hacc. }
  split; [..|done|done| | |].
  - intros i a (l & Hl & _). by rewrite Hnone in Hl.
  - intros i l Hl. by rewrite Hnone in Hl.
  - destruct (Hcnt base) as [c Hbase]. exists c. split.
    + rewrite <-Hbase. unfold get_subresource_counter. rewrite !store_get_view, (counter_key_frame s s') by done.
      rewrite (proj1 (Hu (counter_key s base) ltac:(apply not_eq_sym, counter_key_ne; auto))). done.
    + intros i Hi. rewrite Hnone in Hi. by destruct Hi.
  - apply (symbols_readable_step s); [|done|intros k [r ->]; apply Hu; key_discr]. split; [done..|].
    intros _. exists symbols. unfold get_symbols_and_tickers. rewrite store_get_view, Hsym. simpl.
    unfold decode_or. by rewrite (decode_to_vec symbols).
  - exists 0. rewrite nb_events_view, (proj1 (Hu EVENT_COUNT_ROOT ltac:(key_discr))), Hcl; [done|by left].
Qed.

(** The accounts of the file, after the tokens. *)
Lemma with_account_ok active identity symbols metas bs s ai accounts base :
  prepared active identity symbols metas bs s → can_sign base = true →
  base = (if active then default identity ai else identity) →
  let r := with_account ai accounts s in
  accounts_inv r.1 base ∧ frame s r.1
  ∧ (∀ k, ¬ account_area base s k → k ≠ b ACCOUNT_IDENTITY_ROOT → untouched s r.1 k)
  ∧ match r.2 with
    | Ok _ => ∃ ids, Forall2 (meta_stored r.1) (default [] accounts) ids
    | Err e => account_refusal base (default [] accounts) e
    | _ => False
    end.
Proof.
  intros Hp Hsign Hbase. unfold with_account. erewrite (bind_reads _ _ s) by done.
  rewrite (pr_active _ _ _ _ _ _ Hp).
  assert (∃ s1, (if active then
      default_identity ← reads (λ s, get_identity s IDENTITY_ROOT);
      store_apply [(b ACCOUNT_IDENTITY_ROOT, Put (address_to_vec (default default_identity ai)))]
    else mret tt : LedgerM unit) s = (s1, Ok tt) ∧ frame s s1
    ∧ subresource_identity s1 ACCOUNT_IDENTITY_ROOT = Ok base
    ∧ ∀ k, k ≠ b ACCOUNT_IDENTITY_ROOT → untouched s s1 k) as (s1 & Hs1 & Hf1 & Hid1 & Hu1).
  { destruct active; [|exists s; split_and!; try done].
    - erewrite (bind_reads _ _ s identity).
      2:{ unfold get_identity. rewrite store_get_view, (pr_identity _ _ _ _ _ _ Hp). apply from_to_vec. }
      destruct (store_apply_one (b ACCOUNT_IDENTITY_ROOT) (Put (address_to_vec (default identity ai))) s)
        as (s1 & Hs1 & Hv1 & Hc1 & _ & Hf1). unfold apply_op in Hv1. cbn [fst snd] in Hv1.
      exists s1. split_and!; [done..| |].
      + rewrite subresource_identity_view, Hv1, lookup_insert_eq, Hbase. apply from_to_vec.
      + intros k Hk. split; [by rewrite Hv1, lookup_insert_ne|left; by rewrite Hc1].
    - rewrite subresource_identity_view, (pr_clear _ _ _ _ _ _ Hp) by set_solver.
      rewrite (pr_identity _ _ _ _ _ _ Hp), Hbase. apply from_to_vec.
    - intros. apply untouched_refl. }
  rewrite (bind_ok _ _ _ _ _ Hs1).
  pose proof (prepared_accounts_inv _ _ _ _ _ _ _ _ Hp Hf1 Hsign Hid1 Hu1) as Hinv.
  destruct accounts as [l|]; cbn [default from_option].
  2:{ split_and!; [done|done|intros; by apply Hu1|]. by exists []. }
  destruct (add_account_metas_ok l base s1 Hinv) as ([Hi Hf Hu] & _ & Hr). split_and!; [done|by trans s1| |done].
  intros k Hk Hne. apply (untouched_trans s s1); [by apply Hu1|]. apply Hu.
  unfold account_area in *. by rewrite (counter_key_frame s s1).
Qed.

Lemma accounts_inv_commit s s' base :
  accounts_inv s base → view s' = view s → committed s' = view s → frame s s' → accounts_inv s' base.
Proof.
  intros [Ho Hr Hid Hb Hids Htab Hev] Hv Hc Hf.
  assert (∀ k, untouched s s' k) as Hu by (intros k; split; [by rewrite Hv|right; by rewrite Hc]).
  destruct (config_step s s' base Hf) as (Hid' & Hc' & Htab'); [auto|].
  split; [| |congruence|done| |auto|].
  - intros i a. unfold stored. rewrite Hv. apply Ho.
  - intros i l. rewrite Hv. apply Hr.
  - rewrite Hc', Hv. done.
  - rewrite nb_events_view, Hv, <-nb_events_view. done.
Qed.

(** The metadata of the file: a record for each symbol, and for nothing else, and a holder of each. *)
Record metas_cover symbols (metas : gmap Symbol SymbolMeta) bs : Prop := {
  mc_dom x : x ∈ dom metas ↔ x ∈ dom symbols;
  mc_held x : x ∈ dom symbols → ∃ a, is_Some (bs !! a ≫= (.!! x));
}.
(** The maxima of the file cover its balances, which the code does not check. *)
Definition maxima_cover (metas : gmap Symbol SymbolMeta) bs : Prop :=
  ∀ x meta n, metas !! x = Some meta → sm_maximum meta = Some n →
    set_total (dom bs) (λ a, holding bs a x) ≤ n.

(** The ledger a genesis file opens. *)
Record established (active : bool) (base : Address) symbols (metas : gmap Symbol SymbolMeta) bs
    (accounts : list AccountMeta) s : Prop := {
  es_bal a x : bal s a x = holding bs a x;
  es_accounts : accounts_inv s base;
  es_stored : ∃ ids, Forall2 (meta_stored s) accounts ids;
  es_committed : committed s = view s;
  es_height : get_height s = Ok 0;
  es_tokens x meta : active = true → metas !! x = Some meta →
    token_info s x (declared_info symbols bs x meta);
  es_supply : active = true → maxima_cover metas bs → supply_inv s (dom symbols);
}.

Lemma declared_sound bs symbols s x meta :
  (∀ a x, bal s a x = holding bs a x) →
  (∀ n, sm_maximum meta = Some n → set_total (dom bs) (λ a, holding bs a x) ≤ n) →
  supply_sound s x (declared_info symbols bs x meta).
Proof.
  intros Hb Hmax. split; [|split].
  - exists (dom bs). split.
    + intros a Ha. rewrite Hb. unfold holding. by rewrite (not_elem_of_dom_1 _ _ Ha).
    + simpl. apply set_total_ext. intros a _. by rewrite Hb.
  - simpl. lia.
  - unfold within. simpl. destruct (sm_maximum meta) as [n|]; [|done]. specialize (Hmax n eq_refl). lia.
Qed.

(** Keys that accounts are not about. *)
Definition kept (k : bytes) : Prop :=
  b "/config/symbols" `prefix_of` k ∨ (∃ x, k = key_for_ext_info x)
  ∨ (∃ a x, k = key_for_account_balance a x)
  ∨ k ∈ [EVENT_COUNT_ROOT; DATA_ATTRIBUTES_KEY; b HEIGHT_ROOT].

Lemma kept_untouched base s s1 k :
  (∀ k, ¬ account_area base s k → k ≠ b ACCOUNT_IDENTITY_ROOT → untouched s s1 k) →
  kept k → view s1 !! k = view s !! k.
Proof.
  intros Hu Hk. apply Hu.
  - intros [[r Hr]|Hr].
    2: unfold counter_key, key_for_subresource_counter in Hr;
       destruct (migration_active s TOKEN_MIGRATION).
    all: destruct Hk as [[? Hk]|[[? Hk]|[(? & ? & Hk)|Hk]]].
    all: repeat (apply elem_of_cons in Hk as [Hk|Hk]); try by apply elem_of_nil in Hk.
    all: subst k; key_discr.
  - intros ->. destruct Hk as [[? Hk]|[[? Hk]|[(? & ? & Hk)|Hk]]]; try key_discr.
    repeat (apply elem_of_cons in Hk as [Hk|Hk]; [key_discr|]); by apply elem_of_nil in Hk.
Qed.

(** The tokens of the file, once the accounts have been added. *)
Lemma declared_token_info identity symbols metas bs s s' x meta :
  prepared true identity symbols metas bs s → (∀ k, kept k → view s' !! k = view s !! k) →
  metas !! x = Some meta → token_info s' x (declared_info symbols bs x meta).
Proof.
  intros Hp Hsame Hx. destruct (pr_tokens _ _ _ _ _ _ Hp eq_refl x meta Hx) as [Hi He].
  apply token_info_view. do 3 eexists. rewrite Hsame by (left; by exists (b "/" ++ ab x)).
  rewrite (Hsame (key_for_ext_info x)) by (right; left; by eexists).
  split_and!; [exact Hi|by apply decode_to_vec|exact He|by apply decode_to_vec].
Qed.

Lemma builders_supply_inv identity symbols metas bs s s' :
  prepared true identity symbols metas bs s → metas_cover symbols metas bs → maxima_cover metas bs →
  (∀ k, kept k → view s' !! k = view s !! k) → committed s' = view s' → frame s s' →
  (∀ a x, bal s' a x = holding bs a x) → supply_inv s' (dom symbols).
Proof.
  intros Hp [Hdom _] Hmax Hsame Hc Hf Hb. split.
  - apply counters_ok_view. unfold counters_ok_of.
    rewrite !Hsame by (right; right; right; set_solver).
    rewrite !(pr_clear _ _ _ _ _ _ Hp) by set_solver.
    split; [by exists 0|done].
  - intros x Hx. apply Hdom in Hx as Hm. apply elem_of_dom in Hm as [meta Hm].
    pose proof (declared_token_info _ _ _ _ _ _ _ _ Hp Hsame Hm) as Hinfo.
    assert (symbols_wf (view s')) as Hwf.
    { intros k Hk Hpre. apply (pr_view _ _ _ _ _ _ Hp); [|done]. rewrite <-Hsame; [done|].
      left. destruct Hpre as [r ->]. by exists (b "/" ++ r). }
    split; [split; [done|by rewrite Hc|]|].
    + unfold migration_active. rewrite (frame_migrations _ _ Hf).
      rewrite (pr_active _ _ _ _ _ _ Hp : is_active (migrations s) _ = _), Hc.
      by apply token_info_symbol in Hinfo.
    + eexists. split; [exact Hinfo|]. apply declared_sound; [done|]. eauto.
Qed.

(** The last commit: everything promised follows from what reads see. *)
Lemma build_established active identity symbols metas bs s s1 base accounts :
  prepared active identity symbols metas bs s → (active = true → metas_cover symbols metas bs) →
  accounts_inv s1 base → frame s s1 →
  (∀ k, ¬ account_area base s k → k ≠ b ACCOUNT_IDENTITY_ROOT → untouched s s1 k) →
  (∃ ids, Forall2 (meta_stored s1) accounts ids) →
  ∃ s', build s1 = (s', Ok tt) ∧ frame s1 s' ∧ established active base symbols metas bs accounts s'.
Proof.
  intros Hp Hcov Hinv Hf Hu (ids & Hids).
  destruct (commit_storage_ok s1) as (s' & Hs' & Hv & Hc & _ & Hf').
  exists s'. split; [exact Hs'|]. split; [done|].
  assert (∀ k, kept k → view s' !! k = view s !! k) as Hsame
    by (intros; rewrite Hv; by eapply kept_untouched).
  assert (∀ a x, bal s' a x = holding bs a x) as Hbal.
  { intros a x. unfold bal, bal_of. rewrite Hsame by (right; right; left; eauto).
    apply (pr_bal _ _ _ _ _ _ Hp). }
  split; [done| | |congruence| | |].
  - by eapply accounts_inv_commit.
  - exists ids. eapply Forall2_impl; [exact Hids|]. intros m i. unfold meta_stored, stored. by rewrite Hv.
  - unfold get_height. rewrite store_get_view, Hsame by (right; right; right; set_solver).
    by rewrite (pr_clear _ _ _ _ _ _ Hp) by set_solver.
  - intros x meta -> Hx. by eapply declared_token_info.
  - intros -> Hmax. eapply builders_supply_inv; eauto; [congruence|by trans s1].
Qed.

(** *** The file as a whole *)

(** The address whose subresources are the accounts. *)
Definition genesis_base (state : InitialStateJson json_value) (active : bool) : Address :=
  if active then default (is_identity state) (is_account_identity state) else is_identity state.

Record genesis_wf (state : InitialStateJson json_value) (active : bool) bs
    (metas : gmap Symbol SymbolMeta) : Prop := {
  gw_idstore : keys_confined (is_id_store_keys state);
  gw_base : can_sign (genesis_base state active) = true;
  gw_metas : active = true →
    symbols_meta_of state = Some metas ∧ metas_cover (is_symbols state) metas bs;
}.

(** The migrations of a configuration, at the first block. *)
Definition initial_migrations (registry : list (InnerMigration merk ManyError))
    (config : option MigrationConfig) : outcome string (MigrationSet merk ManyError) :=
  match config with Some c => load registry c 0 | None => Ok ∅ end.

Lemma with_tokens_prepared state bs metas active s :
  genesis_wf state active bs metas → migration_active s TOKEN_MIGRATION = active →
  booted (view s) bs (is_identity state) (is_symbols state) → committed s = ∅ →
  ∃ s', with_tokens (is_symbols state) (symbols_meta_of state) (is_token_identity state)
          (is_token_next_subresource state) bs s = (s', Ok tt)
    ∧ prepared active (is_identity state) (is_symbols state) metas bs s' ∧ frame s s'.
Proof.
  intros Hwf Hact Hb Hc. destruct active.
  - destruct (gw_metas _ _ _ _ Hwf eq_refl) as [-> [Hdom Hheld]].
    destruct (with_tokens_ok (is_symbols state) metas bs Hdom Hheld s (is_identity state)
      (is_token_identity state) (is_token_next_subresource state) Hact (boot_identity _ _ _ _ Hb))
      as (s' & Hs' & Hm & Hc' & Hf).
    exists s'. split; [exact Hs'|]. split; [|done]. by eapply prepared_active.
  - exists s. unfold with_tokens. erewrite (bind_reads _ _ s) by done. rewrite Hact.
    split; [done|]. split; [by apply prepared_inactive|done].
Qed.

(** The builders up to the tokens. *)
Lemma build_state_start registry config ms state bs accounts s :
  view s = ∅ → committed s = ∅ → initial_migrations registry config = Ok ms →
  state_balances state = Ok bs → keys_confined (is_id_store_keys state) →
  ∃ s3, build_state registry config state bs accounts s
      = (with_tokens (is_symbols state) (symbols_meta_of state) (is_token_identity state)
           (is_token_next_subresource state) bs;;
         with_account (is_account_identity state) accounts;; build) s3
    ∧ frame (set_migrations s ms) s3 ∧ booted (view s3) bs (is_identity state) (is_symbols state)
    ∧ committed s3 = ∅.
Proof.
  intros Hv Hc Hms Hbs Hk. unfold build_state, initial_migrations in *.
  erewrite (bind_ok _ _ s (set_migrations s ms) tt) by (unfold with_migrations; by rewrite Hms).
  destruct (with_balances_ok (is_identity state) (is_symbols state) bs (set_migrations s ms))
    as (s2 & Hs2 & Hb2 & Hc2 & Hf2); [|done|].
  { intros a v Ha. by eapply state_balances_known. }
  rewrite (bind_ok _ _ _ _ _ Hs2).
  destruct (with_idstore_ok (is_id_store_seed state) (is_id_store_keys state) s2 Hk) as (s3 & Hs3 & Hc3 & Hf3 & Hu3).
  rewrite (bind_ok _ _ _ _ _ Hs3). exists s3. split_and!; [done|by trans s2|by eapply booted_step|].
  rewrite Hc3, Hc2. exact Hc.
Qed.

Lemma build_state_ok registry config ms state bs metas active accounts s :
  view s = ∅ → committed s = ∅ → initial_migrations registry config = Ok ms →
  is_active ms TOKEN_MIGRATION = active → state_balances state = Ok bs → genesis_wf state active bs metas →
  let r := build_state registry config state bs accounts s in
  match r.2 with
  | Ok _ => established active (genesis_base state active) (is_symbols state) metas bs (default [] accounts) r.1
            ∧ migrations r.1 = ms ∧ blockchain r.1 = blockchain s
  | Err e => account_refusal (genesis_base state active) (default [] accounts) e
  | _ => False
  end.
Proof.
  intros Hv Hc Hms Hact Hbs Hwf.
  destruct (build_state_start registry config ms state bs accounts s Hv Hc Hms Hbs (gw_idstore _ _ _ _ Hwf))
    as (s3 & -> & Hf & Hb3 & Hc3).
  destruct (with_tokens_prepared state bs metas active s3) as (s4 & Hs4 & Hp & Hf4); [done| |done|done|].
  { unfold migration_active. by rewrite (frame_migrations _ _ Hf). }
  rewrite (bind_ok _ _ _ _ _ Hs4).
  destruct (with_account_ok _ _ _ _ _ _ (is_account_identity state) accounts (genesis_base state active)
    Hp (gw_base _ _ _ _ Hwf) eq_refl) as (Hinv & Hf5 & Hu5 & Hr).
  unfold mbind, st_bind. destruct (with_account _ _ s4) as [s5 [[]|e|t|]]; cbn [fst snd] in *; try done.
  destruct (build_established _ _ _ _ _ _ _ _ _ Hp (λ Ha, proj2 (gw_metas _ _ _ _ Hwf Ha)) Hinv Hf5 Hu5 Hr)
    as (s6 & -> & Hf6 & Hes). cbn [fst snd].
  assert (frame (set_migrations s ms) s6) as [? _ _ ? _] by (trans s3; [done|trans s4; [done|by trans s5]]).
  done.
Qed.

Lemma check_hash_cases o actual :
  (check_hash o actual = Ok tt ∧ ∀ h, o = Some h → actual = h)
  ∨ ∃ h, o = Some h ∧ actual ≠ h ∧ check_hash o actual = Err (invalid_initial_state h actual).
Proof.
  destruct o as [h|]; simpl; [|by left]. case_bool_decide as Hne; [right; by exists h|left].
  split; [done|]. intros ? [= <-]. done.
Qed.

(** The hash of the ledger is not the one the file names. *)
Definition hash_refusal (state : InitialStateJson json_value) (e : ManyError) : Prop :=
  ∃ h actual, is_hash state = Some h ∧ actual ≠ h ∧ e = invalid_initial_state h actual.

Lemma ledger_module_new_ok registry info_logged m config ms state bs metas accounts is_blockchain :
  merk_view m = ∅ → merk_db m = ∅ → initial_migrations registry config = Ok ms →
  state_balances state = Ok bs → accounts_of_json (default [] (is_accounts state)) = Ok accounts →
  let active := is_active ms TOKEN_MIGRATION in
  genesis_wf state active bs metas →
  match ledger_module_new registry info_logged (Ok m) state config is_blockchain with
  | Ok s => established active (genesis_base state active) (is_symbols state) metas bs accounts s
            ∧ migrations s = ms ∧ blockchain s = is_blockchain
            ∧ ∀ h, is_hash state = Some h → hex_encode (hash s) = h
  | Err e => account_refusal (genesis_base state active) accounts e ∨ hash_refusal state e
  | _ => False
  end.
Proof.
  intros Hv Hdb Hms Hbs Hacc active Hwf. unfold ledger_module_new. rewrite Hbs. cbn [mbind outcome_bind].
  assert (∃ o, match is_accounts state with
               | Some l => ms ← accounts_of_json l; Ok (Some ms)
               | None => Ok None end = (Ok o : outcome ManyError _) ∧ default [] o = accounts)
    as (o & -> & Ho).
  { destruct (is_accounts state) as [l|]; simpl in Hacc; [rewrite Hacc|]; [by eexists|].
    exists None. split; [done|]. by injection Hacc. }
  cbn [mbind outcome_bind ledger_new map_err].
  set (s0 := mkStorage _ m is_blockchain [as_u8 0] None None ∅).
  pose proof (build_state_ok registry config ms state bs metas active o s0 Hv Hdb Hms eq_refl Hbs Hwf) as Hr.
  rewrite Ho in Hr. destruct (build_state _ _ _ _ _ s0) as [s [[]|e|t|]]; cbn [fst snd] in Hr |- *; try done.
  2:{ by left. }
  destruct Hr as (Hes & Hm & Hbc). cbn [mbind outcome_bind].
  destruct (check_hash_cases (is_hash state) (hex_encode (hash s))) as [[-> Hhash]|(h & Hh & Hne & ->)]; [|right; by exists h, (hex_encode (hash s))].
  cbn [mbind outcome_bind]. rewrite (es_height _ _ _ _ _ _ _ Hes). by destruct info_logged.
Qed.

(** *** Files that are not opened *)

(** Why the tokens of the file are refused: there is no metadata, or a symbol has none, or nobody holds it. *)
Definition tokens_refused (state : InitialStateJson json_value) bs : Prop :=
  match symbols_meta_of state with
  | None => True
  | Some metas => ∃ x, x ∈ dom (is_symbols state) ∧ (metas !! x = None ∨ ∀ a, bs !! a ≫= (.!! x) = None)
  end.
(** The metadata of an address that is no symbol. *)
Definition stray_metadata (state : InitialStateJson json_value) : Prop :=
  ∃ metas x, symbols_meta_of state = Some metas ∧ x ∈ dom metas ∧ x ∉ dom (is_symbols state).

Lemma check_symbols_cases l (metas : gmap Symbol SymbolMeta) bs :
  (check_symbols l metas (_total_supply bs) = Ok tt
   ∧ ∀ x, x ∈ l → x ∈ dom metas ∧ ∃ a, is_Some (bs !! a ≫= (.!! x)))
  ∨ ((∃ e, check_symbols l metas (_total_supply bs) = Err e)
     ∧ ∃ x, x ∈ l ∧ (metas !! x = None ∨ ∀ a, bs !! a ≫= (.!! x) = None)).
Proof.
  induction l as [|x l IH]; simpl; [left; split; [done|]; by intros x ?%elem_of_nil|].
  case_bool_decide as Hm.
  { right. split; [by eexists|]. exists x. split; [by left|by left]. }
  case_bool_decide as Ht.
  { right. split; [by eexists|]. exists x. split; [by left|]. right. intros a. apply eq_None_not_Some.
    intros Ha. destruct (proj2 (total_supply_some bs x)) as [n Hn]; [by exists a|congruence]. }
  destruct IH as [[Hc Hl]|[Hc (y & Hy & Hr)]].
  - left. split; [done|]. intros y [->|Hy]%elem_of_cons; [|by apply Hl].
    split; [by apply elem_of_dom, not_eq_None_Some|]. apply total_supply_some. by apply not_eq_None_Some.
  - right. split; [done|]. exists y. split; [by right|done].
Qed.

Lemma tokens_batch_stray l symbols total (x : Symbol) :
  x ∈ l.*1 → x ∉ dom symbols → ∃ t, tokens_batch l symbols total = Panic t.
Proof.
  intros Hx Hn. induction l as [|[y meta] l IH]; [by apply elem_of_nil in Hx|]. csimpl in *.
  unfold index_or_panic. destruct (total !! y) as [n|]; [|by eexists]. cbn [mbind outcome_bind].
  destruct (symbols !! y) as [tick|] eqn:Hy; [|by eexists]. cbn [mbind outcome_bind].
  apply elem_of_cons in Hx as [->|Hx]; [by apply not_elem_of_dom in Hn; congruence|].
  destruct (IH Hx) as [t ->]. by eexists.
Qed.

(** The tokens of a file: in order, refused, or a panic. *)
Lemma with_tokens_cases state bs s :
  migration_active s TOKEN_MIGRATION = true →
  let m := with_tokens (is_symbols state) (symbols_meta_of state) (is_token_identity state)
             (is_token_next_subresource state) bs s in
  (∃ metas, symbols_meta_of state = Some metas ∧ metas_cover (is_symbols state) metas bs)
  ∨ (∃ e, m = (s, Err e) ∧ tokens_refused state bs)
  ∨ (∃ t, m = (s, Panic t) ∧ stray_metadata state).
Proof.
  intros Hact. unfold with_tokens, tokens_refused, stray_metadata. erewrite (bind_reads _ _ s) by done. rewrite Hact.
  destruct (symbols_meta_of state) as [metas|]; [|right; left; by eexists].
  erewrite (bind_lift _ _ s metas) by done.
  destruct (check_symbols_cases (btree_iter (is_symbols state)).*1 metas bs) as [[Hc Hall]|[[e Hc] (x & Hx & Hr)]].
  - assert (∀ x, x ∈ dom (is_symbols state) → x ∈ (btree_iter (is_symbols state)).*1) as Hdom.
    { intros x [t Ht]%elem_of_dom. apply list_elem_of_fmap. exists (x, t). by rewrite elem_of_btree_iter. }
    destruct (decide (dom metas ⊆ dom (is_symbols state))) as [Hsub|Hsub].
    { left. exists metas. split; [done|]. split; [|intros x Hx; by apply Hall, Hdom].
      intros x. split; [set_solver|]. intros Hx. by apply Hall, Hdom. }
    right; right. erewrite (bind_lift _ _ s tt) by exact Hc.
    assert (∃ x, x ∈ dom metas ∧ x ∉ dom (is_symbols state)) as (x & Hx & Hn).
    { destruct (set_choose_or_empty (dom metas ∖ dom (is_symbols state))) as [[x Hx]|He].
      - apply elem_of_difference in Hx. by exists x.
      - destruct Hsub. intros x Hx. apply dec_stable. intros Hn.
        apply (not_elem_of_empty x (C := gset Symbol)). rewrite <-He. by apply elem_of_difference. }
    destruct (tokens_batch_stray (btree_iter metas) (is_symbols state) (_total_supply bs) x) as [t Ht]; [|done|].
    { apply elem_of_dom in Hx as [y Hy]. apply list_elem_of_fmap. exists (x, y). by rewrite elem_of_btree_iter. }
    exists t. split; [|eauto]. unfold mbind, st_bind, lift. by rewrite Ht.
  - right; left. exists e. split; [unfold mbind, st_bind, lift; by rewrite Hc|]. exists x. split; [|done].
    apply list_elem_of_fmap in Hx as ([y t] & -> & Hy). apply elem_of_btree_iter in Hy. apply elem_of_dom. by eexists.
Qed.

(** Accounts that make the conversion panic: an unknown role, or a feature that is not supported or has an
    argument that is not read. *)
Definition unreadable_account (a : AccountJson json_value) : Prop :=
  (∃ i rs r, aj_roles a !! i = Some rs ∧ r ∈ rs ∧ role_from_str r = None)
  ∨ (∃ n arg, aj_features a !! n = Some arg ∧ ∀ f, try_into_feature (mkFeatureJson n arg) ≠ Ok (Some f)).

Definition fails_by {A} (P : Prop) (o : outcome ManyError A) : Prop :=
  match o with Ok _ => True | Err _ => False | Panic _ => P | OutOfFuel => ∃ v, multisig_arg_of v = OutOfFuel end.
Lemma fails_by_bind {A B} (P : Prop) (o : outcome ManyError A) (f : A → outcome ManyError B) :
  fails_by P o → (∀ a, fails_by P (f a)) → fails_by P (o ≫= f).
Proof. destruct o; simpl; auto. Qed.
Lemma fails_by_mono {A} (P Q : Prop) (o : outcome ManyError A) : (P → Q) → fails_by P o → fails_by Q o.
Proof. destruct o; simpl; auto. Qed.

Lemma roles_of_json_fails l : fails_by (∃ r, r ∈ l ∧ role_from_str r = None) (roles_of_json l).
Proof.
  induction l as [|r l IH]; [done|]. cbn [roles_of_json]. unfold expect_some.
  destruct (role_from_str r) eqn:Hr; [|exists r; split; [by left|done]].
  apply fails_by_bind; [done|]. intros ?. apply fails_by_bind; [|done].
  eapply fails_by_mono; [|exact IH]. intros (x & Hx & ?). exists x. by split; [right|].
Qed.
Lemma role_map_of_json_fails l :
  fails_by (∃ i rs r, (i, rs) ∈ l ∧ r ∈ rs ∧ role_from_str r = None) (role_map_of_json l).
Proof.
  induction l as [|[i rs] l IH]; [done|]. cbn [role_map_of_json]. apply fails_by_bind.
  - eapply fails_by_mono; [|apply roles_of_json_fails]. intros (r & Hr & ?). exists i, rs, r.
    split_and!; [by left| |done]. unfold string_set_iter in Hr.
    apply list_elem_of_fmap in Hr as ([x []] & -> & Hr). apply elem_of_btree_iter in Hr.
    by apply lookup_gset_to_gmap_Some in Hr as [? _].
  - intros ?. apply fails_by_bind; [|done]. eapply fails_by_mono; [|exact IH].
    intros (j & rs' & r & Hj & ?). exists j, rs', r. by split; [right|].
Qed.
Lemma try_into_feature_fails n arg :
  match try_into_feature (mkFeatureJson n arg) with
  | Ok (Some _) => True
  | Err _ => False
  | OutOfFuel => ∃ v, multisig_arg_of v = OutOfFuel
  | _ => ∀ f, try_into_feature (mkFeatureJson n arg) ≠ Ok (Some f)
  end.
Proof.
  unfold try_into_feature, arg_into_multisig, expect. cbn [fj_id fj_arg].
  destruct (n =? ID AccountLedger); [done|]. destruct (n =? ID MultisigAccountFeature); [|done].
  destruct arg as [v|]; [|done]. destruct (multisig_arg_of v) eqn:Hv; try done. by exists v.
Qed.
Lemma features_of_json_fails l :
  fails_by (∃ n arg, (n, arg) ∈ l ∧ ∀ f, try_into_feature (mkFeatureJson n arg) ≠ Ok (Some f)) (features_of_json l).
Proof.
  induction l as [|[n arg] l IH]; [done|]. cbn [features_of_json]. pose proof (try_into_feature_fails n arg) as Hf.
  assert (fails_by (∃ n0 arg0, (n0, arg0) ∈ (n, arg) :: l ∧ ∀ f, try_into_feature (mkFeatureJson n0 arg0) ≠ Ok (Some f))
    (features_of_json l)) as IH'.
  { eapply fails_by_mono; [|exact IH]. intros (n' & a' & Hin & ?). exists n', a'. by split; [right|]. }
  destruct (try_into_feature (mkFeatureJson n arg)) as [[f|]|e|t|] eqn:Ht; cbn [mbind outcome_bind expect_some]; try done.
  - by apply fails_by_bind.
  - exists n, arg. split; [by left|]. by rewrite Ht.
  - exists n, arg. split; [by left|]. by rewrite Ht.
Qed.
Lemma accounts_of_json_fails l :
  fails_by (∃ a, a ∈ l ∧ unreadable_account a) (accounts_of_json l).
Proof.
  induction l as [|a l IH]; [done|]. cbn [accounts_of_json]. apply fails_by_bind.
  - unfold AccountMeta_of_json. apply fails_by_bind; [|intros ?; apply fails_by_bind; [|done]].
    + eapply fails_by_mono; [|apply role_map_of_json_fails]. intros (i & rs & r & Hi%elem_of_btree_iter & ?).
      exists a. split; [by left|]. left. eauto.
    + eapply fails_by_mono; [|apply features_of_json_fails]. intros (n & arg & Hi%elem_of_btree_iter & ?).
      exists a. split; [by left|]. right. eauto.
  - intros ?. apply fails_by_bind; [|done]. eapply fails_by_mono; [|exact IH].
    intros (x & Hx & ?). exists x. by split; [right|].
Qed.

Lemma resolve_tokens_answers symbols l acc : answers (resolve_tokens symbols l acc) = true.
Proof.
  revert acc. induction l as [|[t n] l IH]; intros acc; [done|]. cbn [resolve_tokens]. unfold find_symbol.
  destruct (list_find _ _) as [[]|]; [apply IH|done].
Qed.
Lemma state_balances_answers state : answers (state_balances state) = true.
Proof.
  unfold state_balances. generalize (∅ : Holdings) as acc. induction (btree_iter (is_initial state)) as [|[i v] l IH];
    intros acc; [done|]. cbn [resolve_holders]. pose proof (resolve_tokens_answers (is_symbols state) (btree_iter v) ∅).
  destruct (resolve_tokens _ _ _); [apply IH|done..].
Qed.

(** The builders on a file whose tokens are not in order. *)
Lemma build_state_fails registry config ms state bs accounts s :
  view s = ∅ → committed s = ∅ → initial_migrations registry config = Ok ms →
  is_active ms TOKEN_MIGRATION = true → state_balances state = Ok bs → keys_confined (is_id_store_keys state) →
  (∃ metas, symbols_meta_of state = Some metas ∧ metas_cover (is_symbols state) metas bs)
  ∨ (∃ e, (build_state registry config state bs accounts s).2 = Err e ∧ tokens_refused state bs)
  ∨ (∃ t, (build_state registry config state bs accounts s).2 = Panic t ∧ stray_metadata state).
Proof.
  intros Hv Hc Hms Hact Hbs Hk.
  destruct (build_state_start registry config ms state bs accounts s Hv Hc Hms Hbs Hk) as (s3 & -> & Hf & _ & _).
  destruct (with_tokens_cases state bs s3) as [?|[(e & He & Hr)|(t & Ht & Hr)]]; [|by left|right; left|right; right].
  - unfold migration_active. by rewrite (frame_migrations _ _ Hf).
  - exists e. split; [|done]. unfold mbind, st_bind. by rewrite He.
  - exists t. split; [|done]. unfold mbind, st_bind. by rewrite Ht.
Qed.

(** What a ledger has that was opened from the file. *)
Record opened_from (state : InitialStateJson json_value) (active : bool) bs (accounts : list AccountMeta) s : Prop := {
  of_bal a x : bal s a x = holding bs a x;
  of_accounts : accounts_inv s (genesis_base state active);
  of_stored : ∃ ids, Forall2 (meta_stored s) accounts ids;
  of_hash h : is_hash state = Some h → hex_encode (hash s) = h;
  of_tokens : active = true → ∃ metas, symbols_meta_of state = Some metas
    ∧ metas_cover (is_symbols state) metas bs
    ∧ (∀ x meta, metas !! x = Some meta → token_info s x (declared_info (is_symbols state) bs x meta))
    ∧ (maxima_cover metas bs → supply_inv s (dom (is_symbols state)));
}.

Lemma ledger_module_opens registry info_logged m config ms state bs metas accounts is_blockchain :
  merk_view m = ∅ → merk_db m = ∅ → initial_migrations registry config = Ok ms →
  state_balances state = Ok bs → accounts_of_json (default [] (is_accounts state)) = Ok accounts →
  let active := is_active ms TOKEN_MIGRATION in
  genesis_wf state active bs metas →
  match ledger_module_new registry info_logged (Ok m) state config is_blockchain with
  | Ok s => opened_from state active bs accounts s
  | Err e => account_refusal (genesis_base state active) accounts e ∨ hash_refusal state e
  | _ => False
  end.
Proof.
  intros Hv Hdb Hms Hbs Hacc active Hwf.
  pose proof (ledger_module_new_ok registry info_logged m config ms state bs metas accounts is_blockchain
    Hv Hdb Hms Hbs Hacc Hwf) as Hr.
  destruct (ledger_module_new _ _ _ _ _ _) as [s| | |]; try done.
  destruct Hr as ([Hb Ha Hst _ _ Ht Hsup] & _ & _ & Hhash). split; try done.
  intros Hact. destruct (gw_metas _ _ _ _ Hwf Hact) as [Hm Hcov].
  exists metas. split_and!; [done..|intros; by apply Ht|by apply Hsup].
Qed.

End establish.
