(* ===== verification/GenesisExport.v ===== *)
(** * genesis-from-db: a genesis file from a database

    Models [genesis-from-db/src/main.rs]: [extract_genesis] and the extraction of the id
    store, the symbols, the balances, the identities and the accounts; and [idstore-export/src/main.rs], which
    extracts the id store only. Every failure is a panic.

    The text of the document is that of [serde_json] ([json_pretty]); [json_multisig] is what the
    [json!] macro builds for the argument of the multisig feature, [base64_standard] the encoding of
    the [base64] crate. *)
From S2P Require Import Prelude Error External Address Types Account Events Migration Storage.
From S2P Require Import LedgerEvent Ledger Tokens AccountStorage IdStore Genesis.

#[local] Open Scope string_scope.
#[local] Open Scope list_scope.
#[local] Open Scope N_scope.

(** ** The document *)

Record IdStoreJsonRoot : Type := mkIdStoreRoot {
  ir_seed : N;
  ir_keys : gmap string string;
}.
(** The [SymbolMeta] of the exporter has the fields of the ledger's. *)
Record SymbolsJsonRoot : Type := mkSymbolsRoot {
  sr_symbols : gmap Address string;
  sr_symbols_meta : gmap string SymbolMeta;
}.
Record BalancesJsonRoot : Type := mkBalancesRoot { br_initial : gmap string (gmap string TokenAmount) }.
Record IdentityJsonRoot : Type := mkIdentityRoot { idr_identity : Address }.
Record TokenIdentityJsonRoot : Type := mkTokenIdentityRoot { tir_token_identity : Address }.
Record AccountIdentityJsonRoot : Type := mkAccountIdentityRoot { air_account_identity : Address }.

Section document.
Context {json_value : Type}.

Record AccountJsonParamRoot : Type := mkAccountParam {
  ap_subresource_id : N;
  ap_id : Address;
  ap_description : option string;
  ap_roles : gmap Address (gset string);
  ap_features : list (FeatureJson json_value);
}.
Record AccountJsonRoot : Type := mkAccountRoot { acr_accounts : list AccountJsonParamRoot }.
Record CombinedJson : Type := mkCombined {
  cj_id_store : IdStoreJsonRoot;
  cj_symbols : SymbolsJsonRoot;
  cj_balances : BalancesJsonRoot;
  cj_identity : IdentityJsonRoot;
  cj_token_identity : TokenIdentityJsonRoot;
  cj_account_identity : AccountIdentityJsonRoot;
  cj_accounts : AccountJsonRoot;
}.
End document.
Arguments AccountJsonParamRoot : clear implicits.
Arguments AccountJsonRoot : clear implicits.
Arguments CombinedJson : clear implicits.

Class ExportEnv `{GenesisEnv} := {
  base64_standard : bytes → string;
  json_multisig : option N → option N → option bool → json_value;
  json_pretty : CombinedJson json_value → outcome string string;
  json_pretty_idstore : IdStoreJsonRoot → outcome string string;
}.

(** ** Text *)

(** [String::remove_matches]: every occurrence of the pattern, from left to right. *)
Fixpoint drop_prefix (p t : string) : option string :=
  match p, t with
  | EmptyString, _ => Some t
  | String c p, String d t => if bool_decide (c = d) then drop_prefix p t else None
  | _, EmptyString => None
  end.
Fixpoint remove_matches_from (fuel : nat) (p t : string) : string :=
  match fuel with
  | O => t
  | S fuel =>
      match t with
      | EmptyString => EmptyString
      | String c rest =>
          match drop_prefix p t with
          | Some t' => remove_matches_from fuel p t'
          | None => String c (remove_matches_from fuel p rest)
          end
      end
  end.
(** Each step takes a character of the text: its length is fuel enough. *)
Definition remove_matches (p t : string) : string := remove_matches_from (String.length t) p t.

(** [t.split_once('/')]. *)
Fixpoint split_once_slash (t : string) : option (string * string) :=
  match t with
  | EmptyString => None
  | String c t =>
      if bool_decide (c = "/"%char) then Some (EmptyString, t)
      else '(l, r) ← split_once_slash t; Some (String c l, r)
  end.

Section export.
Context `{LedgerEnv, IdStoreEnv, ExportEnv}.

(** The entries below a prefix: keys and decoded values, in order. *)
Definition db_entries (m : merk) (prefix : bytes) : list (outcome string (bytes * bytes)) :=
  ledger_iter m IterStart (PrefixRange prefix).

(** [merk.get(key).expect(message)]. *)
Definition db_get (m : merk) (key : bytes) (message : string) : outcome ManyError (option bytes) :=
  expect message (merk_get m key).

(** ** The parts *)

Fixpoint export_keys (l : list (outcome string (bytes * bytes))) (acc : gmap string string) :
    outcome ManyError (gmap string string) :=
  match l with
  | [] => Ok acc
  | i :: l =>
      kv ← expect "Error while reading the DB" i;
      export_keys l (<[base64_standard kv.1 := base64_standard kv.2]> acc)
  end.
Definition extract_idstore (m : merk) : outcome ManyError IdStoreJsonRoot :=
  keys ← export_keys (db_entries m IDSTORE_ROOT) ∅;
  o ← db_get m IDSTORE_SEED_ROOT "Could not read seed";
  seed ← read_be_or_zero 8 o;
  Ok (mkIdStoreRoot seed keys).
(** [idstore-export/src/main.rs], which prints the same part alone. *)
Definition idstore_export (opened : outcome string merk) : outcome ManyError string :=
  m ← expect "Could not open the store." opened;
  root ← extract_idstore m;
  expect "Could not serialize" (json_pretty_idstore root).

Fixpoint export_symbols (l : list (outcome string (bytes * bytes))) (acc : gmap string SymbolMeta) :
    outcome ManyError (gmap string SymbolMeta) :=
  match l with
  | [] => Ok acc
  | i :: l =>
      kv ← expect "Error while reading the DB" i;
      info ← expect "Could not decode token info" (decode (A := TokenInfo) kv.2);
      t ← expect "Could not decode symbol key" (from_utf8 kv.1);
      export_symbols l
        (<[remove_matches SYMBOLS_ROOT_DASH t :=
             mkSymbolMeta (name (summary info)) (decimals (summary info)) (owner info)
               (maximum (supply info))]> acc)
  end.
Definition extract_symbols (m : merk) : outcome ManyError SymbolsJsonRoot :=
  metas ← export_symbols (db_entries m (b SYMBOLS_ROOT_DASH)) ∅;
  o ← db_get m (b SYMBOLS_ROOT) "Could not read symbols root";
  l ← expect_some "Could not read symbols root value" o;
  symbols ← expect "Could not decode symbols root" (decode (A := gmap Address string) l);
  Ok (mkSymbolsRoot symbols metas).

Definition BALANCE_ROOT : string := "/balances/".
(** Every balance is written as one of "MFX"; an address has one entry. *)
Fixpoint export_balances (l : list (outcome string (bytes * bytes)))
    (acc : gmap string (gmap string TokenAmount)) :
    outcome ManyError (gmap string (gmap string TokenAmount)) :=
  match l with
  | [] => Ok acc
  | i :: l =>
      kv ← expect "Error while reading the DB" i;
      t ← expect "Could not decode symbol key" (from_utf8 kv.1);
      p ← expect_some "Could not split key" (split_once_slash (remove_matches BALANCE_ROOT t));
      export_balances l (<[p.1 := {["MFX" := from_bytes_be kv.2]}]> acc)
  end.
Definition extract_balances (m : merk) : outcome ManyError BalancesJsonRoot :=
  initial ← export_balances (db_entries m (b BALANCE_ROOT)) ∅;
  Ok (mkBalancesRoot initial).

(** The address stored under a key; the three extractions of identities differ in the key. *)
Definition db_address (m : merk) (key : string) : outcome ManyError Address :=
  o ← db_get m (b key) "Could not read identity";
  l ← expect_some "Could not read identity value" o;
  expect "Could not decode identity" (from_bytes l).
Definition extract_identity (m : merk) : outcome ManyError IdentityJsonRoot :=
  a ← db_address m IDENTITY_ROOT; Ok (mkIdentityRoot a).
Definition extract_token_identity (m : merk) : outcome ManyError TokenIdentityJsonRoot :=
  a ← db_address m TOKEN_IDENTITY_ROOT; Ok (mkTokenIdentityRoot a).
Definition extract_account_identity (m : merk) : outcome ManyError AccountIdentityJsonRoot :=
  a ← db_address m ACCOUNT_IDENTITY_ROOT; Ok (mkAccountIdentityRoot a).

(** *** Accounts *)

Definition feature_json (f : Feature) : FeatureJson json_value :=
  match try_create MultisigAccountFeature f with
  | Ok x => mkFeatureJson (attr_id f)
              (Some (json_multisig (arg_threshold (arg x)) (arg_timeout_in_secs (arg x))
                       (arg_execute_automatically (arg x))))
  | _ => mkFeatureJson (attr_id f) None
  end.
Definition get_features (args : FeatureSet) : list (FeatureJson json_value) :=
  feature_json <$> FeatureSet_iter args.

(** [role.into_iter().map(|r| r.to_string()).collect()]. *)
Definition role_strings (v : gset Role) : gset string := set_map role_to_string v.

Definition ACCOUNT_ROOT : string := "/accounts/".
Definition export_account (kv : bytes * bytes) : outcome ManyError (AccountJsonParamRoot json_value) :=
  t ← expect "Could not decode symbol key" (from_utf8 kv.1);
  acc ← expect "Could not decode account" (decode (A := Account) kv.2);
  i ← expect "Could not decode address" (address_from_str (remove_matches ACCOUNT_ROOT t));
  n ← expect_some "called `Option::unwrap()` on a `None` value" (subresource_id i);
  Ok (mkAccountParam n i (description acc) (role_strings <$> roles acc) (get_features (features acc))).
Fixpoint export_accounts (l : list (outcome string (bytes * bytes))) :
    outcome ManyError (list (AccountJsonParamRoot json_value)) :=
  match l with
  | [] => Ok []
  | i :: l =>
      kv ← expect "Error while reading the DB" i;
      a ← export_account kv;
      r ← export_accounts l;
      Ok (a :: r)
  end.
Definition extract_accounts (m : merk) : outcome ManyError (AccountJsonRoot json_value) :=
  l ← export_accounts (db_entries m (b ACCOUNT_ROOT)); Ok (mkAccountRoot l).

(** ** The whole *)

Definition combined (m : merk) : outcome ManyError (CombinedJson json_value) :=
  idstore ← extract_idstore m;
  symbols ← extract_symbols m;
  balances ← extract_balances m;
  identity ← extract_identity m;
  token_identity ← extract_token_identity m;
  account_identity ← extract_account_identity m;
  accounts ← extract_accounts m;
  Ok (mkCombined idstore symbols balances identity token_identity account_identity accounts).
Definition extract_genesis (m : merk) : outcome ManyError string :=
  c ← combined m;
  expect "Could not serialize" (json_pretty c).
End export.
