(* ===== verification/ExportLaws.v ===== *)
(** * What the exporter writes

    The document made of a database, read back as a genesis file, opens a ledger with the same
    balances and the same accounts, but for what the document has no place for. *)
From S2P Require Import Prelude Error External Address Types Account Events Migration Storage.
From S2P Require Import StorageLaws LedgerEvent Ledger Tokens Supply Subresource AccountStorage.
From S2P Require Import AccountModule IdStore Genesis GenesisLaws GenesisExport.

#[local] Open Scope string_scope.
#[local] Open Scope list_scope.
#[local] Open Scope N_scope.

(** ** Texts *)

Section texts.
Implicit Types (p t : string) (c : ascii).

Fixpoint has_char (c : ascii) (t : string) : Prop :=
  match t with EmptyString => False | String d t => d = c ∨ has_char c t end.

Lemma drop_prefix_app p t : drop_prefix p (p +:+ t) = Some t.
Proof. induction p as [|c p IH]; simpl; [by destruct t|]. by rewrite bool_decide_eq_true_2. Qed.
Lemma drop_prefix_chars p t r c : drop_prefix p t = Some r → has_char c p → has_char c t.
Proof.
  revert t. induction p as [|d p IH]; intros [|e t]; simpl; try done.
  case_bool_decide as Hd; [subst e|done]. intros Hr [->|Hc]; [by left|right; eauto].
Qed.

(** A text without the first character of a pattern has no match. *)
Lemma remove_matches_none n c p t :
  ¬ has_char c t → remove_matches_from n (String c p) t = t.
Proof.
  revert t. induction n as [|n IH]; intros [|d t]; simpl; try done. intros Hc.
  rewrite bool_decide_eq_false_2 by naive_solver. f_equal. naive_solver.
Qed.
Lemma remove_matches_prefix c p t :
  ¬ has_char c t → remove_matches (String c p) (String c p +:+ t) = t.
Proof.
  intros Hc. pose proof (drop_prefix_app (String c p) t) as Hd. unfold remove_matches.
  change (String c p +:+ t) with (String c (p +:+ t)) in *. cbn [String.length remove_matches_from]. rewrite Hd.
  by apply remove_matches_none.
Qed.

(** One separator does not make a match of a pattern that has two. *)
Lemma remove_matches_separated n c p t u :
  ¬ has_char c t → ¬ has_char c u → has_char c p →
  remove_matches_from n (String c p) (t +:+ String c u) = t +:+ String c u.
Proof.
  revert t. induction n as [|n IH]; intros [|d t] Ht Hu Hp; simpl; try done.
  - rewrite bool_decide_eq_true_2 by done.
    destruct (drop_prefix p u) as [r|] eqn:Hr; [exfalso; by eapply Hu, drop_prefix_chars|].
    change (EmptyString +:+ String c u) with (String c u). f_equal. by apply remove_matches_none.
  - simpl in Ht. rewrite bool_decide_eq_false_2 by naive_solver.
    change (String d t +:+ String c u) with (String d (t +:+ String c u)). f_equal. apply IH; tauto.
Qed.
Lemma split_once_app t u : ¬ has_char "/"%char t → split_once_slash (t +:+ String "/"%char u) = Some (t, u).
Proof.
  induction t as [|c t IH]; simpl; [done|]. intros Hc.
  rewrite bool_decide_eq_false_2 by naive_solver. rewrite IH by naive_solver. done.
Qed.
End texts.

Section keys.
Context `{LedgerEnv, !LedgerEnvLaws}.

Lemma from_utf8_ascii t : Forall (λ c, Byte.to_N c < 128) (b t) → from_utf8 (b t) = Ok t.
Proof.
  intros Ht. unfold from_utf8. rewrite utf8_ascii by done. f_equal. apply String.string_of_list_byte_of_string.
Qed.
Lemma address_text_slash a : ¬ has_char "/"%char (address_to_string a).
Proof.
  intros Hc. apply (ab_no_slash a). unfold ab, b. revert Hc. generalize (address_to_string a).
  intros t. induction t as [|c t IH]; simpl; [done|]. intros [->|Hc]; [by left|right; auto].
Qed.

(** The text of a key: a root and an address, or a root and two of them. *)
Lemma from_utf8_key root a :
  Forall (λ c, Byte.to_N c < 128) (b root) → from_utf8 (b root ++ ab a) = Ok (root +:+ address_to_string a).
Proof.
  intros Hr. unfold ab. rewrite <-b_app. apply from_utf8_ascii. rewrite b_app. apply Forall_app.
  split; [done|apply ab_ascii].
Qed.
Lemma from_utf8_balance a x :
  from_utf8 (key_for_account_balance a x)
  = Ok (BALANCE_ROOT +:+ (address_to_string a +:+ String "/"%char (address_to_string x))).
Proof.
  assert (key_for_account_balance a x
    = b (BALANCE_ROOT +:+ (address_to_string a +:+ String "/"%char (address_to_string x)))) as ->.
  { rewrite !b_app. done. }
  apply from_utf8_ascii. rewrite !b_app. rewrite !Forall_app. split; [by repeat constructor|].
  split; [apply ab_ascii|]. constructor; [done|apply ab_ascii].
Qed.

Lemma split_balance_key a x :
  split_once_slash (remove_matches BALANCE_ROOT
    (BALANCE_ROOT +:+ (address_to_string a +:+ String "/"%char (address_to_string x))))
  = Some (address_to_string a, address_to_string x).
Proof.
  unfold remove_matches. set (t := address_to_string a +:+ _).
  pose proof (drop_prefix_app BALANCE_ROOT t) as Hd. unfold BALANCE_ROOT in *.
  change ("/balances/" +:+ t) with (String "/"%char ("balances/" +:+ t)) in *.
  cbn [String.length remove_matches_from]. rewrite Hd. unfold t.
  rewrite remove_matches_separated; [|apply address_text_slash..|simpl; tauto].
  apply split_once_app, address_text_slash.
Qed.
End keys.

(** ** Loops that fill a map *)

Section insert_loop.
Context {K1 V1 K V : Type} `{Countable K} (f : K1 → K) (g : V1 → V).

Definition insert_loop (l : list (K1 * V1)) (acc : gmap K V) : gmap K V :=
  foldl (λ acc kv, <[f kv.1 := g kv.2]> acc) acc l.

Lemma insert_loop_ne l acc k : k ∉ f <$> l.*1 → insert_loop l acc !! k = acc !! k.
Proof.
  revert acc. induction l as [|[k1 v1] l IH]; intros acc; csimpl; [done|].
  intros [Hne Hl]%not_elem_of_cons. unfold insert_loop in *. simpl. rewrite IH by done.
  by rewrite lookup_insert_ne.
Qed.
Lemma insert_loop_in l acc k1 v1 :
  NoDup (f <$> l.*1) → (k1, v1) ∈ l → insert_loop l acc !! f k1 = Some (g v1).
Proof.
  revert acc. induction l as [|[k2 v2] l IH]; intros acc; csimpl; [by intros _ ?%elem_of_nil|].
  intros [Hne Hl]%NoDup_cons [[= -> ->]|Hin]%elem_of_cons; unfold insert_loop in *; simpl.
  - pose proof (insert_loop_ne l (<[f k2 := g v2]> acc) (f k2) Hne) as Hi. unfold insert_loop in Hi.
    by rewrite Hi, lookup_insert_eq.
  - by apply IH.
Qed.
End insert_loop.

(** An element of one of two related lists has its counterpart in the other. *)
Lemma Forall2_lookup_l' {A B} (R : A → B → Prop) l k x : Forall2 R l k → x ∈ l → ∃ y, y ∈ k ∧ R x y.
Proof.
  intros Hl Hx. apply list_elem_of_lookup in Hx as [i Hi].
  destruct (Forall2_lookup_l _ _ _ _ _ Hl Hi) as (y & Hy & ?). exists y. split; [|done].
  by eapply list_elem_of_lookup_2.
Qed.
Lemma Forall2_lookup_r' {A B} (R : A → B → Prop) l k y : Forall2 R l k → y ∈ k → ∃ x, x ∈ l ∧ R x y.
Proof.
  intros Hl Hy. apply list_elem_of_lookup in Hy as [i Hi].
  destruct (Forall2_lookup_r _ _ _ _ _ Hl Hi) as (x & Hx & ?). exists x. split; [|done].
  by eapply list_elem_of_lookup_2.
Qed.

(** A list of entries whose keys are all of one form. *)
Lemma keys_of_form {A V : Type} (F : A → bytes) (l : list (bytes * V)) :
  Forall (λ kv, ∃ a, kv.1 = F a) l → ∃ l', l = (λ av, (F av.1, av.2)) <$> l'.
Proof.
  induction 1 as [|[k v] l [a Ha] _ [l' ->]]; [by exists []|]. simpl in Ha. subst k. by exists ((a, v) :: l').
Qed.

(** ** The parts of the document *)

Section parts.
Context `{LedgerEnv, !LedgerEnvLaws, IdStoreEnv, ExportEnv}.
Implicit Types m : merk.

Lemma db_entries_ok m p : db_entries m p = Ok <$> range_entries (merk_db m) (PrefixRange p).
Proof. unfold db_entries, ledger_iter. by rewrite merk_iter_ok. Qed.
Lemma elem_of_range (db : gmap bytes bytes) p k v :
  (k, v) ∈ range_entries db (PrefixRange p) ↔ db !! k = Some v ∧ p `prefix_of` k.
Proof. unfold range_entries. by rewrite elem_of_btree_iter, map_lookup_filter_Some. Qed.
Lemma NoDup_range (db : gmap bytes bytes) r : NoDup (range_entries db r).*1.
Proof. apply NoDup_fst_btree_iter. Qed.

(** The entries of keys [F a], as a list of addresses and values. *)
Lemma range_of_form (db : gmap bytes bytes) p (F : Address → bytes) :
  (∀ a, p `prefix_of` F a) → (∀ a c, F a = F c → a = c) →
  (∀ k, is_Some (db !! k) → p `prefix_of` k → ∃ a, k = F a) →
  ∃ l, range_entries db (PrefixRange p) = (λ av, (F av.1, av.2)) <$> l
    ∧ NoDup l.*1 ∧ ∀ a v, (a, v) ∈ l ↔ db !! F a = Some v.
Proof.
  intros HF Hinj Hall. destruct (keys_of_form F (range_entries db (PrefixRange p))) as [l Hl].
  { apply Forall_forall. intros [k v] [Hk Hp]%elem_of_range. apply Hall; [by eexists|done]. }
  exists l. split; [done|]. pose proof (NoDup_range db (PrefixRange p)) as Hnd. rewrite Hl in Hnd. split.
  - rewrite <-list_fmap_compose in Hnd.
    apply (NoDup_fmap_1 F). by rewrite <-list_fmap_compose.
  - intros a v. assert ((a, v) ∈ l ↔ (F a, v) ∈ range_entries db (PrefixRange p)) as ->.
    { rewrite Hl, list_elem_of_fmap. split; [intros ?; by exists (a, v)|].
      intros ([c w] & [= ->%Hinj ->] & Hin). done. }
    rewrite elem_of_range. naive_solver.
Qed.

(** A map from the texts of addresses that has, for [a], what [f] gives. *)
Definition text_map {V} (r : gmap string V) (f : Address → option V) : Prop :=
  (∀ a, r !! address_to_string a = f a) ∧ ∀ t, is_Some (r !! t) → ∃ a, t = address_to_string a.

Lemma address_text_inj a c : address_to_string a = address_to_string c → a = c.
Proof.
  intros E. pose proof (from_str_to_string a) as Ha. rewrite E, from_str_to_string in Ha. by injection Ha.
Qed.

Lemma insert_loop_texts {V1 V} (g : V1 → V) (l : list (Address * V1)) (f : Address → option V1) :
  NoDup l.*1 → (∀ a v, (a, v) ∈ l ↔ f a = Some v) →
  text_map (insert_loop address_to_string g l ∅) (λ a, g <$> f a).
Proof.
  intros Hnd Hf.
  assert (NoDup (address_to_string <$> l.*1)) as Hnd'.
  { apply NoDup_fmap_2_strong; [|done]. intros ? ? _ _. apply address_text_inj. }
  split.
  - intros a. destruct (f a) as [v|] eqn:Ha; simpl.
    + apply insert_loop_in; [done|]. by apply Hf.
    + rewrite insert_loop_ne; [apply lookup_empty|].
      intros (c & Hc & ([c' v] & -> & Hin)%list_elem_of_fmap)%list_elem_of_fmap.
      apply address_text_inj in Hc. simpl in Hc. subst c'. apply Hf in Hin. congruence.
  - intros t [v Ht]. destruct (decide (t ∈ address_to_string <$> l.*1)) as [(a & -> & _)%list_elem_of_fmap|Hn];
      [by eexists|]. by rewrite insert_loop_ne, lookup_empty in Ht.
Qed.

(** *** Balances *)

Lemma export_balances_loop x (l : list (Address * bytes)) acc :
  export_balances (Ok <$> ((λ av, (key_for_account_balance av.1 x, av.2)) <$> l)) acc
  = Ok (insert_loop address_to_string (λ v, {["MFX" := from_bytes_be v]}) l acc).
Proof.
  revert acc. induction l as [|[a v] l IH]; intros acc; csimpl; [done|].
  rewrite from_utf8_balance. cbn [expect mbind outcome_bind].
  rewrite split_balance_key. cbn [expect_some mbind outcome_bind fst]. apply IH.
Qed.

Definition mfx_entry (v : bytes) : gmap string TokenAmount := {["MFX" := from_bytes_be v]}.

Lemma extract_balances_ok m x :
  (∀ k, is_Some (merk_db m !! k) → b BALANCE_ROOT `prefix_of` k → ∃ a, k = key_for_account_balance a x) →
  ∃ r, extract_balances m = Ok (mkBalancesRoot r)
    ∧ text_map r (λ a, mfx_entry <$> merk_db m !! key_for_account_balance a x).
Proof.
  intros Hall. unfold extract_balances. rewrite db_entries_ok.
  destruct (range_of_form (merk_db m) (b BALANCE_ROOT) (λ a, key_for_account_balance a x))
    as (l & -> & Hnd & Hin); [by eexists| |done|].
  { by intros a c [? _]%key_balance_inj. }
  rewrite export_balances_loop. eexists. split; [done|].
  by apply (insert_loop_texts mfx_entry).
Qed.

(** *** Symbols *)

Definition info_meta (info : TokenInfo) : SymbolMeta :=
  mkSymbolMeta (name (summary info)) (decimals (summary info)) (owner info) (maximum (supply info)).
Definition value_meta (v : bytes) : SymbolMeta :=
  match decode (A := TokenInfo) v with Ok info => info_meta info | _ => mkSymbolMeta "" 0 None None end.

Lemma export_symbols_loop (l : list (Address * bytes)) acc :
  Forall (λ av, ∃ info, decode (A := TokenInfo) av.2 = Ok info) l →
  export_symbols (Ok <$> ((λ av, (key_for_symbol av.1, av.2)) <$> l)) acc
  = Ok (insert_loop address_to_string value_meta l acc).
Proof.
  intros Hl. revert acc. induction Hl as [|[a v] l [info Hi] _ IH]; intros acc; csimpl; [done|].
  simpl in Hi. rewrite Hi. cbn [expect mbind outcome_bind]. unfold key_for_symbol.
  rewrite (from_utf8_key SYMBOLS_ROOT_DASH) by (by repeat constructor). cbn [expect mbind outcome_bind].
  unfold SYMBOLS_ROOT_DASH. rewrite remove_matches_prefix by apply address_text_slash.
  rewrite IH. unfold insert_loop. cbn [foldl fst snd]. do 3 f_equal. unfold value_meta. by rewrite Hi.
Qed.

Lemma extract_symbols_ok m symbols :
  symbols_wf (merk_db m) → merk_view m !! b SYMBOLS_ROOT = Some (to_vec symbols) →
  (∀ x v, merk_db m !! key_for_symbol x = Some v → ∃ info, decode (A := TokenInfo) v = Ok info) →
  ∃ r, extract_symbols m = Ok (mkSymbolsRoot symbols r)
    ∧ text_map r (λ x, value_meta <$> merk_db m !! key_for_symbol x).
Proof.
  intros Hwf Hs Hinfo. unfold extract_symbols. rewrite db_entries_ok.
  destruct (range_of_form (merk_db m) (b SYMBOLS_ROOT_DASH) key_for_symbol)
    as (l & -> & Hnd & Hin); [by eexists|apply key_symbol_inj|done|].
  rewrite export_symbols_loop.
  2:{ apply Forall_forall. intros [a v] Ha%Hin. by eapply Hinfo. }
  cbn [mbind outcome_bind]. unfold db_get. rewrite merk_get_view, Hs. cbn [expect expect_some mbind outcome_bind].
  rewrite (decode_to_vec symbols) by done. eexists. split; [done|]. by apply insert_loop_texts.
Qed.

(** *** Identities and the id store *)

Lemma db_address_ok m key a : merk_view m !! b key = Some (address_to_vec a) → db_address m key = Ok a.
Proof.
  intros Ha. unfold db_address, db_get. rewrite merk_get_view, Ha. cbn [expect expect_some mbind outcome_bind].
  by rewrite from_to_vec.
Qed.

Lemma export_keys_loop (l : list (bytes * bytes)) acc :
  export_keys (Ok <$> l) acc = Ok (insert_loop base64_standard base64_standard l acc).
Proof. revert acc. induction l as [|[k v] l IH]; intros acc; csimpl; [done|]. apply IH. Qed.
End parts.

(** ** Reading the document back *)

Section reread.
Context `{LedgerEnv, GenesisEnv}.

(** The keys of a map that are the texts of addresses. *)
Fixpoint read_keys {V} (l : list (string * V)) (acc : gmap Address V) : option (gmap Address V) :=
  match l with
  | [] => Some acc
  | (t, v) :: l =>
      match address_from_str t with
      | Ok a => read_keys l (<[a := v]> acc)
      | _ => None
      end
  end.

Definition meta_json (m : SymbolMeta) : SymbolMetaJson :=
  mkSymbolMetaJson (sm_name m) (sm_decimals m) (sm_owner m) (sm_maximum m).

(** A set of features keeps the first of those with the same id. *)
Definition feature_map (l : list (FeatureJson json_value)) : gmap N (option json_value) :=
  foldr (λ f m, <[fj_id f := fj_arg f]> m) ∅ l.
Definition account_json (p : AccountJsonParamRoot json_value) : AccountJson json_value :=
  mkAccountJson (Some (ap_id p)) (Some (ap_subresource_id p)) (ap_description p) (ap_roles p)
    (feature_map (ap_features p)).

(** The initial state whose fields have the values the document has under the same names (the two
    structures derive [Serialize] and [Deserialize] without renaming, the parts of the document are
    flattened); keys that are addresses are read from their text; [token_next_subresource] and [hash],
    which are options, are not in the document. *)
Definition reread (c : CombinedJson json_value) : option (InitialStateJson json_value) :=
  initial ← read_keys (btree_iter (br_initial (cj_balances c))) ∅;
  metas ← read_keys (btree_iter (sr_symbols_meta (cj_symbols c))) ∅;
  Some (mkInitialState (idr_identity (cj_identity c)) initial
          (Some (tir_token_identity (cj_token_identity c)))
          (Some (air_account_identity (cj_account_identity c))) None
          (sr_symbols (cj_symbols c)) (Some (meta_json <$> metas))
          (Some (account_json <$> acr_accounts (cj_accounts c)))
          (Some (ir_seed (cj_id_store c))) (Some (ir_keys (cj_id_store c))) None).
End reread.

(** Numbers that JSON5, whose numbers are doubles, keeps: an integer below [2 ^ 53]. An amount of [2 ^ 64]
    or more is written as a text. *)
Definition exact (n : N) : Prop := n < 2 ^ 53.
Definition amount_exact (n : TokenAmount) : Prop := exact n ∨ 2 ^ 64 ≤ n.
Definition option_exact (P : N → Prop) (o : option N) : Prop := match o with Some n => P n | None => True end.

Record document_exact `{ExportEnv} (c : CombinedJson json_value) : Prop := {
  dx_seed : exact (ir_seed (cj_id_store c));
  dx_metas t meta : sr_symbols_meta (cj_symbols c) !! t = Some meta →
    exact (sm_decimals meta) ∧ option_exact amount_exact (sm_maximum meta);
  dx_initial t m y n : br_initial (cj_balances c) !! t = Some m → m !! y = Some n → amount_exact n;
  dx_accounts p : p ∈ acr_accounts (cj_accounts c) → exact (ap_subresource_id p);
  dx_features p f : p ∈ acr_accounts (cj_accounts c) → f ∈ ap_features p →
    fj_id f < 2 ^ 32 ∧ (fj_arg f = None ∨ ∃ t u e, fj_arg f = Some (json_multisig t u e)
                                          ∧ option_exact exact t ∧ option_exact exact u);
}.

(** What the libraries guarantee: texts of base64 decode; the argument written for the multisig
    feature is read as it was; and JSON being a part of JSON5, [json5] reads from the text [serde_json] writes
    the fields that were written, provided their numbers are exact. *)
Class ExportLaws `{LedgerEnv, IdStoreEnv, ExportEnv} : Prop := {
  base64_roundtrip l : base64_decode (base64_standard l) = Some l;
  multisig_json_roundtrip t u e :
    multisig_arg_of (json_multisig t u e) = Ok (mkMultisigArgJson t u e);
  document_roundtrip c st : document_exact c → reread c = Some st →
    ∃ text, json_pretty c = Ok text ∧ json5_state text = Ok st;
}.

Section reread_laws.
Context `{LedgerEnv, !LedgerEnvLaws, IdStoreEnv, ExportEnv, !ExportLaws}.
Implicit Types m : merk.

Lemma read_keys_loop {V} (l : list (Address * V)) (acc : gmap Address V) :
  read_keys ((λ av, (address_to_string av.1, av.2)) <$> l) acc = Some (insert_loop id id l acc).
Proof.
  revert acc. induction l as [|[a v] l IH]; intros acc; csimpl; [done|].
  rewrite from_str_to_string. apply IH.
Qed.

Lemma read_keys_ok {V} (r : gmap string V) f :
  text_map r f → ∃ r', read_keys (btree_iter r) ∅ = Some r' ∧ ∀ a, r' !! a = f a.
Proof.
  intros [Hf Hall].
  assert (∃ l, btree_iter r = (λ av, (address_to_string av.1, av.2)) <$> l) as [l Hl].
  { assert (Forall (λ kv, ∃ a, kv.1 = address_to_string a) (btree_iter r)) as HF.
    { apply Forall_forall. intros [t v] Ht%elem_of_btree_iter. apply Hall. by eexists. }
    clear -HF. induction HF as [|[t v] l [a Ha] _ [l' ->]]; [by exists []|].
    simpl in Ha. subst t. by exists ((a, v) :: l'). }
  exists (insert_loop id id l ∅). rewrite Hl, read_keys_loop. split; [done|].
  assert (NoDup (id <$> l.*1)) as Hnd.
  { rewrite list_fmap_id. apply (NoDup_fmap_1 address_to_string).
    assert (address_to_string <$> l.*1 = (btree_iter r).*1) as -> by (rewrite Hl, <-!list_fmap_compose; done).
    apply NoDup_fst_btree_iter. }
  assert (∀ a v, (a, v) ∈ l ↔ r !! address_to_string a = Some v) as Hin.
  { intros a v. rewrite <-elem_of_btree_iter, Hl, list_elem_of_fmap. split; [intros; by exists (a, v)|].
    intros ([c w] & [= ->%address_text_inj ->] & ?). done. }
  intros a. rewrite <-Hf. destruct (r !! address_to_string a) as [v|] eqn:Ha.
  - apply (insert_loop_in id id l ∅ a v); [done|]. by apply Hin.
  - rewrite insert_loop_ne; [apply lookup_empty|]. rewrite list_fmap_id.
    intros ([c v] & -> & Hc)%list_elem_of_fmap. apply Hin in Hc. simpl in Ha. congruence.
Qed.

Lemma extract_idstore_ok m n :
  read_be_or_zero 8 (merk_view m !! IDSTORE_SEED_ROOT) = Ok n →
  ∃ keys, extract_idstore m = Ok (mkIdStoreRoot n keys) ∧ keys_confined (Some keys).
Proof.
  intros Hn. unfold extract_idstore. rewrite db_entries_ok, export_keys_loop. cbn [mbind outcome_bind].
  unfold db_get. rewrite merk_get_view. cbn [expect mbind outcome_bind]. rewrite Hn.
  eexists. split; [done|]. intros ? [= <-]. apply Forall_forall. intros [t u] Htu%elem_of_btree_iter.
  set (l := range_entries (merk_db m) (PrefixRange IDSTORE_ROOT)) in *.
  destruct (decide (t ∈ base64_standard <$> l.*1)) as [(k & -> & ([k' v] & -> & Hin)%list_elem_of_fmap)%list_elem_of_fmap|Hne].
  2:{ by rewrite insert_loop_ne, lookup_empty in Htu. }
  assert (NoDup (base64_standard <$> l.*1)) as Hnd.
  { apply NoDup_fmap_2_strong; [|apply NoDup_range]. intros a c _ _ E.
    pose proof (base64_roundtrip a) as Ha. rewrite E, base64_roundtrip in Ha. by injection Ha. }
  rewrite (insert_loop_in _ _ l ∅ k' v) in Htu by done. injection Htu as <-.
  apply elem_of_range in Hin as [_ [r Hr]]. exists r, v. cbn [fst snd]. by rewrite !base64_roundtrip, <-Hr.
Qed.

(** *** Roles *)

Lemma role_text_inj r q : role_to_string r = role_to_string q → r = q.
Proof. intros E. pose proof (role_roundtrip r) as Hr. rewrite E, role_roundtrip in Hr. by injection Hr. Qed.
Lemma elem_of_string_set_iter t (x : gset string) : t ∈ string_set_iter x ↔ t ∈ x.
Proof.
  unfold string_set_iter. rewrite list_elem_of_fmap. split.
  - intros ([k []] & -> & Hk%elem_of_btree_iter). by apply lookup_gset_to_gmap_Some in Hk as [? _].
  - intros Ht. exists (t, tt). split; [done|]. apply elem_of_btree_iter. by apply lookup_gset_to_gmap_Some.
Qed.

Lemma roles_of_json_list l :
  Forall (λ t, ∃ r, t = role_to_string r) l →
  ∃ v, roles_of_json l = Ok v ∧ ∀ r, r ∈ v ↔ role_to_string r ∈ l.
Proof.
  induction 1 as [|t l [r ->] _ (v & Hv & Hin)]; simpl.
  - exists ∅. split; [done|]. intros r. rewrite elem_of_nil. set_solver.
  - rewrite role_roundtrip, Hv. eexists. split; [done|]. intros q.
    rewrite elem_of_union, elem_of_singleton, Hin, elem_of_cons. split; [naive_solver|].
    intros [?%role_text_inj|?]; auto.
Qed.
Lemma roles_of_json_strings v : roles_of_json (string_set_iter (role_strings v)) = Ok v.
Proof.
  destruct (roles_of_json_list (string_set_iter (role_strings v))) as (w & -> & Hw).
  { apply Forall_forall. intros t. rewrite elem_of_string_set_iter. unfold role_strings.
    intros (r & -> & _)%elem_of_map. by eexists. }
  f_equal. apply set_eq. intros r. rewrite Hw, elem_of_string_set_iter. unfold role_strings.
  rewrite elem_of_map. split; [intros (q & ->%role_text_inj & ?); done|eauto].
Qed.

Lemma role_map_of_json_list (l : list (Address * gset string)) :
  NoDup l.*1 → Forall (λ kv, ∃ v, kv.2 = role_strings v) l →
  ∃ M, role_map_of_json l = Ok M ∧ ∀ i, (∀ v, (i, role_strings v) ∈ l → M !! i = Some v)
       ∧ (i ∉ l.*1 → M !! i = None).
Proof.
  intros Hnd Hl. induction Hl as [|[i t] l [v Hv] _ IH]; simpl in *.
  { exists ∅. split; [done|]. intros i. split; [by intros v ?%elem_of_nil|done]. }
  apply NoDup_cons in Hnd as [Hi Hnd]. destruct (IH Hnd) as (M & -> & Hm). subst t.
  rewrite roles_of_json_strings. eexists. split; [done|]. intros j. split.
  - intros w [[= -> Hw]|Hin]%elem_of_cons.
    + rewrite lookup_insert_eq. f_equal. pose proof (roles_of_json_strings w) as E.
      rewrite Hw, roles_of_json_strings in E. by injection E.
    + rewrite lookup_insert_ne; [by apply Hm|]. intros ->. apply Hi. by apply (list_elem_of_fmap_2 fst) in Hin.
  - intros [Hne Hj]%not_elem_of_cons. rewrite lookup_insert_ne by done. by apply Hm.
Qed.
Lemma role_map_roundtrip (rs : AddressRoleMap) :
  role_map_of_json (btree_iter (role_strings <$> rs)) = Ok rs.
Proof.
  destruct (role_map_of_json_list (btree_iter (role_strings <$> rs))) as (M & -> & Hm).
  { apply NoDup_fst_btree_iter. }
  { apply Forall_forall. intros [i t] Ht%elem_of_btree_iter. rewrite lookup_fmap in Ht.
    apply fmap_Some in Ht as (v & _ & ->). by eexists. }
  f_equal. apply map_eq. intros i. destruct (Hm i) as [Hs Hn]. destruct (rs !! i) as [v|] eqn:Hi.
  - apply Hs, elem_of_btree_iter. by rewrite lookup_fmap, Hi.
  - apply Hn. intros ([j t] & -> & Ht%elem_of_btree_iter)%list_elem_of_fmap.
    simpl in Hi. by rewrite lookup_fmap, Hi in Ht.
Qed.

(** *** Features *)

(** The arguments of a feature that is exported and read back; [None] where the reader has no such feature. *)
Definition reexported (i : N) (args : list CborAny) : option (list CborAny) :=
  if i =? ID AccountLedger then Some []
  else if i =? ID MultisigAccountFeature then
    match try_create MultisigAccountFeature (mkAttribute i args) with
    | Ok x => Some (attr_arguments (as_feature x))
    | _ => None
    end
  else None.
Definition exported_features (fs : FeatureSet) : FeatureSet := map_imap reexported fs.
Definition reexportable (fs : FeatureSet) : Prop := map_Forall (λ i args, is_Some (reexported i args)) fs.

Definition feature_arg (i : N) (args : list CborAny) : option json_value :=
  fj_arg (feature_json (mkAttribute i args)).

Lemma multisig_feature_kept th ti ex :
  match th with Some n => n < 2 ^ 63 | None => True end →
  match ti with Some n => n < 2 ^ 63 | None => True end →
  try_create MultisigAccountFeature (as_feature (mkMultisigFeature (mkMultisigArg th ti ex)))
  = Ok (mkMultisigFeature (mkMultisigArg th ti ex)).
Proof.
  intros Hth Hti. rewrite multisig_feature_roundtrip; [|destruct th; [lia|done]|destruct ti; [lia|done]].
  do 2 f_equal. destruct th as [n|], ti as [k|]; simpl;
    rewrite ?(proj2 (N.ltb_lt n _) Hth), ?(proj2 (N.ltb_lt k _) Hti); done.
Qed.

Lemma feature_roundtrip i args :
  try_into_feature (mkFeatureJson i (feature_arg i args)) = Ok (mkAttribute i <$> reexported i args).
Proof.
  unfold try_into_feature, reexported, feature_arg, feature_json. cbn [fj_id].
  destruct (N.eqb_spec i (ID AccountLedger)) as [->|_]; [done|].
  destruct (N.eqb_spec i (ID MultisigAccountFeature)) as [->|_]; [|done].
  destruct (try_create MultisigAccountFeature _) as [[[t u e]]| | |]; try done.
  unfold arg_into_multisig. cbn [fj_arg arg_threshold arg_timeout_in_secs arg_execute_automatically arg].
  by rewrite multisig_json_roundtrip.
Qed.

Lemma features_of_json_list (l : list (N * option json_value)) :
  NoDup l.*1 →
  Forall (λ ia, ∃ args, try_into_feature (mkFeatureJson ia.1 ia.2) = Ok (Some (mkAttribute ia.1 args))) l →
  ∃ fs, features_of_json l = Ok fs
    ∧ ∀ i, (∀ o args, (i, o) ∈ l → try_into_feature (mkFeatureJson i o) = Ok (Some (mkAttribute i args)) →
              fs !! i = Some args)
           ∧ (i ∉ l.*1 → fs !! i = None).
Proof.
  intros Hnd Hl. induction Hl as [|[i o] l [args Ha] _ IH]; cbn [features_of_json fst snd] in *.
  { exists ∅. split; [done|]. intros i. split; [by intros o args ?%elem_of_nil|done]. }
  csimpl in Hnd. apply NoDup_cons in Hnd as [Hi Hnd]. destruct (IH Hnd) as (fs & Hfs & Hin).
  rewrite Ha. cbn [mbind outcome_bind expect_some]. rewrite Hfs. cbn [mbind outcome_bind attr_id attr_arguments].
  eexists. split; [done|]. intros j. split.
  - intros o' args' [[= -> ->]|Hj]%elem_of_cons Hj'.
    + rewrite Ha in Hj'. injection Hj' as <-. apply lookup_insert_eq.
    + rewrite lookup_insert_ne; [by eapply Hin|]. intros ->. apply Hi. by apply (list_elem_of_fmap_2 fst) in Hj.
  - csimpl. intros [Hne Hj]%not_elem_of_cons. rewrite lookup_insert_ne by done. by apply Hin.
Qed.

Lemma feature_map_lookup (fs : FeatureSet) i :
  feature_map (get_features fs) !! i = feature_arg i <$> fs !! i.
Proof.
  assert (∀ l : list (N * list CborAny), NoDup l.*1 →
    feature_map (feature_json <$> ((λ '(i, args), mkAttribute i args) <$> l)) !! i
    = feature_arg i <$> (list_to_map l : FeatureSet) !! i) as Hl.
  { induction l as [|[j args] l IH]; csimpl; [done|]. intros [_ Hnd]%NoDup_cons. unfold feature_map in *.
    assert (fj_id (feature_json (mkAttribute j args)) = j) as Hj
      by (unfold feature_json; by destruct (try_create _ _)).
    cbn [foldr]. rewrite Hj. destruct (decide (i = j)) as [->|Hne].
    - by rewrite !lookup_insert_eq.
    - rewrite !lookup_insert_ne by done. by apply IH. }
  unfold get_features, FeatureSet_iter. rewrite Hl by apply NoDup_fst_btree_iter. do 2 f_equal.
  rewrite <-(list_to_map_to_list fs) at 2. apply list_to_map_proper; [|apply btree_iter_perm].
  apply NoDup_fst_btree_iter.
Qed.

Lemma features_roundtrip (fs : FeatureSet) :
  reexportable fs →
  features_of_json (btree_iter (feature_map (get_features fs))) = Ok (exported_features fs).
Proof.
  intros Hfs. destruct (features_of_json_list (btree_iter (feature_map (get_features fs)))) as (r & -> & Hr).
  { apply NoDup_fst_btree_iter. }
  { apply Forall_forall. intros [i o] Hi%elem_of_btree_iter. rewrite feature_map_lookup in Hi.
    apply fmap_Some in Hi as (args & Ha & ->). destruct (Hfs i args Ha) as [args' Ha']. exists args'.
    cbn [fst snd]. by rewrite feature_roundtrip, Ha'. }
  f_equal. apply map_eq. intros i. unfold exported_features. rewrite map_lookup_imap.
  destruct (Hr i) as [Hs Hn]. destruct (fs !! i) as [args|] eqn:Hi; simpl.
  - destruct (Hfs i args Hi) as [args' Ha']. rewrite Ha'.
    apply (Hs (feature_arg i args)); [|by rewrite feature_roundtrip, Ha'].
    apply elem_of_btree_iter. by rewrite feature_map_lookup, Hi.
  - apply Hn. intros ([j o] & -> & Ho%elem_of_btree_iter)%list_elem_of_fmap.
    simpl in Hi. by rewrite feature_map_lookup, Hi in Ho.
Qed.

(** A feature without a reader is a panic. *)
Lemma features_of_json_unsupported (l : list (N * option json_value)) :
  Forall (λ ia, is_ok (try_into_feature (mkFeatureJson ia.1 ia.2)) = true) l →
  Exists (λ ia, try_into_feature (mkFeatureJson ia.1 ia.2) = Ok None) l →
  features_of_json l = Panic "Unsupported feature.".
Proof.
  induction 1 as [|[i o] l Hi _ IH]; intros Hex; [by apply Exists_nil in Hex|].
  cbn [features_of_json]. cbn [fst snd] in Hi. destruct (try_into_feature _) as [[f|]| | |] eqn:E; try done.
  apply Exists_cons in Hex as [Hex|Hex]; [cbn [fst snd] in Hex; congruence|].
  cbn [mbind outcome_bind expect_some]. by rewrite IH.
Qed.
Lemma features_unsupported (fs : FeatureSet) :
  ¬ reexportable fs → features_of_json (btree_iter (feature_map (get_features fs))) = Panic "Unsupported feature.".
Proof.
  intros Hfs. assert (∃ i args, fs !! i = Some args ∧ reexported i args = None) as (i & args & Hi & Hn).
  { unfold reexportable in Hfs. apply map_not_Forall in Hfs as (i & args & Hi & Hn); [|apply _].
    exists i, args. split; [done|]. by apply eq_None_not_Some. }
  apply features_of_json_unsupported.
  - apply Forall_forall. intros [j o] Hj%elem_of_btree_iter. rewrite feature_map_lookup in Hj.
    apply fmap_Some in Hj as (args' & _ & ->). cbn [fst snd]. by rewrite feature_roundtrip.
  - apply Exists_exists. exists (i, feature_arg i args). split.
    + apply elem_of_btree_iter. by rewrite feature_map_lookup, Hi.
    + cbn [fst snd]. by rewrite feature_roundtrip, Hn.
Qed.

(** *** Accounts *)

(** The account as the file gives it: what says that it is disabled is not in it. *)
Definition exported_meta (i : Address) (n : N) (a : Account) : AccountMeta :=
  mkAccountMeta (Some i) (Some n) (description a) (roles a) (exported_features (features a)).

(** The numbers of an account that the document has. *)
Definition account_exact (a : Account) : Prop :=
  ∀ i args, features a !! i = Some args → i < 2 ^ 32
    ∧ ∀ x, try_create MultisigAccountFeature (mkAttribute i args) = Ok x →
        option_exact exact (arg_threshold (arg x)) ∧ option_exact exact (arg_timeout_in_secs (arg x)).

Lemma subresource_id_exact i n : subresource_id i = Some n → exact n.
Proof.
  unfold subresource_id, inner_subresource_id, exact. destruct (0x80 <=? kind (inner i)); [|done].
  intros [= <-]. rewrite !N.shiftl_mul_pow2. set (k := kind (inner i)).
  assert (N.land k 127 < 2 ^ 7) by (change 127 with (N.ones 7); rewrite N.land_ones; apply N.mod_lt; done).
  repeat match goal with |- context [Byte.to_N ?c] => pose proof (to_N_lt c); generalize dependent (Byte.to_N c) end.
  intros. lia.
Qed.

Lemma export_account_ok i v a n :
  decode v = Ok a → subresource_id i = Some n →
  ∃ p, export_account (key_for_account i, v) = Ok p
    ∧ AccountMeta_of_json (account_json p)
      = (if decide (reexportable (features a)) then Ok (exported_meta i n a) else Panic "Unsupported feature.")
    ∧ ap_subresource_id p = n ∧ ap_features p = get_features (features a).
Proof.
  intros Ha Hn. unfold export_account, key_for_account. cbn [fst snd].
  rewrite (from_utf8_key ACCOUNT_ROOT) by (by repeat constructor). cbn [expect mbind outcome_bind].
  rewrite Ha. cbn [expect mbind outcome_bind].
  unfold ACCOUNT_ROOT. rewrite remove_matches_prefix by apply address_text_slash.
  rewrite from_str_to_string. cbn [expect mbind outcome_bind]. rewrite Hn. cbn [expect_some mbind outcome_bind].
  eexists. split; [done|]. split; [|done]. unfold AccountMeta_of_json, account_json.
  cbn [aj_roles aj_features aj_id aj_subresource_id aj_description ap_id ap_subresource_id ap_description
    ap_roles ap_features].
  rewrite role_map_roundtrip. cbn [mbind outcome_bind].
  case_decide; [by rewrite features_roundtrip|by rewrite features_unsupported].
Qed.

(** What the document has of an account is exact when the account is. *)
Lemma get_features_exact a f :
  account_exact a → f ∈ get_features (features a) →
  fj_id f < 2 ^ 32 ∧ (fj_arg f = None ∨ ∃ t u e, fj_arg f = Some (json_multisig t u e)
                                          ∧ option_exact exact t ∧ option_exact exact u).
Proof.
  intros Ha (g & -> & ([i args] & -> & Hi%elem_of_btree_iter)%list_elem_of_fmap)%list_elem_of_fmap.
  destruct (Ha i args Hi) as [Hlt Hx]. unfold feature_json.
  destruct (try_create MultisigAccountFeature (mkAttribute i args)) as [x| | |]; cbn [fj_id fj_arg attr_id];
    (split; [done|]); [right|by left..].
  destruct (Hx x eq_refl). eauto 10.
Qed.

(** The entries of accounts, one by one. *)
Definition account_at (kv : bytes * bytes) (i : Address) (n : N) (a : Account) : Prop :=
  kv.1 = key_for_account i ∧ decode kv.2 = Ok a ∧ subresource_id i = Some n.
Definition account_entry (kv : bytes * bytes) (meta : AccountMeta) : Prop :=
  ∃ i n a, account_at kv i n a ∧ reexportable (features a) ∧ meta = exported_meta i n a.

Lemma export_accounts_ok (l : list (bytes * bytes)) :
  Forall (λ kv, ∃ i n a, account_at kv i n a ∧ account_exact a) l →
  ∃ ps, export_accounts (Ok <$> l) = Ok ps
    ∧ (∀ p, p ∈ ps → exact (ap_subresource_id p) ∧ ∃ a, account_exact a ∧ ap_features p = get_features (features a))
    ∧ ((∃ metas, accounts_of_json (account_json <$> ps) = Ok metas ∧ Forall2 account_entry l metas)
       ∨ accounts_of_json (account_json <$> ps) = Panic "Unsupported feature."
         ∧ ∃ kv i n a, kv ∈ l ∧ account_at kv i n a ∧ ¬ reexportable (features a)).
Proof.
  induction 1 as [|[k v] l (i & n & a & Hkv & Hex) _ (ps & Hps & Hp & Hms)].
  { exists []. split; [done|]. split; [by intros p ?%elem_of_nil|]. left. by exists []. }
  pose proof Hkv as (Hk & Ha & Hn). simpl in Hk, Ha. subst k.
  destruct (export_account_ok i v a n Ha Hn) as (p & Hp1 & Hm & Hs & Hf). exists (p :: ps). split_and!.
  - csimpl. rewrite Hp1. cbn [mbind outcome_bind]. by rewrite Hps.
  - intros q [->|Hq]%elem_of_cons; [|by apply Hp]. rewrite Hs.
    split; [by eapply subresource_id_exact|by exists a].
  - csimpl. rewrite Hm. case_decide as Hre; cbn [mbind outcome_bind].
    2:{ right. split; [done|]. exists (key_for_account i, v), i, n, a. split; [by left|done]. }
    destruct Hms as [(metas & -> & Hall)|[-> (kv & j & m & c & Hin & Hc)]].
    + left. exists (exported_meta i n a :: metas). split; [done|]. constructor; [|done]. by exists i, n, a.
    + right. split; [done|]. exists kv, j, m, c. split; [by right|done].
Qed.
End reread_laws.

(** ** Opening the document *)

Section reopen.
Context `{LedgerEnv, !LedgerEnvLaws, IdStoreEnv, ExportEnv, !ExportLaws}.
Implicit Types (m : merk) (x : Symbol).

Lemma btree_iter_singleton {K V : Type} `{Countable K, Lexico K, !TrichotomyT (@lexico K _),
    !StrictOrder (@lexico K _)} (k : K) (v : V) :
  btree_iter ({[k := v]} : gmap K V) = [(k, v)].
Proof.
  apply Permutation_singleton_r. rewrite btree_iter_perm. by rewrite map_to_list_singleton.
Qed.

Lemma resolve_mfx x n : resolve_tokens {[x := "MFX"]} (btree_iter {["MFX" := n]}) ∅ = Ok {[x := n]}.
Proof.
  rewrite btree_iter_singleton. cbn [resolve_tokens]. unfold find_symbol. rewrite btree_iter_singleton.
  cbn [list_find]. rewrite decide_True; [done|]. unfold names_symbol. simpl.
  by destruct (bool_decide _).
Qed.
Lemma resolve_holders_mfx x (l : list (Address * gmap string TokenAmount)) acc :
  Forall (λ av, ∃ n, av.2 = {["MFX" := n]}) l →
  resolve_holders {[x := "MFX"]} l acc
  = Ok (insert_loop id (λ v, {[x := default 0 (v !! "MFX")]}) l acc).
Proof.
  intros Hl. revert acc. induction Hl as [|[a v] l [n Hn] _ IH]; intros acc; [done|].
  simpl in Hn. subst v. cbn [resolve_holders]. rewrite resolve_mfx. cbn [mbind outcome_bind].
  rewrite IH. unfold insert_loop. cbn [foldl fst snd]. by rewrite lookup_singleton_eq.
Qed.

Lemma state_balances_mfx (st : InitialStateJson json_value) x (f : Address → option bytes) :
  is_symbols st = {[x := "MFX"]} → (∀ a, is_initial st !! a = mfx_entry <$> f a) →
  ∃ bs, state_balances st = Ok bs ∧ ∀ a, bs !! a = (λ v, {[x := from_bytes_be v]}) <$> f a.
Proof.
  intros Hsym Hini. unfold state_balances. rewrite Hsym, resolve_holders_mfx.
  2:{ apply Forall_forall. intros [a v] Ha%elem_of_btree_iter. rewrite Hini in Ha.
      apply fmap_Some in Ha as (w & _ & ->). by eexists. }
  eexists. split; [done|]. intros a.
  assert (NoDup (id <$> (btree_iter (is_initial st)).*1)) as Hnd
    by (rewrite list_fmap_id; apply NoDup_fst_btree_iter).
  pose proof (Hini a) as Ha. destruct (f a) as [v|]; simpl in Ha |- *.
  - rewrite (insert_loop_in id _ _ ∅ a (mfx_entry v)) by (done || by apply elem_of_btree_iter).
    unfold mfx_entry. by rewrite lookup_singleton_eq.
  - rewrite insert_loop_ne; [apply lookup_empty|]. rewrite list_fmap_id.
    intros ([c w] & -> & Hc%elem_of_btree_iter)%list_elem_of_fmap. simpl in Ha. congruence.
Qed.

(** A database the exporter understands, with everything committed: one token, of the ticker "MFX", which
    somebody holds; the identities; accounts under subresources; a seed. *)
Record exportable m x (info : TokenInfo) (identity ti ai : Address) : Prop := {
  ex_db : merk_db m = merk_view m;
  ex_symbols : merk_view m !! b SYMBOLS_ROOT = Some (to_vec ({[x := "MFX"]} : gmap Symbol string));
  ex_token : ∃ v, merk_view m !! key_for_symbol x = Some v ∧ decode v = Ok info;
  ex_only k : is_Some (merk_view m !! k) → b SYMBOLS_ROOT_DASH `prefix_of` k → k = key_for_symbol x;
  ex_balances k : is_Some (merk_view m !! k) → b BALANCE_ROOT `prefix_of` k →
    ∃ a, k = key_for_account_balance a x;
  ex_held : ∃ a, is_Some (merk_view m !! key_for_account_balance a x);
  ex_identity : merk_view m !! b IDENTITY_ROOT = Some (address_to_vec identity);
  ex_token_identity : merk_view m !! b TOKEN_IDENTITY_ROOT = Some (address_to_vec ti);
  ex_account_identity : merk_view m !! b ACCOUNT_IDENTITY_ROOT = Some (address_to_vec ai);
  ex_sign : can_sign ai = true;
  ex_accounts k v : merk_view m !! k = Some v → b ACCOUNT_ROOT `prefix_of` k →
    ∃ i n a, account_at (k, v) i n a;
  ex_seed : ∃ n, read_be_or_zero 8 (merk_view m !! IDSTORE_SEED_ROOT) = Ok n;
}.

(** The numbers of the database that its document has are exact. *)
Record exact_numbers m (info : TokenInfo) : Prop := {
  en_decimals : exact (decimals (summary info));
  en_maximum : option_exact amount_exact (maximum (supply info));
  en_balances k v : merk_view m !! k = Some v → b BALANCE_ROOT `prefix_of` k → amount_exact (from_bytes_be v);
  en_seed n : read_be_or_zero 8 (merk_view m !! IDSTORE_SEED_ROOT) = Ok n → exact n;
  en_accounts i v a : merk_view m !! key_for_account i = Some v → decode v = Ok a → account_exact a;
}.

Lemma exportable_holding m x info identity ti ai bs a y :
  exportable m x info identity ti ai →
  (∀ a, bs !! a = (λ v, {[x := from_bytes_be v]}) <$> merk_db m !! key_for_account_balance a x) →
  holding bs a y = bal_of (merk_view m) a y.
Proof.
  intros Hex Hbs. unfold holding, bal_of. rewrite Hbs, (ex_db _ _ _ _ _ _ Hex).
  destruct (decide (y = x)) as [->|Hne].
  - destruct (merk_view m !! key_for_account_balance a x) as [v|]; simpl; [|done].
    rewrite lookup_singleton_eq. apply from_bytes_be_value.
  - destruct (merk_view m !! key_for_account_balance a y) as [w|] eqn:Hy.
    { destruct (ex_balances _ _ _ _ _ _ Hex (key_for_account_balance a y)) as (c & [_ ?]%key_balance_inj);
        [by eexists|by eexists|done]. }
    destruct (merk_view m !! key_for_account_balance a x) as [v|]; simpl; [|done].
    by rewrite lookup_singleton_ne.
Qed.

(** What the document says, read back. *)
Record document_of m x (info : TokenInfo) (identity ti ai : Address) (st : InitialStateJson json_value) : Prop := {
  do_identity : is_identity st = identity;
  do_symbols : is_symbols st = {[x := "MFX"]};
  do_initial a : is_initial st !! a = mfx_entry <$> merk_db m !! key_for_account_balance a x;
  do_metas : symbols_meta_of st = Some {[x := info_meta info]};
  do_token_identity : is_token_identity st = Some ti;
  do_account_identity : is_account_identity st = Some ai;
  do_keys : keys_confined (is_id_store_keys st);
  do_hash : is_hash st = None;
  do_accounts : is_Some (is_accounts st);
}.

(** Its accounts: all of them, or a panic over the features of one. *)
Definition document_accounts m (st : InitialStateJson json_value) : Prop :=
  let l := range_entries (merk_view m) (PrefixRange (b ACCOUNT_ROOT)) in
  (∃ metas, accounts_of_json (default [] (is_accounts st)) = Ok metas ∧ Forall2 account_entry l metas)
  ∨ accounts_of_json (default [] (is_accounts st)) = Panic "Unsupported feature."
    ∧ ∃ kv i n a, kv ∈ l ∧ account_at kv i n a ∧ ¬ reexportable (features a).

(** The token of the database and its description. *)
Lemma exportable_one m x info identity ti ai :
  exportable m x info identity ti ai →
  ∃ v, merk_view m !! key_for_symbol x = Some v ∧ decode v = Ok info
    ∧ ∀ y w, merk_db m !! key_for_symbol y = Some w → y = x ∧ w = v.
Proof.
  intros Hex. destruct (ex_token _ _ _ _ _ _ Hex) as (v & Hv & Hi). exists v. split_and!; [done..|].
  rewrite (ex_db _ _ _ _ _ _ Hex). intros y w Hw. assert (y = x) as ->; [|naive_solver].
  apply key_symbol_inj, (ex_only _ _ _ _ _ _ Hex); [by eexists|apply symbol_key_prefix].
Qed.
Lemma exportable_entries m x info identity ti ai :
  exportable m x info identity ti ai → exact_numbers m info →
  Forall (λ kv, ∃ i n a, account_at kv i n a ∧ account_exact a)
    (range_entries (merk_db m) (PrefixRange (b ACCOUNT_ROOT))).
Proof.
  intros Hex Hnum. apply Forall_forall. intros [k w] [Hk Hp]%elem_of_range. rewrite (ex_db _ _ _ _ _ _ Hex) in Hk.
  destruct (ex_accounts _ _ _ _ _ _ Hex k w Hk Hp) as (i & n & a & Hat). exists i, n, a. split; [done|].
  destruct Hat as (Hki & Ha & _). simpl in Hki, Ha. subst k. by eapply en_accounts.
Qed.

(** A document made of exact numbers. *)
Lemma combined_exact m info seed keys x ti ai identity initial metas ps :
  exact_numbers m info → read_be_or_zero 8 (merk_view m !! IDSTORE_SEED_ROOT) = Ok seed →
  text_map metas (λ y, value_meta <$> merk_db m !! key_for_symbol y) →
  (∀ y w, merk_db m !! key_for_symbol y = Some w → decode w = Ok info) →
  text_map initial (λ a, mfx_entry <$> merk_view m !! key_for_account_balance a x) →
  (∀ p, p ∈ ps → exact (ap_subresource_id p) ∧ ∃ a, account_exact a ∧ ap_features p = get_features (features a)) →
  document_exact (mkCombined (mkIdStoreRoot seed keys) (mkSymbolsRoot {[x := "MFX"]} metas)
    (mkBalancesRoot initial) (mkIdentityRoot identity) (mkTokenIdentityRoot ti) (mkAccountIdentityRoot ai)
    (mkAccountRoot ps)).
Proof.
  intros Hnum Hseed [Hm Hm'] Hinfo [Hi Hi'] Hps.
  split; cbn [cj_id_store ir_seed cj_symbols sr_symbols_meta cj_balances br_initial cj_accounts acr_accounts].
  - by eapply en_seed.
  - intros t meta Ht. destruct (Hm' t) as [y ->]; [by eexists|]. rewrite Hm in Ht.
    apply fmap_Some in Ht as (w & Hw & ->). unfold value_meta. rewrite (Hinfo y w Hw).
    split; [apply (en_decimals _ _ Hnum)|apply (en_maximum _ _ Hnum)].
  - intros t mm y n Ht Hy. destruct (Hi' t) as [a ->]; [by eexists|]. rewrite Hi in Ht.
    apply fmap_Some in Ht as (w & Hw & ->). unfold mfx_entry in Hy. apply lookup_singleton_Some in Hy as [_ <-].
    eapply en_balances; [done|exact Hw|by eexists].
  - intros p Hp. by apply Hps.
  - intros p f Hp Hf. destruct (Hps p Hp) as (_ & a & Ha & Hfe). rewrite Hfe in Hf. by eapply get_features_exact.
Qed.

Lemma combined_ok m x info identity ti ai :
  exportable m x info identity ti ai → exact_numbers m info →
  ∃ text st, extract_genesis m = Ok text ∧ json5_state text = Ok st
    ∧ document_of m x info identity ti ai st ∧ document_accounts m st.
Proof.
  intros Hex Hnum. destruct (exportable_one _ _ _ _ _ _ Hex) as (v & Hv & Hi & Hone).
  pose proof (ex_db _ _ _ _ _ _ Hex) as Hdb. destruct (ex_seed _ _ _ _ _ _ Hex) as [n Hn].
  destruct (extract_idstore_ok m n Hn) as (keys & Hids & Hconf).
  destruct (extract_symbols_ok m {[x := "MFX"]}) as (metas & Hmetas & Htm); [|apply Hex|..].
  { intros k Hk Hp. exists x. eapply ex_only; [done|by rewrite <-Hdb|done]. }
  { intros y w [-> ->]%Hone. eauto. }
  destruct (extract_balances_ok m x) as (initial & Hini & Hti'); [rewrite Hdb; apply Hex|].
  destruct (export_accounts_ok _ (exportable_entries _ _ _ _ _ _ Hex Hnum)) as (ps & Hps & Hpx & Hacc).
  destruct (read_keys_ok _ _ Hti') as (initial' & Hr1 & Hl1).
  destruct (read_keys_ok _ _ Htm) as (metas' & Hr2 & Hl2).
  assert (combined m = Ok (mkCombined (mkIdStoreRoot n keys) (mkSymbolsRoot {[x := "MFX"]} metas)
    (mkBalancesRoot initial) (mkIdentityRoot identity) (mkTokenIdentityRoot ti) (mkAccountIdentityRoot ai)
    (mkAccountRoot ps))) as Hc.
  { unfold combined, extract_identity, extract_token_identity, extract_account_identity, extract_accounts.
    rewrite Hids, Hmetas, Hini, (db_address_ok _ _ _ (ex_identity _ _ _ _ _ _ Hex)),
      (db_address_ok _ _ _ (ex_token_identity _ _ _ _ _ _ Hex)),
      (db_address_ok _ _ _ (ex_account_identity _ _ _ _ _ _ Hex)), db_entries_ok, Hps. done. }
  edestruct document_roundtrip as (text & Ht1 & Ht2).
  { eapply (combined_exact m info n keys x); [exact Hnum|exact Hn|exact Htm| | |exact Hpx].
    - by intros y w [-> ->]%Hone.
    - rewrite <-Hdb. exact Hti'. }
  { unfold reread. cbn [cj_balances br_initial cj_symbols sr_symbols_meta]. by rewrite Hr1, Hr2. }
  eexists text, _. split; [|split; [exact Ht2|split]].
  - unfold extract_genesis. rewrite Hc. cbn [mbind outcome_bind]. by rewrite Ht1.
  - split; try done. unfold symbols_meta_of. cbn [is_symbols_meta]. f_equal. apply map_eq. intros y.
    rewrite !lookup_fmap, Hl2. destruct (merk_db m !! key_for_symbol y) as [w|] eqn:Hw.
    + destruct (Hone y w Hw) as [-> ->]. rewrite lookup_singleton_eq. simpl. unfold value_meta.
      by rewrite Hi.
    + rewrite lookup_singleton_ne; [done|]. intros <-. by rewrite Hdb, Hv in Hw.
  - unfold document_accounts. by rewrite <-Hdb.
Qed.

Lemma document_wf m x info identity ti ai st bs :
  exportable m x info identity ti ai → document_of m x info identity ti ai st →
  (∀ a, bs !! a = (λ v, {[x := from_bytes_be v]}) <$> merk_db m !! key_for_account_balance a x) →
  genesis_wf st true bs {[x := info_meta info]}.
Proof.
  intros Hex Hdoc Hbs. split.
  - apply Hdoc.
  - unfold genesis_base. rewrite (do_account_identity _ _ _ _ _ _ _ Hdoc). apply Hex.
  - intros _. rewrite (do_symbols _ _ _ _ _ _ _ Hdoc). split; [apply Hdoc|]. split.
    + intros y. by rewrite !dom_singleton.
    + intros y Hy. rewrite dom_singleton in Hy. apply elem_of_singleton in Hy as ->.
      destruct (ex_held _ _ _ _ _ _ Hex) as (a & v & Hv). exists a.
      rewrite Hbs, (ex_db _ _ _ _ _ _ Hex), Hv. simpl. rewrite lookup_singleton_eq. by eexists.
Qed.

(** ** What is restored *)

(** The account that is restored from the document: description, roles and features of the original, and
    enabled; a multisig feature that has its three arguments keeps them. *)
Definition restored (a a' : Account) (i : Address) : Prop :=
  description a' = description a ∧ is_enabled a' = true
  ∧ (∀ j r, holds a' j r ↔ holds a j r ∨ (j = i ∧ r = Owner))
  ∧ dom (features a') = dom (features a)
  ∧ ∀ th t e, t ≤ MULTISIG_MAXIMUM_TIMEOUT_IN_SECS →
      let x := mkMultisigFeature (mkMultisigArg (Some th) (Some t) (Some e)) in
      FeatureSet_get MultisigAccountFeature (features a) = Ok x →
      FeatureSet_get MultisigAccountFeature (features a') = Ok x.

Lemma exported_features_dom fs : reexportable fs → dom (exported_features fs) = dom fs.
Proof.
  intros Hfs. apply set_eq. intros i. unfold exported_features. rewrite !elem_of_dom, map_lookup_imap.
  destruct (fs !! i) as [args|] eqn:Hi; simpl; [|done]. split; [by eexists|]. intros _. by apply Hfs.
Qed.
Lemma set_multisig_arg_dom a : dom (features (set_multisig_arg a)) = dom (features a).
Proof.
  unfold set_multisig_arg, FeatureSet_get, get_feature.
  destruct (features a !! ID MultisigAccountFeature) as [args|] eqn:Hi; [|done]. cbn [fmap option_fmap option_map].
  destruct (try_create _ _); try done. cbn [features account_with_features FeatureSet_insert fst].
  rewrite dom_insert_L. apply set_eq. intros j. rewrite elem_of_union, elem_of_singleton. split; [|by right].
  intros [->|?]; [|done]. apply elem_of_dom. by eexists.
Qed.

(** The multisig feature, exported and read back. *)
Lemma exported_multisig fs th t e :
  let x := mkMultisigFeature (mkMultisigArg (Some th) (Some t) (Some e)) in
  th < 2 ^ 63 → t < 2 ^ 63 →
  FeatureSet_get MultisigAccountFeature fs = Ok x →
  FeatureSet_get MultisigAccountFeature (exported_features fs) = Ok x.
Proof.
  intros x Hth Ht. unfold FeatureSet_get, get_feature, exported_features. rewrite map_lookup_imap.
  destruct (fs !! ID MultisigAccountFeature) as [args|]; [|done].
  cbn [fmap option_fmap option_map mbind option_bind]. intros Hx. unfold reexported.
  change (ID MultisigAccountFeature =? ID AccountLedger) with false.
  change (ID MultisigAccountFeature =? ID MultisigAccountFeature) with true. cbv iota. rewrite Hx.
  cbn [fmap option_fmap option_map]. by apply (multisig_feature_kept (Some th) (Some t) (Some e)).
Qed.

Lemma meta_account_restored i n a :
  reexportable (features a) → account_exact a → restored a (meta_account (exported_meta i n a) i) i.
Proof.
  intros Hre Hex. unfold meta_account. split_and!.
  - unfold set_multisig_arg. by destruct (FeatureSet_get _ _).
  - unfold is_enabled. by rewrite disabled_set_multisig_arg.
  - intros j r. by rewrite holds_set_multisig_arg, holds_add_role.
  - rewrite set_multisig_arg_dom. by apply exported_features_dom.
  - intros th t e Ht x Hx.
    assert (th < 2 ^ 63 ∧ t < 2 ^ 63) as [Hth Ht'].
    { unfold FeatureSet_get, get_feature in Hx.
      destruct (features a !! ID MultisigAccountFeature) as [args|] eqn:Hi; [|done].
      destruct (Hex _ _ Hi) as [_ Hb]. destruct (Hb x Hx) as [Hx1 Hx2].
      unfold exact in Hx1, Hx2. simpl in Hx1, Hx2. lia. }
    pose proof (exported_multisig (features a) th t e Hth Ht' Hx) as Hx'.
    unfold set_multisig_arg. cbn [add_role account_with_roles features exported_meta am_features].
    rewrite Hx'. cbn [arg arg_threshold arg_timeout_in_secs arg_execute_automatically default from_option x].
    rewrite N.min_r by done. unfold FeatureSet_get, get_feature.
    cbn [features account_with_features FeatureSet_insert fst]. rewrite lookup_insert_eq.
    by apply (multisig_feature_kept (Some th) (Some t) (Some e)).
Qed.

Lemma accounts_restored (l : list (bytes * bytes)) accounts ids s i v a :
  Forall2 account_entry l accounts → Forall2 (meta_stored s) accounts ids →
  (key_for_account i, v) ∈ l → decode v = Ok a → account_exact a → ∃ a', stored s i a' ∧ restored a a' i.
Proof.
  intros Hl. revert ids. induction Hl as [|kv meta l metas (j & n & c & (Hk & Hc & _) & Hre & ->) _ IH];
    intros ids Hids; [by intros ?%elem_of_nil|].
  inversion Hids as [|? k ? ids' Hm Hids']; subst.
  intros [<-|Hin]%elem_of_cons Ha Hex; [|by eapply IH].
  simpl in Hk, Hc. apply key_account_inj in Hk as <-. rewrite Ha in Hc. injection Hc as <-.
  destruct Hm as (Hst & Hid & _). rewrite (Hid i eq_refl) in Hst.
  eexists. split; [exact Hst|by apply meta_account_restored].
Qed.

(** An account with a feature that a genesis file does not have. *)
Definition unsupported m : Prop :=
  ∃ i v a, merk_view m !! key_for_account i = Some v ∧ decode v = Ok a ∧ ¬ reexportable (features a).

Lemma entries_supported m metas :
  Forall2 account_entry (range_entries (merk_view m) (PrefixRange (b ACCOUNT_ROOT))) metas → ¬ unsupported m.
Proof.
  intros Hall (i & v & a & Hv & Ha & Hn).
  assert ((key_for_account i, v) ∈ range_entries (merk_view m) (PrefixRange (b ACCOUNT_ROOT))) as Hin
    by (apply elem_of_range; split; [done|by eexists]).
  destruct (Forall2_lookup_l' _ _ _ _ Hall Hin) as (meta & _ & j & n & c & (Hk & Hc & _) & Hre & _).
  simpl in Hk, Hc. rewrite Ha in Hc. by injection Hc as <-.
Qed.

(** C24: Exporting a ledger and opening the document. Take a committed database whose one token
    is "MFX" and has a holder, with both identities, an account identity that can have subresources, accounts
    under subresources, and no number that JSON5 would round (integers from 2^53 on; amounts from 2^64 on are
    texts). The exporter writes a document. It is not read when tokens and accounts have the same identity, as
    in a ledger started without either. Otherwise it is, and is opened with the token migration on an empty
    database. If an account has a feature other than the account ledger and a readable multisig
    (TokenAccountLedger, say), this panics. If none has, it does not: a ledger that opens has the
    same balance at every address, the token's metadata with the sum of the balances as supply, and every account
    under its id with its description, roles and features, enabled even where it was disabled; and it is
    refused only when the id an account is given again is not its own, or none is left. *)
Theorem export_reopens registry info_logged m m0 config ms x info identity ti ai is_blockchain :
  exportable m x info identity ti ai → exact_numbers m info → merk_view m0 = ∅ → merk_db m0 = ∅ →
  initial_migrations registry config = Ok ms → is_active ms TOKEN_MIGRATION = true →
  ∃ text, extract_genesis m = Ok text
    ∧ (ti = ai → state_read (Ok text) = Err "Token and account identities must be different.")
    ∧ (ti ≠ ai → ∃ st, state_read (Ok text) = Ok st
        ∧ match ledger_module_new registry info_logged (Ok m0) st config is_blockchain with
          | Ok s =>
              ¬ unsupported m
              ∧ (∀ a y, bal s a y = bal_of (merk_view m) a y)
              ∧ (∃ X : gset Address, (∀ a, a ∉ X → bal_of (merk_view m) a x = 0)
                   ∧ token_info s x
                       (_token_info x "MFX" (info_meta info) (set_total X (λ a, bal_of (merk_view m) a x))))
              ∧ ∀ i v a, merk_view m !! key_for_account i = Some v → decode v = Ok a →
                  ∃ a', stored s i a' ∧ restored a a' i
          | Err e =>
              ¬ unsupported m
              ∧ ∃ i v n a, merk_view m !! key_for_account i = Some v ∧ account_at (key_for_account i, v) i n a
                  ∧ (e = subresource_exhausted (address_to_string ai) ∨ ∃ j, meta_refused (exported_meta i n a) j e)
          | Panic _ => unsupported m
          | OutOfFuel => False
          end).
Proof.
  intros Hex Hnum Hv0 Hd0 Hms Hact.
  destruct (combined_ok _ _ _ _ _ _ Hex Hnum) as (text & st & Htext & Hst & Hdoc & Haccs).
  exists text. split; [done|].
  assert (state_read (Ok text) = if bool_decide (ti = ai) then Err "Token and account identities must be different."
    else Ok st) as ->.
  { unfold state_read. cbn [mbind outcome_bind]. rewrite Hst. cbn [mbind outcome_bind].
    by rewrite (do_token_identity _ _ _ _ _ _ _ Hdoc), (do_account_identity _ _ _ _ _ _ _ Hdoc). }
  split; [intros; by rewrite bool_decide_eq_true_2|]. intros Hne. rewrite bool_decide_eq_false_2 by done.
  exists st. split; [done|].
  destruct (state_balances_mfx st x (λ a, merk_db m !! key_for_account_balance a x)
    (do_symbols _ _ _ _ _ _ _ Hdoc) (do_initial _ _ _ _ _ _ _ Hdoc)) as (bs & Hbs & Hlook).
  destruct Haccs as [(accounts & Hacc & Hent)|[Hacc ([k v] & i & n & a & Hin & (Hk & Ha & _) & Hre)]].
  2:{ destruct (do_accounts _ _ _ _ _ _ _ Hdoc) as [l Hl]. rewrite Hl in Hacc. simpl in Hacc, Hk, Ha. subst k.
      unfold ledger_module_new. rewrite Hbs, Hl. cbn [mbind outcome_bind]. rewrite Hacc. cbn [mbind outcome_bind].
      apply elem_of_range in Hin as [Hv _]. by exists i, v, a. }
  pose proof (entries_supported m accounts Hent) as Hsup.
  pose proof (ledger_module_new_ok registry info_logged m0 config ms st bs {[x := info_meta info]} accounts
    is_blockchain Hv0 Hd0 Hms Hbs Hacc) as Hr.
  rewrite Hact in Hr. specialize (Hr (document_wf _ _ _ _ _ _ _ _ Hex Hdoc Hlook)).
  assert (∀ a y, holding bs a y = bal_of (merk_view m) a y) as Hh by (intros; by eapply exportable_holding).
  destruct (ledger_module_new _ _ _ _ _ _) as [s|e| |]; try done; (split; [done|]).
  - destruct Hr as ([Hb _ (ids & Hids) _ _ Ht _] & _). split; [|split].
    + intros a y. by rewrite Hb.
    + exists (dom bs). split.
      * intros a Ha. rewrite <-Hh. unfold holding. by rewrite (not_elem_of_dom_1 _ _ Ha).
      * specialize (Ht x (info_meta info) eq_refl (lookup_singleton_eq _ _)). unfold declared_info in Ht.
        rewrite (do_symbols _ _ _ _ _ _ _ Hdoc), lookup_singleton_eq in Ht.
        rewrite (set_total_ext _ _ (λ a, holding bs a x)); [exact Ht|]. intros a _. by rewrite Hh.
    + intros i v a Hv Ha. eapply accounts_restored; [exact Hent|exact Hids| |exact Ha|by eapply en_accounts].
      apply elem_of_range. split; [done|by eexists].
  - destruct Hr as [(meta & Hm & He)|(h & ? & Hh' & _)];
      [|by rewrite (do_hash _ _ _ _ _ _ _ Hdoc) in Hh'].
    unfold genesis_base in He. rewrite (do_account_identity _ _ _ _ _ _ _ Hdoc) in He. simpl in He.
    destruct (Forall2_lookup_r' _ _ _ _ Hent Hm) as ([k v] & Hin & i & n & a & Hat & _ & ->).
    pose proof Hat as (Hk & _). simpl in Hk. subst k. apply elem_of_range in Hin as [Hv _].
    exists i, v, n, a. auto.
Qed.
End reopen.
