(* ===== verification/EventsExport.v ===== *)
(** * genesis-from-db: events and multisig transactions as JSON

    Models the rest of [genesis-from-db/src/main.rs]: the types of the documents, the conversions
    from events, transactions and stored multisig transactions, and the loops [extract_events] and
    [extract_multisig]. The structs with one variant of an enum are the arguments of its
    constructor. *)
From S2P Require Import Prelude Error External Address Types Account Events Migration Storage.
From S2P Require Import LedgerEvent Genesis GenesisExport IdStore.

#[local] Open Scope string_scope.
#[local] Open Scope list_scope.
#[local] Open Scope N_scope.

(** ** The documents *)

Inductive RoleJson : Type :=
| RJ_Owner | RJ_CanLedgerTransact | RJ_CanMultisigSubmit | RJ_CanMultisigApprove | RJ_CanKvStorePut
| RJ_CanKvStoreDisable | RJ_CanKvStoreTransfer | RJ_CanTokensCreate | RJ_CanTokensMint | RJ_CanTokensBurn
| RJ_CanTokensUpdate | RJ_CanTokensAddExtendedInfo | RJ_CanTokensRemoveExtendedInfo.
#[global] Instance RoleJson_eq_dec : EqDecision RoleJson.
Proof. solve_decision. Defined.

Definition RoleJson_from (r : Role) : RoleJson :=
  match r with
  | Owner => RJ_Owner
  | CanLedgerTransact => RJ_CanLedgerTransact
  | CanMultisigSubmit => RJ_CanMultisigSubmit
  | CanMultisigApprove => RJ_CanMultisigApprove
  | CanKvStorePut => RJ_CanKvStorePut
  | CanKvStoreDisable => RJ_CanKvStoreDisable
  | CanKvStoreTransfer => RJ_CanKvStoreTransfer
  | CanTokensCreate => RJ_CanTokensCreate
  | CanTokensMint => RJ_CanTokensMint
  | CanTokensBurn => RJ_CanTokensBurn
  | CanTokensUpdate => RJ_CanTokensUpdate
  | CanTokensAddExtendedInfo => RJ_CanTokensAddExtendedInfo
  | CanTokensRemoveExtendedInfo => RJ_CanTokensRemoveExtendedInfo
  end.
(** A set of roles, in their order. *)
Abbreviation AddressRoleMapJson := (gmap Address (list RoleJson)).
Definition get_roles (rs : AddressRoleMap) : AddressRoleMapJson :=
  (λ v, RoleJson_from <$> filter (λ r, r ∈ v) all_roles) <$> rs.

Inductive EitherJson : Type := JLeft (a : Address) | JRight (u : option unit).
Record TokenMaybeOwnerJson : Type := mkOwnerJson { owner_json : EitherJson }.
Definition TokenMaybeOwnerJson_from (o : TokenMaybeOwner) : TokenMaybeOwnerJson :=
  match o with
  | OwnerLeft a => mkOwnerJson (JLeft a)
  | OwnerNull => mkOwnerJson (JRight None)
  end.
Inductive TokenExtendedInfoJson : Type := mkExtendedInfoJson.
Definition TokenExtendedInfoJson_from (_ : TokenExtendedInfo) : TokenExtendedInfoJson := mkExtendedInfoJson.
Record TokenInfoSummaryJson : Type := mkSummaryJson { sj_name : string; sj_ticker : string; sj_decimals : N }.
Definition TokenInfoSummaryJson_from (s : TokenInfoSummary) : TokenInfoSummaryJson :=
  mkSummaryJson (name s) (ticker s) (decimals s).

(** The one string of a memo of one item. *)
Definition get_str_memo (m : option Memo) : option string :=
  match m with
  | Some m => if (memo_len m =? 1)%nat then head (memo_iter_str m) else None
  | None => None
  end.

Section documents.
Context {json_value : Type}.
Abbreviation FeatureJson := (Genesis.FeatureJson json_value).

Inductive MultisigTransactionJson : Type :=
| TJ_Send (from : option Address) (to : Address) (amount : TokenAmount) (symbol : Address) (memo : option string)
| TJ_AccountCreate (description : option string) (roles : option AddressRoleMapJson)
    (features : list FeatureJson)
| TJ_AccountSetDescription (account : Address) (description : string)
| TJ_AccountAddRoles (account : Address) (roles : AddressRoleMapJson)
| TJ_AccountRemoveRoles (account : Address) (roles : AddressRoleMapJson)
| TJ_AccountDisable (account : Address)
| TJ_AccountAddFeatures (account : Address) (roles : option AddressRoleMapJson)
    (features : list FeatureJson)
| TJ_AccountMultisigSubmit (account : Address) (memo_ : option string) (transaction : MultisigTransactionJson)
    (threshold timeout_in_secs : option N) (execute_automatically : option bool) (data_ memo : option string)
| TJ_AccountMultisigApprove (token : string)
| TJ_AccountMultisigRevoke (token : string)
| TJ_AccountMultisigExecute (token : string)
| TJ_AccountMultisigWithdraw (token : string)
| TJ_AccountMultisigSetDefaults (account : Address) (threshold timeout_in_secs : option N)
    (execure_automatically : option bool)
| TJ_TokenCreate (summary : TokenInfoSummaryJson) (owner : option TokenMaybeOwnerJson)
    (initial_distribution : option LedgerTokensAddressMap) (maximum_supply : option TokenAmount)
    (extended_info : option TokenExtendedInfoJson) (memo : option string)
| TJ_TokenUpdate (symbol : Address) (name ticker : option string) (decimals : option N)
    (owner : option TokenMaybeOwnerJson) (memo : option string)
| TJ_TokenAddExtendedInfo
| TJ_TokenRemoveExtendedInfo
| TJ_TokenMint (symbol : Address) (distribution : LedgerTokensAddressMap) (memo : option string)
| TJ_TokenBurn (symbol : Address) (distribution : LedgerTokensAddressMap) (memo : option string)
    (error_on_under_burn : option bool).

Inductive EventInfoJson : Type :=
| EJ_Send (from to symbol : Address) (amount : TokenAmount) (memo : option string)
| EJ_AccountCreate (account : Address) (description : option string) (roles : AddressRoleMapJson)
    (features : list FeatureJson)
| EJ_AccountSetDescription (account : Address) (description : string)
| EJ_AccountAddRoles (account : Address) (roles : AddressRoleMapJson)
| EJ_AccountRemoveRoles (account : Address) (roles : AddressRoleMapJson)
| EJ_AccountDisable (account : Address)
| EJ_AccountAddFeatures (account : Address) (roles : AddressRoleMapJson) (features : list FeatureJson)
| EJ_AccountMultisigSubmit (submitter account : Address) (memo_ : option string)
    (transaction : MultisigTransactionJson) (token : option string) (threshold timeout : N)
    (execute_automatically : bool) (data memo : option string)
| EJ_AccountMultisigApprove (account : Address) (token : string) (approver : Address)
| EJ_AccountMultisigRevoke (account : Address) (token : string) (revoker : Address)
| EJ_AccountMultisigExecute (account : Address) (token : string) (executer : option Address)
    (response : string)
| EJ_AccountMultisigWithdraw (account : Address) (token : string) (withdrawer : Address)
| EJ_AccountMultisigSetDefaults (submitter account : Address) (threshold timeout_in_secs : option N)
    (execute_automatically : option bool)
| EJ_AccountMultisigExpired (account : Address) (token : string) (time : N)
| EJ_TokenCreate (summary : TokenInfoSummaryJson) (symbol : Address) (owner : option TokenMaybeOwnerJson)
    (initial_distribution : option LedgerTokensAddressMap) (maximum_supply : option TokenAmount)
    (extended_info : option TokenExtendedInfoJson) (memo : option string)
| EJ_TokenUpdate (symbol : Address) (name ticker : option string) (decimals : option N)
    (owner : option TokenMaybeOwnerJson) (memo : option string)
| EJ_TokenMint (symbol : Address) (distribution : LedgerTokensAddressMap) (memo : option string)
| EJ_TokenBurn (symbol : Address) (distribution : LedgerTokensAddressMap) (memo : option string).

Record EventLogJson : Type := mkEventLogJson { lj_id : string; lj_time : N; lj_content : EventInfoJson }.

Inductive MultisigTransactionStateJson : Type :=
| SJ_Pending | SJ_ExecutedAutomatically | SJ_ExecutedManually | SJ_Withdrawn | SJ_Expired.
Definition state_json (s : MultisigTransactionState) : MultisigTransactionStateJson :=
  match s with
  | Pending => SJ_Pending
  | ExecutedAutomatically => SJ_ExecutedAutomatically
  | ExecutedManually => SJ_ExecutedManually
  | Withdrawn => SJ_Withdrawn
  | Expired => SJ_Expired
  end.
Record ApproverInfoJson : Type := mkApproverJson { aij_approved : bool }.
Record MultisigTransactionInfoJson : Type := mkMultisigInfoJson {
  mij_memo_ : option string;
  mij_transaction : MultisigTransactionJson;
  mij_submitter : Address;
  mij_approvers : gmap Address ApproverInfoJson;
  mij_threshold : N;
  mij_execute_automatically : bool;
  mij_timeout : N;
  mij_data_ : option string;
  mij_state : MultisigTransactionStateJson;
  mij_memo : option string;
}.
Record MultisigTransactionStorageJson : Type := mkMultisigStorageJson {
  msj_account : Address;
  msj_info : MultisigTransactionInfoJson;
  msj_creation : N;
  msj_disabled : bool;
}.
End documents.
Arguments MultisigTransactionJson : clear implicits.
Arguments EventInfoJson : clear implicits.
Arguments EventLogJson : clear implicits.
Arguments MultisigTransactionStorageJson : clear implicits.

(** [serde_json::to_string_pretty] of the two documents. *)
Class EventExportEnv `{ExportEnv} := {
  json_events : gmap string (EventLogJson json_value) → outcome string string;
  json_multisig_logs : gmap string (MultisigTransactionStorageJson json_value) → outcome string string;
}.

Section conversions.
Context `{LedgerEnv, IdStoreEnv, EventExportEnv}.

(** [todo!()]. *)
Definition todo {A : Type} : outcome ManyError A := Panic "not yet implemented".

Definition legacy_text (m : option MemoLegacy) : option string := memo_legacy <$> m.
Definition data_hex (d : option DataLegacy) : option string := (λ d, hex_encode (data_legacy d)) <$> d.

(** *** Transactions *)

Fixpoint transaction_json (tx : AccountMultisigTransaction) :
    outcome ManyError (MultisigTransactionJson json_value) :=
  match tx with
  | T_Send a => Ok (TJ_Send (send_from a) (send_to a) (send_amount a) (send_symbol a)
                      (get_str_memo (send_memo a)))
  | T_AccountCreate a =>
      Ok (TJ_AccountCreate (ca_description a) (get_roles <$> ca_roles a) (get_features (ca_features a)))
  | T_AccountSetDescription a => Ok (TJ_AccountSetDescription (sd_account a) (sd_description a))
  | T_AccountAddRoles a => Ok (TJ_AccountAddRoles (ar_account a) (get_roles (ar_roles a)))
  | T_AccountRemoveRoles a => Ok (TJ_AccountRemoveRoles (rr_account a) (get_roles (rr_roles a)))
  | T_AccountDisable a => Ok (TJ_AccountDisable (di_account a))
  | T_AccountAddFeatures a =>
      Ok (TJ_AccountAddFeatures (af_account a) (get_roles <$> af_roles a) (get_features (af_features a)))
  | T_AccountMultisigSubmit (mkSubmitArgs account memo_ transaction threshold timeout automatic data_ memo) =>
      t ← transaction_json transaction;
      Ok (TJ_AccountMultisigSubmit account (legacy_text memo_) t threshold timeout automatic
            (data_hex data_) (get_str_memo memo))
  | T_AccountMultisigApprove token => Ok (TJ_AccountMultisigApprove (hex_encode token))
  | T_AccountMultisigRevoke token => Ok (TJ_AccountMultisigRevoke (hex_encode token))
  | T_AccountMultisigExecute token => Ok (TJ_AccountMultisigExecute (hex_encode token))
  | T_AccountMultisigWithdraw token => Ok (TJ_AccountMultisigWithdraw (hex_encode token))
  | T_AccountMultisigSetDefaults a =>
      Ok (TJ_AccountMultisigSetDefaults (msd_account a) (msd_threshold a) (msd_timeout_in_secs a)
            (msd_execute_automatically a))
  | T_TokenCreate a =>
      Ok (TJ_TokenCreate (TokenInfoSummaryJson_from (tc_summary a)) (TokenMaybeOwnerJson_from <$> tc_owner a)
            (tc_initial_distribution a) (tc_maximum_supply a)
            (TokenExtendedInfoJson_from <$> tc_extended_info a) (get_str_memo (tc_memo a)))
  | T_TokenUpdate a =>
      Ok (TJ_TokenUpdate (tu_symbol a) (tu_name a) (tu_ticker a) (tu_decimals a)
            (TokenMaybeOwnerJson_from <$> tu_owner a) (get_str_memo (tu_memo a)))
  | T_TokenAddExtendedInfo _ => Ok TJ_TokenAddExtendedInfo
  | T_TokenRemoveExtendedInfo _ => Ok TJ_TokenRemoveExtendedInfo
  | T_TokenMint a => Ok (TJ_TokenMint (tm_symbol a) (tm_distribution a) (get_str_memo (tm_memo a)))
  | T_TokenBurn a =>
      Ok (TJ_TokenBurn (tb_symbol a) (tb_distribution a) (get_str_memo (tb_memo a)) (tb_error_on_under_burn a))
  | _ => todo
  end.

(** *** Events *)

Definition event_json (e : EventInfo) : outcome ManyError (EventInfoJson json_value) :=
  match e with
  | E_Send from to symbol amount memo => Ok (EJ_Send from to symbol amount (get_str_memo memo))
  | E_AccountCreate account description roles features =>
      Ok (EJ_AccountCreate account description (get_roles roles) (get_features features))
  | E_AccountSetDescription account description => Ok (EJ_AccountSetDescription account description)
  | E_AccountAddRoles account roles => Ok (EJ_AccountAddRoles account (get_roles roles))
  | E_AccountRemoveRoles account roles => Ok (EJ_AccountRemoveRoles account (get_roles roles))
  | E_AccountDisable account => Ok (EJ_AccountDisable account)
  | E_AccountAddFeatures account roles features =>
      Ok (EJ_AccountAddFeatures account (get_roles roles) (get_features features))
  | E_AccountMultisigSubmit submitter account memo_ transaction token threshold timeout automatic data_ memo =>
      t ← transaction_json transaction;
      Ok (EJ_AccountMultisigSubmit submitter account (legacy_text memo_) t (hex_encode <$> token) threshold
            timeout automatic (data_hex data_) (get_str_memo memo))
  | E_AccountMultisigApprove account token approver =>
      Ok (EJ_AccountMultisigApprove account (hex_encode token) approver)
  | E_AccountMultisigRevoke account token revoker =>
      Ok (EJ_AccountMultisigRevoke account (hex_encode token) revoker)
  | E_AccountMultisigExecute account token executer response =>
      Ok (EJ_AccountMultisigExecute account (hex_encode token) executer (hex_encode (to_vec response)))
  | E_AccountMultisigWithdraw account token withdrawer =>
      Ok (EJ_AccountMultisigWithdraw account (hex_encode token) withdrawer)
  | E_AccountMultisigSetDefaults submitter account threshold timeout automatic =>
      Ok (EJ_AccountMultisigSetDefaults submitter account threshold timeout automatic)
  | E_AccountMultisigExpired account token time =>
      Ok (EJ_AccountMultisigExpired account (hex_encode token) time)
  | E_TokenCreate summary symbol owner distribution maximum extended_info memo =>
      Ok (EJ_TokenCreate (TokenInfoSummaryJson_from summary) symbol (TokenMaybeOwnerJson_from <$> owner)
            distribution maximum (TokenExtendedInfoJson_from <$> extended_info) (get_str_memo memo))
  | E_TokenUpdate symbol name ticker decimals owner memo =>
      Ok (EJ_TokenUpdate symbol name ticker decimals (TokenMaybeOwnerJson_from <$> owner) (get_str_memo memo))
  | E_TokenMint symbol distribution memo => Ok (EJ_TokenMint symbol distribution (get_str_memo memo))
  | E_TokenBurn symbol distribution memo => Ok (EJ_TokenBurn symbol distribution (get_str_memo memo))
  | _ => todo
  end.

Definition EventLogJson_from (e : EventLog) : outcome ManyError (EventLogJson json_value) :=
  c ← event_json (log_content e);
  Ok (mkEventLogJson (hex_encode (log_id e)) (log_time e) c).

(** *** Stored transactions *)

Definition MultisigTransactionStorageJson_from (m : MultisigTransactionStorage) :
    outcome ManyError (MultisigTransactionStorageJson json_value) :=
  let i := ms_info m in
  t ← transaction_json (mi_transaction i);
  Ok (mkMultisigStorageJson (ms_account m)
        (mkMultisigInfoJson (legacy_text (mi_memo_ i)) t (mi_submitter i) (mkApproverJson <$> mi_approvers i)
           (mi_threshold i) (mi_execute_automatically i) (mi_timeout i) (data_hex (mi_data_ i))
           (state_json (mi_state i)) (get_str_memo (mi_memo i)))
        (ms_creation m) (ms_disabled m)).

(** ** The loops *)

Section loop.
Context {A J : Type} `{Cbor A} (message : string) (from : A → outcome ManyError J).

Fixpoint export_loop (l : list (outcome string (bytes * bytes))) (acc : gmap string J) :
    outcome ManyError (gmap string J) :=
  match l with
  | [] => Ok acc
  | i :: l =>
      kv ← expect "Error while reading the DB" i;
      x ← expect message (decode (A := A) kv.2);
      j ← from x;
      export_loop l (<[hex_encode kv.1 := j]> acc)
  end.
End loop.

Definition events_document (m : merk) : outcome ManyError (gmap string (EventLogJson json_value)) :=
  export_loop "Could not decode event log" EventLogJson_from (db_entries m EVENTS_ROOT) ∅.
Definition extract_events (m : merk) : outcome ManyError string :=
  d ← events_document m;
  expect "Could not serialize" (json_events d).

Definition multisig_document (m : merk) :
    outcome ManyError (gmap string (MultisigTransactionStorageJson json_value)) :=
  export_loop "Could not decode multisig log" MultisigTransactionStorageJson_from
    (db_entries m MULTISIG_TRANSACTIONS_ROOT) ∅.
Definition extract_multisig (m : merk) : outcome ManyError string :=
  d ← multisig_document m;
  expect "Could not serialize" (json_multisig_logs d).

(** ** The program *)

Inductive Extract : Type := ExtractGenesis | ExtractEvents | ExtractMultisig.
Definition Extract_from_str (s : string) : outcome ManyError Extract :=
  if bool_decide (s = "genesis") then Ok ExtractGenesis
  else if bool_decide (s = "events") then Ok ExtractEvents
  else if bool_decide (s = "multisig") then Ok ExtractMultisig
  else Err (unknown "Invalid extract type").

(** [opened] is the result of opening the store; the answer is what is printed. *)
Definition export_main (opened : outcome string merk) (extract : Extract) : outcome ManyError string :=
  m ← expect "Could not open the store." opened;
  match extract with
  | ExtractGenesis => extract_genesis m
  | ExtractEvents => extract_events m
  | ExtractMultisig => extract_multisig m
  end.
End conversions.
