(* ===== verification/EventsExportLaws.v ===== *)
(** * Which events and transactions can be exported

    The exporter of events and of multisig transactions ends for every database whose entries are of
    the kinds it knows, and panics on any other; the ledger itself logs two kinds it does not know. *)
From S2P Require Import Prelude Error External Address Types Account Events Migration Storage.
From S2P Require Import StorageLaws LedgerEvent Tokens IdStore Genesis GenesisExport ExportLaws EventsExport.

#[local] Open Scope string_scope.
#[local] Open Scope list_scope.
#[local] Open Scope N_scope.

(** The transactions and events the exporter knows. *)
Fixpoint transaction_known (t : AccountMultisigTransaction) : bool :=
  match t with
  | T_AccountMultisigSubmit (mkSubmitArgs _ _ t _ _ _ _ _) => transaction_known t
  | T_KvStorePut _ | T_KvStoreDisable _ | T_KvStoreTransfer _
  | T_WebDeploy _ | T_WebRemove _ | T_WebUpdate _ => false
  | _ => true
  end.
Definition event_known (e : EventInfo) : bool :=
  match e with
  | E_AccountMultisigSubmit _ _ _ t _ _ _ _ _ _ => transaction_known t
  | E_TokenAddExtendedInfo _ _ _ | E_TokenRemoveExtendedInfo _ _ _
  | E_KvStorePut _ _ _ | E_KvStoreDisable _ _ | E_KvStoreTransfer _ _ _
  | E_WebDeploy _ _ _ _ _ _ | E_WebRemove _ _ _ | E_WebUpdate _ _ _ _ _ _ => false
  | _ => true
  end.

(** An answer, or the panic of [todo!()]. *)
Definition answers_if {A} (c : bool) (o : outcome ManyError A) : Prop :=
  if c then ∃ x, o = Ok x else o = todo.

Section conversions_total.
Context `{LedgerEnv, IdStoreEnv, EventExportEnv}.

Lemma transaction_json_total : ∀ t, answers_if (transaction_known t) (transaction_json t).
Proof.
  fix IH 1. intros t. destruct t as [| | | | | | | | |[? ? t' ? ? ? ? ?]| | | | | | | | | | | | | | |].
  all: try (by eexists); try reflexivity.
  cbn [transaction_known transaction_json]. specialize (IH t'). unfold answers_if in *.
  destruct (transaction_known t'); [destruct IH as [j ->]; by eexists|by rewrite IH].
Qed.
Lemma event_json_total e : answers_if (event_known e) (event_json e).
Proof.
  destruct e as [| | | | | | | | |? ? ? t' ? ? ? ? ? ?| | | | | | | | | | | | | | | |].
  all: try (by eexists); try reflexivity.
  cbn [event_known event_json]. pose proof (transaction_json_total t') as Ht. unfold answers_if in *.
  destruct (transaction_known t'); [destruct Ht as [j ->]; by eexists|by rewrite Ht].
Qed.
Lemma EventLogJson_total e : answers_if (event_known (log_content e)) (EventLogJson_from e).
Proof.
  unfold EventLogJson_from. pose proof (event_json_total (log_content e)) as He. unfold answers_if in *.
  destruct (event_known (log_content e)); [destruct He as [j ->]; by eexists|by rewrite He].
Qed.
Lemma MultisigStorageJson_total m :
  answers_if (transaction_known (mi_transaction (ms_info m))) (MultisigTransactionStorageJson_from m).
Proof.
  unfold MultisigTransactionStorageJson_from. pose proof (transaction_json_total (mi_transaction (ms_info m))) as Ht.
  unfold answers_if in *. destruct (transaction_known _); [destruct Ht as [j ->]; by eexists|by rewrite Ht].
Qed.
End conversions_total.

(** ** The loop *)

Section loop_laws.
Context `{LedgerEnv, IdStoreEnv, EventExportEnv}.
Context {A J : Type} `{Cbor A} (message : string) (from : A → outcome ManyError J) (known : A → bool).
Context (Hfrom : ∀ x, answers_if (known x) (from x)) (Hhex : Inj (=) (=) hex_encode).

(** What the entry of a key becomes. *)
Definition converted (kv : bytes * bytes) (j : J) : Prop := ∃ x, decode kv.2 = Ok x ∧ from x = Ok j.

Lemma export_loop_ok l acc :
  NoDup l.*1 → Forall (λ kv, ∃ x, decode kv.2 = Ok x ∧ known x = true) l →
  ∃ d, export_loop message from (Ok <$> l) acc = Ok d
    ∧ (∀ kv, kv ∈ l → ∃ j, d !! hex_encode kv.1 = Some j ∧ converted kv j)
    ∧ ∀ t, t ∉ hex_encode <$> l.*1 → d !! t = acc !! t.
Proof.
  intros Hnd Hl. revert acc. induction Hl as [|[k v] l (x & Hx & Hkx) _ IH]; intros acc.
  { exists acc. split; [done|]. split; [by intros kv ?%elem_of_nil|done]. }
  csimpl in Hnd. apply NoDup_cons in Hnd as [Hk Hnd]. simpl in Hx.
  pose proof (Hfrom x) as Hj. rewrite Hkx in Hj. destruct Hj as [j Hj].
  cbn [export_loop fmap list_fmap expect mbind outcome_bind fst snd]. rewrite Hx. cbn [expect mbind outcome_bind].
  rewrite Hj. cbn [mbind outcome_bind].
  destruct (IH Hnd (<[hex_encode k := j]> acc)) as (d & Hd & Hin & Hout).
  assert (hex_encode k ∉ hex_encode <$> l.*1) as Hk'.
  { intros (k' & ->%Hhex & Hk')%list_elem_of_fmap. done. }
  exists d. split; [exact Hd|]. split.
  - intros kv [->|Hkv]%elem_of_cons; [|by apply Hin]. exists j. cbn [fst].
    rewrite Hout, lookup_insert_eq by done. split; [done|]. by exists x.
  - intros t. csimpl. intros [Ht Ht']%not_elem_of_cons. rewrite Hout by done. by rewrite lookup_insert_ne.
Qed.

Lemma export_loop_todo l acc :
  Forall (λ kv, ∃ x, decode (A := A) kv.2 = Ok x) l →
  Exists (λ kv, ∃ x, decode kv.2 = Ok x ∧ known x = false) l →
  export_loop message from (Ok <$> l) acc = todo.
Proof.
  intros Hl Hex. revert acc Hex. induction Hl as [|[k v] l (x & Hx) _ IH]; intros acc Hex.
  { by apply Exists_nil in Hex. }
  simpl in Hx. cbn [export_loop fmap list_fmap expect mbind outcome_bind fst snd].
  rewrite Hx. cbn [expect mbind outcome_bind].
  pose proof (Hfrom x) as Hj. destruct (known x) eqn:Hkx.
  - destruct Hj as [j ->]. cbn [mbind outcome_bind]. apply IH.
    apply Exists_cons in Hex as [(y & Hy & Hyk)|Hex]; [|done]. simpl in Hy. congruence.
  - by rewrite Hj.
Qed.
End loop_laws.

Section export_events.
Context `{LedgerEnv, !LedgerEnvLaws, IdStoreEnv, EventExportEnv}.
Implicit Types (m : merk) (s : LedgerStorage).

(** The events of a database. *)
Definition db_event m (k : bytes) (e : EventLog) : Prop :=
  ∃ v, merk_db m !! k = Some v ∧ EVENTS_ROOT `prefix_of` k ∧ decode v = Ok e.
Definition events_decode m : Prop :=
  ∀ k v, merk_db m !! k = Some v → EVENTS_ROOT `prefix_of` k → ∃ e, decode (A := EventLog) v = Ok e.

Lemma events_document_todo m k e :
  events_decode m → db_event m k e → event_known (log_content e) = false → events_document m = todo.
Proof.
  intros Hdec (v & Hk & Hp & Hv) He. unfold events_document. rewrite db_entries_ok.
  apply (export_loop_todo _ _ (λ e, event_known (log_content e))).
  - intros x. apply EventLogJson_total.
  - apply Forall_forall. intros [k' v'] [Hk' Hp']%elem_of_range. by eapply Hdec.
  - apply Exists_exists. exists (k, v). split; [by apply elem_of_range|]. by exists e.
Qed.

(** When every event is of a kind the exporter knows, the document has each event of the database,
    converted, under the key of the event in hexadecimal, and nothing else. *)
Lemma events_document_ok m :
  Inj (=) (=) hex_encode → events_decode m →
  (∀ k e, db_event m k e → event_known (log_content e) = true) →
  ∃ d, events_document m = Ok d
    ∧ (∀ k e, db_event m k e → ∃ j, EventLogJson_from e = Ok j ∧ d !! hex_encode k = Some j)
    ∧ ∀ t, is_Some (d !! t) → ∃ k e, t = hex_encode k ∧ db_event m k e.
Proof.
  intros Hhex Hdec Hknown. unfold events_document. rewrite db_entries_ok.
  set (l := range_entries (merk_db m) (PrefixRange EVENTS_ROOT)).
  destruct (export_loop_ok "Could not decode event log" EventLogJson_from (λ e, event_known (log_content e))
    EventLogJson_total Hhex l ∅) as (d & -> & Hin & Hout); [apply NoDup_range|..].
  { apply Forall_forall. intros [k v] [Hk Hp]%elem_of_range. destruct (Hdec k v Hk Hp) as [e He].
    exists e. split; [done|]. apply (Hknown k). by exists v. }
  exists d. split; [done|]. split.
  - intros k e (v & Hk & Hp & He). destruct (Hin (k, v)) as (j & Hj & x & Hx & Hf); [by apply elem_of_range|].
    simpl in Hx, Hj. rewrite He in Hx. injection Hx as <-. by exists j.
  - intros t Ht. destruct (decide (t ∈ hex_encode <$> l.*1)) as [Hl|Hl].
    + apply list_elem_of_fmap in Hl as (k & -> & ([k' v] & -> & [Hk Hp]%elem_of_range)%list_elem_of_fmap).
      destruct (Hdec k' v Hk Hp) as [e He]. exists k', e. split; [done|]. by exists v.
    + rewrite Hout, lookup_empty in Ht by done. by destruct Ht.
Qed.

(** The event that [add_extended_info] logs. *)
Definition extended_info_event (e : EventInfo) : Prop := ∃ x l memo, e = E_TokenAddExtendedInfo x l memo.

Lemma add_extended_info_logs args s s' key n :
  nb_events s = Ok n → add_extended_info args s = (s', Ok key) →
  ∃ e, extended_info_event e
    ∧ view s' !! key_for_event (next_event_id s) = Some (to_vec (mkEventLog (next_event_id s) (now s) e))
    ∧ ∀ k, EVENTS_ROOT `prefix_of` k → k ≠ key_for_event (next_event_id s) → view s' !! k = view s !! k.
Proof.
  intros Hn. unfold add_extended_info. rewrite bind_get. intros Hr.
  apply lift_ok_inv in Hr as (ext & _ & Hr). cbv beta in Hr.
  match type of Hr with (store_apply [(?k, ?o)];; _) _ = _ =>
    destruct (store_apply_one k o s) as (s1 & Hs1 & Hv1 & _ & Ht1 & Hf1) end.
  rewrite (bind_ok _ _ _ _ _ Hs1) in Hr. unfold apply_op in Hv1. cbn [fst snd] in Hv1.
  assert (nb_events s1 = Ok n) as Hn1.
  { rewrite nb_events_view, Hv1, lookup_insert_ne, <-nb_events_view by key_discr. done. }
  assert (next_event_id s1 = next_event_id s ∧ now s1 = now s) as [Hid Hnow].
  { unfold next_event_id, now. by rewrite Ht1, (frame_time _ _ Hf1). }
  match type of Hr with (log_event ?c;; _) _ = _ =>
    destruct (log_event_ok c s1 n Hn1) as (s2 & Hs2 & Hv2 & _ & _); exists c end.
  rewrite (bind_ok _ _ _ _ _ Hs2) in Hr. destruct (maybe_commit_ok s2) as (s3 & Hs3 & Hv3 & _ & _).
  rewrite (bind_ok _ _ _ _ _ Hs3) in Hr. assert (s3 = s') as <- by by injection Hr.
  rewrite Hv3, Hv2, Hid, Hnow. split; [by do 3 eexists|]. split.
  - rewrite lookup_insert_ne by key_discr. apply lookup_insert_eq.
  - intros k [r ->] Hne. rewrite lookup_insert_ne by key_discr. rewrite lookup_insert_ne by done.
    by rewrite Hv1, lookup_insert_ne by key_discr.
Qed.
End export_events.

Section export_claim.
Context `{LedgerEnv, !LedgerEnvLaws, IdStoreEnv, EventExportEnv}.

(** C25: The exporter of events, over the life of a ledger. As long as every event in the
    database is of a kind it knows, it writes each of them, and nothing else, under its key. One successful
    addition of extended information to a token ends that: the event this logs is of a kind the exporter has
    not implemented, so that once it is committed the exporter panics, although every other event is of a kind it knows. *)
Theorem events_export_spec args s s' s2 key n :
  let decodes m := ∀ k v, m !! k = Some v → EVENTS_ROOT `prefix_of` k → ∃ e, decode (A := EventLog) v = Ok e in
  Inj (=) (=) hex_encode → committed s = view s → decodes (view s) → nb_events s = Ok n →
  (∀ i t e, extended_info_event e → decode (to_vec (mkEventLog i t e)) = Ok (mkEventLog i t e)) →
  (∀ k e, db_event (persistent_store s) k e → event_known (log_content e) = true) →
  add_extended_info args s = (s', Ok key) → commit_storage s' = (s2, Ok tt) →
  (∃ d, events_document (persistent_store s) = Ok d
     ∧ (∀ k e, db_event (persistent_store s) k e → ∃ j, EventLogJson_from e = Ok j ∧ d !! hex_encode k = Some j)
     ∧ ∀ t, is_Some (d !! t) → ∃ k e, t = hex_encode k ∧ db_event (persistent_store s) k e)
  ∧ extract_events (persistent_store s2) = Panic "not yet implemented".
Proof.
  intros decodes Hhex Hc Hdec Hn Hcbor Hknown Hadd Hcommit. split.
  { apply events_document_ok; [done| |done]. intros k v Hk. apply Hdec.
    change (committed s !! k = Some v) in Hk. by rewrite Hc in Hk. }
  destruct (add_extended_info_logs args s s' key n Hn Hadd) as (e & He & Hlog & Hrest).
  destruct (commit_storage_ok s') as (s3 & Hs3 & Hv3 & Hc3 & _ & _). rewrite Hcommit in Hs3. injection Hs3 as <-.
  unfold extract_events.
  rewrite (events_document_todo _ (key_for_event (next_event_id s)) (mkEventLog (next_event_id s) (now s) e));
    [done|..].
  - intros k v Hk Hp. change (committed s2 !! k = Some v) in Hk. rewrite Hc3 in Hk.
    destruct (decide (k = key_for_event (next_event_id s))) as [->|Hne].
    + rewrite Hlog in Hk. injection Hk as <-. eexists. by apply Hcbor.
    + rewrite Hrest in Hk by done. by eapply Hdec.
  - exists (to_vec (mkEventLog (next_event_id s) (now s) e)). split; [|split; [by eexists|by apply Hcbor]].
    change (committed s2 !! key_for_event (next_event_id s)
      = Some (to_vec (mkEventLog (next_event_id s) (now s) e))). by rewrite Hc3.
  - destruct He as (x & l & memo & ->). done.
Qed.
End export_claim.
