(* ===== verification/LedgerServer.v ===== *)
(** * The ledger as a server

    Models how [many-ledger/src/main.rs] puts the server of the ledger together: a module per trait of endpoints
    (the traits of [many-modules/src/*.rs]), all on one [LedgerModuleImpl] behind a lock; the
    wrappers [AllowAddrsModule] and [AccountFeatureModule]; and the proofs of [storage/ledger.rs]
    ([prove_state]), for which the Merkle store is a parameter. The base module, whose backend is the server
    itself, is a parameter with the endpoints of its trait.

    Arguments and results are decoded and encoded by derived code, which is a parameter ([LedgerCodecs]). *)
From S2P Require Import Prelude Error ErrorDisplay External Address Types Account Events Migration Storage.
From S2P Require Import StorageLaws LedgerEvent Ledger Tokens Supply Subresource AccountStorage.
From S2P Require Import AccountModule Multisig Abci LedgerModule EventsModule IdStore.
From S2P Require Import Cose Wire WireLaws Protocol ProtocolLaws ProofOps Server ServerLaws Endpoints EndpointLaws.

#[local] Open Scope string_scope.
#[local] Open Scope list_scope.
#[local] Open Scope N_scope.

(** The records of arguments that the handlers take apart. *)
Record BalanceArgs : Type := mkBalanceArgs { ba_account : option Address; ba_symbols : option (list Symbol) }.

Class LedgerCodecs := {
  codec_info :: Cbor LedgerInfoReturns;
  codec_balance_args :: Cbor BalanceArgs;
  codec_balance :: Cbor (gmap Symbol TokenAmount);
  codec_send :: Cbor SendArgs;
  codec_events_info :: Cbor (N * list EventKind);
  codec_events_args :: Cbor ListArgs;
  codec_events :: Cbor ListReturns;
  codec_token_create :: Cbor TokenCreateArgs;
  codec_token_info_args :: Cbor TokenInfoArgs;
  codec_token_info :: Cbor TokenInfoReturns;
  codec_token_update :: Cbor TokenUpdateArgs;
  codec_add_extended :: Cbor TokenAddExtendedInfoArgs;
  codec_remove_extended :: Cbor TokenRemoveExtendedInfoArgs;
  codec_mint :: Cbor TokenMintArgs;
  codec_burn :: Cbor TokenBurnArgs;
  codec_distribution :: Cbor LedgerTokensAddressMap;
  codec_store :: Cbor StoreArgs;
  codec_get :: Cbor GetReturns;
  codec_create :: Cbor CreateArgs;
  codec_set_description :: Cbor SetDescriptionArgs;
  codec_roles :: Cbor (gset Role);
  codec_get_roles :: Cbor GetRolesArgs;
  codec_role_map :: Cbor AddressRoleMap;
  codec_add_roles :: Cbor AddRolesArgs;
  codec_remove_roles :: Cbor RemoveRolesArgs;
  codec_disable :: Cbor DisableArgs;
  codec_add_features :: Cbor AddFeaturesArgs;
  codec_submit :: Cbor (SubmitTransactionArgs AccountMultisigTransaction);
  codec_multisig_info :: Cbor MultisigInfo;
  codec_set_defaults :: Cbor SetDefaultsArgs;
  codec_indices :: Cbor (list DataIndex);
  codec_abci_init :: Cbor (gmap string bool);
  codec_block :: Cbor AbciBlock;
  codec_abci_info :: Cbor AbciInfo;
  codec_commit :: Cbor AbciCommitInfo;
}.

(** ** Proofs *)

(** [merk::proofs::{Node, Op}], and [Merk::prove] with the decoding of its answer. *)
Inductive MerkNode : Type := MerkHash (h : bytes) | MerkKVHash (h : bytes) | MerkKV (k v : bytes).
Inductive MerkOp : Type := MerkPush (n : MerkNode) | MerkParent | MerkChild.
Class MerkProve `{LedgerEnv} := merk_prove : merk → list bytes → outcome string (list MerkOp).

Abbreviation LedgerEndpoint := (Endpoint LedgerStorage).
Abbreviation LedgerWorld := (Mutex LedgerStorage).
Abbreviation LModule := (ManyModule LedgerWorld).

Section server.
Context `{LedgerEnv, !MerkProve, IdStoreEnv, LedgerCodecs, Minicbor}.

Definition proof_operation (o : MerkOp) : ProofOperation :=
  match o with
  | MerkChild => ProofChild
  | MerkParent => ProofParent
  | MerkPush (MerkHash h) => NodeHash h
  | MerkPush (MerkKV k v) => KeyValuePair k v
  | MerkPush (MerkKVHash h) => KeyValueHash h
  end.
Definition prove_state (s : LedgerStorage) (keys : list bytes) : outcome ManyError (list ProofOperation) :=
  map_err unknown (map proof_operation <$> merk_prove (persistent_store s) keys).

(** ** Endpoints *)

Definition keys_of {A} (r : outcome ManyError (A * list bytes)) : list bytes :=
  match r with Ok r => r.2 | _ => [] end.

Definition ledger_endpoints : list LedgerEndpoint := [
  query_context prove_state "ledger.info" (λ s _ (_ : unit), LedgerBackend.info s)
    (λ s _ _, [hash s; b SYMBOLS_ROOT]);
  query_context prove_state "ledger.balance"
    (λ s sender args, LedgerBackend.balance s sender (ba_account args) (ba_symbols args))
    (λ s sender args, keys_of (get_multiple_balances s (default sender (ba_account args))
                                 (list_to_set (default [] (ba_symbols args)))))
].
Definition ledger_command_endpoints : list LedgerEndpoint := [command "ledger.send" LedgerBackend.send].
Definition events_endpoints : list LedgerEndpoint := [
  query_arg "events.info" (λ s (_ : unit), events_info s);
  query_arg "events.list" events_list
].
Definition tokens_endpoints : list LedgerEndpoint := [
  deny_anonymous (command "tokens.create" TokenBackend.create);
  query "tokens.info" (λ s _, TokenBackend.info s);
  deny_anonymous (command "tokens.update" TokenBackend.update);
  deny_anonymous (command "tokens.addExtendedInfo" TokenBackend.add_extended_info);
  deny_anonymous (command "tokens.removeExtendedInfo" TokenBackend.remove_extended_info)
].
Definition mintburn_endpoints : list LedgerEndpoint := [
  command "tokens.mint" TokenBackend.mint;
  command "tokens.burn" TokenBackend.burn
].
Definition idstore_endpoints : list LedgerEndpoint := [
  deny_anonymous (check_webauthn (command "idstore.store" idstore_store));
  query_arg "idstore.getFromRecallPhrase" idstore_get_from_recall_phrase;
  query_arg "idstore.getFromAddress" idstore_get_from_address
].
Definition account_endpoints : list LedgerEndpoint := [
  command "account.create" AccountBackend.create;
  command "account.setDescription" AccountBackend.set_description;
  query_context prove_state "account.listRoles" (λ s _, AccountBackend.list_roles s)
    (λ s _ a, keys_of (get_account s a));
  query_context prove_state "account.getRoles" (λ s _, AccountBackend.get_roles s)
    (λ s _ args, keys_of (get_account s (gr_account args)));
  command "account.addRoles" AccountBackend.add_roles;
  command "account.removeRoles" AccountBackend.remove_roles;
  query_context prove_state "account.info" (λ s _, AccountBackend.info s)
    (λ s _ a, keys_of (get_account_even_disabled s a));
  command "account.disable" AccountBackend.disable;
  command "account.addFeatures" AccountBackend.add_features
].
(** [fuel] bounds the nesting of multisig transactions. *)
Definition multisig_endpoints (fuel : nat) : list LedgerEndpoint := [
  command "account.multisigSubmitTransaction" multisig_submit_transaction;
  query "account.multisigInfo" (λ s _, multisig_info s);
  command "account.multisigSetDefaults" multisig_set_defaults;
  command "account.multisigApprove" (multisig_approve fuel);
  command "account.multisigRevoke" multisig_revoke;
  command "account.multisigExecute" (multisig_execute fuel);
  command "account.multisigWithdraw" multisig_withdraw
].
Definition data_endpoints : list LedgerEndpoint := [
  query_context prove_state "data.info" (λ s _ (_ : unit), LedgerBackend.data_info_indices s)
    (λ _ _ _, [DATA_ATTRIBUTES_KEY]);
  query_context prove_state "data.getInfo" (λ s _, LedgerBackend.data_get_info s) (λ _ _ _, [DATA_INFO_KEY]);
  query_context prove_state "data.query" (λ s _, LedgerBackend.data_query s) (λ _ _ _, [DATA_ATTRIBUTES_KEY])
].
(** The default of [end_block] does nothing. *)
Definition end_block : LedgerM unit := mret tt.
Definition abci_endpoints : list LedgerEndpoint := [
  command_none "abci.init" abci_init;
  command_none "abci.initChain" init_chain;
  command_arg "abci.beginBlock" begin_block;
  query_none "abci.info" abci_info;
  command_none "abci.endBlock" end_block;
  command_none "abci.commit" commit
].

(** ** Modules *)

(** [AccountFeatureModule]: the attribute of the inner module lists features. *)
Definition account_feature_module (inner : LModule) (features : list N) : LModule :=
  mkModule _
    (mkModuleInfo (info_name (module_info inner))
       ((λ a, mkAttribute (attr_id a) (attr_arguments a ++ map (λ i, CInt (Z.of_N i)) features))
          <$> info_attribute (module_info inner))
       (info_endpoints (module_info inner)))
    (module_validate inner) (module_execute inner).

Definition ledger_modules (fuel : nat) (allow : option (gset Address)) (abci : bool) : list LModule :=
  [many_module "LedgerModule" (Some 2) ledger_endpoints;
   let m := many_module "LedgerCommandsModule" (Some 6) ledger_command_endpoints in
   match allow with Some l => allow_addrs_module l m | None => m end;
   many_module "EventsModule" (Some 4) events_endpoints;
   many_module "LedgerTokensModule" (Some 11) tokens_endpoints;
   many_module "LedgerMintBurnModule" (Some 12) mintburn_endpoints;
   many_module "IdStoreModule" (Some 1002) idstore_endpoints;
   account_feature_module (many_module "AccountModule" (Some 9) account_endpoints) [0; 1];
   many_module "AccountMultisigModule" None (multisig_endpoints fuel);
   many_module "DataModule" (Some 5) data_endpoints]
  ++ if abci then [many_module "AbciModule" (Some 1000) abci_endpoints] else [].

Definition ledger_server (fuel : nat) (i : Identity) (v : Verifier) (version : option string) (base : LModule)
    (allow : option (gset Address)) (abci : bool) : outcome ManyError (ManyServer LedgerWorld unit) :=
  s ← server_simple "many-ledger" i v version base;
  s ← add_modules s (ledger_modules fuel allow abci);
  Ok (if abci then set_timeout s U64_MAX else s).
End server.
