(* ===== verification/LedgerServerLaws.v ===== *)
(** * The server of the ledger: from an envelope to the store

    The modules of the ledger fit together; the table of endpoints that the ledger gives to the chain says of
    each endpoint whether it changes the state; and what a call of the server does to the store. *)
From S2P Require Import Prelude Error ErrorDisplay External Address Types Account Events Migration Storage.
From S2P Require Import StorageLaws LedgerEvent Ledger Tokens Supply Subresource AccountStorage.
From S2P Require Import AccountModule Multisig Abci LedgerModule EventsModule IdStore.
From S2P Require Import Cose Wire WireLaws Protocol ProtocolLaws ProofOps Verifiers VerifierLaws.
From S2P Require Import Server ServerLaws Endpoints EndpointLaws LedgerServer.

#[local] Open Scope string_scope.
#[local] Open Scope list_scope.
#[local] Open Scope N_scope.

Section server.
Context `{LedgerEnv, !MerkProve, IdStoreEnv, LedgerCodecs, Minicbor}.

(** ** The modules of the ledger *)

(** The endpoints in front of which the chain stands, and all of them. *)
Definition chain_endpoints (fuel : nat) : list LedgerEndpoint :=
  ledger_endpoints ++ ledger_command_endpoints ++ events_endpoints ++ tokens_endpoints ++ mintburn_endpoints
  ++ idstore_endpoints ++ account_endpoints ++ multisig_endpoints fuel ++ data_endpoints.
Definition all_endpoints (fuel : nat) : list LedgerEndpoint := chain_endpoints fuel ++ abci_endpoints.

Ltac in_all := intros ep Hep; unfold all_endpoints, chain_endpoints; rewrite !elem_of_app; tauto.

(** A module is its endpoints, behind a list of senders perhaps. *)
Lemma ledger_module_execute fuel allow abci x m w :
  x ∈ ledger_modules fuel allow abci → (module_execute x m w).1 ≠ w →
  ∃ eps, (∀ ep, ep ∈ eps → ep ∈ all_endpoints fuel) ∧ (module_execute x m w).1 = (endpoints_execute eps m w).1
         ∧ module_endpoints x = map ep_name eps ∧ module_validate x = (λ _, endpoints_validate eps)
         ∧ (∀ l, allow = Some l → "ledger.send" ∈ module_endpoints x → request_from m ∈ l).
Proof.
  intros Hx Hw.
  assert (∀ P : LModule → Prop,
    P (many_module "LedgerModule" (Some 2) ledger_endpoints) →
    P (let m := many_module "LedgerCommandsModule" (Some 6) ledger_command_endpoints in
       match allow with Some l => allow_addrs_module l m | None => m end) →
    P (many_module "EventsModule" (Some 4) events_endpoints) →
    P (many_module "LedgerTokensModule" (Some 11) tokens_endpoints) →
    P (many_module "LedgerMintBurnModule" (Some 12) mintburn_endpoints) →
    P (many_module "IdStoreModule" (Some 1002) idstore_endpoints) →
    P (account_feature_module (many_module "AccountModule" (Some 9) account_endpoints) [0; 1]) →
    P (many_module "AccountMultisigModule" None (multisig_endpoints fuel)) →
    P (many_module "DataModule" (Some 5) data_endpoints) →
    P (many_module "AbciModule" (Some 1000) abci_endpoints) → P x) as Hcase.
  { intros P **. unfold ledger_modules in Hx. destruct abci; repeat (apply elem_of_cons in Hx as [->|Hx]; [done|]);
      by apply elem_of_nil in Hx. }
  revert Hw. apply Hcase; clear Hcase Hx x.
  2:{ destruct allow as [l|]; cbn [module_execute allow_addrs_module].
      - case_bool_decide; [|done]. intros _. exists ledger_command_endpoints. split_and!; [|done|done|done|].
        + in_all.
        + intros l' [= <-] _. done.
      - intros _. exists ledger_command_endpoints. split_and!; [in_all|done|done|done|done]. }
  all: intros _; eexists; (split; [|split; [reflexivity|split; [reflexivity|split; [reflexivity|]]]]); [in_all|].
  all: intros l _ Hin; apply (bool_decide_eq_true_2 _) in Hin; discriminate Hin.
Qed.

(** ** The table of endpoints *)

Lemma query_reads {Arg Ret} `{!Cbor Arg, !Cbor Ret} n (f : LedgerStorage → Address → Arg → outcome ManyError Ret) :
  reads_only (query n f).
Proof. intros m s. apply argument_bind. intros args. apply (encoded_reads (λ s, f s _ args)). Qed.
Lemma query_arg_reads {Arg Ret} `{!Cbor Arg, !Cbor Ret} n (f : LedgerStorage → Arg → outcome ManyError Ret) :
  reads_only (query_arg n f).
Proof. intros m s. apply argument_bind. intros args. apply (encoded_reads (λ s, f s args)). Qed.
Lemma query_none_reads {Ret} `{!Cbor Ret} n (f : LedgerStorage → outcome ManyError Ret) : reads_only (query_none n f).
Proof. intros m s. apply (encoded_reads f). Qed.
Lemma query_context_reads {Arg Ret} `{!Cbor Arg, !Cbor Ret} p n
    (f : LedgerStorage → Address → Arg → Context → outcome ManyError Ret) k : reads_only (query_context p n f k).
Proof.
  intros m s. apply argument_bind. intros args. unfold reads, mbind, st_bind. destruct (f s _ args _); [|done..].
  by destruct (context_prove _ _).
Qed.
Lemma unchanged_reads ep ep' : ep_call ep' = ep_call ep → reads_only (B := LedgerStorage) ep → reads_only ep'.
Proof. intros Hc Hr m s. by rewrite Hc. Qed.

(** Whatever is not declared with [&mut self] leaves the store alone. *)
Lemma immutable_reads fuel ep : ep ∈ all_endpoints fuel → ep_mut ep = false → reads_only ep.
Proof.
  intros Hin. assert (Forall (λ ep : LedgerEndpoint, ep_mut ep = false → reads_only ep) (all_endpoints fuel)) as Hall.
  { unfold all_endpoints, chain_endpoints. repeat (apply Forall_app; split).
    all: repeat (apply Forall_cons; split); try apply Forall_nil; try exact I; intros Hm; try discriminate Hm;
      (apply query_reads || apply query_arg_reads || apply query_none_reads || apply query_context_reads). }
  rewrite Forall_forall in Hall. by apply Hall.
Qed.

Definition name_and_mut (ep : LedgerEndpoint) : string * bool := (ep_name ep, ep_mut ep).
Lemma table_names fuel :
  ∃ l, map name_and_mut (chain_endpoints fuel) = l ∧ endpoints = list_to_map l ∧ NoDup l.*1.
Proof.
  eexists. split; [reflexivity|]. unfold name_and_mut. cbn [map chain_endpoints app]. split.
  - apply (bool_decide_unpack _). vm_compute. exact I.
  - apply (bool_decide_unpack _). vm_compute. exact I.
Qed.
Lemma all_names fuel : NoDup (map ep_name (all_endpoints fuel)).
Proof. apply (bool_decide_unpack _). vm_compute. exact I. Qed.
Lemma same_name fuel ep ep' :
  ep ∈ all_endpoints fuel → ep' ∈ all_endpoints fuel → ep_name ep = ep_name ep' → ep = ep'.
Proof.
  intros [i Hi]%list_elem_of_lookup [j Hj]%list_elem_of_lookup Hn.
  assert (i = j) as ->; [|congruence]. apply (NoDup_lookup _ _ _ (ep_name ep) (all_names fuel)).
  - by rewrite list_lookup_fmap, Hi.
  - by rewrite list_lookup_fmap, Hj, Hn.
Qed.

(** C37: The table that the ledger gives to the chain (which sends commands through the consensus and asks
    queries of one node) is exact: it has exactly the endpoints of the modules of the ledger, other than the base and the
    chain modules; an endpoint is a query there exactly when its method cannot write, and then it leaves the
    store as it is, whatever the message. *)
Theorem endpoint_table_exact fuel method c :
  (endpoints !! method = Some c ↔ ∃ ep, ep ∈ chain_endpoints fuel ∧ ep_name ep = method ∧ ep_mut ep = c)
  ∧ (endpoints !! method = Some false → ∀ ep, ep ∈ all_endpoints fuel → ep_name ep = method →
       ∀ m s, (ep_call ep m s).1 = s).
Proof.
  destruct (table_names fuel) as (l & Hl & He & Hd). rewrite He.
  assert (∀ c, list_to_map (M := gmap string bool) l !! method = Some c ↔
               ∃ ep, ep ∈ chain_endpoints fuel ∧ ep_name ep = method ∧ ep_mut ep = c) as Htable.
  { intros c'. rewrite <-elem_of_list_to_map by done. rewrite <-Hl. split.
    - intros (ep & Hep & Hin)%list_elem_of_fmap. exists ep. by injection Hep as -> ->.
    - intros (ep & Hin & <- & <-). by apply (list_elem_of_fmap_2 name_and_mut). }
  split; [apply Htable|]. intros (ep' & Hin' & Hn' & Hm)%Htable ep Hin Hn.
  assert (ep = ep') as ->; [|apply (immutable_reads fuel); [|done]; apply elem_of_app; by left].
  apply (same_name fuel); [done|apply elem_of_app; by left|congruence].
Qed.

(** ** The server *)

Lemma assembled fuel i v version base allow abci :
  base_module_ok base →
  ∃ s, ledger_server fuel i v version base allow abci = Ok s ∧ server_wf s
    ∧ modules s = base :: ledger_modules fuel allow abci
    ∧ identity s = i ∧ identity_verifier s = v ∧ fallback s = None ∧ time_fn s = None
    ∧ timeout s = (if abci then U64_MAX else MANYSERVER_DEFAULT_TIMEOUT).
Proof.
  intros Hb. apply (server_assembled "many-ledger" i v version base); [done|..];
    destruct allow, abci; apply (bool_decide_unpack _); vm_compute; exact I.
Qed.

(** The server of the ledger is put together without a conflict, whatever its options: no two modules share
    a method or an attribute, and every method of the modules is found. *)
Theorem ledger_server_assembles fuel i v version base allow abci :
  base_module_ok base →
  ∃ s, ledger_server fuel i v version base allow abci = Ok s ∧ server_wf s
    ∧ modules s = base :: ledger_modules fuel allow abci
    ∧ identity s = i ∧ identity_verifier s = v ∧ fallback s = None ∧ time_fn s = None
    ∧ timeout s = (if abci then U64_MAX else MANYSERVER_DEFAULT_TIMEOUT).
Proof. apply assembled. Qed.
End server.

Abbreviation store_of sh := (guarded (world sh)).

Section calls.
Context `{LedgerEnv, !MerkProve, IdStoreEnv, LedgerCodecs, Minicbor, Coset} {V : Type} `{!RequestValidator V}.
Implicit Types sh : Shared (W := LedgerWorld) (V := V).

(** A node of the ledger: the server with its modules. *)
Record ledger_node fuel allow abci base sh : Prop := {
  node_base : base_module_ok base;
  node_modules : modules (server sh) = base :: ledger_modules fuel allow abci;
  node_fallback : fallback (server sh) = None;
}.

(** C6: A call of the server of the ledger changes the store only in one way: its envelope was accepted by the
    verifier of the server for the sender of the request in it, the request is timely and for this server, and the
    new store is what one call of the endpoint that the request names, by that sender, makes of the old one; that
    endpoint is one that may write, its own checks passed, and a sender of funds is on the list of allowed ones if
    there is one. *)
Theorem ledger_state_changes fuel allow abci base sh e now :
  ledger_node fuel allow abci base sh →
  store_of (execute e now sh).1 ≠ store_of sh →
  ∃ m t ep, accepted (server sh) (mkExecution e m t)
    ∧ ep ∈ all_endpoints fuel ∧ ep_name ep = req_method m ∧ ep_mut ep = true ∧ validate_endpoint ep m e = Ok tt
    ∧ (∀ l, allow = Some l → req_method m = "ledger.send" → request_from m ∈ l)
    ∧ store_of (execute e now sh).1 = (ep_call ep m (store_of sh)).1.
Proof.
  intros [Hb Hms Hf] Hne. destruct (execute_inv sh e now Hf) as [Hw|(m & t & x & Hr)]; [by rewrite Hw in Hne|].
  destruct (execute_routed _ _ _ _ _ _ Hr) as [Hw _]. rewrite Hw in Hne |- *.
  destruct (routed_accepted _ _ _ _ _ _ Hr) as [Hacc Hx].
  pose proof (check_phase_validates _ _ _ _ _ _ _ _ (routed_check _ _ _ _ _ _ Hr)) as Hv.
  unfold find_module in Hx. rewrite Hms in Hx.
  apply find_some in Hx as [Hin%list_elem_of_In Hm%bool_decide_eq_true].
  apply elem_of_cons in Hin as [->|Hin]; [by rewrite (base_reads _ Hb) in Hne|].
  destruct (ledger_module_execute fuel allow abci x m (world sh) Hin) as (eps & Hall & Hx & Hn & Hval & Hl).
  { intros Heq. by rewrite Heq in Hne. }
  rewrite Hx, endpoints_execute_state in Hne |- *. rewrite Hval in Hv. unfold endpoints_validate in Hv.
  destruct (find_endpoint eps (req_method m)) as [ep|] eqn:Hep; [|done].
  destruct (mutex_poisoned (world sh)); [done|]. apply find_endpoint_some in Hep as [Hin' Hn'].
  exists m, t, ep. split_and!; [done|by apply Hall|done| |done| |done].
  - destruct (ep_mut ep) eqn:Hmut; [done|]. exfalso. apply Hne, (immutable_reads fuel); [by apply Hall|done].
  - intros l Hal Hs. apply (Hl l Hal). by rewrite <-Hs.
Qed.

Lemma node_send fuel allow abci base sh m :
  ledger_node fuel allow abci base sh → server_wf (server sh) → req_method m = "ledger.send" → allow = None →
  find_module (server sh) m = Some (many_module "LedgerCommandsModule" (Some 6) ledger_command_endpoints).
Proof.
  intros [_ Hms _] Hwf Hm ->. apply find_module_some; [done|]. rewrite Hms, Hm. split.
  - right. right. left.
  - left.
Qed.
End calls.

(** ** An attack *)

Section theft.
Context `{LedgerEnv, !LedgerEnvLaws, !MerkProve, IdStoreEnv, LedgerCodecs, Minicbor, !MinicborLaws}.
Context `{Coset, !CosetLaws, Sha3, !Sha3Laws, Crypto, CosetDebug, WebAuthnEnv}.

(** A request of [a] to send funds. *)
Definition send_request (a : Address) (args : SendArgs) (t : Timestamp) (attrs : AttributeSet) : RequestMessage :=
  mkRequest None (Some a) ANONYMOUS "ledger.send" (to_vec args) (Some t) None None attrs.

(** The call of the endpoint. *)
Lemma send_call a args t attrs s :
  decode (to_vec args) = Ok args →
  (ep_call (command "ledger.send" LedgerBackend.send) (send_request a args t attrs) s).1 = (LedgerBackend.send a args s).1.
Proof.
  intros Hd. cbn [ep_call command]. unfold lift, argument, mbind, st_bind. cbn [req_data send_request]. rewrite Hd.
  cbn [map_err]. unfold encoded, mbind, st_bind. by destruct (LedgerBackend.send _ args s) as [? []].
Qed.

Lemma send_answers a args t attrs s :
  decode (to_vec args) = Ok args → is_ok (LedgerBackend.send a args s).2 = true →
  ep_call (command "ledger.send" LedgerBackend.send) (send_request a args t attrs) s
  = ((LedgerBackend.send a args s).1, Ok (to_vec tt, [])).
Proof.
  intros Hd Hok. cbn [ep_call command]. unfold lift, argument, mbind, st_bind. cbn [req_data send_request]. rewrite Hd.
  cbn [map_err]. unfold encoded, mbind, st_bind, request_from. cbn [req_from send_request default from_option id].
  by destruct (LedgerBackend.send a args s) as [? [[]| | |]].
Qed.

(** What the holder of an address sends from it. *)
Lemma backend_send_own a to symbol amount memo s :
  is_illegal a = false →
  (LedgerBackend.send a (mkSendArgs None to amount symbol memo) s).1 = (send a to symbol amount memo s).1.
Proof.
  intros Hi. unfold LedgerBackend.send. cbn [send_from default from_option id send_to send_symbol send_amount send_memo].
  rewrite Hi, bool_decide_false by naive_solver.
  unfold mbind, st_bind, mret, st_ret. by destruct (send a to symbol amount memo s) as [? []].
Qed.

(** An envelope that opens to a request to send is routed to the module of commands. *)
Lemma send_routed fuel abci base (sh : Shared (W := LedgerWorld) (V := unit)) e a args t attrs now :
  let m := send_request a args t attrs in
  ledger_node fuel None abci base sh → server_wf (server sh) → time_fn (server sh) = None → poisoned sh = false →
  decode_request_from_cose_sign1 e (identity_verifier (server sh)) = Ok m →
  validate_time m now (timeout (server sh)) = Ok tt → decode (to_vec args) = Ok args →
  routed sh e now m now (many_module "LedgerCommandsModule" (Some 6) ledger_command_endpoints).
Proof.
  intros m Hnode Hwf Htf Hp Hd Ht Hargs. split; [done|by unfold decode_phase|].
  apply check_phase_ok; try done.
  - by rewrite Htf.
  - by apply (node_send _ _ _ _ _ _ Hnode Hwf).
  - cbn [module_validate many_module]. unfold endpoints_validate.
    change (find_endpoint ledger_command_endpoints (req_method m)) with (Some (command "ledger.send" LedgerBackend.send)).
    unfold validate_endpoint. cbn [ep_deny_anonymous ep_check_webauthn ep_check command andb req_data send_request m].
    unfold decodes. by rewrite Hargs.
Qed.

Lemma impersonated_send fuel abci base (sh : Shared (W := LedgerWorld) (V := unit)) w a x y d t attrs now to symbol amount memo :
  let m := send_request a (mkSendArgs None to amount symbol memo) t attrs in
  ledger_node fuel None abci base sh → server_wf (server sh) →
  identity_verifier (server sh) = server_verifier w → time_fn (server sh) = None →
  poisoned sh = false → mutex_poisoned (world sh) = false →
  p256_pair x y d → is_anonymous a = false → is_illegal a = false →
  validate_time m now (timeout (server sh)) = Ok tt → request_wf m → Forall token_fits (request_encode m) →
  decode (to_vec (mkSendArgs None to amount symbol memo)) = Ok (mkSendArgs None to amount symbol memo) →
  counters_ok (store_of sh) → a ≠ to → is_anonymous to = false → 0 < amount → amount ≤ bal (store_of sh) a symbol →
  ∃ e, dsa_sign_1 (ec_signer a x y d) (cose_of_payload (request_to_bytes m)) = Ok e
    ∧ bal (store_of (execute e now sh).1) a symbol = bal (store_of sh) a symbol - amount
    ∧ bal (store_of (execute e now sh).1) to symbol = bal (store_of sh) to symbol + amount.
Proof.
  intros m Hnode Hwf Hver Htf Hp Hmp Hpair Ha Hi Htime Hm Hfits Hargs Hc Hne Hto Hamt Hle.
  destruct (impersonation_accepted w a x y d m Hpair Ha Hi) as (e & _ & He & _ & _ & Hd); [done..|].
  exists e. split; [done|].
  rewrite as_received_same in Hd; [|done|by injection 1 as ->|done]. rewrite <-Hver in Hd.
  pose proof (send_routed fuel abci base sh e a _ t attrs now Hnode Hwf Htf Hp Hd Htime Hargs) as Hr.
  destruct (execute_routed _ _ _ _ _ _ Hr) as [-> _].
  cbn [module_execute many_module]. rewrite endpoints_execute_state, Hmp.
  change (find_endpoint ledger_command_endpoints (req_method _)) with (Some (command "ledger.send" LedgerBackend.send)).
  cbn iota. rewrite (send_call a (mkSendArgs None to amount symbol memo) t attrs _ Hargs), backend_send_own by done.
  destruct (send_ok a to symbol amount memo (store_of sh) Hc) as (s' & -> & _ & _ & _ & Hb); [done|lia|by rewrite Hto, Ha|done|].
  cbn [fst]. rewrite !Hb, !(bool_decide_true (symbol = symbol)) by done. rewrite (bool_decide_true (to = to)) by done.
  by rewrite (bool_decide_false (a = to)), (bool_decide_true (a = a)) by done.
Qed.

(** C7: The composition of the server, its verifiers and the ledger does not protect funds. For whatever account
    [a] that holds at least [amount], whoever has some key of P-256 makes an envelope (with that key and without the
    key of [a]) whose execution by the server of the ledger moves [amount] from [a] to whatever address the
    maker of the envelope chooses. *)
Theorem stolen_funds fuel abci base (sh : Shared (W := LedgerWorld) (V := unit)) w a x y d t attrs now to symbol amount memo :
  let m := send_request a (mkSendArgs None to amount symbol memo) t attrs in
  ledger_node fuel None abci base sh → server_wf (server sh) →
  identity_verifier (server sh) = server_verifier w → time_fn (server sh) = None →
  poisoned sh = false → mutex_poisoned (world sh) = false →
  p256_pair x y d → is_anonymous a = false → is_illegal a = false →
  validate_time m now (timeout (server sh)) = Ok tt → request_wf m → Forall token_fits (request_encode m) →
  decode (to_vec (mkSendArgs None to amount symbol memo)) = Ok (mkSendArgs None to amount symbol memo) →
  counters_ok (store_of sh) → a ≠ to → is_anonymous to = false → 0 < amount → amount ≤ bal (store_of sh) a symbol →
  ∃ e, dsa_sign_1 (ec_signer a x y d) (cose_of_payload (request_to_bytes m)) = Ok e
    ∧ bal (store_of (execute e now sh).1) a symbol = bal (store_of sh) a symbol - amount
    ∧ bal (store_of (execute e now sh).1) to symbol = bal (store_of sh) to symbol + amount.
Proof. apply impersonated_send. Qed.
End theft.
