(* ===== verification/HttpProxy.v ===== *)
(** * http-proxy: web pages from a MANY server

    Models [http-proxy/src/main.rs], which answers requests for pages with what [kvstore.get] of a
    MANY server gives: the host of the request names a site and its owner ([site-owner.domain]), and the key is the
    one under which the web server stores the file. Requests and responses are those of [tiny_http]; a host, a
    URL and a header are texts. The comparison of header names, the table of media types and the check of
    headers are parameters. A failure to send a response is only logged.

    Below, the path of a call: from a client, through the server, to an endpoint and back. *)
From S2P Require Import Prelude Error ErrorDisplay External Address Types Account Events Migration.
From S2P Require Import Cose Wire WireLaws Protocol ProtocolLaws ProofOps Verifiers VerifierLaws Server ServerLaws.
From S2P Require Import Endpoints EndpointLaws AbciBridge.

#[local] Open Scope string_scope.
#[local] Open Scope list_scope.
#[local] Open Scope N_scope.

(** ** Texts *)

(** The first place of a character, and the last. *)
Fixpoint split_once (c : ascii) (s : string) : option (string * string) :=
  match s with
  | EmptyString => None
  | String x s =>
      if Ascii.eqb x c then Some ("", s)
      else match split_once c s with Some (a, r) => Some (String x a, r) | None => None end
  end.
Fixpoint rsplit_once (c : ascii) (s : string) : option (string * string) :=
  match s with
  | EmptyString => None
  | String x s =>
      match rsplit_once c s with
      | Some (a, r) => Some (String x a, r)
      | None => if Ascii.eqb x c then Some ("", s) else None
      end
  end.
(** [s.splitn(2, c)] and [s.rsplitn(2, c)], collected. *)
Definition splitn_2 (c : ascii) (s : string) : list string :=
  match split_once c s with Some (a, r) => [a; r] | None => [s] end.
Definition rsplitn_2 (c : ascii) (s : string) : list string :=
  match rsplit_once c s with Some (a, r) => [r; a] | None => [s] end.

(** ** Requests and responses *)

Inductive Method : Type := MethodGet | MethodOther (name : string).
Record ProxyRequest : Type := mkProxyRequest {
  pq_method : Method;
  pq_url : string;
  pq_headers : list (string * string);
}.
Record ProxyResponse : Type := mkProxyResponse {
  pa_status : N;
  pa_headers : list (string * string);
  pa_data : bytes;
}.
Definition response_empty (status : N) : ProxyResponse := mkProxyResponse status [] [].

(** [kvstore::GetArgs] and [kvstore::GetReturns]. *)
Record KvGetArgs : Type := mkKvGetArgs { kg_key : bytes }.
Record KvGetReturns : Type := mkKvGetReturns { kg_value : option bytes }.

Class KvGetCodecs := {
  codec_kv_get :: Cbor KvGetArgs;
  codec_kv_returns :: Cbor KvGetReturns;
}.
Class ProxyEnv := {
  field_equiv : string → string → bool;                          (* [HeaderField::equiv] *)
  mime_first_raw : string → option string;                       (* [new_mime_guess::from_path(url).first_raw()] *)
  header_from_bytes : string → string → option (string * string);
}.

(** ** The key of a page *)

Section key.
Context `{ProxyEnv}.

Definition host_of (q : ProxyRequest) : option string :=
  snd <$> List.find (λ h, field_equiv h.1 "host") (pq_headers q).
Definition site_path (q : ProxyRequest) : string :=
  match host_of q with
  | Some host =>
      match splitn_2 "." host with
      | [site_name_and_addr; _] =>
          match rsplitn_2 "-" site_name_and_addr with
          | [addr; site_name] => "/http" +:+ "/" +:+ addr +:+ "/" +:+ site_name
          | _ => "/http"
          end
      | _ => "/http"
      end
  | None => "/http"
  end.
Definition page_url (q : ProxyRequest) : string := if String.eqb (pq_url q) "/" then "/index.html" else pq_url q.
Definition page_key (q : ProxyRequest) : bytes := b (site_path q +:+ page_url q).

(** ** Handlers *)

Definition respond_with_value (value : bytes) (q : ProxyRequest) : ProxyResponse :=
  mkProxyResponse 200
    (match mime_first_raw (pq_url q) with
     | Some m => match header_from_bytes "Content-Type" m with Some h => [h] | None => [] end
     | None => []
     end) value.

Context `{KvGetCodecs}.

Definition process_result (result : bytes) (q : ProxyRequest) : ProxyResponse :=
  match decode (A := KvGetReturns) result with
  | Ok r => match kg_value r with Some v => respond_with_value v q | None => response_empty 404 end
  | _ => response_empty 500
  end.

Context `{Minicbor, Base32, Crc16, Clock, Coset} {B : Type} `{!Http B}.

(** [nonce] is the random one of the client. The thread ends when the client panics. *)
Definition handle_get_request (c : ManyClient) (q : ProxyRequest) (nonce : bytes) : ST B ManyError ProxyResponse := λ w,
  let '(w, result) := call_ c "kvstore.get" (to_vec (mkKvGetArgs (page_key q))) nonce w in
  (w, match result with
      | Ok l => Ok (process_result l q)
      | Err _ => Ok (response_empty 500)
      | Panic t => Panic t
      | OutOfFuel => OutOfFuel
      end).
Definition handle_proxy_request (c : ManyClient) (q : ProxyRequest) (nonce : bytes) : ST B ManyError ProxyResponse :=
  match pq_method q with
  | MethodGet => handle_get_request c q nonce
  | MethodOther _ => mret (response_empty 405)
  end.
(** The loop of a thread: a response for each request. *)
Fixpoint process_request (c : ManyClient) (l : list (ProxyRequest * bytes)) : ST B ManyError (list ProxyResponse) :=
  match l with
  | [] => mret []
  | (q, nonce) :: l => a ← handle_proxy_request c q nonce; r ← process_request c l; mret (a :: r)
  end.
(** The client that [main] makes; [v] is the verifier of COSE keys that a client has. *)
Definition proxy_client (server_id : option Address) (pem : option Identity) (v : Verifier) : ManyClient :=
  client_new (default ANONYMOUS server_id) (default AnonymousIdentity pem) v.
End key.

(** ** The page of a site *)

(** [c] is nowhere in [s]. *)
Definition lacks (c : ascii) (s : string) : bool := string_forallb (λ x, negb (Ascii.eqb x c)) s.

Lemma text_app_assoc (s t u : string) : s +:+ (t +:+ u) = (s +:+ t) +:+ u.
Proof. induction s as [|x s IH]; [done|]. change (String x (s +:+ (t +:+ u)) = String x ((s +:+ t) +:+ u)). by rewrite IH. Qed.
Lemma lacks_app c s t : lacks c (s +:+ t) = lacks c s && lacks c t.
Proof. apply string_forallb_app. Qed.
Lemma text_lacks c s : text_char c = false → string_forallb text_char s = true → lacks c s = true.
Proof.
  intros Hc. induction s as [|x s IH]; [done|]. simpl. intros [Hx Hs]%andb_true_iff.
  unfold lacks. simpl. rewrite (IH Hs : string_forallb _ s = true), andb_true_r. apply negb_true_iff.
  destruct (Ascii.eqb_spec x c) as [->|]; [congruence|done].
Qed.
Lemma split_once_lacks c s t : lacks c s = true → split_once c (s +:+ String c t) = Some (s, t).
Proof.
  induction s as [|x s IH]; intros Hs; simpl.
  - by rewrite Ascii.eqb_refl.
  - unfold lacks in Hs. simpl in Hs. apply andb_true_iff in Hs as [Hx%negb_true_iff Hs].
    by rewrite Hx, (IH Hs).
Qed.
Lemma rsplit_once_none c s : lacks c s = true → rsplit_once c s = None.
Proof.
  induction s as [|x s IH]; [done|]. unfold lacks. simpl. intros [Hx%negb_true_iff Hs]%andb_true_iff.
  by rewrite (IH Hs), Hx.
Qed.
Lemma rsplit_once_lacks c s t : lacks c t = true → rsplit_once c (s +:+ String c t) = Some (s, t).
Proof.
  intros Ht. induction s as [|x s IH]; simpl.
  - by rewrite (rsplit_once_none c t Ht), Ascii.eqb_refl.
  - by rewrite IH.
Qed.
(** A part is shorter than what is split. *)
Lemma split_once_before c s t :
  lacks c s = false → ∃ a r, split_once c (s +:+ t) = Some (a, r) ∧ (String.length a < String.length s)%nat.
Proof.
  induction s as [|x s IH]; [done|]. unfold lacks. simpl. destruct (Ascii.eqb x c) eqn:Hx; simpl.
  - intros _. exists "", (s +:+ t). split; [done|simpl; lia].
  - intros Hs. destruct (IH Hs) as (a & r & Hr & Ha). rewrite Hr. exists (String x a), r. split; [done|simpl; lia].
Qed.
Lemma rsplit_once_length c s a r :
  rsplit_once c s = Some (a, r) → String.length s = (String.length a + 1 + String.length r)%nat.
Proof.
  revert a r. induction s as [|x s IH]; [done|]. intros a r. simpl.
  destruct (rsplit_once c s) as [[a' r']|].
  - intros [= <- <-]. simpl. rewrite (IH _ _ eq_refl). lia.
  - destruct (Ascii.eqb x c); [|done]. intros [= <- <-]. simpl. lia.
Qed.
Lemma length_b s : length (b s) = String.length s.
Proof.
  unfold b, String.list_byte_of_string. rewrite List.length_map. induction s as [|x s IH]; [done|].
  simpl. by rewrite IH.
Qed.

Section pages.
Context `{ProxyEnv, Base32, !Base32Laws, Crc16}.
Implicit Types q : ProxyRequest.

(** The host of a site in the domain [suffix]. *)
Definition site_host (owner : Address) (site suffix : string) : string :=
  site +:+ "-" +:+ address_to_string owner +:+ "." +:+ suffix.

Lemma site_path_of q owner site suffix :
  host_of q = Some (site_host owner site suffix) → lacks "." site = true →
  site_path q = "/http" +:+ "/" +:+ address_to_string owner +:+ "/" +:+ site.
Proof.
  intros Hh Hs. unfold site_path. rewrite Hh. unfold splitn_2, site_host.
  pose proof (address_to_string_text owner) as Ht.
  assert (site +:+ "-" +:+ address_to_string owner +:+ "." +:+ suffix
    = (site +:+ "-" +:+ address_to_string owner) +:+ String "." suffix) as ->
    by (change (String "." suffix) with ("." +:+ suffix); by rewrite !text_app_assoc).
  rewrite split_once_lacks.
  - unfold rsplitn_2. change (site +:+ "-" +:+ address_to_string owner) with (site +:+ String "-" (address_to_string owner)).
    by rewrite rsplit_once_lacks by (by apply text_lacks).
  - by rewrite !lacks_app, Hs, (text_lacks "." (address_to_string owner)).
Qed.
(** A dot in the name of the site: the part before it is taken for the site and its owner. *)
Lemma site_path_short q owner site suffix :
  host_of q = Some (site_host owner site suffix) → lacks "." site = false →
  (String.length (site_path q) < 7 + String.length site)%nat.
Proof.
  intros Hh Hs. unfold site_path. rewrite Hh. unfold splitn_2, site_host.
  destruct (split_once_before "." site ("-" +:+ address_to_string owner +:+ "." +:+ suffix) Hs) as (a & r & -> & Ha).
  unfold rsplitn_2. destruct (rsplit_once "-" a) as [[a' r']|] eqn:Er; [|simpl; lia].
  apply rsplit_once_length in Er. rewrite !string_length_app. simpl. lia.
Qed.
End pages.

(** ** A call, from a client to an endpoint and back *)

(** What the identity of a party promises to the verifier of another: whatever it signs arrives, and is
    accepted in its name. *)
Class Speaks `{Coset} (i : Identity) (v : Verifier) : Prop := {
  speaks_legal : is_illegal (identity_address i) = false;
  speaks p : ∃ e l e', sign_1 i (cose_of_payload p) = Ok e ∧ cose_to_tagged_vec e = Ok l
    ∧ cose_from_tagged_slice l = Ok e' ∧ cose_payload e' = Some p ∧ v e' = Ok (identity_address i);
}.

Section speakers.
Context `{Minicbor, Base32, Crc16, Clock, Coset, !CosetTransport, !CosetLaws, Sha3, !Sha3Laws, Crypto, CosetDebug}.

Lemma verify_tuple_first (v v' : Verifier) vs e a : v e = Ok a → verify_tuple (v :: v' :: vs) e = Ok a.
Proof. intros Hv. unfold verify_tuple, verify_first. by rewrite Hv. Qed.
Lemma verify_tuple_second (v v' : Verifier) vs e a x :
  v e = Err x → v' e = Ok a → verify_tuple (v :: v' :: vs) e = Ok a.
Proof. intros Hv Hv'. unfold verify_tuple. cbn [verify_first]. by rewrite Hv, Hv'. Qed.

(** Anonymous messages are accepted by whoever asks the anonymous verifier first. *)
#[global] Instance anonymous_speaks v vs : Speaks AnonymousIdentity (verify_tuple (AnonymousVerifier :: v :: vs)).
Proof.
  split; [done|]. intros p. destruct (tagged_transport _ (payload_plain p)) as (l & e' & Hl & He' & [Hh Hp Hs _]).
  exists (cose_of_payload p), l, e'. split_and!; [done..|by rewrite Hp|]. apply verify_tuple_first.
  unfold AnonymousVerifier, cose_key_id. rewrite Hh, Hs. done.
Qed.

Lemma cose_key_verifier_same e e' : same_envelope e e' → CoseKeyVerifier e' = CoseKeyVerifier e.
Proof.
  intros [Hh Hp Hs Ht]. unfold CoseKeyVerifier, keyset_from_cose_sign1, cose_key_id, dsa_verify_1, verify_signature.
  unfold cose_key_id. by rewrite Hh, Hp, Hs, !Ht.
Qed.
(** A holder of a key of P-256, with the address of the key, to whoever asks the verifier of COSE keys second. *)
Lemma ecdsa_speaks a x y d vs :
  p256_pair x y d → address_unchecked (ecdsa_cose_key x y None) = Ok a →
  is_anonymous a = false → is_illegal a = false →
  Speaks (dsa_identity (ec_signer a x y d)) (verify_tuple (AnonymousVerifier :: CoseKeyVerifier :: vs)).
Proof.
  intros Hp Ha Hna Hil. split; [done|]. intros p.
  destruct (ec_signed a x y d (cose_of_payload p) Hp eq_refl) as (e & He & Hpl & Hid & (l0 & Hl0 & Hr) & Hsig).
  destruct (tagged_transport e) as (l & e' & Hl & He' & Hsame).
  { exact (dsa_signed_plain _ _ _ (payload_plain p) eq_refl He). }
  exists e, l, e'. split_and!; [done..| |].
  { by rewrite (same_payload _ _ Hsame), Hpl. }
  apply (verify_tuple_second _ _ _ _ _ (unknown "Anonymous requires no key id.")).
  - apply (anonymous_refuses e' a); [|done]. unfold cose_key_id in *. by rewrite (same_header _ _ Hsame).
  - rewrite (cose_key_verifier_same _ _ Hsame).
    destruct (cose_key_verifier_answers e a x y d l0) as (ka & Hka & ->); [done..| |done|done|].
    { by rewrite Hl0. }
    assert (ka = a) as -> by congruence. by rewrite matches_refl.
Qed.
End speakers.

(** A client that is connected to the server without anything in between: what the server answers is what
    the client gets. [now] is the time at the server. *)
Definition direct `{Minicbor, Base32, Crc16, Clock, Coset} {W} (now : SystemTime) :
    Http (Shared (W := W) (V := unit)) := λ l sh,
  let '(sh, r) := handle_request (Some (N.of_nat (length l)), l, now) sh in
  (sh, match r with
       | Ok (HttpEmpty n) => Ok (n, Ok [])
       | Ok (HttpData l) => Ok (200, Ok l)
       | _ => Err "connection closed before message completed"
       end).

Section exchange.
Context `{Minicbor, !MinicborLaws, Base32, Crc16, Clock, Coset}.

(** The message of a call. *)
Definition call_message (c : ManyClient) (method : string) (argument nonce : bytes) : RequestMessage :=
  mkRequest (Some 1) (Some (identity_address (client_identity c))) (default ANONYMOUS (client_to c)) method
    argument None None (Some nonce) ∅.

(** The clock fits its field; then everything in a message without attributes does. *)
Lemma call_message_fits c method argument nonce :
  clock_now < 2 ^ 64 →
  request_wf (call_message c method argument nonce)
  ∧ Forall token_fits (request_encode (call_message c method argument nonce)).
Proof.
  intros Hc. split; [split; [done|done|apply map_Forall_empty]|].
  unfold request_encode, call_message, address_encode, timestamp_encode.
  cbn [req_from req_to req_method req_data req_timestamp req_id req_nonce req_attributes default from_option id].
  assert (token_fits (TkInt (Z.of_N clock_now))) by (simpl; unfold int_fits; lia).
  repeat match goal with
    | |- context [if ?x then _ else _] => destruct x
    | |- context [match ?x with Some _ => _ | None => _ end] => destruct x
    end; simpl; repeat constructor; try done; simpl; unfold int_fits, count_if; repeat case_match; lia.
Qed.
Lemma answer_fits to from l :
  clock_now < 2 ^ 64 →
  let r := mkResponse (Some 1) from to (Ok l) None None ∅ in
  response_wf r ∧ Forall token_fits (response_encode r).
Proof.
  intros Hc r. split; [split; [done|done|done|apply map_Forall_empty]|].
  unfold response_encode, r, address_encode, timestamp_encode.
  cbn [resp_from resp_to resp_data resp_timestamp resp_id resp_attributes default from_option id].
  assert (token_fits (TkInt (Z.of_N clock_now))) by (simpl; unfold int_fits; lia).
  repeat match goal with
    | |- context [if ?x then _ else _] => destruct x
    | |- context [match ?x with Some _ => _ | None => _ end] => destruct x
    end; simpl; repeat constructor; try done; simpl; unfold int_fits, count_if; repeat case_match; lia.
Qed.

(** A message that a module answers, on a server without validators. *)
Lemma execute_answers {W} (sh : Shared (W := W) (V := unit)) e now m t x w r e' :
  routed sh e now m t x → module_execute x m (world sh) = (w, Ok r) →
  encode_cose_sign1_from_response (response_with_from r (identity_address (identity (server sh))))
    (identity (server sh)) = Ok e' →
  ∃ h, execute e now sh = (mkShared (server sh) false w h, Ok e').
Proof.
  intros [Hl Hd Hc] Hx He. exists (mkExecution e m t :: history sh).
  unfold execute, task_step, with_lock_read, with_lock. rewrite Hl. cbn [poisoned world server history].
  rewrite Hd. cbn [poisoned world server history]. rewrite Hc. cbn [poisoned world server history]. rewrite Hx.
  cbn [poisoned world server history]. unfold executed_phase.
  cbn [message_executed unit_validator mret st_ret]. unfold reply_phase. cbn [identity set_validator]. rewrite He.
  cbn [map_err]. f_equal. f_equal. destruct (server sh) as [? ? ? ? [] ? ? ? ? ? ?]. reflexivity.
Qed.

(** What a call needs of its two parties: each accepts what the other signs, the locks are free, the message is
    in time, addressed to the server, and small enough for it. *)
Record connected {B} (c : ManyClient) (sh : Shared (W := Mutex B) (V := unit)) (now : SystemTime)
    (method : string) (argument nonce : bytes) : Prop := {
  connected_client :: Speaks (client_identity c) (identity_verifier (server sh));
  connected_server :: Speaks (identity (server sh)) (client_verifier c);
  connected_locks : poisoned sh = false ∧ mutex_poisoned (world sh) = false;
  connected_clock : clock_now < 2 ^ 64 ∧ time_fn (server sh) = None;
  connected_time : validate_time (as_received (call_message c method argument nonce)) now (timeout (server sh)) = Ok tt;
  connected_to : validate_id (server sh) (call_message c method argument nonce) = Ok tt;
  connected_size e l :
    sign_1 (client_identity c) (cose_of_payload (request_to_bytes (call_message c method argument nonce))) = Ok e →
    cose_to_tagged_vec e = Ok l → N.of_nat (length l) ≤ READ_BUFFER_LEN;
}.
(** The method is that of the endpoint [ep] of a module, which takes the argument from anybody. *)
Record offers {B} (sh : Shared (W := Mutex B) (V := unit)) (method : string) (argument : bytes) (ep : Endpoint B) : Prop := {
  offers_module : ∃ name i eps, find_endpoint eps method = Some ep
    ∧ ∀ m, req_method m = method → find_module (server sh) m = Some (many_module name i eps);
  offers_open : ep_deny_anonymous ep = false ∧ ep_check_webauthn ep = false ∧ ep_check ep argument = Ok tt;
}.

Lemma served_routed {B} c (sh : Shared (W := Mutex B) (V := unit)) now method argument nonce ep e :
  connected c sh now method argument nonce → offers sh method argument ep →
  cose_payload e = Some (request_to_bytes (call_message c method argument nonce)) →
  identity_verifier (server sh) e = Ok (identity_address (client_identity c)) →
  ∃ name i eps, find_endpoint eps method = Some ep
    ∧ routed sh e now (as_received (call_message c method argument nonce)) now (many_module name i eps).
Proof.
  intros [Hc Hs [Hlock _] [Hclk Htf] Ht Hto _] [(name & i & eps & Hep & Hm) (Hda & Hcw & Hck)] Hp Hv.
  exists name, i, eps. split; [done|]. set (m := call_message c method argument nonce) in *.
  destruct (call_message_fits c method argument nonce Hclk) as [Hwf Hf].
  assert (request_from m = identity_address (client_identity c)) as Hfrom by done.
  split; [done| |].
  - unfold decode_phase. cbn [validate_envelope unit_validator mbind outcome_bind].
    rewrite (decode_request_of e _ (identity_address (client_identity c)) m) by first [done|apply speaks_legal].
    rewrite Hfrom, matches_refl, (speaks_legal (i := client_identity c)). done.
  - apply check_phase_ok; [by rewrite Htf|done|done|done|by apply Hm|].
    cbn [module_validate many_module]. unfold endpoints_validate. change (req_method (as_received m)) with method.
    rewrite Hep. unfold validate_endpoint. rewrite Hda, Hcw. cbn [andb].
    change (req_data (as_received m)) with argument. by rewrite Hck.
Qed.

(** The answer of the endpoint is what the client gets; the backend is as the endpoint leaves it. *)
Lemma call_answers {B} c (sh : Shared (W := Mutex B) (V := unit)) now method argument nonce ep s l :
  connected c sh now method argument nonce → offers sh method argument ep →
  ep_call ep (as_received (call_message c method argument nonce)) (guarded (world sh)) = (s, Ok (l, [])) →
  ∃ h, call_ (Http0 := direct now) c method argument nonce sh
    = (mkShared (server sh) false (mkMutex s false) h, Ok l).
Proof.
  intros Hs Ho Hcall. pose proof (connected_client _ _ _ _ _ _ Hs) as Hsc. pose proof (connected_server _ _ _ _ _ _ Hs) as Hss.
  destruct (connected_locks _ _ _ _ _ _ Hs) as [_ Hmp]. destruct (connected_clock _ _ _ _ _ _ Hs) as [Hclk _].
  set (m := call_message c method argument nonce) in *.
  destruct (speaks (i := client_identity c) (v := identity_verifier (server sh)) (request_to_bytes m))
    as (e & le & e' & He & Hle & He' & Hp & Hv).
  pose proof (connected_size _ _ _ _ _ _ Hs e le He Hle) as Hsize.
  destruct (served_routed _ _ _ _ _ _ _ e' Hs Ho Hp Hv) as (name & i & eps & Hep & Hr). fold m in Hr.
  set (r := mkResponse (Some 1) (identity_address (identity (server sh))) (req_from (as_received m)) (Ok l) None None ∅).
  destruct (speaks (i := identity (server sh)) (v := client_verifier c) (response_to_bytes r))
    as (a & la & a' & Ha & Hla & Ha' & Hpa & Hva).
  destruct (answer_fits (req_from (as_received m)) (identity_address (identity (server sh))) l Hclk) as [Hrwf Hrf].
  fold r in Hrwf, Hrf.
  destruct (execute_answers sh e' now (as_received m) now (many_module name i eps) (mkMutex s false)
    (response_from_request (as_received m) (req_to (as_received m)) (Ok l)) a Hr) as [h Hx].
  { cbn [module_execute many_module]. unfold endpoints_execute. change (req_method (as_received m)) with method.
    rewrite Hep. unfold mbind at 1, st_bind at 1, lock_backend. rewrite Hmp, Hcall. reflexivity. }
  { exact Ha. }
  exists h. unfold call_, call_raw. fold (call_message c method argument nonce). fold m.
  unfold send_message, encode_cose_sign1_from_request, mbind, st_bind, lift.
  rewrite bool_decide_false.
  2:{ intros Hill. cbn [req_from m call_message] in Hill. injection Hill as Hill.
      pose proof (speaks_legal (i := client_identity c) (v := identity_verifier (server sh))) as Hleg.
      rewrite Hill in Hleg. vm_compute in Hleg. discriminate Hleg. }
  unfold encode_cose_sign1_from_payload. rewrite He. cbn [unwrap].
  unfold send_envelope, mbind, st_bind, lift. rewrite Hle. cbn [map_err]. unfold st_map_err, post, direct.
  unfold handle_request. destruct (N.ltb_spec READ_BUFFER_LEN (N.of_nat (length le))); [lia|]. rewrite He', Hx.
  cbn [mbind outcome_bind]. rewrite Hla. cbn [map_err fst snd]. change (200 =? 413) with false. change (200 =? 500) with false.
  cbn iota. cbn [map_err]. rewrite Ha'. cbn [map_err].
  unfold decode_and_verify. rewrite Hva. cbn [mbind outcome_bind].
  rewrite (speaks_legal (i := identity (server sh)) (v := client_verifier c)), Hpa. cbn [ok_or mbind outcome_bind].
  unfold response_from_bytes, response_to_bytes. rewrite decode_tokens_ok, response_decode_ok by done.
  cbn [map_err mbind outcome_bind response_received resp_from r]. by rewrite bool_decide_false by naive_solver.
Qed.
End exchange.
