(* ===== verification/WebServer.v ===== *)
(** * The web server as a server, and its pages through the proxy

    Models how [many-web/src/main.rs] opens its store and puts its server together: a module per trait of
    endpoints ([many-modules/src/_16_web.rs], [_17_web_commands.rs], [_3_kvstore.rs], [_4_events.rs] and
    [_1000_abci_backend.rs]), all on one [WebModuleImpl] behind a lock. The base module is a parameter, as are the
    codecs of arguments and results, and the reading of JSON.

    Then the pages of a site: the address that a deployment returns, requested from the proxy in front of
    the server. *)
From S2P Require Import Prelude Error ErrorDisplay External Address Types Account Events Migration.
From S2P Require Import Storage StorageLaws AppStore EventsModule KvStore KvModule Web WebLaws WebSites.
From S2P Require Import Cose Wire WireLaws Protocol ProtocolLaws ProofOps Verifiers VerifierLaws Server ServerLaws.
From S2P Require Import Endpoints EndpointLaws AbciBridge HttpProxy.

#[local] Open Scope string_scope.
#[local] Open Scope list_scope.
#[local] Open Scope N_scope.

(** ** Opening *)

(** The options of the command line and what the file system answers. *)
Record WebOpts : Type := mkWebOpts {
  wo_clean : bool;
  wo_state : option (outcome string string);        (* the content of the state file *)
  wo_abci : bool;
  wo_exists : bool;                                 (* of the store, before [main] starts *)
  wo_remove : option string;                        (* an error of [remove_dir_all], but for [NotFound] *)
}.

Section opening.
Context `{WebEnv} (json5_web_state : string → outcome string WebInitialState).

(** [opened] is the store, which exists or is made. *)
Definition open_web (o : WebOpts) (opened : bool → outcome string merk) : outcome ManyError WebStorage :=
  '(exists_, state) ←
    (if wo_clean o then
       match wo_remove o with
       | Some e => Panic ("Error: " +:+ e)
       | None => Ok (false, wo_state o)
       end
     else Ok (wo_exists o, if wo_exists o then None else wo_state o));
  state ← match state with
          | Some content => t ← unwrap content; s ← unwrap (json5_web_state t); Ok (Some s)
          | None => Ok None
          end;
  if (exists_ : bool) then unwrap (web_module_load (opened true) (wo_abci o))
  else
    match state with
    | Some s => unwrap (web_module_new s (opened false) (wo_abci o))
    | None => Panic "Persistent store or staging file not found."
    end.
End opening.

(** ** The server *)

(** [DeployReturns] and [UpdateReturns]; [kvstore::QueryArgs]. *)
Record WebDeployReturns : Type := mkWebDeployReturns { wd_info : WebDeploymentInfo }.
Record KvQueryArgs : Type := mkKvQueryArgs { kq_key : bytes }.

Class WebCodecs := {
  web_codec_get :: KvGetCodecs;
  web_codec_unit :: Cbor unit;                      (* [EmptyArg] and [EmptyReturn] *)
  web_codec_hash :: Cbor bytes;
  web_codec_list_args :: Cbor WebListArgs;
  web_codec_list :: Cbor WebListReturns;
  web_codec_deploy :: Cbor WebDeployArgs;
  web_codec_deployed :: Cbor WebDeployReturns;
  web_codec_remove :: Cbor WebRemoveArgs;
  web_codec_query_args :: Cbor KvQueryArgs;
  web_codec_kv_query :: Cbor KvStoreMetadata;
  web_codec_kv_list_args :: Cbor KvListArgs;
  web_codec_kv_list :: Cbor (list bytes);
  web_codec_events_info :: Cbor (N * list EventKind);
  web_codec_events_args :: Cbor EventsModule.ListArgs;
  web_codec_events :: Cbor EventsModule.ListReturns;
  web_codec_init :: Cbor (gmap string bool);
  web_codec_block :: Cbor AbciBlock;
  web_codec_abci_info :: Cbor AbciInfo;
  web_codec_commit :: Cbor AbciCommitInfo;
}.

Section server.
Context `{WebEnv, WebCodecs, Minicbor}.

Abbreviation WebEndpoint := (Endpoint WebStorage).
Abbreviation WebWorld := (Mutex WebStorage).

Definition web_command_endpoints : list WebEndpoint := [
  deny_anonymous (command "web.deploy" (λ sender args, i ← web_deploy sender args; mret (mkWebDeployReturns i)));
  deny_anonymous (command "web.remove" web_remove);
  deny_anonymous (command "web.update" (λ sender args, i ← web_update sender args; mret (mkWebDeployReturns i)))
].
Definition web_query_endpoints : list WebEndpoint := [
  query "web.info" (λ s _ (_ : unit), web_info s);
  query "web.list" (λ s _, web_module_list s)
].
Definition kv_get_endpoint : WebEndpoint :=
  query "kvstore.get" (λ s _ args, v ← web_kv_get s (kg_key args); Ok (mkKvGetReturns v)).
(** Two endpoints of the trait are refused; they are not among those that the chain is told of. *)
Definition web_kv_endpoints : list WebEndpoint := [
  query "kvstore.info" (λ s _ (_ : unit), Ok (web_hash s));
  kv_get_endpoint;
  query "kvstore.query" (λ _ _ (_ : KvQueryArgs), Err (unknown "Unimplemented") : outcome ManyError KvStoreMetadata);
  query "kvstore.list" (λ _ _ (_ : KvListArgs), Err (unknown "Unimplemented") : outcome ManyError (list bytes))
].
Definition web_events_endpoints : list WebEndpoint := [
  query_arg "events.info" (λ s (_ : unit), web_events_info s);
  query_arg "events.list" web_events_list
].
Definition web_abci_init : ST WebStorage ManyError (gmap string bool) := mret web_endpoints.
Definition web_init_chain : ST WebStorage ManyError unit := mret tt.
Definition web_end_block : ST WebStorage ManyError unit := mret tt.
Definition web_abci_endpoints : list WebEndpoint := [
  command_none "abci.init" web_abci_init;
  command_none "abci.initChain" web_init_chain;
  command_arg "abci.beginBlock" web_begin_block;
  query_none "abci.info" web_abci_info;
  command_none "abci.endBlock" web_end_block;
  command_none "abci.commit" web_commit
].

Definition web_modules (allow : option (gset Address)) (abci : bool) : list (ManyModule WebWorld) :=
  [let m := many_module "WebCommandsModule" (Some 17) web_command_endpoints in
   match allow with Some l => allow_addrs_module l m | None => m end;
   many_module "WebModule" (Some 16) web_query_endpoints;
   many_module "KvStoreModule" (Some 3) web_kv_endpoints;
   many_module "EventsModule" (Some 4) web_events_endpoints]
  ++ if abci then [many_module "AbciModule" (Some 1000) web_abci_endpoints] else [].

Definition web_server (i : Identity) (v : Verifier) (version : option string) (base : ManyModule WebWorld)
    (allow : option (gset Address)) (abci : bool) : outcome ManyError (ManyServer WebWorld unit) :=
  s ← server_simple "many-web" i v version base;
  s ← add_modules s (web_modules allow abci);
  Ok (if abci then set_timeout s U64_MAX else s).
(** With a cache of the messages that were executed. *)
Definition web_server_cached `{RocksDb} (cache : rocks_db) (i : Identity) (v : Verifier) (version : option string)
    (base : ManyModule WebWorld) (allow : option (gset Address)) (abci : bool) :
    outcome ManyError (ManyServer WebWorld (unit * RequestCacheValidator rocks_db)) :=
  s ← web_server i v version base allow abci; Ok (add_validator s (CacheValidator cache)).
End server.

(** ** The modules of the server *)

Section assembly.
Context `{WebEnv, WebCodecs, Minicbor, Coset}.
Implicit Types sh : Shared (W := Mutex WebStorage) (V := unit).

Lemma web_assembled i v version base allow abci :
  base_module_ok base →
  ∃ s, web_server i v version base allow abci = Ok s ∧ server_wf s
    ∧ modules s = base :: web_modules allow abci
    ∧ identity s = i ∧ identity_verifier s = v ∧ fallback s = None ∧ time_fn s = None
    ∧ timeout s = (if abci then U64_MAX else MANYSERVER_DEFAULT_TIMEOUT).
Proof.
  intros Hb. apply (server_assembled "many-web" i v version base); [done|..];
    destruct allow, abci; apply (bool_decide_unpack _); vm_compute; exact I.
Qed.

(** [kvstore.get] is there for everybody. *)
Lemma web_offers_get sh base allow abci (args : KvGetArgs) :
  server_wf (server sh) → modules (server sh) = base :: web_modules allow abci →
  decode (to_vec args) = Ok args → offers sh "kvstore.get" (to_vec args) kv_get_endpoint.
Proof.
  intros Hwf Hms Hd. split.
  - exists "KvStoreModule", (Some 3), web_kv_endpoints. split; [done|]. intros m Hm.
    apply find_module_some; [done|]. rewrite Hms, Hm. split; [|right; left].
    do 3 right. left.
  - split_and!; [done..|]. cbn [ep_check kv_get_endpoint query]. unfold decodes. by rewrite Hd.
Qed.

(** Its answer is the value of the key. *)
Lemma kv_get_answers m s (args : KvGetArgs) v :
  req_data m = to_vec args → decode (to_vec args) = Ok args → web_kv_get s (kg_key args) = Ok v →
  ep_call kv_get_endpoint m s = (s, Ok (to_vec (mkKvGetReturns v), [])).
Proof.
  intros Hm Hd Hv. cbn [ep_call kv_get_endpoint query]. unfold lift, argument, mbind, st_bind. rewrite Hm, Hd.
  cbn [map_err]. unfold encoded, reads, mbind, st_bind. rewrite Hv. done.
Qed.
End assembly.

(** ** Pages *)

Section pages.
Context `{WebEnv, !WebEnvLaws, WebCodecs, ProxyEnv, Minicbor, !MinicborLaws, Coset}.
Context `{!CborLaws KvGetArgs (λ _, True), !CborLaws KvGetReturns (λ _, True)}.
Implicit Types (sh : Shared (W := Mutex WebStorage) (V := unit)) (q : ProxyRequest) (c : ManyClient).

(** The address of a site is that of its host. *)
Lemma url_host o n : url_for_website o n = "https://" +:+ site_host o n web_domain_suffix.
Proof. done. Qed.

Lemma page_key_file q o n f :
  host_of q = Some (site_host o n web_domain_suffix) → page_url q = "/" +:+ f →
  if lacks "." n then page_key q = key_for_website_file o n f else page_key q ≠ key_for_website_file o n f.
Proof.
  intros Hh Hu. unfold page_key, key_for_website_file, ab. destruct (lacks "." n) eqn:Hn.
  - rewrite (site_path_of q o n _ Hh Hn), Hu, !b_app, <-!app_assoc. done.
  - intros Hk. apply (f_equal length) in Hk. pose proof (site_path_short q o n _ Hh Hn) as Hs.
    rewrite Hu, !length_app, !length_b, !string_length_app in Hk. change (String.length HTTP_ROOT) with 5%nat in Hk.
    change (String.length "/") with 1%nat in Hk. lia.
Qed.

(** A request for a page gets what [kvstore.get] of the module gives. *)
Lemma proxy_answers sh base allow abci c q now nonce v :
  server_wf (server sh) → modules (server sh) = base :: web_modules allow abci →
  connected c sh now "kvstore.get" (to_vec (mkKvGetArgs (page_key q))) nonce →
  pq_method q = MethodGet → web_kv_get (guarded (world sh)) (page_key q) = Ok v →
  ∃ sh', handle_proxy_request (Http0 := direct now) c q nonce sh
      = (sh', Ok match v with Some l => respond_with_value l q | None => response_empty 404 end)
    ∧ server sh' = server sh ∧ world sh' = world sh.
Proof.
  intros Hwf Hms Hc Hq Hv. destruct (connected_locks _ _ _ _ _ _ Hc) as [_ Hmp].
  assert (decode (to_vec (mkKvGetArgs (page_key q))) = Ok (mkKvGetArgs (page_key q))) as Hd by by apply decode_to_vec.
  destruct (call_answers c sh now "kvstore.get" _ nonce kv_get_endpoint (guarded (world sh))
    (to_vec (mkKvGetReturns v)) Hc) as [h Hcall].
  - by apply (web_offers_get sh base allow abci).
  - by apply (kv_get_answers _ _ (mkKvGetArgs (page_key q))).
  - eexists. unfold handle_proxy_request, handle_get_request. rewrite Hq, Hcall. unfold process_result.
    rewrite decode_to_vec by done. split; [done|]. split; [done|]. cbn [world]. rewrite <-Hmp. by destruct (world sh).
Qed.

(** C28: The address that a deployment returns leads to the site, through the whole path of a request: proxy,
    client, envelopes, server, module and store. On a server with the modules of [many-web] whose store is the one
    after the deployment, asking the proxy at the host of that address for a visible file of the archive gets
    status 200 and the content of the file ([/] stands for [/index.html]); asking for a file that is neither in
    the archive nor was there before gets 404; the store is not changed. This holds for names without a dot, and
    for a deployment to a store whose changes have all been committed: the Merkle tree ignores a put of a key
    that was deleted since the last commit, so that a site removed and deployed again in one block is not
    covered. A name with a dot is accepted by the deployment, but at the host it returns the proxy looks for
    another key. *)
Theorem site_served base allow abci c s sender args s' info sh now nonce q f :
  let n := _transform_site_name (web_site_name args) in
  web_ready s → app_db s = app_view s → web_deploy sender args s = (s', Ok info) →
  server_wf (server sh) → modules (server sh) = base :: web_modules allow abci → guarded (world sh) = s' →
  connected c sh now "kvstore.get" (to_vec (mkKvGetArgs (page_key q))) nonce →
  pq_method q = MethodGet → page_url q = "/" +:+ f →
  (∀ host, wi_url info = Some ("https://" +:+ host) → host_of q = Some host) →
  let answers a := ∃ sh', handle_proxy_request (Http0 := direct now) c q nonce sh = (sh', Ok a) ∧ world sh' = world sh in
  ∃ dom h entries files, WebLaws.accepted sender args dom h entries ∧ site_files entries = Ok files
    ∧ if lacks "." n then
        (∀ l, (f, l) ∈ files → answers (respond_with_value l q))
        ∧ (f ∉ files.*1 → web_kv_get s (key_for_website_file sender n f) = Ok None →
             answers (response_empty 404))
      else page_key q ≠ key_for_website_file sender n f.
Proof.
  intros n Hr _ Hs Hwf Hms Hw Hc Hq Hu Hhost answers.
  destruct (web_deploy_spec s sender args Hr)
    as [(dom & h & entries & files & Hacc & Hf & _ & _ & _ & s2 & Hs2 & _ & Hin & Hout)|[[_ Hx] _]].
  2:{ by rewrite Hs in Hx. }
  rewrite Hs in Hs2. injection Hs2 as <- ->. fold n in Hin, Hout, Hhost.
  pose proof (page_key_file q sender n f (Hhost _ eq_refl) Hu) as Hk.
  exists dom, h, entries, files. split; [done|]. split; [done|]. destruct (lacks "." n); [|done].
  assert (∀ v, web_kv_get s' (key_for_website_file sender n f) = Ok v →
    answers match v with Some l => respond_with_value l q | None => response_empty 404 end) as Ha.
  { intros v Hv. destruct (proxy_answers sh base allow abci c q now nonce v) as (sh' & Hp & _ & Hw'); try done.
    - by rewrite Hw, Hk.
    - by exists sh'. }
  split.
  - intros l Hl. by apply (Ha (Some l)), Hin.
  - intros Hnf Hn. apply (Ha None). by rewrite Hout.
Qed.
End pages.
