(* ===== verification/Compute.v ===== *)
(** * many-compute: deployments on an Akash cluster

    Models [many-compute/src/module.rs], [storage.rs], [storage/iterator.rs], [module/allow_addrs.rs],
    [error.rs] and [opt.rs], with the types of [many-types/src/compute.rs] and
    [many-modules/src/_15_compute/*.rs].

    The state of [ComputeStorage] has the fields of [AppStorage]. The module drives a command-line tool that is
    not part of the repository: [Akash] is a parameter. A run of the tool is a [Call], the state of the module
    records the calls made so far, and what a call gives is any function of the calls up to it, so that
    the world behind the tool may change in any way between two calls. Temporary files, JSON, YAML and
    floating-point numbers are parameters too. The pauses of the loops are not modelled. *)
From S2P Require Import Prelude Error ErrorDisplay External Address Types Account Events Migration.
From S2P Require Import Storage StorageLaws AppStore.
From S2P Require Import Cose Wire WireLaws Protocol ProtocolLaws ProofOps Server Endpoints.
From S2P Require KvStore.

#[local] Open Scope string_scope.
#[local] Open Scope list_scope.
#[local] Open Scope N_scope.

(** ** Errors *)

Definition compute_invalid_initial_hash (expected actual : string) : ManyError :=
  attribute_specific 15 2 "Invalid initial hash. Expected '{expected}', was '{actual}'."
    [("expected", expected); ("actual", actual)].

(** ** Data *)

Inductive ComputeStatus : Type := Deployed | Closed.
#[global] Instance ComputeStatus_eq_dec : EqDecision ComputeStatus.
Proof. solve_decision. Defined.

Inductive ByteUnits : Type := U_K | U_KI | U_M | U_MI | U_G | U_GI | U_T | U_TI | U_P | U_PI | U_E | U_EI.
(** [strum(serialize_all = "PascalCase")]. *)
Definition ByteUnits_to_string (u : ByteUnits) : string :=
  match u with
  | U_K => "K" | U_KI => "Ki" | U_M => "M" | U_MI => "Mi" | U_G => "G" | U_GI => "Gi"
  | U_T => "T" | U_TI => "Ti" | U_P => "P" | U_PI => "Pi" | U_E => "E" | U_EI => "Ei"
  end.
Inductive Region : Type := UsEast | UsWest.
(** [strum(serialize_all = "kebab-case")]. *)
Definition Region_to_string (r : Region) : string :=
  match r with UsEast => "us-east" | UsWest => "us-west" end.

Inductive ComputeListFilter : Type := FilterAll | FilterStatus (s : ComputeStatus).
Inductive ServiceProtocol : Type := TCP | UDP.

Record ProviderInfo : Type := mkProviderInfo {
  pi_host : option string;
  pi_port : N;
  pi_external_port : N;
  pi_protocol : ServiceProtocol;
}.
Record ServiceStatus : Type := mkServiceStatus {
  ss_name : string;
  ss_available : Z;
  ss_total : Z;
  ss_uris : option (list string);
  ss_observed_generation : Z;
  ss_replicas : Z;
  ss_updated_replicas : Z;
  ss_ready_replicas : Z;
  ss_available_replicas : Z;
}.
Record ForwardedPortStatus : Type := mkForwardedPort {
  fp_host : option string;
  fp_port : N;
  fp_external_port : N;
  fp_proto : ServiceProtocol;
  fp_name : string;
}.
Record LeasedIPStatus : Type := mkLeasedIP {
  lip_port : N;
  lip_external_port : N;
  lip_protocol : string;
  lip_ip : string;
}.
Record LeaseStatus : Type := mkLeaseStatus {
  ls_services : gmap string (option ServiceStatus);
  ls_forwarded_ports : gmap string (list ForwardedPortStatus);
  ls_ips : option (gmap string (list LeasedIPStatus));
}.

Record EventAttribute : Type := mkEventAttribute { ea_key : string; ea_value : string }.
Record LogEvent : Type := mkLogEvent { le_type : string; le_attributes : list EventAttribute }.
Record LogEntry : Type := mkLogEntry { log_events : list LogEvent }.
Record TxLog : Type := mkTxLog { tx_logs : list LogEntry }.
Inductive BidState : Type := BidInvalid | BidOpen | BidActive | BidLost | BidClosed.
Record Lease : Type := mkLease { lease_state : string }.

Record DeployArgs : Type := mkDeployArgs {
  da_image : string;
  da_port : N;
  da_num_cpu : N;
  da_num_memory : N;
  da_memory_type : ByteUnits;
  da_num_storage : N;
  da_storage_type : ByteUnits;
  da_region : Region;
}.
Record CloseArgs : Type := mkCloseArgs { ca_dseq : N }.
Record ComputeListArgs : Type := mkComputeListArgs {
  cl_owner : option Address;
  cl_order : option SortOrder;
  cl_filter : option ComputeListFilter;
}.
Record ComputeInitialState : Type := mkComputeInitialState { ci_identity : Address; ci_hash : option string }.

(** ** The outside *)

(** One run of the tool, with the temporary file (path and content) that exists during it. *)
Record Call : Type := mkCall { call_args : list string; call_file : option (string * string) }.
Record Output : Type := mkOutput { out_success : bool; out_stdout : bytes; out_stderr : bytes }.

Class Float64 := {
  f64 : Type;
  f64_lt : f64 → f64 → bool;               (* [a.partial_cmp(&b) == Some(Less)] *)
  f64_MAX : f64;
  f64_to_string : f64 → string;
}.

Record BidPrice `{Float64} : Type := mkBidPrice { bp_denom : string; bp_amount : f64 }.
Record BidId : Type := mkBidId {
  bi_dseq : N;
  bi_gseq : N;
  bi_oseq : N;
  bi_owner : string;
  bi_provider : string;
}.
Record BidDetails `{Float64} : Type := mkBidDetails { bd_bid_id : BidId; bd_price : BidPrice; bd_state : BidState }.
Record DeploymentInfo `{Float64} : Type := mkDeploymentInfo {
  di_provider : string;
  di_provider_info : ProviderInfo;
  di_price : f64;
}.
Record DeploymentMeta `{Float64} : Type := mkDeploymentMeta {
  dm_status : ComputeStatus;
  dm_dseq : N;
  dm_meta : option DeploymentInfo;
  dm_image : string;
}.
Record AkashOpt `{Float64} : Type := mkAkashOpt {
  akash_wallet : string;
  akash_chain_id : string;
  akash_rpc : string;
  akash_gas : string;
  akash_gas_adjustment : f64;
  akash_gas_price : string;
  akash_sign_mode : string;
  akash_keyring_backend : string;
}.

Class ComputeEnv := {
  compute_app :: AppEnv;
  compute_float :: Float64;
  compute_cbor_meta :: Cbor DeploymentMeta;
  akash_output : list Call → string + Output;             (* what the last call gives *)
  tempfile : list Call → string + option string;          (* a file, written; its path, if it is text *)
  json_tx_log : bytes → string + TxLog;
  yaml_bids : bytes → string + list BidDetails;
  yaml_leases : bytes → string + list Lease;
  yaml_lease_status : bytes → string + LeaseStatus;
}.
Class ComputeEnvLaws `{ComputeEnv} := {
  compute_app_laws :: AppEnvLaws;
  compute_laws_meta :: CborLaws DeploymentMeta (λ _, True);
  f64_lt_irrefl x : f64_lt x x = false;
  f64_lt_trans x y z : f64_lt x y = true → f64_lt y z = true → f64_lt x z = true;
}.
#[global] Arguments akash_output : simpl never.

(** [.map_err(ManyError::unknown)?]. *)
Definition or_unknown {A} (r : string + A) : outcome ManyError A :=
  match r with inl e => Err (unknown e) | inr a => Ok a end.

(** [str::parse::<u64>]. *)
Fixpoint u64_digits (acc : N) (l : bytes) : string + N :=
  match l with
  | [] => inr acc
  | x :: l =>
      let d := Byte.to_N x in
      if negb ((48 <=? d) && (d <=? 57)) then inl "invalid digit found in string"
      else if U64_MAX <? 10 * acc + (d - 48) then inl "number too large to fit in target type"
      else u64_digits (10 * acc + (d - 48)) l
  end.
Definition u64_from_str (s : string) : string + N :=
  match b s with
  | [] => inl "cannot parse integer from empty string"
  | [x] => u64_digits 0 [x]
  | x :: l => if bool_decide (x = Byte.x2b) then u64_digits 0 l else u64_digits 0 (x :: l)
  end.

(** ** Storage *)

Section compute_storage.
Context `{ComputeEnv}.

Definition ComputeStorage : Type := AppStorage.

Definition compute_set_time (s : ComputeStorage) (t : Timestamp) : ComputeStorage := app_with_time s (Some t).
Definition compute_load (opened : outcome string merk) (is_blockchain : bool) : outcome string ComputeStorage :=
  m ← opened;
  o ← KvStore.expect_get (merk_get m (b "/config/subresource_id"));
  next ← KvStore.to_string_err (read_be_or_zero 4 o);
  o ← KvStore.expect_get (merk_get m (b "/config/identity"));
  l ← KvStore.expect_some "Could not find key '/config/identity' in storage." o;
  root ← KvStore.to_string_err (from_bytes l);
  o ← KvStore.expect_get (merk_get m (b "/latest_event_id"));
  l ← KvStore.expect_some "Could not find key '/latest_event_id'" o;
  i ← decode l;
  Ok (mkAppStorage _ m is_blockchain i None None next root).
Definition compute_new (identity : Address) (opened : outcome string merk) (is_blockchain : bool) :
    outcome string ComputeStorage :=
  m ← opened;
  m ← merk_apply m [(b "/config/identity", Put (address_to_vec identity))];
  let latest : EventId := [as_u8 0] in
  m ← KvStore.expect_get (merk_apply m [(b "/latest_event_id", Put (to_vec latest))]);
  m ← merk_commit m;
  Ok (mkAppStorage _ m is_blockchain latest None None 0 identity).

Definition compute_get_height (s : ComputeStorage) : outcome ManyError N := app_number unwraps 8 (b "/height") s.
Definition compute_inc_height : AppM N :=
  current ← reads compute_get_height;
  app_apply unwraps [(b "/height", Put (be_bytes 8 (current + 1)))];;
  mret current.
Definition compute_commit : AppM AbciCommitInfo :=
  compute_inc_height;;
  i ← reads (λ s, Ok (app_event_id s));
  app_apply unwraps [(b "/latest_event_id", Put (to_vec i))];;
  app_commit unwraps;;
  h ← reads (λ s, Ok (merk_root_hash (app_store s)));
  modify_state (λ s, app_with_hash s (Some h));;
  mret (mkCommitInfo 0 h).
Definition compute_hash (s : ComputeStorage) : bytes := default (merk_root_hash (app_store s)) (app_hash s).

(** [format!("/deploy/{owner}/{dseq}")]. *)
Definition key_for_deployment (owner : Address) (dseq : N) : bytes :=
  b "/deploy/" ++ ab owner ++ b "/" ++ b (pretty dseq).

Definition add_deployment (sender : Address) (meta : DeploymentMeta) : AppM unit :=
  app_apply (raises storage_apply_failed) [(key_for_deployment sender (dm_dseq meta), Put (to_vec meta))];;
  app_maybe_commit unwraps.
Definition compute_has (s : ComputeStorage) (owner : Address) (dseq : N) : outcome ManyError bool :=
  o ← app_get (raises storage_get_failed) (key_for_deployment owner dseq) s;
  Ok (bool_decide (is_Some o)).
Definition closed_meta (m : DeploymentMeta) : DeploymentMeta :=
  mkDeploymentMeta _ Closed (dm_dseq m) None (dm_image m).
Definition remove_deployment (sender : Address) (dseq : N) : AppM unit :=
  o ← reads (app_get (raises storage_get_failed) (key_for_deployment sender dseq));
  l ← lift (ok_or o (unknown "Option is null"));
  meta ← lift (map_err deserialization_error (decode l));
  app_apply (raises storage_apply_failed) [(key_for_deployment sender dseq, Put (to_vec (closed_meta meta)))];;
  app_maybe_commit unwraps.

(** [ComputeIterator::all_dseq]. *)
Definition all_dseq (s : ComputeStorage) (order : option SortOrder) (owner : option Address) :
    list (outcome string (bytes * bytes)) :=
  let prefix := match owner with Some a => b "/deploy/" ++ ab a | None => b "/deploy/" end in
  app_iter s (default Indeterminate order) (PrefixRange prefix).
Fixpoint collect_deployments (l : list (outcome string (bytes * bytes))) :
    outcome ManyError (list DeploymentMeta) :=
  match l with
  | [] => Ok []
  | i :: l =>
      kv ← map_err storage_get_failed i;
      m ← map_err deserialization_error (decode kv.2);
      r ← collect_deployments l;
      Ok (m :: r)
  end.
Definition list_deployment (s : ComputeStorage) (order : option SortOrder) (owner : option Address) :
    outcome ManyError (list DeploymentMeta) :=
  collect_deployments (all_dseq s order owner).
End compute_storage.

(** ** The module *)

Definition DEPLOYMENT_TIMEOUT : nat := 120.

(** The file that describes a deployment. *)
Definition sdl_text (args : DeployArgs) : string :=
  String.concat nl
    ["---"; "version: " +:+ dq +:+ "2.0" +:+ dq; ""; "services:"; "  app:"; "    image: " +:+ da_image args;
     "    expose:"; "      - port: " +:+ pretty (da_port args); "        to:"; "          - global: true";
     "profiles:"; "  compute:"; "    app:"; "      resources:"; "        cpu:";
     "          units: " +:+ pretty (da_num_cpu args); "        memory:";
     "          size: " +:+ pretty (da_num_memory args) +:+ ByteUnits_to_string (da_memory_type args);
     "        storage:";
     "          size: " +:+ pretty (da_num_storage args) +:+ ByteUnits_to_string (da_storage_type args);
     "  placement:"; "    region:"; "      attributes:"; "        host: akash";
     "        region: " +:+ Region_to_string (da_region args); "      signedBy:"; "        anyOf:";
     "          - " +:+ dq +:+ "akash1365yvmc4s7awdyj3n2sav7xfx76adc6dnmlx63" +:+ dq;
     "          - " +:+ dq +:+ "akash18qa2a2ltfyvkyj0ggj3hkvuj6twzyumuaru9s4" +:+ dq;
     "      pricing:"; "        app:"; "          denom: uakt"; "          amount: 10000"; "deployment:";
     "  app:"; "    region:"; "      profile: app"; "      count: 1"].

(** The numbers in the log of a transaction: a later attribute replaces an earlier one. *)
Definition log_attributes (r : TxLog) : list EventAttribute :=
  log ← tx_logs r; event ← log_events log; le_attributes event.
Fixpoint seq_values (l : list EventAttribute) (acc : gmap string N) : outcome ManyError (gmap string N) :=
  match l with
  | [] => Ok acc
  | attr :: l =>
      if bool_decide (ea_key attr ∈ ["dseq"; "gseq"; "oseq"]) then
        value ← or_unknown (u64_from_str (ea_value attr));
        seq_values l (<[ea_key attr := value]> acc)
      else seq_values l acc
  end.

Record ComputeModuleImpl `{ComputeEnv} : Type := mkComputeModule {
  akash_opt : AkashOpt;
  compute_storage : ComputeStorage;
  calls : list Call;                     (* made so far *)
}.

Section compute_module.
Context `{ComputeEnv}.

Abbreviation ComputeM A := (ST ComputeModuleImpl ManyError A).

Definition on_compute_storage {A} (m : AppM A) : ComputeM A := λ s,
  let '(st, r) := m (compute_storage s) in (mkComputeModule _ (akash_opt s) st (calls s), r).

Definition compute_module_load (opt : AkashOpt) (opened : outcome string merk) (is_blockchain : bool) :
    outcome ManyError ComputeModuleImpl :=
  s ← map_err unknown (compute_load opened is_blockchain);
  Ok (mkComputeModule _ opt s []).
Definition compute_module_new (initial : ComputeInitialState) (opt : AkashOpt) (opened : outcome string merk)
    (is_blockchain : bool) : outcome ManyError ComputeModuleImpl :=
  s ← map_err unknown (compute_new (ci_identity initial) opened is_blockchain);
  match ci_hash initial with
  | Some h =>
      let actual := hex_encode (compute_hash s) in
      if bool_decide (actual ≠ h) then Err (compute_invalid_initial_hash h actual)
      else Ok (mkComputeModule _ opt s [])
  | None => Ok (mkComputeModule _ opt s [])
  end.

(** [Command::new(AKASH_BIN).args(args).output()]. *)
Definition run_command (c : Call) : ComputeM (string + Output) := λ s,
  let h := calls s ++ [c] in
  (mkComputeModule _ (akash_opt s) (compute_storage s) h, Ok (akash_output h)).
Definition execute_akash_command (c : Call) : ComputeM Output :=
  r ← run_command c;
  match r with inr o => mret o | inl _ => fails (unknown "Failed to execute command") end.

(** [std::str::from_utf8(&output.stderr).map_err(ManyError::unknown)?]. *)
Definition stderr_text (o : Output) : outcome ManyError string := map_err unknown (from_utf8 (out_stderr o)).

Definition cert_args (opt : AkashOpt) (verb : string) : list string :=
  ["tx"; "cert"; verb; "client"; "--chain-id"; akash_chain_id opt; "--node"; akash_rpc opt;
   "--from"; akash_wallet opt; "--keyring-backend"; akash_keyring_backend opt; "--yes"].
Definition generate_cert : ComputeM unit :=
  opt ← reads (λ s, Ok (akash_opt s));
  output ← execute_akash_command (mkCall (cert_args opt "generate") None);
  if negb (out_success output) then
    err ← lift (stderr_text output);
    if bool_decide (err ≠ "Error: certificate error: cannot overwrite certificate" +:+ nl)
    then fails (unknown "Failed to generate client certificate") else mret tt
  else
    output ← execute_akash_command (mkCall (cert_args opt "publish") None);
    if negb (out_success output) then
      err ← lift (stderr_text output);
      fails (unknown ("Failed to publish client certificate: " +:+ err))
    else mret tt.

(** A temporary file with the description, as a text path. *)
Definition sdl_file : ComputeM string :=
  r ← reads (λ s, or_unknown (tempfile (calls s)));
  lift (ok_or r (unknown "Unable to get SDL file path")).

Definition create_args (opt : AkashOpt) (path : string) : list string :=
  ["tx"; "deployment"; "create"; path; "--chain-id"; akash_chain_id opt; "--node"; akash_rpc opt;
   "--gas"; akash_gas opt; "--gas-prices"; akash_gas_price opt;
   "--gas-adjustment"; f64_to_string (akash_gas_adjustment opt); "--sign-mode"; akash_sign_mode opt;
   "--from"; akash_wallet opt; "--keyring-backend"; akash_keyring_backend opt; "--yes"].
Definition create_deployment (args : DeployArgs) : ComputeM (N * N * N * string) :=
  opt ← reads (λ s, Ok (akash_opt s));
  let sdl := sdl_text args in
  path ← sdl_file;
  output ← execute_akash_command (mkCall (create_args opt path) (Some (path, sdl)));
  if negb (out_success output) then
    err ← lift (stderr_text output);
    fails (unknown ("akash tx deployment create failed: " +:+ err))
  else
    response ← lift (or_unknown (json_tx_log (out_stdout output)));
    values ← lift (seq_values (log_attributes response) ∅);
    mret (default 0 (values !! "dseq"), default 0 (values !! "gseq"), default 0 (values !! "oseq"), sdl).

Definition seq_args (dseq gseq oseq : N) : list string :=
  ["--dseq"; pretty dseq; "--gseq"; pretty gseq; "--oseq"; pretty oseq].
Definition bid_list_args (opt : AkashOpt) (dseq gseq oseq : N) : list string :=
  ["query"; "market"; "bid"; "list"; "--chain-id"; akash_chain_id opt; "--node"; akash_rpc opt;
   "--owner"; akash_wallet opt] ++ seq_args dseq gseq oseq ++ ["--state"; "open"].
(** [while my_bids.is_empty() && counter < DEPLOYMENT_TIMEOUT], with the rounds that are left. *)
Fixpoint bid_loop (rounds : nat) (dseq gseq oseq : N) : ComputeM (list BidDetails) :=
  match rounds with
  | O => mret []
  | S rounds =>
      opt ← reads (λ s, Ok (akash_opt s));
      output ← execute_akash_command (mkCall (bid_list_args opt dseq gseq oseq) None);
      if negb (out_success output) then
        err ← lift (stderr_text output);
        fails (unknown ("akash query market bid list failed: " +:+ err))
      else
        bids ← lift (or_unknown (yaml_bids (out_stdout output)));
        match bids with [] => bid_loop rounds dseq gseq oseq | _ => mret bids end
  end.
Definition cheaper_bid (best : string * f64) (bid : BidDetails) : string * f64 :=
  if f64_lt (bp_amount (bd_price bid)) best.2 then (bi_provider (bd_bid_id bid), bp_amount (bd_price bid)) else best.
Definition cheapest_bid (l : list BidDetails) : string * f64 := foldl cheaper_bid ("", f64_MAX) l.
Definition create_bid (dseq gseq oseq : N) : ComputeM (string * f64) :=
  my_bids ← bid_loop DEPLOYMENT_TIMEOUT dseq gseq oseq;
  mret (cheapest_bid my_bids).

Definition close_args (opt : AkashOpt) (dseq : N) : list string :=
  ["tx"; "deployment"; "close"; "--chain-id"; akash_chain_id opt; "--node"; akash_rpc opt;
   "--gas"; akash_gas opt; "--gas-prices"; akash_gas_price opt;
   "--gas-adjustment"; f64_to_string (akash_gas_adjustment opt); "--sign-mode"; akash_sign_mode opt;
   "--from"; akash_wallet opt; "--dseq"; pretty dseq; "--keyring-backend"; akash_keyring_backend opt; "--yes"].
Definition close_deployment (args : CloseArgs) : ComputeM unit :=
  opt ← reads (λ s, Ok (akash_opt s));
  output ← execute_akash_command (mkCall (close_args opt (ca_dseq args)) None);
  if negb (out_success output) then
    err ← lift (stderr_text output);
    fails (unknown ("akash tx deployment close failed: " +:+ err))
  else mret tt.
(** A command of a deployment failed: the deployment is closed, then the error given. *)
Definition close_and_fail {A} (dseq : N) (output : Output) (text : string) : ComputeM A :=
  err ← lift (stderr_text output);
  close_deployment (mkCloseArgs dseq);;
  fails (unknown (text +:+ err)).

Definition lease_create_args (opt : AkashOpt) (dseq gseq oseq : N) (provider : string) : list string :=
  ["tx"; "market"; "lease"; "create"; "--chain-id"; akash_chain_id opt; "--node"; akash_rpc opt;
   "--gas"; akash_gas opt; "--gas-prices"; akash_gas_price opt;
   "--gas-adjustment"; f64_to_string (akash_gas_adjustment opt); "--sign-mode"; akash_sign_mode opt;
   "--keyring-backend"; akash_keyring_backend opt; "--from"; akash_wallet opt]
  ++ seq_args dseq gseq oseq ++ ["--provider"; provider; "--yes"].
Definition create_lease (dseq gseq oseq : N) (provider : string) : ComputeM unit :=
  opt ← reads (λ s, Ok (akash_opt s));
  output ← execute_akash_command (mkCall (lease_create_args opt dseq gseq oseq provider) None);
  if negb (out_success output) then close_and_fail dseq output "akash tx market lease create failed: "
  else mret tt.

Definition lease_list_args (opt : AkashOpt) (dseq gseq oseq : N) : list string :=
  ["query"; "market"; "lease"; "list"; "--chain-id"; akash_chain_id opt; "--node"; akash_rpc opt;
   "--owner"; akash_wallet opt] ++ seq_args dseq gseq oseq.
Definition no_active_lease {A} (dseq : N) : ComputeM A :=
  close_deployment (mkCloseArgs dseq);;
  fails (unknown "active lease not found").
Fixpoint lease_loop (rounds : nat) (dseq gseq oseq : N) : ComputeM unit :=
  match rounds with
  | O => no_active_lease dseq
  | S rounds =>
      opt ← reads (λ s, Ok (akash_opt s));
      r ← run_command (mkCall (lease_list_args opt dseq gseq oseq) None);
      output ← lift (or_unknown r);
      if negb (out_success output) then close_and_fail dseq output "akash query market lease list failed: "
      else
        leases ← lift (or_unknown (yaml_leases (out_stdout output)));
        match leases with
        | [] => lease_loop rounds dseq gseq oseq
        | _ => if existsb (λ l, bool_decide (lease_state l = "active")) leases then mret tt
               else no_active_lease dseq
        end
  end.
Definition check_lease_status (dseq gseq oseq : N) : ComputeM unit :=
  lease_loop DEPLOYMENT_TIMEOUT dseq gseq oseq.

Definition app_service (r : LeaseStatus) : option ServiceStatus := mjoin (ls_services r !! "app").
Definition lease_status_args (opt : AkashOpt) (dseq gseq oseq : N) (provider : string) : list string :=
  ["lease-status"; "--node"; akash_rpc opt; "--from"; akash_wallet opt]
  ++ seq_args dseq gseq oseq ++ ["--provider"; provider; "--keyring-backend"; akash_keyring_backend opt].
Fixpoint manifest_loop (rounds : nat) (dseq gseq oseq : N) (provider : string) : ComputeM LeaseStatus :=
  match rounds with
  | O => no_active_lease dseq
  | S rounds =>
      opt ← reads (λ s, Ok (akash_opt s));
      output ← execute_akash_command (mkCall (lease_status_args opt dseq gseq oseq provider) None);
      if negb (out_success output) then close_and_fail dseq output "akash query market lease list failed: "
      else
        response ← lift (or_unknown (yaml_lease_status (out_stdout output)));
        if match app_service response with Some s => (0 <? ss_available s)%Z | None => false end
        then mret response
        else manifest_loop rounds dseq gseq oseq provider
  end.
Definition check_manifest_status (dseq gseq oseq : N) (provider : string) : ComputeM LeaseStatus :=
  manifest_loop DEPLOYMENT_TIMEOUT dseq gseq oseq provider.

Definition manifest_args (opt : AkashOpt) (path : string) (dseq gseq oseq : N) (provider : string) : list string :=
  ["send-manifest"; path; "--node"; akash_rpc opt; "--from"; akash_wallet opt]
  ++ seq_args dseq gseq oseq ++ ["--provider"; provider; "--keyring-backend"; akash_keyring_backend opt].
Definition send_manifest (dseq gseq oseq : N) (provider sdl : string) : ComputeM unit :=
  opt ← reads (λ s, Ok (akash_opt s));
  path ← sdl_file;
  output ← execute_akash_command (mkCall (manifest_args opt path dseq gseq oseq provider) (Some (path, sdl)));
  if negb (out_success output) then close_and_fail dseq output "akash send-manifest failed: "
  else mret tt.

Definition create_deployment_meta (host : option string) (port external_port : N) (protocol : ServiceProtocol)
    (dseq : N) (provider : string) (price : f64) (image : string) : DeploymentMeta :=
  mkDeploymentMeta _ Deployed dseq
    (Some (mkDeploymentInfo _ provider (mkProviderInfo host port external_port protocol) price)) image.

(** *** Blocks *)

Definition compute_abci_init : gmap string bool := list_to_map
  [("compute.info", false); ("compute.deploy", true); ("compute.close", true); ("compute.list", false);
   ("events.info", false); ("events.list", false)].
Definition compute_init_chain : ComputeM unit := mret tt.
Definition compute_begin_block (block : AbciBlock) : ComputeM unit :=
  on_compute_storage (modify_state (λ s,
    match block_time block with Some t => compute_set_time s t | None => s end)).
Definition compute_abci_info (s : ComputeModuleImpl) : outcome ManyError AbciInfo :=
  h ← compute_get_height (compute_storage s); Ok (mkAbciInfo h (compute_hash (compute_storage s))).
Definition compute_abci_commit : ComputeM AbciCommitInfo := on_compute_storage compute_commit.

(** *** Endpoints *)

Definition compute_info (s : ComputeModuleImpl) : outcome ManyError bytes := Ok (compute_hash (compute_storage s)).

Definition deployed_meta (args : DeployArgs) (dseq : N) (provider : string) (price : f64) (r : LeaseStatus) :
    outcome ManyError DeploymentMeta :=
  let uri := uris ← (app_service r ≫= ss_uris); head uris in
  let forwarded_port := fp ← (ls_forwarded_ports r !! "app"); head fp in
  match uri, forwarded_port with
  | Some uri, _ =>
      Ok (create_deployment_meta (Some uri) (da_port args) (da_port args) TCP dseq provider price (da_image args))
  | None, Some fp =>
      Ok (create_deployment_meta (fp_host fp) (da_port args) (fp_external_port fp) (fp_proto fp) dseq provider price
            (da_image args))
  | None, None => Err (unknown ("No URIs or forwarded ports found for deployment " +:+ pretty dseq))
  end.
Definition compute_deploy (sender : Address) (args : DeployArgs) : ComputeM DeploymentMeta :=
  generate_cert;;
  d ← create_deployment args;
  let '(dseq, gseq, oseq, sdl) := d in
  bid ← create_bid dseq gseq oseq;
  let '(provider, price) := bid in
  create_lease dseq gseq oseq provider;;
  check_lease_status dseq gseq oseq;;
  send_manifest dseq gseq oseq provider sdl;;
  status ← check_manifest_status dseq gseq oseq provider;
  meta ← lift (deployed_meta args dseq provider price status);
  on_compute_storage (add_deployment sender meta);;
  mret meta.

Definition compute_close (sender : Address) (args : CloseArgs) : ComputeM unit :=
  has ← reads (λ s, compute_has (compute_storage s) sender (ca_dseq args));
  if negb has then
    fails (unknown ("deployment " +:+ pretty (ca_dseq args) +:+ " not found for " +:+ address_to_string sender))
  else
    close_deployment args;;
    on_compute_storage (remove_deployment sender (ca_dseq args)).

Definition compute_list (s : ComputeModuleImpl) (args : ComputeListArgs) : outcome ManyError (list DeploymentMeta) :=
  l ← list_deployment (compute_storage s) (cl_order args) (cl_owner args);
  Ok (match cl_filter args with
      | Some (FilterStatus st) => List.filter (λ m, bool_decide (dm_status m = st)) l
      | Some FilterAll | None => l
      end).
End compute_module.

(** ** The module behind a server *)

Class ComputeCodecs `{ComputeEnv} := {
  codec_compute_unit :: Cbor unit;
  codec_compute_hash :: Cbor bytes;
  codec_deploy :: Cbor DeployArgs;
  codec_close :: Cbor CloseArgs;
  codec_compute_list_args :: Cbor ComputeListArgs;
  codec_compute_list :: Cbor (list DeploymentMeta);
}.

Section compute_server.
Context `{ComputeEnv, !ComputeCodecs, Minicbor}.

Definition compute_endpoints : list (Endpoint ComputeModuleImpl) := [
  query "compute.info" (λ s _ (_ : unit), compute_info s);
  deny_anonymous (command "compute.deploy" compute_deploy);
  deny_anonymous (command "compute.close" compute_close);
  query "compute.list" (λ s _, compute_list s)
].
(** [AllowAddrsModule] of many-compute wraps the whole module. *)
Definition compute_allow_addrs (allowed : gset Address) (inner : ManyModule (Mutex ComputeModuleImpl)) :
    ManyModule (Mutex ComputeModuleImpl) :=
  mkModule _ (module_info inner) (module_validate inner)
    (λ m, if bool_decide (request_from m ∈ allowed) then module_execute inner m else fails invalid_from_identity).
(** The module that [main] adds to the server. *)
Definition compute_server_module (allow : option (gset Address)) : ManyModule (Mutex ComputeModuleImpl) :=
  let m := many_module "ComputeModule" (Some 15) compute_endpoints in
  match allow with Some l => compute_allow_addrs l m | None => m end.
End compute_server.
