(* ===== verification/ComputeLaws.v ===== *)
(** * many-compute: what deploying, closing and listing do

    Every operation of the module on the outside is a bounded number of calls of the tool ([trace]); the
    store changes only at the end of a deployment that went through and of a closing that went through. *)
From S2P Require Import Prelude Error ErrorDisplay External Address Types Account Events Migration.
From S2P Require Import Storage StorageLaws AppStore.
From S2P Require Import Cose Wire WireLaws Protocol ProtocolLaws ProofOps Server ServerLaws Endpoints Compute.
From S2P Require KvStore KvLaws.

#[local] Open Scope string_scope.
#[local] Open Scope list_scope.
#[local] Open Scope N_scope.

Section traces.
Context `{ComputeEnv}.
Implicit Types (s : ComputeModuleImpl) (opt : AkashOpt) (h new : list Call) (dseq gseq oseq : N).

(** ** Traces *)

(** The module after more calls. *)
Definition called s new : ComputeModuleImpl :=
  mkComputeModule _ (akash_opt s) (compute_storage s) (calls s ++ new).
Lemma called_nil s : called s [] = s.
Proof. destruct s. unfold called. by rewrite app_nil_r. Qed.
Lemma called_app s l1 l2 : called (called s l1) l2 = called s (l1 ++ l2).
Proof. unfold called. simpl. by rewrite app_assoc. Qed.

(** [m] makes at most [n] calls, answers, and leaves the store alone; [Q] relates the options, the calls made
    before, the calls it made and its outcome. *)
Definition trace {A} (n : nat) (m : ST ComputeModuleImpl ManyError A)
    (Q : AkashOpt → list Call → list Call → outcome ManyError A → Prop) : Prop :=
  ∀ s, ∃ new r, m s = (called s new, r) ∧ (length new ≤ n)%nat ∧ answers r = true ∧ Q (akash_opt s) (calls s) new r.

Lemma answers_unknown {A} (r : string + A) : answers (or_unknown r) = true.
Proof. by destruct r. Qed.
Lemma answers_stderr o : answers (stderr_text o) = true.
Proof. unfold stderr_text, from_utf8. by destruct (utf8_from _ _ _ _). Qed.
Lemma answers_seq l acc : answers (seq_values l acc) = true.
Proof.
  revert acc. induction l as [|x l IH]; intros acc; simpl; [done|].
  case_bool_decide; [|done]. by destruct (u64_from_str (ea_value x)); simpl.
Qed.

(** The call that closes a deployment, and calls that close nothing. *)
Definition close_call opt dseq : Call := mkCall (close_args opt dseq) None.
Definition is_close (c : Call) : bool :=
  match call_args c with
  | x :: y :: z :: _ => bool_decide (x = "tx") && bool_decide (y = "deployment") && bool_decide (z = "close")
  | _ => false
  end.
Definition no_close new : Prop := Forall (λ c, is_close c = false) new.
Lemma no_close_app l1 l2 : no_close (l1 ++ l2) ↔ no_close l1 ∧ no_close l2.
Proof. apply Forall_app. Qed.
Lemma no_close_not new c : no_close new → c ∈ new → is_close c ≠ true.
Proof. intros Hn Hc. by rewrite (proj1 (Forall_forall _ _) Hn c Hc). Qed.

(** What a step of a deployment may do: at most [n] calls that close nothing, and after them a closing of the
    deployment, when it ends with an error. *)
Definition cleans (n : nat) dseq {A} opt new (r : outcome ManyError A) : Prop :=
  ∃ l, no_close l ∧ (length l ≤ n)%nat
    ∧ (new = l ∨ new = l ++ [close_call opt dseq] ∧ ∃ e, r = Err e).
Lemma cleans_ok {A} n dseq opt new (a : A) : cleans n dseq opt new (Ok a) → no_close new ∧ (length new ≤ n)%nat.
Proof. by intros (l & ? & ? & [->|[_ [??]]]). Qed.
Lemma cleans_prepend {A} n n' dseq opt l new (r : outcome ManyError A) :
  no_close l → (length l + n ≤ n')%nat → cleans n dseq opt new r → cleans n' dseq opt (l ++ new) r.
Proof.
  intros Hl Hn (l' & Hc & Hn' & Hnew). exists (l ++ l'). rewrite no_close_app, length_app.
  split_and!; [done|done|lia|]. destruct Hnew as [->|[-> ?]]; [by left|right]. by rewrite app_assoc.
Qed.
Lemma cleans_plain {A} n dseq opt new (r : outcome ManyError A) :
  no_close new → (length new ≤ n)%nat → cleans n dseq opt new r.
Proof. intros ??. exists new. auto. Qed.
Lemma cleans_close {A} n dseq opt e : cleans (A := A) n dseq opt [close_call opt dseq] (Err e).
Proof. exists []. split; [constructor|]. split; [simpl; lia|]. right. eauto. Qed.

(** Such a step; [Q] holds when it succeeds. *)
Definition cleaning {A} (n : nat) dseq (m : ST ComputeModuleImpl ManyError A)
    (Q : AkashOpt → list Call → list Call → A → Prop) : Prop :=
  ∀ s, ∃ new r, m s = (called s new, r) ∧ answers r = true ∧ cleans n dseq (akash_opt s) new r
    ∧ ∀ a, r = Ok a → Q (akash_opt s) (calls s) new a.

Lemma cleaning_bind {A B} n1 n2 dseq (m : ST ComputeModuleImpl ManyError A) (f : A → ST ComputeModuleImpl ManyError B) Q1 Q2 :
  cleaning n1 dseq m Q1 → (∀ a, cleaning n2 dseq (f a) (Q2 a)) →
  cleaning (n1 + n2) dseq (m ≫= f) (λ opt h new r,
    ∃ a l1 l2, new = l1 ++ l2 ∧ Q1 opt h l1 a ∧ Q2 a opt (h ++ l1) l2 r).
Proof.
  intros Hm Hf s. destruct (Hm s) as (l1 & r1 & Hs & Ha & Hc & HQ). unfold mbind, st_bind. rewrite Hs.
  destruct r1 as [a|e| |]; try done.
  - apply cleans_ok in Hc as [Hc Hn]. destruct (Hf a (called s l1)) as (l2 & r2 & -> & Ha2 & Hc2 & HQ2).
    exists (l1 ++ l2), r2. rewrite called_app. split_and!; [done|done|eapply cleans_prepend; [done| |done]; lia|].
    intros x Hx. exists a, l1, l2. auto.
  - exists l1, (Err e). split_and!; [done|done| |done]. destruct Hc as (l & Hl & Hn & Hnew). exists l.
    split_and!; [done|lia|]. destruct Hnew as [->|[-> _]]; [by left|right]. eauto.
Qed.

(** The call [c] ran after [h], and the tool reported success. *)
Definition succeeded h (c : Call) (o : Output) : Prop := akash_output (h ++ [c]) = inr o ∧ out_success o = true.

(** ** The operations *)

Lemma execute_run c s :
  ∃ r, execute_akash_command c s = (called s [c], r)
    ∧ ((∃ e, r = Err e) ∨ ∃ o, r = Ok o ∧ akash_output (calls s ++ [c]) = inr o).
Proof.
  unfold execute_akash_command, mbind, st_bind, run_command.
  destruct (akash_output (calls s ++ [c])) as [e|o] eqn:Ho.
  - eexists. split; [done|]. left. eauto.
  - eexists. split; [done|]. right. eauto.
Qed.

Lemma bind_unfold {A B} (m : ST ComputeModuleImpl ManyError A) (f : A → ST ComputeModuleImpl ManyError B) s :
  (m ≫= f) s = match m s with
               | (s', Ok a) => f a s'
               | (s', Err e) => (s', Err e)
               | (s', Panic t) => (s', Panic t)
               | (s', OutOfFuel) => (s', OutOfFuel)
               end.
Proof. done. Qed.

(** The outcomes of a step: given at once, or by a call of the tool. *)
Lemma bind_opt {A} (f : AkashOpt → ST ComputeModuleImpl ManyError A) s :
  (reads (λ s, Ok (akash_opt s)) ≫= f) s = f (akash_opt s) s.
Proof. done. Qed.
Lemma bind_execute {A} c (f : Output → ST ComputeModuleImpl ManyError A) s :
  (∃ e, (execute_akash_command c ≫= f) s = (called s [c], Err e))
  ∨ ∃ o, akash_output (calls s ++ [c]) = inr o ∧ (execute_akash_command c ≫= f) s = f o (called s [c]).
Proof.
  rewrite bind_unfold. destruct (execute_run c s) as (r & -> & [[e ->]|(o & -> & Ho)]); eauto.
Qed.
Lemma bind_unknown {A B} (r : string + A) (f : A → ST ComputeModuleImpl ManyError B) s :
  (∃ e, (lift (or_unknown r) ≫= f) s = (s, Err e)) ∨ ∃ a, r = inr a ∧ (lift (or_unknown r) ≫= f) s = f a s.
Proof. destruct r as [e|a]; [left; by eexists|right; eauto]. Qed.
Lemma bind_stderr {B} o (f : string → ST ComputeModuleImpl ManyError B) s :
  (∃ e, (lift (stderr_text o) ≫= f) s = (s, Err e))
  ∨ ∃ t, stderr_text o = Ok t ∧ (lift (stderr_text o) ≫= f) s = f t s.
Proof.
  pose proof (answers_stderr o) as Ha. unfold mbind, st_bind, lift.
  destruct (stderr_text o) as [t|e| |]; try done; [right|left]; eauto.
Qed.
Lemma bind_file {B} (f : string → ST ComputeModuleImpl ManyError B) s :
  (∃ e, (sdl_file ≫= f) s = (s, Err e)) ∨ ∃ p, (sdl_file ≫= f) s = f p s.
Proof.
  rewrite bind_unfold. unfold sdl_file, mbind, st_bind, reads, lift, or_unknown.
  destruct (tempfile (calls s)) as [e|[p|]]; simpl; [left|right|left]; eauto.
Qed.

Ltac leaf :=
  first [eexists _, _; split; [reflexivity|] | eexists [], _; rewrite called_nil; split; [reflexivity|]];
  split; [simpl; lia|]; split; [done|].
(** Takes the first step of the operation in the goal. *)
Ltac step :=
  first
    [ rewrite bind_opt
    | match goal with
      | |- context [(execute_akash_command ?c ≫= ?f) ?s] =>
          let e := fresh "e" in let o := fresh "o" in let Ho := fresh "Ho" in let E := fresh "E" in
          destruct (bind_execute c f s) as [[e E]|(o & Ho & E)]; rewrite E; clear E
      | |- context [(lift (or_unknown ?r) ≫= ?f) ?s] =>
          let e := fresh "e" in let a := fresh "a" in let Ha := fresh "Ha" in let E := fresh "E" in
          destruct (bind_unknown r f s) as [[e E]|(a & Ha & E)]; rewrite E; clear E
      | |- context [(lift (stderr_text ?o) ≫= ?f) ?s] =>
          let e := fresh "e" in let t := fresh "t" in let Ht := fresh "Ht" in let E := fresh "E" in
          destruct (bind_stderr o f s) as [[e E]|(t & Ht & E)]; rewrite E; clear E
      | |- context [(sdl_file ≫= ?f) ?s] =>
          let e := fresh "e" in let p := fresh "p" in let E := fresh "E" in
          destruct (bind_file f s) as [[e E]|(p & E)]; rewrite E; clear E
      end ].

(** The calls that leave the wallet with a certificate: it has one already, or a new one is generated and
    published. *)
Definition cert_call opt (verb : string) : Call := mkCall (cert_args opt verb) None.
Definition certified opt h new : Prop :=
  (∃ o, new = [cert_call opt "generate"] ∧ akash_output (h ++ [cert_call opt "generate"]) = inr o
     ∧ out_success o = false
     ∧ stderr_text o = Ok ("Error: certificate error: cannot overwrite certificate" +:+ nl))
  ∨ (∃ o o', new = [cert_call opt "generate"; cert_call opt "publish"]
     ∧ succeeded h (cert_call opt "generate") o
     ∧ succeeded (h ++ [cert_call opt "generate"]) (cert_call opt "publish") o').

Lemma generate_cert_trace :
  trace 2 generate_cert (λ opt h new r, no_close new ∧ (r = Ok tt → certified opt h new)).
Proof.
  intros s. unfold generate_cert. step. step; [leaf; split; [by repeat constructor|done]|].
  destruct (out_success o) eqn:Hs; cbn [negb].
  - step; rewrite ?called_app; [leaf; split; [by repeat constructor|done]|].
    destruct (out_success o0) eqn:Hs0; cbn [negb].
    + leaf. split; [by repeat constructor|]. intros _. right. by exists o, o0.
    + step; leaf; (split; [by repeat constructor|done]).
  - step; [leaf; split; [by repeat constructor|done]|].
    case_bool_decide as Hne; leaf; (split; [by repeat constructor|]); [done|].
    intros _. left. exists o. split_and!; [done..|]. by rewrite Ht, Hne.
Qed.

(** *** Polling *)

(** The call [c], made [n] times after [h], succeeded each time with nothing to go on with. *)
Definition waited h (c : Call) (pending : Output → Prop) (n : nat) : Prop :=
  ∀ i, (i < n)%nat → ∃ o, succeeded (h ++ replicate i c) c o ∧ pending o.
(** The calls of a loop of at most [rounds] rounds that ended with the output that [P] describes. *)
Definition polled (rounds : nat) h (c : Call) (pending P : Output → Prop) new : Prop :=
  ∃ n o, (n < rounds)%nat ∧ new = replicate (S n) c ∧ waited h c pending n
    ∧ succeeded (h ++ replicate n c) c o ∧ P o.

Lemma waited_cons h c pending n o :
  succeeded h c o → pending o → waited (h ++ [c]) c pending n → waited h c pending (S n).
Proof.
  intros Hs Hp Hw [|i] Hi; [exists o; by rewrite app_nil_r|].
  destruct (Hw i) as (o' & Hs' & Hp'); [lia|]. exists o'. by rewrite <-app_assoc in Hs'.
Qed.
Lemma polled_cons rounds h c (pending P : Output → Prop) new o :
  succeeded h c o → pending o → polled rounds (h ++ [c]) c pending P new → polled (S rounds) h c pending P (c :: new).
Proof.
  intros Hs Hp (n & o' & Hn & -> & Hw & Hs' & HP). exists (S n), o'. split_and!; [lia|done| | |done].
  - by eapply waited_cons.
  - by rewrite <-app_assoc in Hs'.
Qed.
Lemma polled_one rounds h c (pending P : Output → Prop) o :
  succeeded h c o → P o → polled (S rounds) h c pending P [c].
Proof. intros Hs HP. exists 0%nat, o. rewrite app_nil_r. split_and!; [lia|done| |done|done]. intros i Hi. lia. Qed.

(** The transaction that created the deployment: its call, and the numbers in its log. *)
Definition created opt (args : DeployArgs) h (c : Call) dseq gseq oseq : Prop :=
  ∃ path o log values, c = mkCall (create_args opt path) (Some (path, sdl_text args)) ∧ succeeded h c o
    ∧ json_tx_log (out_stdout o) = inr log ∧ seq_values (log_attributes log) ∅ = Ok values
    ∧ dseq = default 0 (values !! "dseq") ∧ gseq = default 0 (values !! "gseq") ∧ oseq = default 0 (values !! "oseq").

Lemma create_deployment_trace args :
  trace 1 (create_deployment args) (λ opt h new r, no_close new ∧
    ∀ dseq gseq oseq sdl, r = Ok (dseq, gseq, oseq, sdl) →
      sdl = sdl_text args ∧ ∃ c, new = [c] ∧ created opt args h c dseq gseq oseq).
Proof.
  intros s. unfold create_deployment. step. step; [leaf; by repeat constructor|].
  step; [leaf; by repeat constructor|].
  destruct (out_success o) eqn:Hs; cbn [negb]; [|step; leaf; by repeat constructor].
  step; [leaf; by repeat constructor|]. rewrite bind_unfold. unfold lift.
  pose proof (answers_seq (log_attributes a) ∅) as Hans.
  destruct (seq_values (log_attributes a) ∅) as [v|e| |] eqn:Hv; try done; leaf; split; try by repeat constructor.
  intros dseq gseq oseq sdl [= <- <- <- <-]. split; [done|]. eexists. split; [done|].
  exists p, o, a, v. by split_and!.
Qed.

(** The offers for a deployment: those of the first call that has any, or none after all rounds. *)
Definition bids_call opt dseq gseq oseq : Call := mkCall (bid_list_args opt dseq gseq oseq) None.
Definition offered (rounds : nat) opt h new dseq gseq oseq (offers : list BidDetails) : Prop :=
  let c := bids_call opt dseq gseq oseq in
  let none o := yaml_bids (out_stdout o) = inr [] in
  polled rounds h c none (λ o, yaml_bids (out_stdout o) = inr offers ∧ offers ≠ []) new
  ∨ offers = [] ∧ new = replicate rounds c ∧ waited h c none rounds.

Lemma bid_loop_trace rounds dseq gseq oseq :
  trace rounds (bid_loop rounds dseq gseq oseq) (λ opt h new r,
    no_close new ∧ ∀ offers, r = Ok offers → offered rounds opt h new dseq gseq oseq offers).
Proof.
  induction rounds as [|n IH]; intros s; cbn [bid_loop].
  { leaf. split; [constructor|]. intros offers [= <-]. right. split_and!; [done..|]. intros i Hi. lia. }
  step. set (c := mkCall (bid_list_args _ _ _ _) None). step; [leaf; split; [by repeat constructor|done]|].
  destruct (out_success o) eqn:Hs; cbn [negb]; [|step; leaf; (split; [by repeat constructor|done])].
  step; [leaf; split; [by repeat constructor|done]|]. destruct a as [|x a].
  - destruct (IH (called s [c])) as (new & r & -> & Hl & Hans & HF & HQ). exists ([c] ++ new), r.
    rewrite called_app. split; [done|]. split; [simpl; lia|]. split; [done|]. split; [by constructor|].
    intros offers Hr. destruct (HQ offers Hr) as [Hp|(-> & -> & Hw)].
    + left. by apply (polled_cons n _ c _ _ new o).
    + right. split_and!; [done..|]. by apply (waited_cons _ c _ n o).
  - leaf. split; [by repeat constructor|]. intros offers [= <-]. left. by apply (polled_one n _ c _ _ o).
Qed.

Lemma create_bid_trace dseq gseq oseq :
  trace DEPLOYMENT_TIMEOUT (create_bid dseq gseq oseq) (λ opt h new r,
    no_close new ∧ ∀ bid, r = Ok bid →
      ∃ offers, offered DEPLOYMENT_TIMEOUT opt h new dseq gseq oseq offers ∧ bid = cheapest_bid offers).
Proof.
  intros s. unfold create_bid.
  destruct (bid_loop_trace DEPLOYMENT_TIMEOUT dseq gseq oseq s) as (new & r & Hr & Hl & Ha & HF & HQ).
  rewrite bind_unfold, Hr. destruct r as [offers|e| |]; try done.
  - exists new, (Ok (cheapest_bid offers)). split_and!; try done. intros bid [= <-]. exists offers.
    split; [|done]. by apply HQ.
  - by exists new, (Err e).
Qed.

Lemma close_deployment_trace dseq :
  trace 1 (close_deployment (mkCloseArgs dseq)) (λ opt h new r,
    new = [close_call opt dseq] ∧ ∀ a, r = Ok a → ∃ o, succeeded h (close_call opt dseq) o).
Proof.
  intros s. unfold close_deployment. step. step; [by leaf|].
  destruct (out_success o) eqn:Hs; cbn [negb]; [|step; by leaf].
  leaf. split; [done|]. intros [] _. by exists o.
Qed.

Lemma cleaning_weaken {A} n dseq (m : ST ComputeModuleImpl ManyError A) (Q Q' : AkashOpt → list Call → list Call → A → Prop) :
  cleaning n dseq m Q → (∀ opt h new a, Q opt h new a → Q' opt h new a) → cleaning n dseq m Q'.
Proof. intros Hm HQ s. destruct (Hm s) as (new & r & ? & ? & ? & ?). exists new, r. split_and!; auto. Qed.
Lemma cleaning_lift {A} dseq (o : outcome ManyError A) :
  answers o = true → cleaning 0 dseq (lift o) (λ _ _ new a, new = [] ∧ o = Ok a).
Proof.
  intros Ho s. exists [], o. rewrite called_nil. split_and!; [done..| |done]. apply cleans_plain; [constructor|done].
Qed.

(** Steps that end in an error, after a closing unless the text of an error is malformed. *)
Lemma close_and_fail_trace {A} n dseq o text :
  cleaning n dseq (close_and_fail (A := A) dseq o text) (λ _ _ _ _, False).
Proof.
  intros s. unfold close_and_fail. step.
  { exists [], (Err e). rewrite called_nil. split_and!; [done..| |done]. apply cleans_plain; [constructor|simpl; lia]. }
  destruct (close_deployment_trace dseq s) as (new & r & Hr & Hl & Ha & -> & _). rewrite bind_unfold, Hr.
  destruct r; try done; (eexists _, _; split_and!; [reflexivity|done|apply cleans_close|done]).
Qed.
Lemma no_active_lease_trace {A} n dseq :
  cleaning n dseq (no_active_lease (A := A) dseq) (λ _ _ _ _, False).
Proof.
  intros s. unfold no_active_lease.
  destruct (close_deployment_trace dseq s) as (new & r & Hr & Hl & Ha & -> & _). rewrite bind_unfold, Hr.
  destruct r; try done; (eexists _, _; split_and!; [reflexivity|done|apply cleans_close|done]).
Qed.

(** A step that goes on with [m] after the call [c], or ends with it. *)
Lemma cleaning_after {A} n dseq (m : ST ComputeModuleImpl ManyError A) c s (Q : AkashOpt → list Call → list Call → A → Prop)
    (Q' : list Call → A → Prop) :
  cleaning n dseq m Q → is_close c = false →
  (∀ a new, Q (akash_opt s) (calls s ++ [c]) new a → Q' (c :: new) a) →
  ∃ new r, m (called s [c]) = (called s new, r) ∧ answers r = true
    ∧ cleans (S n) dseq (akash_opt s) new r ∧ ∀ a, r = Ok a → Q' new a.
Proof.
  intros Hm Hc HQ. destruct (Hm (called s [c])) as (new & r & -> & Ha & Hcl & Hr). exists ([c] ++ new), r.
  rewrite called_app. split_and!; [done..| |].
  - eapply cleans_prepend; [by repeat constructor| |done]. simpl. lia.
  - intros a Ha'. apply HQ. by apply Hr.
Qed.
Lemma cleaning_end {A} n dseq c s (r : outcome ManyError A) (Q : list Call → A → Prop) :
  is_close c = false → answers r = true → (∀ a, r = Ok a → Q [c] a) →
  ∃ new r', (called s [c], r) = (called s new, r') ∧ answers r' = true
    ∧ cleans (S n) dseq (akash_opt s) new r' ∧ ∀ a, r' = Ok a → Q new a.
Proof.
  intros Hc Ha HQ. exists [c], r. split_and!; [done..| |done].
  apply cleans_plain; [by repeat constructor|simpl; lia].
Qed.

Definition lease_call opt dseq gseq oseq provider : Call := mkCall (lease_create_args opt dseq gseq oseq provider) None.
Lemma create_lease_trace dseq gseq oseq provider :
  cleaning 1 dseq (create_lease dseq gseq oseq provider) (λ opt h new _,
    ∃ o, new = [lease_call opt dseq gseq oseq provider] ∧ succeeded h (lease_call opt dseq gseq oseq provider) o).
Proof.
  intros s. unfold create_lease. step. step; [by eapply cleaning_end|].
  destruct (out_success o) eqn:Hs; cbn [negb].
  - eapply cleaning_end; [done..|]. intros [] _. by exists o.
  - by eapply cleaning_after; [apply close_and_fail_trace|..].
Qed.

(** The leases were listed until there were any, and one of them is active. *)
Definition leased (rounds : nat) opt h new dseq gseq oseq : Prop :=
  polled rounds h (mkCall (lease_list_args opt dseq gseq oseq) None)
    (λ o, yaml_leases (out_stdout o) = inr [])
    (λ o, ∃ leases, yaml_leases (out_stdout o) = inr leases ∧ mkLease "active" ∈ leases) new.
Lemma lease_loop_trace rounds dseq gseq oseq :
  cleaning rounds dseq (lease_loop rounds dseq gseq oseq) (λ opt h new _, leased rounds opt h new dseq gseq oseq).
Proof.
  induction rounds as [|n IH]; cbn [lease_loop].
  { intros s. destruct (no_active_lease_trace (A := unit) 0 dseq s) as (new & r & -> & ? & ? & Hr).
    exists new, r. split_and!; [done..|]. by intros a ?%Hr. }
  intros s. step. set (c := mkCall (lease_list_args _ _ _ _) None). rewrite bind_unfold. unfold run_command.
  change (mkComputeModule _ _ _ _) with (called s [c]).
  destruct (akash_output (calls s ++ [c])) as [e|o] eqn:Ho; rewrite bind_unfold; cbn [or_unknown lift].
  { by eapply cleaning_end. }
  destruct (out_success o) eqn:Hs; cbn [negb].
  2: { by eapply cleaning_after; [apply close_and_fail_trace|..]. }
  step; [by eapply cleaning_end|]. destruct a as [|x a].
  - eapply cleaning_after; [apply IH|done|]. intros u new Hp. by apply (polled_cons n _ c _ _ new o).
  - destruct (existsb _ _) eqn:Hex.
    + eapply cleaning_end; [done..|]. intros _ _. apply (polled_one n _ c _ _ o); [done|]. exists (x :: a).
      split; [done|]. apply existsb_exists in Hex as ([st] & Hin%list_elem_of_In & Hst%bool_decide_eq_true).
      simpl in Hst. by subst st.
    + by eapply cleaning_after; [apply no_active_lease_trace|..].
Qed.

Definition manifest_call opt path (args : DeployArgs) dseq gseq oseq provider : Call :=
  mkCall (manifest_args opt path dseq gseq oseq provider) (Some (path, sdl_text args)).
Lemma send_manifest_trace args dseq gseq oseq provider :
  cleaning 1 dseq (send_manifest dseq gseq oseq provider (sdl_text args)) (λ opt h new _,
    ∃ path o, new = [manifest_call opt path args dseq gseq oseq provider]
      ∧ succeeded h (manifest_call opt path args dseq gseq oseq provider) o).
Proof.
  intros s. unfold send_manifest. step. step.
  { exists [], (Err e). rewrite called_nil. split_and!; [done..| |done]. apply cleans_plain; [constructor|simpl; lia]. }
  step; [by eapply cleaning_end|]. destruct (out_success o) eqn:Hs; cbn [negb].
  - eapply cleaning_end; [done..|]. intros [] _. by exists p, o.
  - by eapply cleaning_after; [apply close_and_fail_trace|..].
Qed.

(** The status was asked for until the service was available. *)
Definition serving (status : LeaseStatus) : bool :=
  match app_service status with Some sv => (0 <? ss_available sv)%Z | None => false end.
Definition available (rounds : nat) opt h new dseq gseq oseq provider (status : LeaseStatus) : Prop :=
  polled rounds h (mkCall (lease_status_args opt dseq gseq oseq provider) None)
    (λ o, ∃ st, yaml_lease_status (out_stdout o) = inr st ∧ serving st = false)
    (λ o, yaml_lease_status (out_stdout o) = inr status ∧ serving status = true) new.
Lemma manifest_loop_trace rounds dseq gseq oseq provider :
  cleaning rounds dseq (manifest_loop rounds dseq gseq oseq provider) (λ opt h new status,
    available rounds opt h new dseq gseq oseq provider status).
Proof.
  induction rounds as [|n IH]; cbn [manifest_loop].
  { intros s. destruct (no_active_lease_trace (A := LeaseStatus) 0 dseq s) as (new & r & -> & ? & ? & Hr).
    exists new, r. split_and!; [done..|]. by intros a ?%Hr. }
  intros s. step. set (c := mkCall (lease_status_args _ _ _ _ _) None). step; [by eapply cleaning_end|].
  destruct (out_success o) eqn:Hs; cbn [negb].
  2: { by eapply cleaning_after; [apply close_and_fail_trace|..]. }
  step; [by eapply cleaning_end|]. fold (serving a). destruct (serving a) eqn:Hsv.
  - eapply cleaning_end; [done..|]. intros st [= <-]. by apply (polled_one n _ c _ _ o).
  - eapply cleaning_after; [apply IH|done|]. intros st new Hp. apply (polled_cons n _ c _ _ new o); [done| |done].
    by exists a.
Qed.

(** *** A deployment *)

Lemma bind_bind {A B C} (m : ST ComputeModuleImpl ManyError A) (f : A → ST ComputeModuleImpl ManyError B)
    (g : B → ST ComputeModuleImpl ManyError C) s :
  ((m ≫= f) ≫= g) s = (m ≫= λ a, f a ≫= g) s.
Proof. unfold mbind, st_bind. by destruct (m s) as [? []]. Qed.
Lemma bind_ext {A B} (m : ST ComputeModuleImpl ManyError A) (f g : A → ST ComputeModuleImpl ManyError B) s :
  (∀ a s, f a s = g a s) → (m ≫= f) s = (m ≫= g) s.
Proof. intros Hfg. unfold mbind, st_bind. by destruct (m s) as [? []]. Qed.

(** The part of [compute_deploy] from the lease to the answer of the provider. *)
Definition lease_steps (args : DeployArgs) dseq gseq oseq (provider : string) (price : f64) :
    ST ComputeModuleImpl ManyError DeploymentMeta :=
  create_lease dseq gseq oseq provider;;
  check_lease_status dseq gseq oseq;;
  send_manifest dseq gseq oseq provider (sdl_text args);;
  status ← check_manifest_status dseq gseq oseq provider;
  lift (deployed_meta args dseq provider price status).
Lemma answers_meta args dseq provider price st : answers (deployed_meta args dseq provider price st) = true.
Proof. unfold deployed_meta. repeat case_match; done. Qed.
Definition store_meta (sender : Address) (m : DeploymentMeta) : ST ComputeModuleImpl ManyError DeploymentMeta :=
  on_compute_storage (add_deployment sender m);; mret m.

Lemma lease_steps_trace args dseq gseq oseq provider price :
  cleaning 242 dseq (lease_steps args dseq gseq oseq provider price) (λ opt h new m,
    ∃ l1 l2 l3 l4 status path o1 o3, new = l1 ++ l2 ++ l3 ++ l4
      ∧ l1 = [lease_call opt dseq gseq oseq provider] ∧ succeeded h (lease_call opt dseq gseq oseq provider) o1
      ∧ leased DEPLOYMENT_TIMEOUT opt (h ++ l1) l2 dseq gseq oseq
      ∧ l3 = [manifest_call opt path args dseq gseq oseq provider]
      ∧ succeeded (h ++ l1 ++ l2) (manifest_call opt path args dseq gseq oseq provider) o3
      ∧ available DEPLOYMENT_TIMEOUT opt (h ++ l1 ++ l2 ++ l3) l4 dseq gseq oseq provider status
      ∧ deployed_meta args dseq provider price status = Ok m).
Proof.
  eapply cleaning_weaken.
  - refine (cleaning_bind 1 241 dseq _ _ _ _ (create_lease_trace _ _ _ _) _); intros x1.
    refine (cleaning_bind 120 121 dseq _ _ _ _ (lease_loop_trace 120 _ _ _) _); intros x2.
    refine (cleaning_bind 1 120 dseq _ _ _ _ (send_manifest_trace _ _ _ _ _) _); intros x3.
    refine (cleaning_bind 120 0 dseq _ _ _ _ (manifest_loop_trace 120 _ _ _ _) _); intros x4.
    apply cleaning_lift, answers_meta.
  - intros opt h new m ([] & l1 & ? & -> & (o1 & -> & Hs1) & [] & l2 & ? & -> & Hl & [] & l3 & ? & ->
      & (path & o3 & -> & Hs3) & st & l4 & ? & -> & Hav & -> & Hm).
    exists [lease_call opt dseq gseq oseq provider], l2, [manifest_call opt path args dseq gseq oseq provider], l4,
      st, path, o1, o3.
    rewrite <-!app_assoc in *. rewrite app_nil_r. by split_and!.
Qed.

End traces.

(** ** The store *)

Section compute_laws.
Context `{ComputeEnv, !ComputeEnvLaws}.
Implicit Types (s : ComputeModuleImpl) (opt : AkashOpt) (h new : list Call) (dseq gseq oseq : N) (m : DeploymentMeta).

Lemma key_deployment_inj a d a' d' : key_for_deployment a d = key_for_deployment a' d' → a = a' ∧ d = d'.
Proof.
  unfold key_for_deployment. intros Hk%(inj (app _)).
  apply (split_unique Byte.x2f) in Hk as [Ha%ab_inj Hd%b_inj]; [|apply ab_no_slash..]. split; [done|].
  by apply (inj pretty).
Qed.

(** The store after one value is written under [k]; without a blockchain it is committed. *)
Record stored (st st' : ComputeStorage) (k v : bytes) : Prop := {
  stored_view : app_view st' = <[k := v]> (app_view st);
  stored_db : app_db st' = if app_blockchain st then app_db st else app_view st';
  stored_event : app_event_id st' = app_event_id st;
  stored_frame : app_frame st st';
}.

Lemma write_ok k v st :
  ∃ st', (app_apply (raises storage_apply_failed) [(k, Put v)];; app_maybe_commit unwraps) st = (st', Ok tt)
    ∧ stored st st' k v.
Proof.
  destruct (app_apply_one (raises storage_apply_failed) k (Put v) st) as (s1 & Hs1 & Hv1 & Hd1 & Hi1 & Hf1).
  rewrite (bind_ok _ _ _ _ _ Hs1). destruct (app_maybe_commit_ok unwraps s1) as (s2 & -> & Hv2 & Hd2 & Hi2 & Hf2).
  exists s2. split; [done|]. split; [by rewrite Hv2, Hv1| |by rewrite Hi2, Hi1|by trans s1].
  rewrite Hd2, (same_blockchain _ _ Hf1), Hd1. destruct (app_blockchain st); [done|]. by rewrite Hv2.
Qed.

Lemma store_meta_ok sender m s :
  ∃ st', store_meta sender m s = (mkComputeModule _ (akash_opt s) st' (calls s), Ok m)
    ∧ stored (compute_storage s) st' (key_for_deployment sender (dm_dseq m)) (to_vec m).
Proof.
  destruct (write_ok (key_for_deployment sender (dm_dseq m)) (to_vec m) (compute_storage s)) as (st' & Hw & Hst).
  exists st'. split; [|done]. unfold store_meta, on_compute_storage, mbind at 1, st_bind at 1.
  change (add_deployment sender m (compute_storage s)) with
    ((app_apply (raises storage_apply_failed) [(key_for_deployment sender (dm_dseq m), Put (to_vec m))];;
      app_maybe_commit unwraps) (compute_storage s)).
  by rewrite Hw.
Qed.

(** ** Deploying *)

(** No offer is below the one that is taken. *)
Lemma cheaper_bid_mono best bid x : f64_lt x best.2 = false → f64_lt x (cheaper_bid best bid).2 = false.
Proof.
  unfold cheaper_bid. destruct (f64_lt (bp_amount (bd_price bid)) best.2) eqn:Hy; [|done]. intros Hx.
  apply not_true_is_false. intros Ht. simpl in Ht. by rewrite (f64_lt_trans _ _ _ Ht Hy) in Hx.
Qed.
Lemma cheaper_bid_self best bid : f64_lt (bp_amount (bd_price bid)) (cheaper_bid best bid).2 = false.
Proof.
  unfold cheaper_bid. destruct (f64_lt (bp_amount (bd_price bid)) best.2) eqn:Hy; [|done]. apply f64_lt_irrefl.
Qed.
Lemma fold_cheaper_mono l best x : f64_lt x best.2 = false → f64_lt x (foldl cheaper_bid best l).2 = false.
Proof. revert best. induction l as [|y l IH]; intros best Hx; simpl; [done|]. by apply IH, cheaper_bid_mono. Qed.
Lemma cheapest_bid_least l : Forall (λ x, f64_lt (bp_amount (bd_price x)) (cheapest_bid l).2 = false) l.
Proof.
  unfold cheapest_bid. generalize ("", f64_MAX) as best. induction l as [|y l IH]; intros best; constructor.
  - cbn [foldl]. apply fold_cheaper_mono, cheaper_bid_self.
  - apply IH.
Qed.

(** Where the chosen provider and price come from: an offer, or the defaults when no offer is below the
    largest number. *)
Definition chosen (offers : list BidDetails) (provider : string) (price : f64) : Prop :=
  Forall (λ x, f64_lt (bp_amount (bd_price x)) price = false) offers
  ∧ ((∃ x, x ∈ offers ∧ provider = bi_provider (bd_bid_id x) ∧ price = bp_amount (bd_price x))
     ∨ provider = "" ∧ price = f64_MAX).
Lemma fold_cheaper_from l best :
  (∃ x, x ∈ l ∧ foldl cheaper_bid best l = (bi_provider (bd_bid_id x), bp_amount (bd_price x)))
  ∨ foldl cheaper_bid best l = best.
Proof.
  revert best. induction l as [|y l IH]; intros best; [by right|]. cbn [foldl].
  destruct (IH (cheaper_bid best y)) as [(x & Hx & ->)| ->]; [left; exists x; by split; [right|]|].
  unfold cheaper_bid. destruct (f64_lt _ _); [|by right]. left. exists y. by split; [left|].
Qed.
Lemma cheapest_bid_chosen offers provider price :
  (provider, price) = cheapest_bid offers → chosen offers provider price.
Proof.
  intros Hb. split.
  - pose proof (cheapest_bid_least offers) as Hl. by rewrite <-Hb in Hl.
  - unfold cheapest_bid in Hb. destruct (fold_cheaper_from offers ("", f64_MAX)) as [(x & Hx & Hf)|Hf];
      rewrite Hf in Hb; simplify_eq; [left; eauto|by right].
Qed.

(** The calls contain the transaction that created the deployment [dseq]. *)
Definition opened_by opt (args : DeployArgs) h new dseq : Prop :=
  ∃ l c l' gseq oseq, new = l ++ c :: l' ∧ created opt args (h ++ l) c dseq gseq oseq.

(** The calls of a deployment that went through, in their order, and the record made from their outputs. *)
Definition deployed opt (args : DeployArgs) h new m : Prop :=
  ∃ certs create bids leases status_calls dseq gseq oseq offers provider price path status,
    let lease := lease_call opt dseq gseq oseq provider in
    let manifest := manifest_call opt path args dseq gseq oseq provider in
    new = certs ++ [create] ++ bids ++ [lease] ++ leases ++ [manifest] ++ status_calls
    ∧ certified opt h certs
    ∧ created opt args (h ++ certs) create dseq gseq oseq
    ∧ offered DEPLOYMENT_TIMEOUT opt (h ++ certs ++ [create]) bids dseq gseq oseq offers
    ∧ (provider, price) = cheapest_bid offers ∧ chosen offers provider price
    ∧ (∃ o, succeeded (h ++ certs ++ [create] ++ bids) lease o)
    ∧ leased DEPLOYMENT_TIMEOUT opt (h ++ certs ++ [create] ++ bids ++ [lease]) leases dseq gseq oseq
    ∧ (∃ o, succeeded (h ++ certs ++ [create] ++ bids ++ [lease] ++ leases) manifest o)
    ∧ available DEPLOYMENT_TIMEOUT opt (h ++ certs ++ [create] ++ bids ++ [lease] ++ leases ++ [manifest])
        status_calls dseq gseq oseq provider status
    ∧ dm_status m = Deployed ∧ dm_dseq m = dseq ∧ dm_image m = da_image args
    ∧ (∃ i, dm_meta m = Some i ∧ di_provider i = provider ∧ di_price i = price
         ∧ pi_port (di_provider_info i) = da_port args)
    ∧ deployed_meta args dseq provider price status = Ok m.

Lemma deployed_meta_fields args dseq provider price st m :
  deployed_meta args dseq provider price st = Ok m →
  dm_status m = Deployed ∧ dm_dseq m = dseq ∧ dm_image m = da_image args
  ∧ ∃ i, dm_meta m = Some i ∧ di_provider i = provider ∧ di_price i = price ∧ pi_port (di_provider_info i) = da_port args.
Proof. unfold deployed_meta. intros Hm. repeat case_match; simplify_eq; split_and!; eauto 6. Qed.

Lemma deploy_rest sender args dseq gseq oseq provider price s :
  (create_lease dseq gseq oseq provider;;
   check_lease_status dseq gseq oseq;;
   send_manifest dseq gseq oseq provider (sdl_text args);;
   status ← check_manifest_status dseq gseq oseq provider;
   meta ← lift (deployed_meta args dseq provider price status);
   on_compute_storage (add_deployment sender meta);; mret meta) s
  = (lease_steps args dseq gseq oseq provider price ≫= store_meta sender) s.
Proof. unfold lease_steps. do 4 (rewrite bind_bind; apply bind_ext; intros ? ?). done. Qed.
(** The part of [compute_deploy] before the lease. *)
Definition deploy_start (args : DeployArgs) : ST ComputeModuleImpl ManyError (N * N * N * (string * f64)) :=
  generate_cert;;
  d ← create_deployment args;
  let '(dseq, gseq, oseq, _) := d in
  bid ← create_bid dseq gseq oseq;
  mret (dseq, gseq, oseq, bid).
Definition started opt (args : DeployArgs) h new dseq gseq oseq (bid : string * f64) : Prop :=
  ∃ certs c bids offers, new = certs ++ [c] ++ bids ∧ certified opt h certs
    ∧ created opt args (h ++ certs) c dseq gseq oseq
    ∧ offered DEPLOYMENT_TIMEOUT opt (h ++ certs ++ [c]) bids dseq gseq oseq offers ∧ bid = cheapest_bid offers.

Lemma deploy_start_trace args :
  trace 123 (deploy_start args) (λ opt h new r, no_close new
    ∧ ∀ dseq gseq oseq bid, r = Ok (dseq, gseq, oseq, bid) → started opt args h new dseq gseq oseq bid).
Proof.
  intros s. unfold deploy_start. rewrite bind_unfold.
  destruct (generate_cert_trace s) as (certs & r1 & -> & Hl1 & Ha1 & Hc1 & Hcert).
  destruct r1 as [[]|e| |]; try done; [|exists certs, (Err e); split_and!; [done|lia|done..]].
  rewrite bind_unfold. destruct (create_deployment_trace args (called s certs)) as (l2 & r2 & -> & Hl2 & Ha2 & Hc2 & HQ2).
  destruct r2 as [[[[dseq gseq] oseq] sdl]|e| |]; try done; rewrite called_app.
  2: { exists (certs ++ l2), (Err e). rewrite length_app, no_close_app. split_and!; [done|lia|done..]. }
  destruct (HQ2 _ _ _ _ eq_refl) as (_ & c & -> & Hcr). rewrite bind_unfold.
  destruct (create_bid_trace dseq gseq oseq (called s (certs ++ [c]))) as (bids & r3 & -> & Hl3 & Ha3 & Hc3 & HQ3).
  unfold DEPLOYMENT_TIMEOUT in Hl3. rewrite called_app. simpl in Hl2.
  destruct r3 as [bid|e| |]; try done.
  all: eexists ((certs ++ [c]) ++ bids), _; rewrite !length_app, !no_close_app;
    (split; [reflexivity|]; split; [simpl; lia|]; split; [done|]; split; [done|]); try done.
  intros ? ? ? ? [= <- <- <- <-]. destruct (HQ3 _ eq_refl) as (offers & Hoff & ->).
  exists certs, c, bids, offers. rewrite <-app_assoc. specialize (Hcert eq_refl). by split_and!.
Qed.

Lemma deploy_split sender args s :
  compute_deploy sender args s =
    (d ← deploy_start args;
     let '(dseq, gseq, oseq, bid) := d in
     lease_steps args dseq gseq oseq bid.1 bid.2 ≫= store_meta sender) s.
Proof.
  unfold compute_deploy, deploy_start. rewrite bind_bind. apply bind_ext. intros _ s1. rewrite bind_bind.
  rewrite !(bind_unfold (create_deployment args)).
  destruct (create_deployment_trace args s1) as (l & r & -> & _ & Ha & _ & HQ).
  destruct r as [[[[dseq gseq] oseq] sdl]|e| |]; try done.
  destruct (HQ _ _ _ _ eq_refl) as (-> & _). rewrite bind_bind. apply bind_ext. intros [provider price] s2.
  apply deploy_rest.
Qed.
(** C17: Deploying always answers, after at most 366 runs of the tool. When it succeeds, the calls made
    are exactly those of one deployment in their order: the certificate (it exists already, or it is generated
    and published), the creation with the description of the arguments, the list of offers, asked for until
    there are any or 120 times, the lease with the provider taken from the offers, the list of leases until
    there are any, one of them active, the manifest, and the status until the service is available. The provider
    and the price are those of an offer that none undercuts; when no offer arrived in 120 rounds (or none is below
    the largest number) the lease is asked for with the empty provider. The store changes by exactly the new
    record, under the sender and the number of the deployment. When it fails, the store is unchanged. The only
    deployment it ever closes is the one it created. *)
Theorem compute_deploy_spec sender args s :
  ∃ s' r new, compute_deploy sender args s = (s', r) ∧ akash_opt s' = akash_opt s ∧ calls s' = calls s ++ new
    ∧ (length new ≤ 366)%nat
    ∧ (∀ c, c ∈ new → is_close c = true →
         ∃ dseq, c = close_call (akash_opt s) dseq ∧ opened_by (akash_opt s) args (calls s) new dseq)
    ∧ match r with
      | Ok m => no_close new ∧ deployed (akash_opt s) args (calls s) new m
          ∧ stored (compute_storage s) (compute_storage s') (key_for_deployment sender (dm_dseq m)) (to_vec m)
      | Err _ => compute_storage s' = compute_storage s
      | _ => False
      end.
Proof.
  rewrite deploy_split, bind_unfold.
  destruct (deploy_start_trace args s) as (new & r & -> & Hlen & Ha & Hnc & HQ).
  destruct r as [[[[dseq gseq] oseq] [provider price]]|e| |]; try done.
  2: { exists (called s new), (Err e), new. split_and!; [done..|lia| |done]. intros c Hc Hcl.
       by destruct (no_close_not _ _ Hnc Hc). }
  destruct (HQ _ _ _ _ eq_refl) as (certs & c & bids & offers & -> & Hcert & Hcr & Hoff & Hbid). cbn [fst snd].
  set (l1 := certs ++ [c] ++ bids) in *. rewrite bind_unfold.
  destruct (lease_steps_trace args dseq gseq oseq provider price (called s l1)) as (l2 & r2 & -> & Ha2 & Hc2 & HQ2).
  rewrite called_app. destruct r2 as [m|e| |]; try done.
  - destruct (HQ2 m eq_refl) as (? & leases & ? & sts & st & path & o1 & o3 & -> & -> & Ho1 & Hle & -> & Ho3 & Hav & Hm).
    change (akash_opt (called s l1)) with (akash_opt s) in *.
    destruct (store_meta_ok sender m (called s (l1 ++ [lease_call (akash_opt s) dseq gseq oseq provider]
      ++ leases ++ [manifest_call (akash_opt s) path args dseq gseq oseq provider] ++ sts))) as (st' & -> & Hst).
    apply cleans_ok in Hc2 as [Hc2 Hn2].
    eexists _, _, _. split; [reflexivity|]. split; [done|]. split; [reflexivity|].
    assert (no_close (l1 ++ [lease_call (akash_opt s) dseq gseq oseq provider]
      ++ leases ++ [manifest_call (akash_opt s) path args dseq gseq oseq provider] ++ sts)) as Hall.
    { by apply no_close_app. }
    split; [rewrite length_app; cbn [akash_opt called] in *; lia|].
    split; [intros x Hx Hcl; by destruct (no_close_not _ _ Hall Hx)|].
    split; [done|]. split; [|done]. destruct (deployed_meta_fields _ _ _ _ _ _ Hm) as (? & ? & ? & ?).
    pose proof (cheapest_bid_chosen _ _ _ Hbid) as Hchosen.
    exists certs, c, bids, leases, sts, dseq, gseq, oseq, offers, provider, price, path, st. cbv zeta.
    unfold called, l1 in *. cbn [calls akash_opt] in *. rewrite <-!app_assoc in *. split_and!; eauto.
  - exists (called s (l1 ++ l2)), (Err e), (l1 ++ l2). split; [done|]. split; [done|]. split; [done|].
    destruct Hc2 as (l & Hl & Hn & Hnew). rewrite length_app.
    split; [destruct Hnew as [->|[-> _]]; rewrite ?length_app; simpl; lia|]. split; [|done].
    intros x Hx Hcl. exists dseq. split; [|exists certs, c, (bids ++ l2), gseq, oseq; unfold l1; by rewrite <-!app_assoc].
    assert (no_close (l1 ++ l)) as Hall by by apply no_close_app.
    destruct Hnew as [->|[-> _]]; [by destruct (no_close_not _ _ Hall Hx)|].
    rewrite app_assoc in Hx. apply elem_of_app in Hx as [Hx|Hx%list_elem_of_singleton]; [|done].
    by destruct (no_close_not _ _ Hall Hx).
Qed.
(** ** Closing *)

Lemma remove_deployment_cases sender dseq st l :
  app_view st !! key_for_deployment sender dseq = Some l →
  match decode (A := DeploymentMeta) l with
  | Ok m => ∃ st', remove_deployment sender dseq st = (st', Ok tt)
      ∧ stored st st' (key_for_deployment sender dseq) (to_vec (closed_meta m))
  | _ => ∃ r, remove_deployment sender dseq st = (st, r) ∧ is_ok r = false
  end.
Proof.
  intros Hl. unfold remove_deployment. rewrite (bind_reads _ _ st (Some l)) by (by rewrite app_get_view, Hl).
  cbn [ok_or]. rewrite (bind_lift (Ok l) _ st l) by done.
  destruct (decode l) as [m|e|p|]; [|by eexists..]. cbn [map_err].
  rewrite (bind_lift (Ok m) _ st m) by done. apply write_ok.
Qed.

Lemma compute_close_missing sender dseq s :
  app_view (compute_storage s) !! key_for_deployment sender dseq = None →
  compute_close sender (mkCloseArgs dseq) s =
    (s, Err (unknown ("deployment " +:+ pretty dseq +:+ " not found for " +:+ address_to_string sender))).
Proof.
  intros Hk. unfold compute_close. rewrite bind_unfold. unfold reads, compute_has. rewrite app_get_view.
  cbn [ca_dseq]. by rewrite Hk.
Qed.

(** Closing reaches only a deployment of the sender: without a record under the sender and the number
    it is refused, and nothing is run. Otherwise the tool is run once, to close that number; if it
    succeeds and the record can be read, the record becomes closed, without its provider, and no other entry of the store
    changes; in every other case the store is unchanged. *)
Theorem compute_close_spec sender args s :
  let k := key_for_deployment sender (ca_dseq args) in
  let '(s', r) := compute_close sender args s in
  match app_view (compute_storage s) !! k with
  | None => s' = s ∧ r = Err (unknown ("deployment " +:+ pretty (ca_dseq args) +:+ " not found for "
                                        +:+ address_to_string sender))
  | Some l =>
      calls s' = calls s ++ [close_call (akash_opt s) (ca_dseq args)]
      ∧ match r with
        | Ok _ => ∃ o m, succeeded (calls s) (close_call (akash_opt s) (ca_dseq args)) o ∧ decode l = Ok m
            ∧ stored (compute_storage s) (compute_storage s') k (to_vec (closed_meta m))
            ∧ ∀ a d, (a, d) ≠ (sender, ca_dseq args) →
                app_view (compute_storage s') !! key_for_deployment a d
                = app_view (compute_storage s) !! key_for_deployment a d
        | _ => compute_storage s' = compute_storage s
        end
  end.
Proof.
  intros k. destruct args as [dseq]. cbn [ca_dseq] in *.
  destruct (app_view (compute_storage s) !! k) as [l|] eqn:Hl; [|by rewrite (compute_close_missing _ _ _ Hl)].
  unfold compute_close. rewrite bind_unfold. unfold reads, compute_has. rewrite app_get_view. cbn [ca_dseq mbind outcome_bind].
  fold k. rewrite Hl.
  rewrite bool_decide_true by done. cbn [negb]. rewrite bind_unfold.
  destruct (close_deployment_trace dseq s) as (new & r & -> & _ & Ha & -> & HQ). destruct r as [[]|e| |]; try done.
  destruct (HQ tt eq_refl) as [o Ho]. unfold on_compute_storage.
  pose proof (remove_deployment_cases sender dseq (compute_storage s) l Hl) as Hr.
  change (compute_storage (called s [close_call (akash_opt s) dseq])) with (compute_storage s).
  destruct (decode l) as [m|e|p|] eqn:Hd.
  2-4: destruct Hr as (r & -> & Hr); by destruct r.
  destruct Hr as (st' & -> & Hst). split; [done|]. exists o, m. split_and!; try done.
  intros a d Hne. cbn [compute_storage]. rewrite (stored_view _ _ _ _ Hst), lookup_insert_ne; [done|].
  intros Hk%key_deployment_inj. apply Hne. by destruct Hk as [-> ->].
Qed.
(** ** What the store holds *)

(** Every entry below [/deploy/] is a record under its number; it has a provider exactly while it is deployed. *)
Definition well_formed_entry (k v : bytes) : Prop :=
  ∃ owner m, k = key_for_deployment owner (dm_dseq m) ∧ decode v = Ok m
    ∧ (dm_status m = Deployed ↔ is_Some (dm_meta m)).
Definition well_formed (view : gmap bytes bytes) : Prop :=
  ∀ k v, view !! k = Some v → b "/deploy/" `prefix_of` k → well_formed_entry k v.
Definition compute_ok (st : ComputeStorage) : Prop := well_formed (app_view st) ∧ app_synced st.

Lemma stored_ok st st' k v : compute_ok st → stored st st' k v → well_formed_entry k v → compute_ok st'.
Proof.
  intros [Hw Hs] Hst Hk. split.
  - intros k' v'. rewrite (stored_view _ _ _ _ Hst).
    destruct (decide (k' = k)) as [->|Hne]; [rewrite lookup_insert_eq|rewrite lookup_insert_ne by done; by apply Hw].
    by intros [= <-] _.
  - unfold app_synced. rewrite (same_blockchain _ _ (stored_frame _ _ _ _ Hst)), (stored_db _ _ _ _ Hst). by intros ->.
Qed.

Lemma bind_unfold_app {A B} (m : AppM A) (f : A → AppM B) st :
  (m ≫= f) st = match m st with
                | (st', Ok a) => f a st'
                | (st', Err e) => (st', Err e)
                | (st', Panic t) => (st', Panic t)
                | (st', OutOfFuel) => (st', OutOfFuel)
                end.
Proof. done. Qed.

(** An operation that writes nothing below [/deploy/]. *)
Definition spares_deployments (st st' : ComputeStorage) : Prop :=
  (∀ k, b "/deploy/" `prefix_of` k → app_view st' !! k = app_view st !! k)
  ∧ (app_synced st → app_synced st').
Lemma spares_ok st st' : compute_ok st → spares_deployments st st' → compute_ok st'.
Proof.
  intros [Hw Hs] [Hv Hs']. split; [|auto]. intros k v Hk Hp. rewrite Hv in Hk by done. by apply Hw.
Qed.
Lemma compute_commit_spares st : spares_deployments st (compute_commit st).1.
Proof.
  unfold compute_commit. rewrite bind_unfold_app.
  assert ((∃ n st1, compute_inc_height st = (st1, Ok n) ∧ app_view st1 = <[b "/height" := be_bytes 8 (n + 1)]> (app_view st))
    ∨ (compute_inc_height st).1 = st ∧ is_ok (compute_inc_height st).2 = false) as [(n & st1 & -> & Hv1)|[Hst Hr]].
  { unfold compute_inc_height. rewrite bind_unfold_app. unfold reads.
    destruct (compute_get_height st) as [n|e|p|]; [left|by right..]. exists n.
    destruct (app_apply_one unwraps (b "/height") (Put (be_bytes 8 (n + 1))) st) as (st1 & Hs1 & Hv1 & _).
    exists st1. by rewrite (bind_ok _ _ _ _ _ Hs1). }
  2: { destruct (compute_inc_height st) as [st1 [n| | |]]; cbn [fst snd is_ok] in *; subst; by split. }
  rewrite (bind_reads _ _ st1 (app_event_id st1)) by done.
  destruct (app_apply_one unwraps (b "/latest_event_id") (Put (to_vec (app_event_id st1))) st1) as (st2 & Hs2 & Hv2 & _).
  rewrite (bind_ok _ _ _ _ _ Hs2).
  destruct (app_commit_ok unwraps st2) as (st3 & Hs3 & Hv3 & Hd3 & _). rewrite (bind_ok _ _ _ _ _ Hs3).
  rewrite (bind_reads _ _ st3 (merk_root_hash (app_store st3))) by done. cbn [mbind st_bind modify_state fst].
  split.
  - intros k [r ->]. transitivity (app_view st3 !! (b "/deploy/" ++ r)); [done|]. rewrite Hv3, Hv2, Hv1. unfold apply_op. cbn [fst snd]. by rewrite !lookup_insert_ne.
  - intros _ _. change (app_db st3 = app_view st3). by rewrite Hd3, Hv3.
Qed.

(** The requests that reach a node. *)
Inductive compute_cmd : Type :=
| C_Deploy (sender : Address) (args : DeployArgs)
| C_Close (sender : Address) (args : CloseArgs)
| C_InitChain
| C_BeginBlock (block : AbciBlock)
| C_Commit.
Definition compute_state_after (s : ComputeModuleImpl) (c : compute_cmd) : ComputeModuleImpl :=
  match c with
  | C_Deploy sender args => (compute_deploy sender args s).1
  | C_Close sender args => (compute_close sender args s).1
  | C_InitChain => (compute_init_chain s).1
  | C_BeginBlock block => (compute_begin_block block s).1
  | C_Commit => (compute_abci_commit s).1
  end.
Definition after_all s (l : list compute_cmd) : ComputeModuleImpl := foldl compute_state_after s l.

Lemma compute_deploy_ok sender args s :
  compute_ok (compute_storage s) → compute_ok (compute_storage (compute_deploy sender args s).1).
Proof.
  intros Hok. rewrite deploy_split, bind_unfold.
  destruct (deploy_start_trace args s) as (new & r & -> & _ & Ha & _).
  destruct r as [[[[dseq gseq] oseq] [provider price]]|e| |]; try done. cbn [fst snd]. rewrite bind_unfold.
  destruct (lease_steps_trace args dseq gseq oseq provider price (called s new)) as (l & r & -> & Ha2 & _ & HQ).
  destruct r as [m|e| |]; try done. destruct (store_meta_ok sender m (called (called s new) l)) as (st' & -> & Hst).
  destruct (HQ m eq_refl) as (? & ? & ? & ? & st & ? & ? & ? & _ & _ & _ & _ & _ & _ & _ & Hm).
  destruct (deployed_meta_fields _ _ _ _ _ _ Hm) as (Hd & _ & _ & i & Hi & _).
  eapply stored_ok; [exact Hok|exact Hst|]. exists sender, m. split; [done|]. split; [by rewrite decode_to_vec|].
  rewrite Hd, Hi. split; [by eexists|done].
Qed.
Lemma compute_close_ok sender args s :
  compute_ok (compute_storage s) → compute_ok (compute_storage (compute_close sender args s).1).
Proof.
  intros Hok. destruct args as [dseq].
  destruct (app_view (compute_storage s) !! key_for_deployment sender dseq) as [l|] eqn:Hl;
    [|by rewrite (compute_close_missing _ _ _ Hl)].
  unfold compute_close. rewrite bind_unfold. unfold reads, compute_has. rewrite app_get_view. cbn [ca_dseq mbind outcome_bind].
  rewrite Hl.
  rewrite bool_decide_true by done. cbn [negb]. rewrite bind_unfold.
  destruct (close_deployment_trace dseq s) as (new & r & -> & _ & Ha & _ & _). destruct r as [[]|e| |]; try done.
  pose proof (remove_deployment_cases sender dseq (compute_storage s) l Hl) as Hr. unfold on_compute_storage.
  change (compute_storage (called s new)) with (compute_storage s).
  destruct (proj1 Hok _ _ Hl) as (owner & m & [<- ->]%key_deployment_inj & Hd & _); [by eexists|].
  rewrite Hd in Hr. destruct Hr as (st' & -> & Hst). eapply stored_ok; [done..|].
  exists sender, (closed_meta m). split; [done|]. split; [by rewrite decode_to_vec|]. split; [done|by intros [??]].
Qed.
Lemma compute_step_ok c s : compute_ok (compute_storage s) → compute_ok (compute_storage (compute_state_after s c)).
Proof.
  intros Hok. destruct c as [sender args|sender args| |block|]; simpl.
  - by apply compute_deploy_ok.
  - by apply compute_close_ok.
  - done.
  - unfold compute_begin_block, on_compute_storage, modify_state. simpl. by destruct (block_time block).
  - unfold compute_abci_commit, on_compute_storage. pose proof (compute_commit_spares (compute_storage s)) as Hsp.
    destruct (compute_commit (compute_storage s)) as [st' r]. simpl in *. by eapply spares_ok.
Qed.
Lemma compute_run_ok l s : compute_ok (compute_storage s) → compute_ok (compute_storage (after_all s l)).
Proof. revert s. induction l as [|c l IH]; intros s Hok; [done|]. apply IH. by apply compute_step_ok. Qed.

(** A node made on an empty store. *)
Lemma compute_new_ok identity (m : merk) bc st :
  merk_view m = ∅ → compute_new identity (Ok m) bc = Ok st → compute_ok st.
Proof.
  intros Hm Hn. unfold compute_new in Hn. cbn [mbind outcome_bind] in Hn.
  destruct (merk_apply_ok m _ (keys_ascending_singleton (b "/config/identity") (Put (address_to_vec identity))))
    as (m1 & Hm1 & Hv1 & _). rewrite Hm1 in Hn. cbn [mbind outcome_bind] in Hn.
  destruct (merk_apply_ok m1 _ (keys_ascending_singleton (b "/latest_event_id") (Put (to_vec ([as_u8 0] : EventId)))))
    as (m2 & Hm2 & Hv2 & _). rewrite Hm2 in Hn. cbn [mbind outcome_bind KvStore.expect_get] in Hn.
  destruct (merk_commit_ok m2) as (m3 & Hm3 & Hv3 & Hd3). rewrite Hm3 in Hn. injection Hn as <-. split.
  - intros k v Hk [r ->]. change (merk_view m3 !! (b "/deploy/" ++ r) = Some v) in Hk. exfalso.
    rewrite Hv3, Hv2, Hv1, Hm in Hk. unfold apply_batch in Hk. cbn [foldl apply_op fst snd] in Hk.
    by rewrite !lookup_insert_ne in Hk.
  - intros _. change (merk_db m3 = merk_view m3). congruence.
Qed.

(** *** Listing *)

(** The record of a deployment. *)
Definition deployment_at (st : ComputeStorage) (owner : Address) dseq : option DeploymentMeta :=
  v ← app_view st !! key_for_deployment owner dseq; match decode v with Ok m => Some m | _ => None end.
Definition list_prefix (owner : option Address) : bytes :=
  match owner with Some a => b "/deploy/" ++ ab a | None => b "/deploy/" end.
Definition matches_filter (f : option ComputeListFilter) m : bool :=
  match f with Some (FilterStatus st) => bool_decide (dm_status m = st) | _ => true end.

Lemma collect_deployments_ok l :
  Forall (λ kv : bytes * bytes, ∃ m : DeploymentMeta, decode kv.2 = Ok m) l →
  ∃ ms, collect_deployments (Ok <$> l) = Ok ms ∧ ∀ m : DeploymentMeta, m ∈ ms ↔ ∃ kv, kv ∈ l ∧ decode kv.2 = Ok m.
Proof.
  induction 1 as [|kv l [m Hm] _ (ms & IH & Hms)].
  - exists []. split; [done|]. intros m. split; [by intros ?%not_elem_of_nil|]. by intros (? & ?%not_elem_of_nil & _).
  - exists (m :: ms). cbn [collect_deployments fmap list_fmap map_err mbind outcome_bind]. rewrite Hm.
    cbn [map_err mbind outcome_bind]. rewrite IH. split; [done|]. intros m'. rewrite elem_of_cons, Hms. split.
    + intros [->|(kv' & Hkv & ?)]; [exists kv|exists kv']; rewrite elem_of_cons; auto.
    + intros (kv' & [->|Hkv]%elem_of_cons & Hd); [left; congruence|right; eauto].
Qed.

Lemma compute_list_ok s args :
  compute_ok (compute_storage s) → app_blockchain (compute_storage s) = false →
  ∃ ms, compute_list s args = Ok ms ∧ ∀ m, m ∈ ms ↔
    ∃ owner, deployment_at (compute_storage s) owner (dm_dseq m) = Some m
      ∧ list_prefix (cl_owner args) `prefix_of` key_for_deployment owner (dm_dseq m)
      ∧ matches_filter (cl_filter args) m = true.
Proof.
  intros [Hw Hs] Hbc. specialize (Hs Hbc). unfold compute_list, list_deployment, all_dseq.
  rewrite app_iter_ok, Hs. fold (list_prefix (cl_owner args)).
  set (l := iter_entries _ _ _).
  assert (∀ k v, (k, v) ∈ l ↔ app_view (compute_storage s) !! k = Some v ∧ list_prefix (cl_owner args) `prefix_of` k) as Hl.
  { intros k v. apply KvLaws.elem_of_iter_entries. }
  assert (∀ k, list_prefix (cl_owner args) `prefix_of` k → b "/deploy/" `prefix_of` k) as Hp.
  { intros k. destruct (cl_owner args) as [a|]; [|done]. intros Hk. etrans; [|exact Hk]. by eexists. }
  destruct (collect_deployments_ok l) as (ms & -> & Hms).
  { apply Forall_forall. intros [k v] [Hk Hpk]%Hl. destruct (Hw k v Hk (Hp k Hpk)) as (? & m & _ & Hm & _). eauto. }
  assert (∀ m, m ∈ ms ↔ ∃ owner, deployment_at (compute_storage s) owner (dm_dseq m) = Some m
      ∧ list_prefix (cl_owner args) `prefix_of` key_for_deployment owner (dm_dseq m)) as Hm.
  { intros m. rewrite Hms. unfold deployment_at. split.
    - intros ([k v] & [Hk Hpk]%Hl & Hd). destruct (Hw k v Hk (Hp k Hpk)) as (owner & m' & -> & Hd' & _).
      cbn [snd] in Hd. rewrite Hd in Hd'. injection Hd' as <-. exists owner. rewrite Hk. cbn [mbind option_bind].
      by rewrite Hd.
    - intros (owner & Hd & Hpk). destruct (app_view _ !! _) as [v|] eqn:Hv; [|done]. cbn [mbind option_bind] in Hd.
      exists (key_for_deployment owner (dm_dseq m), v). split; [by apply Hl|]. cbn [snd].
      destruct (decode v); [by injection Hd as ->|done..]. }
  cbn [mbind outcome_bind]. eexists. split; [reflexivity|]. intros m. unfold matches_filter.
  destruct (cl_filter args) as [[|st]|]; [by setoid_rewrite Hm; naive_solver| |by setoid_rewrite Hm; naive_solver].
  rewrite list_elem_of_In, filter_In, <-list_elem_of_In, Hm. naive_solver.
Qed.

(** C18: In every state that a node made on an empty store reaches, whatever requests and blocks it gets
    and whatever the tool answers: each entry below [/deploy/] decodes to a record, under the number in its
    key, that has a provider exactly while it is deployed; and, outside a blockchain, a list is never refused and gives
    exactly the records under the prefix asked for that match the filter. *)
Theorem compute_store_typed initial opt (store : merk) bc s0 l :
  merk_view store = ∅ → compute_module_new initial opt (Ok store) bc = Ok s0 →
  let s := after_all s0 l in
  well_formed (app_view (compute_storage s))
  ∧ (app_blockchain (compute_storage s) = false → ∀ args, ∃ ms, compute_list s args = Ok ms ∧ ∀ m, m ∈ ms ↔
       ∃ owner, deployment_at (compute_storage s) owner (dm_dseq m) = Some m
         ∧ list_prefix (cl_owner args) `prefix_of` key_for_deployment owner (dm_dseq m)
         ∧ matches_filter (cl_filter args) m = true).
Proof.
  intros Hm Hn s. unfold compute_module_new in Hn.
  apply bind_Ok_inv in Hn as (st & Hst%map_err_ok & Hn). assert (compute_storage s0 = st) as Hs0.
  { destruct (ci_hash initial) as [h|]; [|by injection Hn as <-]. case_bool_decide; [done|]. by injection Hn as <-. }
  assert (compute_ok (compute_storage s)) as Hok.
  { apply compute_run_ok. rewrite Hs0. by eapply compute_new_ok. }
  split; [apply Hok|]. intros Hbc args. by apply compute_list_ok.
Qed.

(** ** Deployments left behind *)

(** The steps from the lease to the status that the provider reports. *)
Definition provider_steps (args : DeployArgs) dseq gseq oseq (provider : string) : ST ComputeModuleImpl ManyError LeaseStatus :=
  create_lease dseq gseq oseq provider;;
  check_lease_status dseq gseq oseq;;
  send_manifest dseq gseq oseq provider (sdl_text args);;
  check_manifest_status dseq gseq oseq provider.
Lemma provider_steps_trace args dseq gseq oseq provider :
  cleaning 242 dseq (provider_steps args dseq gseq oseq provider) (λ _ _ _ _, True).
Proof.
  eapply cleaning_weaken; [|done].
  refine (cleaning_bind 1 241 dseq _ _ _ _ (create_lease_trace _ _ _ _) _); intros ?.
  refine (cleaning_bind 120 121 dseq _ _ _ _ (lease_loop_trace 120 _ _ _) _); intros ?.
  exact (cleaning_bind 1 120 dseq _ _ _ _ (send_manifest_trace _ _ _ _ _) (λ _, manifest_loop_trace 120 _ _ _ _)).
Qed.
Lemma lease_steps_provider args dseq gseq oseq provider price s :
  lease_steps args dseq gseq oseq provider price s
  = (provider_steps args dseq gseq oseq provider ≫= λ st, lift (deployed_meta args dseq provider price st)) s.
Proof. unfold provider_steps. do 3 (rewrite bind_bind; apply bind_ext; intros ? ?). done. Qed.

(** A deployment that is created, leased and running, but whose provider reports neither an address
    nor a forwarded port, is left behind: the request fails, the calls have no closing, the store gets no
    record of the deployment, and closing its number is then refused without running the tool. *)
Theorem compute_deploy_orphan sender args s dseq gseq oseq bid s1 s2 status e :
  deploy_start args s = (s1, Ok (dseq, gseq, oseq, bid)) →
  provider_steps args dseq gseq oseq bid.1 s1 = (s2, Ok status) →
  deployed_meta args dseq bid.1 bid.2 status = Err e →
  app_view (compute_storage s) !! key_for_deployment sender dseq = None →
  compute_deploy sender args s = (s2, Err e) ∧ compute_storage s2 = compute_storage s
  ∧ (∃ new, calls s2 = calls s ++ new ∧ opened_by (akash_opt s) args (calls s) new dseq ∧ no_close new)
  ∧ (compute_close sender (mkCloseArgs dseq) s2).1 = s2 ∧ is_ok (compute_close sender (mkCloseArgs dseq) s2).2 = false.
Proof.
  intros Hd Hp Hm Hk. destruct (deploy_start_trace args s) as (l1 & r1 & Hr1 & _ & _ & Hc1 & HQ). rewrite Hd in Hr1.
  injection Hr1 as -> <-. destruct (HQ _ _ _ _ eq_refl) as (certs & c & bids & offers & Hl1 & _ & Hcr & _).
  destruct (provider_steps_trace args dseq gseq oseq bid.1 (called s l1)) as (l2 & r2 & Hr2 & _ & Hc2 & _).
  rewrite Hp in Hr2. injection Hr2 as -> <-. apply cleans_ok in Hc2 as [Hc2 _]. rewrite called_app in *. split_and!.
  - rewrite deploy_split, bind_unfold, Hd, bind_unfold, lease_steps_provider, bind_unfold, Hp. unfold lift. by rewrite Hm.
  - done.
  - exists (l1 ++ l2). split; [done|]. split; [|by apply no_close_app]. exists certs, c, (bids ++ l2), gseq, oseq.
    rewrite Hl1, <-!app_assoc. done.
  - by rewrite compute_close_missing.
  - by rewrite compute_close_missing.
Qed.
End compute_laws.

(** ** The allow list *)

Section compute_server_laws.
Context `{ComputeEnv, !ComputeCodecs, Minicbor}.

(** With an allow list, a sender that is not on it gets no answer to queries either. *)
Theorem compute_allow_list_blocks_queries allowed m w :
  request_from m ∉ allowed →
  module_execute (compute_server_module (Some allowed)) m w = (w, Err invalid_from_identity).
Proof. intros Hm. simpl. by rewrite bool_decide_false. Qed.
End compute_server_laws.
