(* ===== verification/Codecs.v ===== *)
(** * A reference encoding

    [Cbor] (see [External]) leaves the encoding of each stored type to the library. This file
    gives one that meets its laws for every type the ledger stores, so that theorems that
    assume the laws can be applied to concrete stores: a value is packed into a positive number,
    and the bits of the number are the bytes of the encoding. It is not the CBOR encoding; only
    the round trip, which is all the laws ask for, is the same. *)
From S2P Require Import Prelude Error External Address Types Account Events Migration Storage.
From S2P Require Import IdStore.

#[local] Open Scope string_scope.
#[local] Open Scope list_scope.
#[local] Open Scope N_scope.

#[local] Unset Program Cases.

(** ** Packing *)

Class Pack (A : Type) := {
  pack : A → positive;
  unpack : positive → option A;
  unpack_pack a : unpack (pack a) = Some a;
}.

(** Several fields, as a list of numbers: [get] reads back what [put] put in front. *)
Class Fields (A : Type) := {
  put : A → list positive → list positive;
  get : list positive → option (A * list positive);
  get_put a l : get (put a l) = Some (a, l);
}.

#[global] Hint Mode Pack ! : typeclass_instances.
#[global] Hint Mode Fields ! : typeclass_instances.

#[global] Program Instance fields_pack `{Pack A} : Fields A | 10 := {|
  put a l := pack a :: l;
  get l := match l with p :: l => (λ a, (a, l)) <$> unpack p | [] => None end;
|}.
Next Obligation. intros. simpl. by rewrite unpack_pack. Qed.

#[global] Program Instance fields_pair `{Fields A, Fields B} : Fields (A * B) | 1 := {|
  put '(a, c) l := put a (put c l);
  get l := '(a, l) ← get l; '(c, l) ← get l; Some ((a, c), l);
|}.
Next Obligation.
  intros A ? B ? [a c] l. simpl. rewrite get_put. simpl. by rewrite get_put.
Qed.

(** A record is packed as the tuple of its fields. *)
Program Definition pack_iso {A T} `{Fields T} (to : A → T) (from : T → A)
    (from_to : ∀ a, from (to a) = a) : Pack A := {|
  pack a := positives_flatten (put (to a) []);
  unpack p := l ← positives_unflatten p; '(t, _) ← get l; Some (from t);
|}.
Next Obligation.
  intros. cbv beta. rewrite positives_unflatten_flatten. simpl. rewrite get_put. simpl. by rewrite from_to.
Qed.

#[global] Program Instance pair_pack `{Fields A, Fields B} : Pack (A * B) :=
  pack_iso (λ p, p) (λ p, p) _.
Next Obligation. done. Qed.

#[global] Program Instance countable_pack `{Countable A} : Pack A | 20 := {|
  pack := encode; unpack := countable.decode;
|}.
Next Obligation. intros. apply decode_encode. Qed.

(** Byte strings take eight bits per byte. *)
#[global] Program Instance bytes_pack : Pack bytes | 1 := {|
  pack l := encode (String.string_of_list_byte l);
  unpack p := String.list_byte_of_string <$> countable.decode p;
|}.
Next Obligation.
  intros l. cbv beta. rewrite decode_encode. simpl. by rewrite String.list_byte_of_string_of_list_byte.
Qed.

#[global] Program Instance address_pack : Pack Address | 1 := {|
  pack a := pack (addr_bytes (inner a));
  unpack p := l ← unpack p; wrap_opt (mkInner l);
|}.
Next Obligation.
  intros a. cbv beta. rewrite unpack_pack. simpl. destruct (inner a) as [l] eqn:E. simpl.
  rewrite <-E. apply wrap_opt_inner.
Qed.

#[global] Program Instance option_pack `{Pack A} : Pack (option A) | 2 := {|
  pack o := match o with None => 1%positive | Some a => (pack a)~0%positive end;
  unpack p := match p with xH => Some None | xO p => Some <$> unpack p | xI _ => None end;
|}.
Next Obligation. intros A ? [a|]; simpl; [by rewrite unpack_pack|done]. Qed.

#[global] Program Instance list_pack `{Pack A} : Pack (list A) | 2 := {|
  pack l := positives_flatten (pack <$> l);
  unpack p := l ← positives_unflatten p; mapM unpack l;
|}.
Next Obligation.
  intros A ? l. cbv beta. rewrite positives_unflatten_flatten. simpl.
  apply mapM_fmap_Some. intros. apply unpack_pack.
Qed.

#[global] Program Instance map_pack `{Countable K, Pack V} : Pack (gmap K V) | 2 := {|
  pack m := pack (A := list (K * V)) (map_to_list m);
  unpack p := list_to_map <$> unpack (A := list (K * V)) p;
|}.
Next Obligation. intros. cbv beta. rewrite unpack_pack. simpl. by rewrite list_to_map_to_list. Qed.

#[global] Program Instance role_set_pack : Pack (gset Role) | 1 := {|
  pack s := pack (A := list Role) (elements s);
  unpack p := list_to_set <$> unpack (A := list Role) p;
|}.
Next Obligation. intros s. cbv beta. rewrite unpack_pack. simpl. by rewrite list_to_set_elements_L. Qed.

(** One constructor of many: its number, then its arguments. *)
Definition tagged `{Fields A} (n : N) (a : A) : positive :=
  positives_flatten (put n (put a [])).
Definition untag (p : positive) : option (N * list positive) :=
  l ← positives_unflatten p; get l.
Definition field {A} `{Fields A} (l : list positive) : option A := fst <$> get l.

(** ** Records *)

Lemma untag_tagged `{Fields A} n (a : A) : untag (tagged n a) = Some (n, put a []).
Proof. unfold untag, tagged. rewrite positives_unflatten_flatten. simpl. by rewrite decode_encode. Qed.
Lemma field_put `{Fields A} (a : A) : field (put a []) = Some a.
Proof. unfold field. by rewrite get_put. Qed.
#[global] Opaque tagged untag field.
Ltac pack_cases :=
  intros; match goal with x : _ |- _ => destruct x end;
  rewrite untag_tagged; cbn [mbind option_bind]; by rewrite field_put.

#[global] Program Instance summary_pack : Pack TokenInfoSummary :=
  pack_iso (λ r, let '(mkSummary a b c) := r in (a, b, c))
    (λ '(a, b, c), mkSummary a b c) _.
Next Obligation. by intros []. Qed.
#[global] Program Instance supply_pack : Pack TokenInfoSupply :=
  pack_iso (λ r, let '(mkSupply a b c) := r in (a, b, c))
    (λ '(a, b, c), mkSupply a b c) _.
Next Obligation. by intros []. Qed.
#[global] Program Instance token_info_pack : Pack TokenInfo :=
  pack_iso (λ r, let '(mkTokenInfo a b c d) := r in (a, b, c, d))
    (λ '(a, b, c, d), mkTokenInfo a b c d) _.
Next Obligation. by intros []. Qed.
#[global] Program Instance maybe_owner_pack : Pack TokenMaybeOwner := {|
  pack x :=
    match x with
    | OwnerLeft a => tagged 0 a
    | OwnerNull => tagged 1 tt
    end;
  unpack p :=
    '(n, q) ← untag p;
    match n with
    | 0 => OwnerLeft <$> field q
    | 1 => (λ _ : unit, OwnerNull) <$> field q
    | _ => None
    end;
|}.
Solve All Obligations with pack_cases.
#[global] Program Instance memo_inner_pack : Pack MemoInner := {|
  pack x :=
    match x with
    | MemoString a => tagged 0 a
    | MemoBytes a => tagged 1 a
    end;
  unpack p :=
    '(n, q) ← untag p;
    match n with
    | 0 => MemoString <$> field q
    | 1 => MemoBytes <$> field q
    | _ => None
    end;
|}.
Solve All Obligations with pack_cases.
#[global] Program Instance memo_legacy_pack : Pack MemoLegacy :=
  pack_iso (λ r, let '(mkMemoLegacy a) := r in a)
    (mkMemoLegacy) _.
Next Obligation. by intros []. Qed.
#[global] Program Instance data_legacy_pack : Pack DataLegacy :=
  pack_iso (λ r, let '(mkDataLegacy a) := r in a)
    (mkDataLegacy) _.
Next Obligation. by intros []. Qed.
#[global] Program Instance logo_pack : Pack SingleVisualTokenLogo := {|
  pack x :=
    match x with
    | UnicodeChar a => tagged 0 a
    | Image a b => tagged 1 (a, b)
    end;
  unpack p :=
    '(n, q) ← untag p;
    match n with
    | 0 => UnicodeChar <$> field q
    | 1 => (λ '(a, b), Image a b) <$> field q
    | _ => None
    end;
|}.
Solve All Obligations with pack_cases.
#[global] Program Instance ext_info_pack : Pack TokenExtendedInfo :=
  pack_iso (λ r, let '(mkExtendedInfo a b) := r in (a, b))
    (λ '(a, b), mkExtendedInfo a b) _.
Next Obligation. by intros []. Qed.
#[global] Program Instance reason_pack `{Pack T} : Pack (Reason T) :=
  pack_iso (λ r, let '(mkReason a b c) := r in (a, b, c))
    (λ '(a, b, c), mkReason a b c) _.
Next Obligation. by intros ?? []. Qed.
#[global] Program Instance disabled_pack : Pack DisabledFlag := {|
  pack x :=
    match x with
    | DisabledBool a => tagged 0 a
    | DisabledReason a => tagged 1 a
    end;
  unpack p :=
    '(n, q) ← untag p;
    match n with
    | 0 => DisabledBool <$> field q
    | 1 => DisabledReason <$> field q
    | _ => None
    end;
|}.
Solve All Obligations with pack_cases.

(** [CborAny], as a tree. *)
Fixpoint cbor_tree (x : CborAny) : gen_tree positive :=
  match x with
  | CBool a => GenLeaf (tagged 0 a)
  | CInt a => GenLeaf (tagged 1 a)
  | CString a => GenLeaf (tagged 2 a)
  | CBytes a => GenLeaf (tagged 3 a)
  | CNull => GenLeaf (tagged 4 tt)
  | CArray l => GenNode 0 (map cbor_tree l)
  | CMap l => GenNode 1 (map (λ kv, GenNode 2 [cbor_tree kv.1; cbor_tree kv.2]) l)
  | CTagged t v => GenNode 3 [GenLeaf (pack t); cbor_tree v]
  end.
Definition cbor_leaf (p : positive) : option CborAny :=
  '(n, q) ← untag p;
  match n with
  | 0 => CBool <$> field q
  | 1 => CInt <$> field q
  | 2 => CString <$> field q
  | 3 => CBytes <$> field q
  | 4 => Some CNull
  | _ => None
  end.
Fixpoint tree_cbor (t : gen_tree positive) : option CborAny :=
  match t with
  | GenLeaf p => cbor_leaf p
  | GenNode 0 ts =>
      CArray <$> (fix go ts := match ts with
                               | [] => Some []
                               | t :: ts => x ← tree_cbor t; l ← go ts; Some (x :: l)
                               end) ts
  | GenNode 1 ts =>
      CMap <$> (fix go ts := match ts with
                             | GenNode _ [k; v] :: ts =>
                                 x ← tree_cbor k; y ← tree_cbor v; l ← go ts; Some ((x, y) :: l)
                             | [] => Some []
                             | _ => None
                             end) ts
  | GenNode _ [GenLeaf p; v] => t ← unpack p; x ← tree_cbor v; Some (CTagged t x)
  | _ => None
  end.
Fixpoint tree_cbor_tree (x : CborAny) : tree_cbor (cbor_tree x) = Some x.
Proof.
  destruct x; simpl; unfold cbor_leaf;
    try (rewrite untag_tagged; cbn [mbind option_bind]; by rewrite ?field_put).
  - induction l as [|y l IH]; [done|]. simpl. rewrite tree_cbor_tree.
    destruct ((fix go ts := match ts with [] => _ | _ :: _ => _ end) _); by simplify_eq/=.
  - induction l as [|[k v] l IH]; [done|]. simpl. rewrite !tree_cbor_tree. simpl.
    destruct ((fix go ts := match ts with [] => _ | _ :: _ => _ end) _); by simplify_eq/=.
  - rewrite decode_encode. simpl. by rewrite tree_cbor_tree.
Qed.
#[global] Program Instance cbor_any_pack : Pack CborAny := {|
  pack x := encode (cbor_tree x); unpack p := t ← countable.decode p; tree_cbor t;
|}.
Next Obligation. intros x. cbv beta. rewrite decode_encode. simpl. apply tree_cbor_tree. Qed.

(** Accounts, arguments of commands, and transactions. *)

#[global] Program Instance account_pack : Pack Account :=
  pack_iso (λ r, let '(mkAccount a b c d) := r in (a, b, c, d))
    (λ '(a, b, c, d), mkAccount a b c d) _.
Next Obligation. by intros []. Qed.
#[global] Program Instance CreateArgs_pack : Pack CreateArgs :=
  pack_iso (λ r, let '(mkCreateArgs a b c) := r in (a, b, c))
    (λ '(a, b, c), mkCreateArgs a b c) _.
Next Obligation. by intros []. Qed.
#[global] Program Instance SetDescriptionArgs_pack : Pack SetDescriptionArgs :=
  pack_iso (λ r, let '(mkSetDescriptionArgs a b) := r in (a, b))
    (λ '(a, b), mkSetDescriptionArgs a b) _.
Next Obligation. by intros []. Qed.
#[global] Program Instance AddRolesArgs_pack : Pack AddRolesArgs :=
  pack_iso (λ r, let '(mkAddRolesArgs a b) := r in (a, b))
    (λ '(a, b), mkAddRolesArgs a b) _.
Next Obligation. by intros []. Qed.
#[global] Program Instance RemoveRolesArgs_pack : Pack RemoveRolesArgs :=
  pack_iso (λ r, let '(mkRemoveRolesArgs a b) := r in (a, b))
    (λ '(a, b), mkRemoveRolesArgs a b) _.
Next Obligation. by intros []. Qed.
#[global] Program Instance DisableArgs_pack : Pack DisableArgs :=
  pack_iso (λ r, let '(mkDisableArgs a) := r in a)
    (mkDisableArgs) _.
Next Obligation. by intros []. Qed.
#[global] Program Instance AddFeaturesArgs_pack : Pack AddFeaturesArgs :=
  pack_iso (λ r, let '(mkAddFeaturesArgs a b c) := r in (a, b, c))
    (λ '(a, b, c), mkAddFeaturesArgs a b c) _.
Next Obligation. by intros []. Qed.
#[global] Program Instance SendArgs_pack : Pack SendArgs :=
  pack_iso (λ r, let '(mkSendArgs a b c d e) := r in (a, b, c, d, e))
    (λ '(a, b, c, d, e), mkSendArgs a b c d e) _.
Next Obligation. by intros []. Qed.
#[global] Program Instance KvPutArgs_pack : Pack KvPutArgs :=
  pack_iso (λ r, let '(mkKvPutArgs a b c) := r in (a, b, c))
    (λ '(a, b, c), mkKvPutArgs a b c) _.
Next Obligation. by intros []. Qed.
#[global] Program Instance KvDisableArgs_pack : Pack KvDisableArgs :=
  pack_iso (λ r, let '(mkKvDisableArgs a b c) := r in (a, b, c))
    (λ '(a, b, c), mkKvDisableArgs a b c) _.
Next Obligation. by intros []. Qed.
#[global] Program Instance KvTransferArgs_pack : Pack KvTransferArgs :=
  pack_iso (λ r, let '(mkKvTransferArgs a b c) := r in (a, b, c))
    (λ '(a, b, c), mkKvTransferArgs a b c) _.
Next Obligation. by intros []. Qed.
#[global] Program Instance WebDeployArgs_pack : Pack WebDeployArgs :=
  pack_iso (λ r, let '(mkWebDeployArgs a b c d e f) := r in (a, b, c, d, e, f))
    (λ '(a, b, c, d, e, f), mkWebDeployArgs a b c d e f) _.
Next Obligation. by intros []. Qed.
#[global] Program Instance WebRemoveArgs_pack : Pack WebRemoveArgs :=
  pack_iso (λ r, let '(mkWebRemoveArgs a b c) := r in (a, b, c))
    (λ '(a, b, c), mkWebRemoveArgs a b c) _.
Next Obligation. by intros []. Qed.
#[global] Program Instance TokenCreateArgs_pack : Pack TokenCreateArgs :=
  pack_iso (λ r, let '(mkTokenCreateArgs a b c d e f) := r in (a, b, c, d, e, f))
    (λ '(a, b, c, d, e, f), mkTokenCreateArgs a b c d e f) _.
Next Obligation. by intros []. Qed.
#[global] Program Instance TokenUpdateArgs_pack : Pack TokenUpdateArgs :=
  pack_iso (λ r, let '(mkTokenUpdateArgs a b c d e f) := r in (a, b, c, d, e, f))
    (λ '(a, b, c, d, e, f), mkTokenUpdateArgs a b c d e f) _.
Next Obligation. by intros []. Qed.
#[global] Program Instance TokenAddExtendedInfoArgs_pack : Pack TokenAddExtendedInfoArgs :=
  pack_iso (λ r, let '(mkTokenAddExtendedInfoArgs a b c) := r in (a, b, c))
    (λ '(a, b, c), mkTokenAddExtendedInfoArgs a b c) _.
Next Obligation. by intros []. Qed.
#[global] Program Instance TokenRemoveExtendedInfoArgs_pack : Pack TokenRemoveExtendedInfoArgs :=
  pack_iso (λ r, let '(mkTokenRemoveExtendedInfoArgs a b c) := r in (a, b, c))
    (λ '(a, b, c), mkTokenRemoveExtendedInfoArgs a b c) _.
Next Obligation. by intros []. Qed.
#[global] Program Instance TokenMintArgs_pack : Pack TokenMintArgs :=
  pack_iso (λ r, let '(mkTokenMintArgs a b c) := r in (a, b, c))
    (λ '(a, b, c), mkTokenMintArgs a b c) _.
Next Obligation. by intros []. Qed.
#[global] Program Instance TokenBurnArgs_pack : Pack TokenBurnArgs :=
  pack_iso (λ r, let '(mkTokenBurnArgs a b c d) := r in (a, b, c, d))
    (λ '(a, b, c, d), mkTokenBurnArgs a b c d) _.
Next Obligation. by intros []. Qed.
#[global] Program Instance SetDefaultsArgs_pack : Pack SetDefaultsArgs :=
  pack_iso (λ r, let '(mkSetDefaultsArgs a b c d) := r in (a, b, c, d))
    (λ '(a, b, c, d), mkSetDefaultsArgs a b c d) _.
Next Obligation. by intros []. Qed.

(** A submission is its own fields followed by those of the submitted transaction. *)
Fixpoint tx_list (t : AccountMultisigTransaction) : list positive :=
  match t with
    | T_AccountMultisigSubmit a =>
        tagged 0 (sub_account a, sub_memo_ a, sub_threshold a, sub_timeout_in_secs a,
                  sub_execute_automatically a, sub_data_ a, sub_memo a) :: tx_list (sub_transaction a)
    | T_Send a => [tagged 1 a]
    | T_KvStorePut a => [tagged 2 a]
    | T_KvStoreDisable a => [tagged 3 a]
    | T_AccountCreate a => [tagged 4 a]
    | T_AccountSetDescription a => [tagged 5 a]
    | T_AccountAddRoles a => [tagged 6 a]
    | T_AccountRemoveRoles a => [tagged 7 a]
    | T_AccountDisable a => [tagged 8 a]
    | T_AccountAddFeatures a => [tagged 9 a]
    | T_AccountMultisigApprove a => [tagged 10 a]
    | T_AccountMultisigRevoke a => [tagged 11 a]
    | T_AccountMultisigExecute a => [tagged 12 a]
    | T_AccountMultisigWithdraw a => [tagged 13 a]
    | T_AccountMultisigSetDefaults a => [tagged 14 a]
    | T_TokenCreate a => [tagged 15 a]
    | T_TokenUpdate a => [tagged 16 a]
    | T_TokenAddExtendedInfo a => [tagged 17 a]
    | T_TokenRemoveExtendedInfo a => [tagged 18 a]
    | T_TokenMint a => [tagged 19 a]
    | T_TokenBurn a => [tagged 20 a]
    | T_KvStoreTransfer a => [tagged 21 a]
    | T_WebDeploy a => [tagged 22 a]
    | T_WebRemove a => [tagged 23 a]
    | T_WebUpdate a => [tagged 24 a]
  end.
Definition tx_base (n : N) (q : list positive) : option AccountMultisigTransaction :=
  match n with
    | 1 => T_Send <$> field q
    | 2 => T_KvStorePut <$> field q
    | 3 => T_KvStoreDisable <$> field q
    | 4 => T_AccountCreate <$> field q
    | 5 => T_AccountSetDescription <$> field q
    | 6 => T_AccountAddRoles <$> field q
    | 7 => T_AccountRemoveRoles <$> field q
    | 8 => T_AccountDisable <$> field q
    | 9 => T_AccountAddFeatures <$> field q
    | 10 => T_AccountMultisigApprove <$> field q
    | 11 => T_AccountMultisigRevoke <$> field q
    | 12 => T_AccountMultisigExecute <$> field q
    | 13 => T_AccountMultisigWithdraw <$> field q
    | 14 => T_AccountMultisigSetDefaults <$> field q
    | 15 => T_TokenCreate <$> field q
    | 16 => T_TokenUpdate <$> field q
    | 17 => T_TokenAddExtendedInfo <$> field q
    | 18 => T_TokenRemoveExtendedInfo <$> field q
    | 19 => T_TokenMint <$> field q
    | 20 => T_TokenBurn <$> field q
    | 21 => T_KvStoreTransfer <$> field q
    | 22 => T_WebDeploy <$> field q
    | 23 => T_WebRemove <$> field q
    | 24 => T_WebUpdate <$> field q
    | _ => None
  end.
Fixpoint list_tx (l : list positive) : option AccountMultisigTransaction :=
  match l with
  | [] => None
  | p :: l =>
      '(n, q) ← untag p;
      if n =? 0 then
        '(a, b, c, d, e, f, g) ← field q;
        t ← list_tx l;
        Some (T_AccountMultisigSubmit (mkSubmitArgs a b t c d e f g))
      else tx_base n q
  end.
Fixpoint list_tx_list (t : AccountMultisigTransaction) : list_tx (tx_list t) = Some t.
Proof.
  destruct t as [| | | | | | | | |[]| | | | | | | | | | | | | | |];
    cbn [tx_list list_tx]; rewrite untag_tagged; cbn [mbind option_bind N.eqb tx_base];
    rewrite field_put; try done.
  simpl. by rewrite list_tx_list.
Qed.
#[global] Program Instance transaction_pack : Pack AccountMultisigTransaction := {|
  pack t := pack (tx_list t); unpack p := l ← unpack p; list_tx l;
|}.
Next Obligation. intros t. cbv beta. rewrite unpack_pack. simpl. apply list_tx_list. Qed.

#[global] Program Instance tx_state_pack : Pack MultisigTransactionState := {|
  pack x :=
    match x with
    | Pending => tagged 0 tt
    | ExecutedAutomatically => tagged 1 tt
    | ExecutedManually => tagged 2 tt
    | Withdrawn => tagged 3 tt
    | Expired => tagged 4 tt
    end;
  unpack p :=
    '(n, q) ← untag p;
    match n with
    | 0 => (λ _ : unit, Pending) <$> field q
    | 1 => (λ _ : unit, ExecutedAutomatically) <$> field q
    | 2 => (λ _ : unit, ExecutedManually) <$> field q
    | 3 => (λ _ : unit, Withdrawn) <$> field q
    | 4 => (λ _ : unit, Expired) <$> field q
    | _ => None
    end;
|}.
Solve All Obligations with pack_cases.
#[global] Program Instance multisig_info_pack : Pack MultisigInfo :=
  pack_iso (λ r, let '(mkMultisigInfo a b c d e f g h i j) := r in (a, b, c, d, e, f, g, h, i, j))
    (λ '(a, b, c, d, e, f, g, h, i, j), mkMultisigInfo a b c d e f g h i j) _.
Next Obligation. by intros []. Qed.
#[global] Program Instance multisig_storage_pack : Pack MultisigTransactionStorage :=
  pack_iso (λ r, let '(mkMultisigStorage a b c d) := r in (a, b, c, d))
    (λ '(a, b, c, d), mkMultisigStorage a b c d) _.
Next Obligation. by intros []. Qed.
#[global] Program Instance data_value_pack : Pack DataValue := {|
  pack x :=
    match x with
    | DataCounter a => tagged 0 a
    | DataGauge a => tagged 1 a
    end;
  unpack p :=
    '(n, q) ← untag p;
    match n with
    | 0 => DataCounter <$> field q
    | 1 => DataGauge <$> field q
    | _ => None
    end;
|}.
Solve All Obligations with pack_cases.
#[global] Program Instance data_type_pack : Pack DataType := {|
  pack x :=
    match x with
    | TypeCounter => tagged 0 tt
    | TypeGauge => tagged 1 tt
    end;
  unpack p :=
    '(n, q) ← untag p;
    match n with
    | 0 => (λ _ : unit, TypeCounter) <$> field q
    | 1 => (λ _ : unit, TypeGauge) <$> field q
    | _ => None
    end;
|}.
Solve All Obligations with pack_cases.
#[global] Program Instance data_info_pack : Pack DataInfo :=
  pack_iso (λ r, let '(mkDataInfo a b) := r in (a, b))
    (λ '(a, b), mkDataInfo a b) _.
Next Obligation. by intros []. Qed.

(** ** Responses and events *)

#[global] Program Instance error_code_pack : Pack ManyErrorCode := {|
  pack c :=
    match c with
    | AttributeSpecific x => tagged 0 x
    | ApplicationSpecific x => tagged 1 x
    | c => tagged 2 (code_to_i64 c)
    end;
  unpack p :=
    '(n, q) ← untag p;
    match n with
    | 0 => AttributeSpecific <$> field q
    | 1 => ApplicationSpecific <$> field q
    | _ => z ← field q; snd <$> list_find (λ c, code_to_i64 c = z) named_codes
    end;
|}.
Next Obligation.
  intros []; rewrite untag_tagged; cbn [mbind option_bind]; rewrite field_put; reflexivity.
Qed.

#[global] Program Instance outcome_pack : Pack (outcome ManyError bytes) := {|
  pack x :=
    match x with
    | Ok a => tagged 0 a
    | Err a => tagged 1 a
    | Panic a => tagged 2 a
    | OutOfFuel => tagged 3 tt
    end;
  unpack p :=
    '(n, q) ← untag p;
    match n with
    | 0 => Ok <$> field q
    | 1 => Err <$> field q
    | 2 => Panic <$> field q
    | 3 => (λ _ : unit, OutOfFuel) <$> field q
    | _ => None
    end;
|}.
Solve All Obligations with pack_cases.
#[global] Program Instance response_pack : Pack ResponseMessage :=
  pack_iso (λ r, let '(mkResponse a b c d e f g) := r in (a, b, c, d, e, f, g))
    (λ '(a, b, c, d, e, f, g), mkResponse a b c d e f g) _.
Next Obligation. by intros []. Qed.
#[global] Program Instance block_9400_pack : Pack Block9400Tx :=
  pack_iso (λ r, let '(mkBlock9400 a b) := r in (a, b))
    (λ '(a, b), mkBlock9400 a b) _.
Next Obligation. by intros []. Qed.
#[global] Program Instance event_info_pack : Pack EventInfo := {|
  pack x :=
    match x with
    | E_Send a b c d e => tagged 0 (a, b, c, d, e)
    | E_KvStorePut a b c => tagged 1 (a, b, c)
    | E_KvStoreDisable a b => tagged 2 (a, b)
    | E_AccountCreate a b c d => tagged 3 (a, b, c, d)
    | E_AccountSetDescription a b => tagged 4 (a, b)
    | E_AccountAddRoles a b => tagged 5 (a, b)
    | E_AccountRemoveRoles a b => tagged 6 (a, b)
    | E_AccountDisable a => tagged 7 a
    | E_AccountAddFeatures a b c => tagged 8 (a, b, c)
    | E_AccountMultisigSubmit a b c d e f g h i j => tagged 9 (a, b, c, d, e, f, g, h, i, j)
    | E_AccountMultisigApprove a b c => tagged 10 (a, b, c)
    | E_AccountMultisigRevoke a b c => tagged 11 (a, b, c)
    | E_AccountMultisigExecute a b c d => tagged 12 (a, b, c, d)
    | E_AccountMultisigWithdraw a b c => tagged 13 (a, b, c)
    | E_AccountMultisigSetDefaults a b c d e => tagged 14 (a, b, c, d, e)
    | E_AccountMultisigExpired a b c => tagged 15 (a, b, c)
    | E_TokenCreate a b c d e f g => tagged 16 (a, b, c, d, e, f, g)
    | E_TokenUpdate a b c d e f => tagged 17 (a, b, c, d, e, f)
    | E_TokenAddExtendedInfo a b c => tagged 18 (a, b, c)
    | E_TokenRemoveExtendedInfo a b c => tagged 19 (a, b, c)
    | E_TokenMint a b c => tagged 20 (a, b, c)
    | E_TokenBurn a b c => tagged 21 (a, b, c)
    | E_KvStoreTransfer a b c => tagged 22 (a, b, c)
    | E_WebDeploy a b c d e f => tagged 23 (a, b, c, d, e, f)
    | E_WebRemove a b c => tagged 24 (a, b, c)
    | E_WebUpdate a b c d e f => tagged 25 (a, b, c, d, e, f)
    end;
  unpack p :=
    '(n, q) ← untag p;
    match n with
    | 0 => (λ '(a, b, c, d, e), E_Send a b c d e) <$> field q
    | 1 => (λ '(a, b, c), E_KvStorePut a b c) <$> field q
    | 2 => (λ '(a, b), E_KvStoreDisable a b) <$> field q
    | 3 => (λ '(a, b, c, d), E_AccountCreate a b c d) <$> field q
    | 4 => (λ '(a, b), E_AccountSetDescription a b) <$> field q
    | 5 => (λ '(a, b), E_AccountAddRoles a b) <$> field q
    | 6 => (λ '(a, b), E_AccountRemoveRoles a b) <$> field q
    | 7 => E_AccountDisable <$> field q
    | 8 => (λ '(a, b, c), E_AccountAddFeatures a b c) <$> field q
    | 9 => (λ '(a, b, c, d, e, f, g, h, i, j), E_AccountMultisigSubmit a b c d e f g h i j) <$> field q
    | 10 => (λ '(a, b, c), E_AccountMultisigApprove a b c) <$> field q
    | 11 => (λ '(a, b, c), E_AccountMultisigRevoke a b c) <$> field q
    | 12 => (λ '(a, b, c, d), E_AccountMultisigExecute a b c d) <$> field q
    | 13 => (λ '(a, b, c), E_AccountMultisigWithdraw a b c) <$> field q
    | 14 => (λ '(a, b, c, d, e), E_AccountMultisigSetDefaults a b c d e) <$> field q
    | 15 => (λ '(a, b, c), E_AccountMultisigExpired a b c) <$> field q
    | 16 => (λ '(a, b, c, d, e, f, g), E_TokenCreate a b c d e f g) <$> field q
    | 17 => (λ '(a, b, c, d, e, f), E_TokenUpdate a b c d e f) <$> field q
    | 18 => (λ '(a, b, c), E_TokenAddExtendedInfo a b c) <$> field q
    | 19 => (λ '(a, b, c), E_TokenRemoveExtendedInfo a b c) <$> field q
    | 20 => (λ '(a, b, c), E_TokenMint a b c) <$> field q
    | 21 => (λ '(a, b, c), E_TokenBurn a b c) <$> field q
    | 22 => (λ '(a, b, c), E_KvStoreTransfer a b c) <$> field q
    | 23 => (λ '(a, b, c, d, e, f), E_WebDeploy a b c d e f) <$> field q
    | 24 => (λ '(a, b, c), E_WebRemove a b c) <$> field q
    | 25 => (λ '(a, b, c, d, e, f), E_WebUpdate a b c d e f) <$> field q
    | _ => None
    end;
|}.
Solve All Obligations with pack_cases.
#[global] Program Instance event_log_pack : Pack EventLog :=
  pack_iso (λ r, let '(mkEventLog a b c) := r in (a, b, c))
    (λ '(a, b, c), mkEventLog a b c) _.
Next Obligation. by intros []. Qed.
#[global] Program Instance cred_id_pack : Pack CredentialId :=
  pack_iso (λ r, let '(mkCredentialId a) := r in a)
    (mkCredentialId) _.
Next Obligation. by intros []. Qed.
#[global] Program Instance public_key_pack : Pack PublicKey :=
  pack_iso (λ r, let '(mkPublicKey a) := r in a)
    (mkPublicKey) _.
Next Obligation. by intros []. Qed.
#[global] Program Instance credential_pack : Pack CredentialStorage :=
  pack_iso (λ r, let '(mkCredential a b) := r in (a, b))
    (λ '(a, b), mkCredential a b) _.
Next Obligation. by intros []. Qed.

(** ** From numbers to bytes *)

Fixpoint pos_bytes (p : positive) : bytes :=
  match p with
  | xH => []
  | xO p => Byte.x00 :: pos_bytes p
  | xI p => Byte.x01 :: pos_bytes p
  end.
Fixpoint bytes_pos (l : bytes) : positive :=
  match l with
  | [] => xH
  | Byte.x00 :: l => xO (bytes_pos l)
  | _ :: l => xI (bytes_pos l)
  end.
Lemma bytes_pos_bytes p : bytes_pos (pos_bytes p) = p.
Proof. induction p; simpl; congruence. Qed.

Definition pack_cbor `{Pack A} : Cbor A := {|
  to_vec a := pos_bytes (pack a);
  decode l := match unpack (bytes_pos l) with Some a => Ok a | None => Err "malformed value" end;
|}.
Lemma pack_cbor_laws `{Pack A} (valid : A → Prop) : @CborLaws A pack_cbor valid.
Proof. intros a _. simpl. by rewrite bytes_pos_bytes, unpack_pack. Qed.
