(* ===== verification/Reference.v ===== *)
(** * A reference environment

    Concrete libraries that meet the laws of [External]: base32 with the alphabet of RFC 4648,
    big-endian bytes of natural numbers, an in-memory store, and the encoding of [Codecs].
    With them [LedgerEnv] and [LedgerEnvLaws] have an instance, and the operations of the
    ledger compute on concrete stores. *)
From S2P Require Import Prelude Error External Address Types Account Events Migration Storage.
From S2P Require Import LedgerMigrations IdStore Codecs.

#[local] Open Scope string_scope.
#[local] Open Scope list_scope.
#[local] Open Scope N_scope.

(** ** Base32 *)

Fixpoint bits (l : bytes) : list bool :=
  match l with
  | [] => []
  | x :: l =>
      let '(b0, (b1, (b2, (b3, (b4, (b5, (b6, b7))))))) := Byte.to_bits x in
      b7 :: b6 :: b5 :: b4 :: b3 :: b2 :: b1 :: b0 :: bits l
  end.
(** Whole bytes; the bits left over are padding. *)
Fixpoint unbits (l : list bool) : bytes :=
  match l with
  | b7 :: b6 :: b5 :: b4 :: b3 :: b2 :: b1 :: b0 :: l =>
      Byte.of_bits (b0, (b1, (b2, (b3, (b4, (b5, (b6, b7))))))) :: unbits l
  | _ => []
  end.

Definition digit (a b c d e : bool) : ascii :=
  let n := (if a then 16 else 0) + (if b then 8 else 0) + (if c then 4 else 0)
           + (if d then 2 else 0) + (if e then 1 else 0) in
  ascii_of_N (if n <? 26 then 65 + n else 24 + n).
Definition undigit (c : ascii) : option (list bool) :=
  let n := N_of_ascii c in
  let v := if (65 <=? n) && (n <=? 90) then Some (n - 65)
           else if (97 <=? n) && (n <=? 122) then Some (n - 97)
           else if (50 <=? n) && (n <=? 55) then Some (n - 24) else None in
  (λ v, [N.testbit v 4; N.testbit v 3; N.testbit v 2; N.testbit v 1; N.testbit v 0]) <$> v.

Fixpoint digits (l : list bool) : string :=
  match l with
  | [] => ""
  | [a] => String (digit a false false false false) ""
  | [a; b] => String (digit a b false false false) ""
  | [a; b; c] => String (digit a b c false false) ""
  | [a; b; c; d] => String (digit a b c d false) ""
  | a :: b :: c :: d :: e :: l => String (digit a b c d e) (digits l)
  end.
Fixpoint undigits (s : string) : option (list bool) :=
  match s with
  | EmptyString => Some []
  | String c s => x ← undigit c; l ← undigits s; Some (x ++ l)
  end.

#[global] Instance ref_base32 : Base32 := {|
  base32_encode l := digits (bits l);
  base32_decode s := unbits <$> undigits s;
|}.

Lemma undigit_digit a b c d e : undigit (ascii_lower (digit a b c d e)) = Some [a; b; c; d; e].
Proof. by destruct a, b, c, d, e. Qed.
Lemma digit_char a b c d e : rfc4648_char (digit a b c d e) = true.
Proof. by destruct a, b, c, d, e. Qed.

(** Induction by groups of five. *)
Lemma groups_of_five (P : list bool → Prop) :
  (∀ l, (length l < 5)%nat → P l) → (∀ a b c d e l, P l → P (a :: b :: c :: d :: e :: l)) → ∀ l, P l.
Proof.
  intros Hs Hg l. remember (length l) as n eqn:Hn. revert l Hn.
  induction (lt_wf n) as [n _ IH]. intros l ->.
  destruct l as [|a [|b [|c [|d [|e l]]]]]; try (apply Hs; simpl; lia).
  apply Hg, (IH (length l)); [simpl; lia|done].
Qed.

Lemma undigits_digits l :
  ∃ pad, (length pad < 5)%nat ∧ undigits (to_ascii_lowercase (digits l)) = Some (l ++ pad).
Proof.
  revert l. apply groups_of_five.
  - intros l Hl. exists (replicate (if (length l =? 0)%nat then 0 else 5 - length l) false).
    destruct l as [|a [|b [|c [|d [|e l]]]]]; try (simpl in Hl; lia).
    all: split; [simpl; lia|]; cbn -[undigit ascii_lower digit]; by rewrite ?undigit_digit.
  - intros a b c d e l (pad & Hp & IH). exists pad. split; [done|].
    cbn -[undigit ascii_lower digit]. rewrite undigit_digit. simpl. by rewrite IH.
Qed.

Lemma unbits_bits l pad : (length pad < 8)%nat → unbits (bits l ++ pad) = l.
Proof.
  intros Hp. induction l as [|x l IH].
  - simpl. by destruct pad as [|? [|? [|? [|? [|? [|? [|? [|? ?]]]]]]]]; simpl in Hp; try lia.
  - simpl. destruct (Byte.to_bits x) as (b0 & b1 & b2 & b3 & b4 & b5 & b6 & b7) eqn:E. simpl.
    rewrite IH. f_equal. rewrite <-(Byte.of_bits_to_bits x), E. done.
Qed.

Lemma length_bits l : length (bits l) = (8 * length l)%nat.
Proof.
  induction l as [|x l IH]; [done|]. simpl. destruct (Byte.to_bits x) as (? & ? & ? & ? & ? & ? & ? & ?).
  simpl. rewrite IH. lia.
Qed.
Lemma length_digits l : String.length (digits l) = Nat.div (length l + 4) 5.
Proof.
  revert l. apply groups_of_five.
  - intros l Hl. destruct l as [|a [|b [|c [|d [|e l]]]]]; simpl in Hl; try lia; reflexivity.
  - intros a b c d e l IH. cbn [digits String.length length]. rewrite IH.
    replace (S (S (S (S (S (length l))))) + 4)%nat with (1 * 5 + (length l + 4))%nat by lia.
    rewrite Nat.div_add_l by lia. done.
Qed.

#[global] Instance ref_base32_laws : Base32Laws.
Proof.
  split.
  - intros l. simpl. destruct (undigits_digits (bits l)) as (pad & Hp & ->). simpl.
    rewrite unbits_bits; [done|lia].
  - intros l. simpl. generalize (bits l). clear l. apply groups_of_five.
    + intros l Hl. destruct l as [|a [|b [|c [|d [|e l]]]]]; simpl in Hl; try lia; [done|..];
        simpl; by rewrite digit_char.
    + intros a b c d e l IH. simpl. by rewrite digit_char, IH.
  - done.
  - intros l. simpl. by rewrite length_digits, length_bits.
Qed.

(** ** Checksum, hexadecimal text, numbers *)

(** The CRC of polynomial [0xA001], bit by bit. *)
Fixpoint crc_shift (n : nat) (c : N) : N :=
  match n with
  | O => c
  | S n => crc_shift n (if N.testbit c 0 then N.lxor (N.shiftr c 1) 0xA001 else N.shiftr c 1)
  end.
#[global] Instance ref_crc16 : Crc16 := foldl (λ c x, crc_shift 8 (N.lxor c (Byte.to_N x))) 0.

Definition hex_digit (n : N) : ascii := ascii_of_N (if n <? 10 then 48 + n else 87 + n).
#[global] Instance ref_hex : Hex :=
  foldr (λ x s, String (hex_digit (Byte.to_N x / 16)) (String (hex_digit (Byte.to_N x mod 16)) s)) "".

(** The number of bytes [n] takes, at least one. *)
Definition byte_width (n : N) : nat := N.to_nat (N.max 1 ((N.size n + 7) / 8)).
#[global] Instance ref_big : BigUintBytes := {|
  to_bytes_be n := be_bytes (byte_width n) n;
  from_bytes_be := be_value;
|}.

Lemma byte_width_bounds n :
  n < 256 ^ N.of_nat (byte_width n) ∧ (n ≠ 0 → 256 ^ N.of_nat (byte_width n - 1) ≤ n).
Proof.
  change 256 with (2 ^ 8). rewrite <-!N.pow_mul_r. unfold byte_width. split.
  - eapply N.lt_le_trans; [apply N.size_gt|]. apply N.pow_le_mono_r; [done|]. dlia.
  - intros Hn. rewrite N.size_log2 by done. pose proof (N.log2_spec n) as Hl.
    transitivity (2 ^ N.log2 n); [|lia]. apply N.pow_le_mono_r; [done|]. dlia.
Qed.

#[global] Instance ref_big_laws : BigUintBytesLaws.
Proof.
  split.
  - done.
  - intros n. simpl. rewrite be_value_be_bytes, N.mod_small; [done|]. apply byte_width_bounds.
  - done.
  - intros n Hn. simpl. rewrite length_be_bytes. by apply byte_width_bounds.
Qed.

(** ** The store: what is applied, and what is committed *)

Record MemStore : Type := mkMem { mem_view : gmap bytes bytes; mem_db : gmap bytes bytes }.

#[global] Instance ref_merk : Merk := {|
  merk := MemStore;
  merk_get m k := Ok (mem_view m !! k);
  merk_apply m l :=
    if bool_decide (keys_ascending l) then Ok (mkMem (apply_batch (mem_view m) l) (mem_db m))
    else Err "keys are not in strictly ascending order";
  merk_commit m := Ok (mkMem (mem_view m) (mem_view m));
  merk_root_hash m := [];
  merk_iter m mode r := Ok <$> iter_entries (mem_db m) mode r;
  merk_tree_value _ node := node;
|}.
#[global] Instance ref_merk_laws : MerkLaws.
Proof.
  refine {| merk_view := mem_view; merk_db := mem_db |}.
  - done.
  - intros m l Hl. simpl. rewrite bool_decide_eq_true_2 by done. eauto.
  - intros m l Hl. simpl. rewrite bool_decide_eq_false_2 by done. eauto.
  - intros m. simpl. eauto.
  - intros m mode r. simpl. generalize (iter_entries (mem_db m) mode r). intros l.
    induction l as [|[k v] l IH]; [done|]. csimpl. by f_equal.
Defined.

(** ** The environment *)

#[global] Instance ref_env : LedgerEnv := {|
  env_base32 := ref_base32;
  env_crc16 := ref_crc16;
  env_big := ref_big;
  env_merk := ref_merk;
  env_clock := 1700000000;
  cbor_symbols := pack_cbor;
  cbor_token_info := pack_cbor;
  cbor_ext_info := pack_cbor;
  cbor_account := pack_cbor;
  cbor_event := pack_cbor;
  cbor_multisig := pack_cbor;
  cbor_data_values := pack_cbor;
  cbor_data_info := pack_cbor;
  cbor_block9400 := pack_cbor;
  cbor_response := pack_cbor;
  cbor_unit := pack_cbor;
  cbor_address := pack_cbor;
  cbor_token := pack_cbor;
|}.
#[global] Instance ref_env_laws : LedgerEnvLaws.
Proof. split; apply _ || apply pack_cbor_laws. Defined.

#[global] Instance ref_from_json : FromJson :=
  let str v := match v with JString s => Ok s | _ => Err "expected a string" end in
  let num v := match v with JNumber z => Ok (Z.to_N z) | _ => Err "expected a number" end in
  {| json_string := str;
     json_u32 := num;
     json_u64 := num;
     json_amount := num;
     json_maybe_amount v := match v with JNull => Ok None | _ => Some <$> num v end;
     json_maybe_address v :=
       match v with
       | JNull => Ok None
       | _ => s ← str v; map_err (λ _, "expected an address") (Some <$> address_from_str s)
       end |}.

(** Keys and values as they are, any bytes as a key, and a phrase that spells out the seed. *)
#[global] Instance ref_idstore : IdStoreEnv := {|
  cbor_recall_phrase := pack_cbor;
  cbor_credential := pack_cbor;
  idstore_hex := ref_hex;
  base64_decode s := Some (b s);
  cose_key_from_slice _ := Ok tt;
  mnemonic_text W _ _ seed := Some (String.concat " " (replicate (W - 1) "zoo" ++ [hex_encode seed]));
|}.
#[global] Instance ref_idstore_laws : IdStoreLaws.
Proof. split; apply pack_cbor_laws. Qed.
