(* ===== verification/Scenario.v ===== *)
(** * A concrete ledger

    A ledger built by the code's own constructors in the reference environment ([Reference]): one
    token, two holders, the token and memo migrations active, and no accounts. On it, and
    on the states commands lead to, the hypotheses of the theorems hold; boolean
    checks over the finite contents of the store stand for the conditions on all its keys. *)
From S2P Require Import Prelude Error External Address Types Account Events Migration Storage.
From S2P Require Import StorageLaws LedgerEvent Ledger Tokens Supply Subresource AccountStorage.
From S2P Require Import AccountModule Multisig MultisigLaws MultisigSpec Abci LedgerModule.
From S2P Require Import EventsModule LedgerMigrations IdStore Codecs Reference.

#[local] Open Scope string_scope.
#[local] Open Scope list_scope.
#[local] Open Scope N_scope.

(** ** The parties *)

(** The address of the public key with the hash [0 ... 0 k]. *)
Definition party (k : N) : Address :=
  default ANONYMOUS (wrap_opt (inner_public_key (replicate 27 (as_u8 0) ++ [as_u8 k]))).
Definition server : Address := party 255.
Definition alice : Address := party 1.
Definition bob : Address := party 2.
Definition carol : Address := party 3.
Definition subresource_of (a : Address) (n : N) : Address :=
  match with_subresource_id a n with Ok x => x | _ => ANONYMOUS end.
Definition coin : Symbol := subresource_of server 0.

(** ** The initial state *)

Definition config : MigrationConfig :=
  mkConfig None [mkSingle TOKEN_MIGRATION (metadata_enabled 0); mkSingle MEMO_MIGRATION (metadata_enabled 0)].
Definition symbols : gmap Symbol string := {[coin := "COIN"]}.
Definition balances : gmap Address (gmap Symbol TokenAmount) :=
  {[alice := {[coin := 1000]}; bob := {[coin := 500]}]}.
Definition coin_meta : SymbolMeta := mkSymbolMeta "Coin" 9 (Some alice) (Some 10000).

Definition genesis_from (is_blockchain : bool) : outcome ManyError LedgerStorage :=
  s ← ledger_new (Ok (mkMem ∅ ∅)) is_blockchain;
  let '(s, r) :=
    (with_migrations MIGRATIONS (Some config);;
     with_balances server symbols balances;;
     with_idstore None None;;
     with_tokens symbols (Some {[coin := coin_meta]}) None (Some 1) balances;;
     with_account None None;;
     build) s in
  r;; Ok (set_time s 1000).
Definition empty_storage (is_blockchain : bool) : LedgerStorage :=
  mkStorage _ (mkMem ∅ ∅) is_blockchain [as_u8 0] None None ∅.
Definition state_of {E A} (d : A) (o : outcome E A) : A := match o with Ok a => a | _ => d end.
Lemma state_of_ok {E A} (d : A) (o : outcome E A) : is_ok o = true → o = Ok (state_of d o).
Proof. by destruct o. Qed.
Definition genesis : LedgerStorage := state_of (empty_storage true) (genesis_from true).

(** ** Commands *)

(** An account of Alice with the ledger and multisig features; Bob may approve, Carol may transact. *)
Definition acct : Address := subresource_of server 1.
Definition acct_args : CreateArgs :=
  mkCreateArgs (Some "shared") (Some {[bob := {[CanMultisigApprove]}; carol := {[CanLedgerTransact]}]})
    {[0 := []; 1 := [CMap [(CInt 0, CInt 2); (CInt 2, CBool false)]]]}.
Definition with_acct : LedgerStorage := (AccountBackend.create alice acct_args genesis).1.
(** Alice funds the account, then submits a transfer from it; Bob approves it. *)
Definition funded : LedgerStorage := (send alice acct coin 100 None with_acct).1.
Definition payment : SubmitTransactionArgs AccountMultisigTransaction :=
  SubmitTransactionArgs_send acct bob coin 40 None.
Definition token : bytes := next_event_id funded.
Definition submitted : LedgerStorage := (multisig_submit_transaction alice payment funded).1.
Definition approved : LedgerStorage := (multisig_approve 5 bob token submitted).1.
Definition executed : LedgerStorage := (multisig_execute 5 alice token approved).1.

(** ** Conditions on all keys of a store *)

Lemma map_check (m : gmap bytes bytes) (P : bytes → bytes → Prop) (c : bytes * bytes → bool) :
  (∀ k v, c (k, v) = true → P k v) → forallb c (map_to_list m) = true → ∀ k v, m !! k = Some v → P k v.
Proof.
  intros Hc Hm k v Hk. apply Hc. rewrite forallb_forall in Hm.
  apply Hm, list_elem_of_In, elem_of_map_to_list, Hk.
Qed.

(** No key starts with [p]. *)
Definition none_below (p : bytes) (m : gmap bytes bytes) : bool :=
  forallb (λ kv, negb (bool_decide (p `prefix_of` kv.1))) (map_to_list m).
Lemma none_below_ok p m k v : none_below p m = true → p `prefix_of` k → m !! k = Some v → False.
Proof.
  intros Hm Hp Hk. eapply (map_check m (λ k _, ¬ p `prefix_of` k)) in Hm; [by apply Hm|..|exact Hk].
  intros k' v' Hc. simpl in Hc. by apply negb_true_iff, bool_decide_eq_false in Hc.
Qed.

(** The keys of tokens are those of [l]. *)
Definition only_symbols (l : list Symbol) (m : gmap bytes bytes) : bool :=
  forallb (λ kv, negb (bool_decide (b SYMBOLS_ROOT_DASH `prefix_of` kv.1))
                 || existsb (λ y, bool_decide (kv.1 = key_for_symbol y)) l) (map_to_list m).
Lemma only_symbols_wf l m : only_symbols l m = true → symbols_wf m.
Proof.
  intros Hm k [v Hk] Hp.
  refine (map_check m (λ k _, b SYMBOLS_ROOT_DASH `prefix_of` k → ∃ y, k = key_for_symbol y) _ _ Hm k v Hk Hp).
  intros k' v' Hc Hp'. simpl in Hc. rewrite bool_decide_eq_true_2 in Hc by done. simpl in Hc.
  apply existsb_exists in Hc as (y & _ & Hy). apply bool_decide_eq_true in Hy. eauto.
Qed.

(** The holders of [x] are those of [l]. *)
Definition only_holders (l : list Address) (x : Symbol) (m : gmap bytes bytes) : bool :=
  forallb (λ kv, negb (bool_decide (b "/balances/" `prefix_of` kv.1))
                 || existsb (λ a, bool_decide (kv.1 = key_for_account_balance a x)) l) (map_to_list m).
Lemma only_holders_bal l x s a :
  only_holders l x (view s) = true → a ∉ (list_to_set l : gset Address) → bal s a x = 0.
Proof.
  intros Hm Ha. unfold bal, bal_of. destruct (view s !! key_for_account_balance a x) as [v|] eqn:Hk; [|done].
  exfalso. apply Ha.
  refine (map_check (view s) (λ k _, ∀ a, k = key_for_account_balance a x → a ∈ (list_to_set l : gset Address))
            _ _ Hm _ v Hk a eq_refl).
  intros k' v' Hc a' Ha'. cbn [fst] in Hc. rewrite (bool_decide_eq_true_2 (b "/balances/" `prefix_of` k')) in Hc
    by (rewrite Ha'; by eexists). cbn [negb orb] in Hc. subst k'.
  apply existsb_exists in Hc as (y & Hy & Hk'). apply bool_decide_eq_true, key_balance_inj in Hk' as [-> _].
  apply elem_of_list_to_set, list_elem_of_In, Hy.
Qed.

(** Evaluation of a closed statement. *)
Ltac compute_eq := vm_compute; reflexivity.

(** ** Conditions the theorems ask for *)

Lemma genesis_counters : counters_ok genesis.
Proof. split; [exists 0|exists None]; compute_eq. Qed.

Definition coin_info : TokenInfo :=
  mkTokenInfo coin (mkSummary "Coin" "COIN" 9) (mkSupply 1500 1500 (Some 10000)) (Some alice).
Lemma genesis_token_info : token_info genesis coin coin_info.
Proof. exists ext_new. compute_eq. Qed.
Lemma genesis_symbols : symbols_ok genesis coin.
Proof.
  split; [apply (only_symbols_wf [coin]); compute_eq..|].
  replace (migration_active genesis TOKEN_MIGRATION) with true by compute_eq.
  eexists. compute_eq.
Qed.
Lemma genesis_tracked : tracked genesis coin.
Proof. apply symbols_ok_tracked, genesis_symbols. Qed.
Lemma genesis_supply : supply_sound genesis coin coin_info.
Proof.
  split; [|split; [vm_compute; congruence..]]. exists (list_to_set [alice; bob]). split; [|compute_eq].
  intros a. apply only_holders_bal. compute_eq.
Qed.
Lemma genesis_supply_inv : supply_inv genesis {[coin]}.
Proof.
  split; [apply genesis_counters|]. intros x ->%elem_of_singleton.
  split; [apply genesis_symbols|]. exists coin_info. auto using genesis_token_info, genesis_supply.
Qed.

Lemma genesis_no_accounts i a : stored genesis i a → False.
Proof.
  intros (l & Hl & _). eapply (none_below_ok (b "/accounts/") (view genesis)); [compute_eq| |exact Hl].
  by exists (ab i).
Qed.
Lemma genesis_accounts : accounts_inv genesis server.
Proof.
  split.
  - intros i a Hs. destruct (genesis_no_accounts i a Hs).
  - intros i l Hl. exfalso. eapply (none_below_ok (b "/accounts/") (view genesis)); [compute_eq| |exact Hl].
    by exists (ab i).
  - compute_eq.
  - compute_eq.
  - exists 1. split; [compute_eq|]. intros i [l Hl]. exfalso.
    eapply (none_below_ok (b "/accounts/") (view genesis)); [compute_eq| |exact Hl]. by exists (ab i).
  - split; [apply (only_symbols_wf [coin]); compute_eq..|].
    intros Hm. vm_compute in Hm. discriminate Hm.
  - exists 0. compute_eq.
Qed.
Lemma then_ret_state {A} (m : LedgerM A) s : ((m;; mret tt) s).1 = (m s).1.
Proof. unfold mbind, st_bind. by destruct (m s) as [s' []]. Qed.
Lemma with_acct_accounts : accounts_inv with_acct server.
Proof.
  unfold with_acct. rewrite <-(then_ret_state (AccountBackend.create alice acct_args) genesis).
  apply (step_inv genesis server alice (ACreate acct_args)), genesis_accounts.
Qed.

Definition coin_set : gset Symbol := state_of ∅ (get_symbols genesis).
Lemma genesis_allocates : allocates genesis TOKEN_IDENTITY_ROOT server 1 coin_set.
Proof.
  split; [by right|compute_eq|compute_eq|compute_eq|]. apply state_of_ok. compute_eq.
Qed.

(** Transactions: the ones submitted are in order because every step keeps them so. *)
Lemma funded_txs : txs_ok funded.
Proof.
  intros k l Hk Hl. exfalso. eapply (none_below_ok MULTISIG_TRANSACTIONS_ROOT (view funded)); [compute_eq|exact Hk|exact Hl].
Qed.
Lemma step_txs fuel sender c s :
  txs_ok s → multisig_cmd_ok c → (tid (multisig_step fuel sender c s).1 <? ID_LIMIT) = true →
  txs_ok (multisig_step fuel sender c s).1.
Proof.
  intros Hs Hc Ht%N.ltb_lt. destruct (multisig_step_follows fuel sender c s Hc) as [_ Hf].
  by apply Hf.
Qed.
Lemma payment_storable : args_storable payment.
Proof. by repeat split. Qed.
Lemma submitted_txs : txs_ok submitted.
Proof.
  unfold submitted. rewrite <-(then_ret_state (multisig_submit_transaction alice payment) funded).
  apply (step_txs 5 alice (MSubmit payment) funded); [apply funded_txs|apply payment_storable|compute_eq].
Qed.
Lemma approved_txs : txs_ok approved.
Proof. apply (step_txs 5 bob (MApprove token) submitted); [apply submitted_txs|done|compute_eq]. Qed.

(** The pending transaction is committed; a later block executes it after its timeout. *)
Definition later : N := 1000 + 3 * MULTISIG_DEFAULT_TIMEOUT_IN_SECS.
Definition committed_approved : LedgerStorage := set_time (commit_storage approved).1 later.
Definition executed_late : LedgerStorage := (multisig_execute 5 alice token committed_approved).1.

Definition db_check (m : gmap bytes bytes) : bool :=
  forallb (λ kv, negb (bool_decide (multisig_key kv.1))
                 || match decode (A := MultisigTransactionStorage) kv.2 with
                    | Ok t => mi_timeout (ms_info t) <=? ms_creation t + MULTISIG_MAXIMUM_TIMEOUT_IN_SECS
                    | _ => false
                    end) (map_to_list m).
Lemma db_check_ok s : db_check (committed s) = true → db_ok s.
Proof.
  intros Hm k l Hk Hl.
  refine (map_check (committed s) (λ k l, multisig_key k → ∃ t, decode l = Ok t
    ∧ mi_timeout (ms_info t) ≤ ms_creation t + MULTISIG_MAXIMUM_TIMEOUT_IN_SECS) _ _ Hm k l Hl Hk).
  intros k' v' Hc Hk'. cbn [fst snd] in Hc. rewrite bool_decide_eq_true_2 in Hc by done.
  cbn [negb orb] in Hc. destruct (decode v') as [t| | |]; try done. exists t.
  split; [done|]. by apply N.leb_le.
Qed.

Definition events_check (m : gmap bytes bytes) : bool :=
  forallb (λ kv, negb (bool_decide (EVENTS_ROOT `prefix_of` kv.1))
                 || match decode (A := EventLog) kv.2 with
                    | Ok e => bool_decide (kv.1 = key_for_event (log_id e)) && (length (log_id e) <=? 32)%nat
                    | _ => false
                    end) (map_to_list m).
Lemma events_check_ok s : events_check (committed s) = true → events_ok s.
Proof.
  intros Hm k l Hk Hl.
  refine (map_check (committed s) (λ k l, EVENTS_ROOT `prefix_of` k → ∃ e, decode l = Ok e
    ∧ k = key_for_event (log_id e) ∧ (length (log_id e) ≤ 32)%nat) _ _ Hm k l Hl Hk).
  intros k' v' Hc Hk'. cbn [fst snd] in Hc. rewrite bool_decide_eq_true_2 in Hc by done.
  cbn [negb orb] in Hc. destruct (decode v') as [e| | |]; try done. exists e. split; [done|].
  apply andb_true_iff in Hc as [?%bool_decide_eq_true ?%Nat.leb_le]. done.
Qed.

(** ** A ledger without migrations, for the life of blocks *)

Definition plain : LedgerStorage :=
  set_time ((with_balances server symbols balances;; build) (empty_storage true)).1 1000.
Definition transferred : LedgerStorage := (send alice bob coin 10 None plain).1.
Definition block_one : LedgerStorage := (commit transferred).1.

Lemma no_migrations s h : migrations s = ∅ → no_migration s h.
Proof. intros Hs m. by rewrite Hs. Qed.
