(* ===== verification/Witnesses.v ===== *)
(** * The theorems at work

    For each theorem with hypotheses, an application to a concrete input that satisfies
    them, in the reference environment and on the ledger of [Scenario]. *)
From S2P Require Import Prelude Error External Address Types Account Events Migration Storage.
From S2P Require Import StorageLaws LedgerEvent Ledger Tokens Supply Subresource AccountStorage.
From S2P Require Import AccountModule Multisig MultisigLaws MultisigSpec Abci LedgerModule.
From S2P Require Import EventsModule LedgerMigrations IdStore Codecs Reference Scenario.

#[local] Open Scope string_scope.
#[local] Open Scope list_scope.
#[local] Open Scope N_scope.

(** Evaluation of a decidable statement. *)
Ltac by_decide := apply (bool_decide_unpack _); vm_compute; exact I.

(** ** Values *)

Lemma address_text_roundtrip_witness :
  address_from_str (address_to_string alice) = Ok alice ∧ address_from_str "maaaa" = Ok ANONYMOUS.
Proof. split; apply address_text_roundtrip; [by left|by right]. Defined.

Lemma multisig_feature_roundtrip_witness :
  try_create MultisigAccountFeature
    (as_feature (mkMultisigFeature (mkMultisigArg (Some 3) (Some (2 ^ 63)) (Some true))))
  = Ok (mkMultisigFeature (mkMultisigArg (Some 3) None (Some true))).
Proof. apply (multisig_feature_roundtrip (Some 3) (Some (2 ^ 63)) (Some true)); vm_compute; reflexivity. Defined.

Lemma event_key_order_witness :
  lexico (key_for_event [as_u8 9]) (key_for_event [as_u8 1; as_u8 0]).
Proof. destruct (event_key_order [as_u8 9] [as_u8 1; as_u8 0]) as (_ & Hlt & _). apply Hlt. vm_compute. reflexivity. Defined.

(** ** Migrations *)

(** A migration of a counter that adds 10 when it starts, at block 5, and 1 at every block after. *)
Definition counting : InnerMigration N string :=
  new_initialize_update (λ _ n, (n + 10, Ok tt)) (λ _ n, (n + 1, Ok tt)) "Counting" "Counts blocks".
Definition counting_config : MigrationConfig := mkConfig None [mkSingle "Counting" (metadata_enabled 5)].
Definition counting_at (h : N) : MigrationSet N string :=
  match load [counting] counting_config h with Ok ms => ms | _ => ∅ end.

Lemma migration_restart_witness :
  (update_at_height (counting_at 4) 7 5).1.2 = 17
  ∧ load [counting] counting_config 5 = Ok (update_at_height (counting_at 4) 7 5).1.1.
Proof.
  split; [vm_compute; reflexivity|].
  apply (migration_restart [counting] counting_config 4 (counting_at 4) _ 7 17); vm_compute; reflexivity.
Defined.

Lemma migration_active_spec_witness : is_active (counting_at 4) "Counting" = false ∧ is_active (counting_at 5) "Counting" = true.
Proof.
  split.
  - rewrite (migration_active_spec [counting] counting_config 4 (counting_at 4) "Counting"
      (Migration_new counting (metadata_enabled 5))); vm_compute; reflexivity.
  - rewrite (migration_active_spec [counting] counting_config 5 (counting_at 5) "Counting"
      (activate_enabled 5 (Migration_new counting (metadata_enabled 5)))); vm_compute; reflexivity.
Defined.

(** ** Transfers and supply *)

Lemma alice_not_bob : bool_decide (alice = bob) = false.
Proof. vm_compute. reflexivity. Qed.
Lemma parties_not_anonymous : is_anonymous bob || is_anonymous alice = false.
Proof. vm_compute. reflexivity. Qed.
Lemma genesis_covers : (bal genesis alice coin <? 300) = false.
Proof. vm_compute. reflexivity. Qed.

Lemma send_spec_witness :
  ∃ s', send alice bob coin 300 None genesis
        = (s', Ok [key_for_account_balance alice coin; key_for_account_balance bob coin])
    ∧ bal s' alice coin = bal genesis alice coin - 300 ∧ bal s' bob coin = bal genesis bob coin + 300.
Proof.
  pose proof (send_spec alice bob coin 300 None genesis genesis_counters) as Hs.
  rewrite alice_not_bob, parties_not_anonymous, genesis_covers in Hs. cbn [N.eqb] in Hs.
  destruct Hs as (s' & Hs & _ & Ha & Hb & _). exists s'. auto.
Defined.

Lemma send_conserves_witness :
  set_total {[alice; bob; carol]} (λ a, bal (send alice bob coin 300 None genesis).1 a coin) = 1500.
Proof.
  rewrite (send_conserves alice bob coin 300 None genesis {[alice; bob; carol]} coin genesis_counters).
  - vm_compute. reflexivity.
  - set_solver.
  - set_solver.
Defined.

Definition mint_args : LedgerTokensAddressMap := {[alice := 25; carol := 75]}.
Definition burn_args : LedgerTokensAddressMap := {[bob := 50]}.

Definition anonymous_args : LedgerTokensAddressMap := {[ANONYMOUS := 40; bob := 7]}.
Definition token_run : list token_cmd :=
  [CMint coin mint_args; CMint coin anonymous_args; CSend alice carol coin 5 None;
   CMint coin anonymous_args; CBurn coin burn_args].

(** Two mints to the anonymous address lose what the first one gave it. *)
Lemma supply_invariant_witness :
  supply_inv_short (run_cmds token_run genesis).1 {[coin]} (λ x, lost_in_run x token_run genesis)
  ∧ lost_in_run coin token_run genesis = 40
  ∧ supply_inv (run_cmds [CMint coin mint_args; CSend alice carol coin 5 None; CBurn coin burn_args] genesis).1 {[coin]}.
Proof.
  split; [|split; [vm_compute; reflexivity|]].
  - apply (supply_invariant genesis {[coin]}); [exact genesis_supply_inv|].
    repeat constructor; set_solver.
  - apply (supply_invariant genesis {[coin]}); [exact genesis_supply_inv|..].
    + repeat constructor; set_solver.
    + repeat constructor; vm_compute; reflexivity.
Defined.

Lemma mint_fits :
  nonzero (btree_iter mint_args)
  ∧ (btree_iter mint_args = [] ∨ within (supply coin_info) (dist_sum (btree_iter mint_args))).
Proof. by_decide. Qed.
Lemma burn_fits : covered genesis coin (btree_iter burn_args).
Proof. by_decide. Qed.

Lemma mint_token_spec_witness :
  ∃ s' ks, mint_token coin mint_args genesis = (s', Ok ks)
    ∧ token_info s' coin (minted coin_info (dist_sum (btree_iter mint_args)))
    ∧ (∀ a, a ≠ ANONYMOUS → bal s' a coin = bal genesis a coin + default 0 (mint_args !! a))
    ∧ bal s' ANONYMOUS coin = bal genesis ANONYMOUS coin.
Proof.
  pose proof (mint_token_spec coin mint_args coin_info genesis genesis_tracked genesis_token_info) as Hm.
  cbv zeta in Hm. rewrite decide_True in Hm by exact mint_fits.
  destruct Hm as (s' & ks & Hs & Hi & Hb & Hn & _).
  exists s', ks. split; [exact Hs|]. split; [exact Hi|]. split; [exact Hb|].
  rewrite Hn. vm_compute. reflexivity.
Defined.


(** ** Subresources and accounts *)

Lemma next_subresource_spec_witness :
  ∃ n a s' ks, get_next_subresource TOKEN_IDENTITY_ROOT genesis = (s', Ok (a, ks))
    ∧ with_subresource_id server n = Ok a ∧ 1 ≤ n ∧ (a ∉ coin_set).
Proof.
  destruct (next_subresource_spec genesis TOKEN_IDENTITY_ROOT server 1 coin_set genesis_allocates)
    as [(n & a & s' & ks & H1 & H2 & H3 & H4 & _)|[He _]].
  - exists n, a, s', ks. auto.
  - apply (f_equal (λ r, is_ok r.2)) in He. vm_compute in He. discriminate He.
Defined.

Lemma accounts_invariant_witness :
  accounts_inv (account_steps [(bob, ADisable (mkDisableArgs acct)); (alice, ADisable (mkDisableArgs acct));
                               (alice, ASetDescription (mkSetDescriptionArgs acct "closed"))] with_acct).1 server.
Proof. apply accounts_invariant. exact with_acct_accounts. Defined.

Lemma account_access_control_witness :
  ∃ s' a, account_step alice (ASetDescription (mkSetDescriptionArgs acct "ours")) with_acct = (s', Ok tt)
    ∧ get_account with_acct acct = Ok (a, [key_for_account acct]) ∧ has_role a alice Owner = true.
Proof.
  destruct (account_access_control with_acct server alice (ASetDescription (mkSetDescriptionArgs acct "ours"))
    acct with_acct_accounts eq_refl) as [[e He]|(s' & a & Hs & Ha & Ho & _)].
  - apply (f_equal (λ r, is_ok r.2)) in He. vm_compute in He. discriminate He.
  - exists s', a. auto.
Defined.

Lemma create_account_spec_witness :
  ∃ s' i a n, AccountBackend.create alice acct_args genesis = (s', Ok i)
    ∧ with_subresource_id server n = Ok i ∧ view genesis !! key_for_account i = None
    ∧ get_account s' i = Ok (a, [key_for_account i]) ∧ has_role a alice Owner = true.
Proof.
  destruct (create_account_spec genesis server alice acct_args genesis_accounts)
    as [[e He]|(s' & i & a & n & Hs & Hi & Hn & Ha & _ & Ho & _)].
  - apply (f_equal (λ r, is_ok r.2)) in He. vm_compute in He. discriminate He.
  - exists s', i, a, n. auto.
Defined.

(** ** Multisig transactions *)

Definition stored_tx (s : LedgerStorage) : MultisigTransactionStorage :=
  state_of (mkMultisigStorage ANONYMOUS (mkMultisigInfo None (T_AccountMultisigApprove []) ANONYMOUS ∅ 0 false 0
    None Pending None) 0 true) (get_multisig_info s token).
Lemma stored_tx_ok s : is_ok (get_multisig_info s token) = true → get_multisig_info s token = Ok (stored_tx s).
Proof. apply state_of_ok. Qed.
Definition account_of (s : LedgerStorage) : Account * list bytes :=
  state_of (mkAccount None ∅ ∅ None, []) (get_account s acct).
Lemma account_of_ok s : is_ok (get_account s acct) = true → get_account s acct = Ok ((account_of s).1, (account_of s).2).
Proof. intros Hs. rewrite (state_of_ok (mkAccount None ∅ ∅ None, []) _ Hs). unfold account_of. by destruct (state_of _ _). Qed.


Lemma multisig_refusals_witness :
  multisig_execute 5 alice token submitted = (submitted, Err cannot_execute_transaction).
Proof.
  pose proof (multisig_refusals 5 alice token (stored_tx submitted) (account_of submitted).1 (account_of submitted).2
    submitted) as Hr.
  replace (ms_account (stored_tx submitted)) with acct in Hr by (vm_compute; reflexivity).
  specialize (Hr (stored_tx_ok submitted eq_refl) (account_of_ok submitted eq_refl)). cbv zeta in Hr.
  replace (ms_disabled (stored_tx submitted)) with false in Hr by (vm_compute; reflexivity).
  apply Hr. apply N.ltb_lt. vm_compute. reflexivity.
Defined.

(** A run that succeeds, as the pair of its state and its value. *)
Lemma run_ok {A} (d : A) (m : LedgerM A) s :
  is_ok (m s).2 = true → m s = ((m s).1, Ok (state_of d (m s).2)).
Proof. destruct (m s) as [s' []]; simpl; congruence. Qed.
(** Event ids are far from their limit. *)
Lemma below_limit s : (tid s <? ID_LIMIT) = true → tid s < ID_LIMIT.
Proof. apply N.ltb_lt. Qed.


Lemma multisig_approval_witness :
  ∃ t, get_multisig_info submitted token = Ok t ∧ ms_disabled t = false
    ∧ get_multisig_info (approve_multisig (_execute_multisig_tx 5) bob token submitted).1 token
      = Ok (set_approved t bob true).
Proof.
  pose (r := state_of true (approve_multisig (_execute_multisig_tx 5) bob token submitted).2).
  destruct (multisig_approval 5 bob token submitted
    (approve_multisig (_execute_multisig_tx 5) bob token submitted).1 r)
    as (t & a & ks & Ht & Hd & _ & _ & _ & Hr).
  - exact submitted_txs.
  - apply below_limit. vm_compute. reflexivity.
  - apply (run_ok true (approve_multisig (_execute_multisig_tx 5) bob token) submitted). vm_compute. reflexivity.
  - exists t. assert (r = false) as Hf by (vm_compute; reflexivity). rewrite Hf in Hr. auto.
Defined.

Lemma multisig_withdrawal_witness :
  ∃ t, get_multisig_info approved token = Ok t
    ∧ ended approved token t Withdrawn (multisig_withdraw alice token approved).1.
Proof.
  destruct (multisig_withdrawal alice token approved (multisig_withdraw alice token approved).1)
    as (t & a & ks & Ht & _ & _ & _ & He).
  - exact approved_txs.
  - apply below_limit. vm_compute. reflexivity.
  - apply (run_ok tt (multisig_withdraw alice token) approved). vm_compute. reflexivity.
  - exists t. auto.
Defined.

Lemma multisig_submission_witness :
  ∃ t, get_multisig_info submitted token = Ok t ∧ mi_transaction (ms_info t) = sub_transaction payment
    ∧ mi_threshold (ms_info t) = 2 ∧ mi_approvers (ms_info t) = {[alice := true]}.
Proof.
  destruct (multisig_submission alice payment funded submitted token)
    as (a & ks & f & t & Ha & _ & Hf & _ & _ & _ & Ht & _ & _ & _ & Hx & _ & Hap & _).
  - exact funded_txs.
  - apply below_limit. vm_compute. reflexivity.
  - exact payment_storable.
  - assert (state_of [] (multisig_submit_transaction alice payment funded).2 = token) as Htok
      by (vm_compute; reflexivity).
    rewrite <-Htok. apply (run_ok [] (multisig_submit_transaction alice payment) funded).
    vm_compute. reflexivity.
  - exists t. split; [done|]. split; [done|]. split; [|done].
    assert (match get_multisig_info submitted token with Ok t => mi_threshold (ms_info t) | _ => 0 end = 2) as Hth
      by (vm_compute; reflexivity).
    by rewrite Ht in Hth.
Defined.

(** A transaction that executes itself. *)
Definition looping : SubmitTransactionArgs AccountMultisigTransaction :=
  mkSubmitArgs acct None (T_AccountMultisigExecute token) (Some 1) None None None None.
Definition loop_submitted : LedgerStorage := (multisig_submit_transaction alice looping funded).1.
Lemma self_execution_diverges_witness :
  multisig_execute 1000 alice token loop_submitted = (loop_submitted, OutOfFuel).
Proof.
  apply (self_execution_diverges 1000 alice token (stored_tx loop_submitted) (account_of loop_submitted).1
    (account_of loop_submitted).2 loop_submitted).
  - apply stored_tx_ok. vm_compute. reflexivity.
  - vm_compute. reflexivity.
  - vm_compute. reflexivity.
  - apply N.leb_le. vm_compute. reflexivity.
  - replace (ms_account (stored_tx loop_submitted)) with acct by (vm_compute; reflexivity).
    apply account_of_ok. vm_compute. reflexivity.
  - vm_compute. reflexivity.
  - vm_compute. reflexivity.
Defined.

Lemma executed_late_db : db_ok executed_late.
Proof. apply db_check_ok. vm_compute. reflexivity. Qed.
Lemma in_range_now s : (now s <=? I64_MAX) = true → now s ≤ I64_MAX.
Proof. apply N.leb_le. Qed.

Lemma expiry_exact_witness :
  ∃ s', check_timed_out_multisig_transactions executed_late = (s', Ok tt)
    ∧ view s' !! b HEIGHT_ROOT = view executed_late !! b HEIGHT_ROOT.
Proof.
  destruct (expiry_exact executed_late) as (s' & Hs & Hk).
  - exact executed_late_db.
  - apply in_range_now. vm_compute. reflexivity.
  - exists s'. split; [done|]. specialize (Hk (b HEIGHT_ROOT)).
    rewrite decide_False in Hk by (by_decide). done.
Defined.

(** The transaction as committed, and as executed since. *)
Definition old_bytes : bytes := default [] (committed executed_late !! key_for_multisig_transaction token).
Definition old_tx : MultisigTransactionStorage := state_of (stored_tx executed_late) (decode old_bytes).
Lemma expiry_overwrites_witness :
  mi_state (ms_info (stored_tx executed_late)) = ExecutedManually
  ∧ ∃ s', check_timed_out_multisig_transactions executed_late = (s', Ok tt)
      ∧ get_multisig_info s' token = Ok (ms_disable old_tx Expired).
Proof.
  split; [vm_compute; reflexivity|].
  apply (expiry_overwrites executed_late token old_tx old_bytes (stored_tx executed_late)).
  - exact executed_late_db.
  - apply in_range_now. vm_compute. reflexivity.
  - unfold old_bytes. destruct (committed executed_late !! key_for_multisig_transaction token) eqn:E; [done|].
    apply (f_equal (λ o, bool_decide (is_Some o))) in E. vm_compute in E. discriminate E.
  - apply state_of_ok. vm_compute. reflexivity.
  - vm_compute. done.
  - vm_compute. reflexivity.
  - apply N.leb_le. vm_compute. reflexivity.
  - apply stored_tx_ok. vm_compute. reflexivity.
  - vm_compute. reflexivity.
  - vm_compute. reflexivity.
Defined.

(** ** Blocks *)

Lemma no_db_transactions s : none_below MULTISIG_TRANSACTIONS_ROOT (committed s) = true → db_ok s.
Proof. intros Hs k l Hk Hl. exfalso. by eapply none_below_ok. Qed.

Lemma commit_spec_witness :
  ∃ s', commit transferred = (s', Ok (mkCommitInfo 0 (hash s')))
    ∧ abci_info s' = Ok (mkAbciInfo 1 (merk_root_hash (persistent_store s'))) ∧ committed s' = view s'.
Proof.
  destruct (commit_spec transferred 0) as (s' & Hs & Hi & Hc & _).
  - apply no_db_transactions. vm_compute. reflexivity.
  - apply in_range_now. vm_compute. reflexivity.
  - vm_compute. reflexivity.
  - vm_compute. reflexivity.
  - apply no_migrations. vm_compute. reflexivity.
  - exists s'. auto.
Defined.

Lemma block_event_ids_witness :
  ∃ s' info, commit block_one = (s', Ok info) ∧ tid s' = 2 ^ 32 ∧ tid block_one ≤ tid s'
    ∧ be_value (next_event_id s') = 2 ^ 32 + 1.
Proof.
  apply (block_event_ids block_one 1).
  - apply no_db_transactions. vm_compute. reflexivity.
  - apply in_range_now. vm_compute. reflexivity.
  - vm_compute. reflexivity.
  - apply no_migrations. vm_compute. reflexivity.
  - vm_compute. reflexivity.
  - vm_compute. reflexivity.
  - apply N.leb_le. vm_compute. reflexivity.
Defined.

Definition first_event : EventInfo := E_AccountDisable alice.
Definition second_event : EventInfo := E_AccountDisable bob.
Lemma first_block_ids_reused_witness :
  ∃ s2 info s3, commit (log_event first_event plain).1 = (s2, Ok info) ∧ log_event second_event s2 = (s3, Ok tt)
    ∧ nb_events s3 = Ok 2.
Proof.
  destruct (first_block_ids_reused plain first_event second_event (log_event first_event plain).1)
    as (s2 & info & s3 & Hc & Hl & Hn & _).
  - vm_compute. reflexivity.
  - vm_compute. reflexivity.
  - vm_compute. reflexivity.
  - apply (run_ok tt (log_event first_event) plain). vm_compute. reflexivity.
  - apply no_db_transactions. vm_compute. reflexivity.
  - apply in_range_now. vm_compute. reflexivity.
  - apply no_migrations. vm_compute. reflexivity.
  - exists s2, info, s3. auto.
Defined.

(** ** Handlers *)

(** Carol, who may transact for the account, pays from it. *)
Definition carol_pays : SendArgs := mkSendArgs (Some acct) bob 5 coin None.
Lemma with_acct_readable : accounts_readable with_acct.
Proof. apply (inv_readable _ _ with_acct_accounts). Qed.
Lemma send_authorised_witness :
  may_send with_acct carol acct = true ∧
  LedgerBackend.send carol carol_pays with_acct = (send acct bob coin 5 None;; mret tt) with_acct.
Proof.
  assert (may_send with_acct carol acct = true) as Hm by (vm_compute; reflexivity).
  split; [done|]. pose proof (send_authorised with_acct carol carol_pays with_acct_readable) as Hs.
  cbv zeta in Hs. change (default carol (send_from carol_pays)) with acct in Hs. rewrite Hm in Hs. exact Hs.
Defined.

(** Alice owns the token. *)
Lemma mint_burn_authorised_witness :
  TokenBackend.token_identity genesis = Ok alice ∨ ∃ k, get_owner genesis coin = Ok (Some alice, k).
Proof.
  destruct (mint_burn_authorised genesis alice (mkTokenMintArgs coin mint_args None)
    (mkTokenBurnArgs coin burn_args None None)) as [Hm _].
  destruct (Hm (TokenBackend.mint alice (mkTokenMintArgs coin mint_args None) genesis).1) as [Ha _]; [|exact Ha].
  apply (run_ok tt (TokenBackend.mint alice (mkTokenMintArgs coin mint_args None)) genesis).
  vm_compute. reflexivity.
Defined.

(** The log after the commit: the newest event first, ids from 2 on. *)
Definition logged : LedgerStorage := (commit_storage executed).1.
Definition list_range : CborRange EventId := mkRange (Included [as_u8 2]) Unbounded.
Definition list_args : ListArgs :=
  mkListArgs (Some 2) (Some Descending)
    (Some (mkEventFilter None None None (Some list_range) None None)).
Lemma events_list_spec_witness :
  (∃ all, events_list logged list_args
          = Ok (mkListReturns (state_of 0 (nb_events logged)) (take 2 all))
    ∧ (∀ e, e ∈ all ↔ stored_event logged e ∧ id_selected list_range (log_id e)
                      ∧ passes (default filter_default (la_filter list_args)) e = true)
    ∧ StronglySorted (before Descending) all)
  ∧ ∀ i, id_selected list_range i ↔ id_in_range list_range i.
Proof.
  destruct (events_list_spec logged list_args (state_of 0 (nb_events logged))) as [Hl Hr].
  - apply events_check_ok. vm_compute. reflexivity.
  - apply state_of_ok. vm_compute. reflexivity.
  - split; [exact Hl|]. apply Hr; [|exact I]. apply Nat.leb_le. vm_compute. reflexivity.
Defined.

(** ** The token migration *)

(** A store from before it: three accounts so far. *)
Definition before_tokens : @merk env_merk :=
  let m := list_to_map [(b IDENTITY_ROOT, address_to_vec server); (b SYMBOLS_ROOT, to_vec symbols);
                        (b ACCOUNT_SUBRESOURCE_ID_ROOT, be_bytes 4 3)] in mkMem m m.
Definition token_extra (identity : Address) : Extra :=
  list_to_map [("token_identity", JString (address_to_string identity)); ("token_next_subresource", JNumber 0);
               ("symbol", JString (address_to_string coin)); ("symbol_name", JString "Coin");
               ("symbol_decimals", JNumber 9); ("symbol_total", JNumber 1500);
               ("symbol_circulating", JNumber 1500); ("symbol_maximum", JNull); ("symbol_owner", JNull)].
Lemma token_migration_counters_witness :
  ∃ root l n tid next txt v w,
    merk_view before_tokens !! b IDENTITY_ROOT = Some l ∧ from_bytes l = Ok root
    ∧ read_be_or_zero 4 (merk_view before_tokens !! b ACCOUNT_SUBRESOURCE_ID_ROOT) = Ok n
    ∧ token_extra server !! "token_identity" = Some v ∧ json_string v = Ok txt ∧ address_from_str txt = Ok tid
    ∧ token_extra server !! "token_next_subresource" = Some w ∧ json_u32 w = Ok next
    ∧ merk_view (token_initialize (token_extra server) before_tokens).1 !! key_for_subresource_counter root true
      = Some (be_bytes 4 (if bool_decide (tid = root) then next else n)).
Proof.
  destruct (token_migration_counters (token_extra server) before_tokens
    (token_initialize (token_extra server) before_tokens).1)
    as (root & l & n & tid & next & txt & v & w & H1 & H2 & H3 & H4 & H5 & H6 & H7 & H8 & _ & _ & _ & H9 & _).
  - assert (is_ok (token_initialize (token_extra server) before_tokens).2 = true) as Hok by (vm_compute; reflexivity).
    destruct (token_initialize (token_extra server) before_tokens) as [m' [[]| | |]]; done.
  - exists root, l, n, tid, next, txt, v, w. auto 20.
Defined.

(** ** The identity store *)

Definition credential_args : StoreArgs :=
  mkStoreArgs alice (mkCredentialId (replicate 16 (as_u8 7))) (mkPublicKey [as_u8 1; as_u8 2]).
Definition phrase : RecallPhrase := ["zoo"; "0000"].
Lemma idstore_roundtrip_witness :
  (∃ e, get_from_recall_phrase genesis phrase = Err e)
  ∧ idstore_get_from_recall_phrase (idstore_store bob credential_args genesis).1 phrase
    = Ok (mkGetReturns (st_cred_id credential_args) (st_public_key credential_args)).
Proof.
  destruct (idstore_roundtrip bob credential_args 0 genesis (idstore_store bob credential_args genesis).1 phrase)
    as (_ & _ & _ & He & Hg & _).
  - vm_compute. reflexivity.
  - assert (state_of [] (idstore_store bob credential_args genesis).2 = phrase) as Hp by (vm_compute; reflexivity).
    rewrite <-Hp. apply (run_ok [] (idstore_store bob credential_args) genesis). vm_compute. reflexivity.
  - auto.
Defined.
