(* ===== verification/ServerReference.v ===== *)
(** * Reference environment of the messages and the servers

    Concrete libraries that meet the laws of [Minicbor], [Coset] and [RocksDb], on the codecs of
    [Codecs], and small servers, backends and nodes on which the theorems about messages, servers and
    the bridge are applied. A signature is the address of the signer. *)
From S2P Require Import Prelude Error ErrorDisplay External Address Types Account Events Migration.
From S2P Require Import Codecs Reference Scenario.
From S2P Require Import Cose Wire WireLaws Protocol ProtocolLaws Verifiers VerifierLaws Server ServerLaws ServerReplay AbciBridge AbciBridgeLaws BaseStatus.

#[local] Open Scope string_scope.
#[local] Open Scope list_scope.
#[local] Open Scope N_scope.

#[local] Unset Program Cases.

(** ** Libraries *)

#[global] Program Instance token_pack : Pack Token := {|
  pack x :=
    match x with
    | TkBool a => tagged 0 a
    | TkInt a => tagged 1 a
    | TkString a => tagged 2 a
    | TkBytes a => tagged 3 a
    | TkArray a => tagged 4 a
    | TkMap a => tagged 5 a
    | TkTag a => tagged 6 a
    | TkNull => tagged 7 tt
    | TkBreak => tagged 8 tt
    | TkOther => tagged 9 tt
    | TkStringIndef => tagged 10 tt
    end;
  unpack p :=
    '(n, q) ← untag p;
    match n with
    | 0 => TkBool <$> field q
    | 1 => TkInt <$> field q
    | 2 => TkString <$> field q
    | 3 => TkBytes <$> field q
    | 4 => TkArray <$> field q
    | 5 => TkMap <$> field q
    | 6 => TkTag <$> field q
    | 7 => (λ _ : unit, TkNull) <$> field q
    | 8 => (λ _ : unit, TkBreak) <$> field q
    | 9 => (λ _ : unit, TkOther) <$> field q
    | 10 => (λ _ : unit, TkStringIndef) <$> field q
    | _ => None
    end;
|}.
Solve All Obligations with pack_cases.

#[global] Instance ref_minicbor : Minicbor := {|
  tokens_to_vec ts := to_vec (Cbor := pack_cbor) ts;
  tokens l := match decode (Cbor := pack_cbor) l with Ok ts => ts | _ => [] end;
  lib_error _ := "unexpected item";
  tag_compare := N.compare;
|}.
#[global] Instance token_fits_dec t : Decision (token_fits t).
Proof. destruct t as [|z| | |[]|[]| | | | |]; simpl; unfold int_fits; apply _. Defined.
#[global] Instance ref_minicbor_laws : MinicborLaws.
Proof.
  intros ts _. unfold tokens, tokens_to_vec, ref_minicbor.
  by rewrite (decode_to_vec (CborLaws := pack_cbor_laws (λ _, True)) ts I).
Qed.

#[global] Instance ref_clock : Clock := 1700000000.

#[global] Program Instance label_pack : Pack Label := {|
  pack x := match x with LInt a => tagged 0 a | LText a => tagged 1 a end;
  unpack p :=
    '(n, q) ← untag p;
    match n with 0 => LInt <$> field q | 1 => LText <$> field q | _ => None end;
|}.
Solve All Obligations with pack_cases.
#[global] Program Instance value_pack : Pack Value := {|
  pack x :=
    match x with
    | VInteger a => tagged 0 a
    | VBytes a => tagged 1 a
    | VText a => tagged 2 a
    | VOther a => tagged 3 a
    end;
  unpack p :=
    '(n, q) ← untag p;
    match n with
    | 0 => VInteger <$> field q
    | 1 => VBytes <$> field q
    | 2 => VText <$> field q
    | 3 => VOther <$> field q
    | _ => None
    end;
|}.
Solve All Obligations with pack_cases.
#[global] Program Instance algorithm_pack : Pack Algorithm := {|
  pack x := match x with EdDSA => tagged 0 tt | ES256 => tagged 1 tt | OtherAlgorithm a => tagged 2 a end;
  unpack p :=
    '(n, q) ← untag p;
    match n with
    | 0 => (λ _ : unit, EdDSA) <$> field q
    | 1 => (λ _ : unit, ES256) <$> field q
    | 2 => OtherAlgorithm <$> field q
    | _ => None
    end;
|}.
Solve All Obligations with pack_cases.
#[global] Program Instance key_type_pack : Pack KeyType := {|
  pack x := match x with OKP => tagged 0 tt | EC2 => tagged 1 tt | OtherKeyType a => tagged 2 a end;
  unpack p :=
    '(n, q) ← untag p;
    match n with
    | 0 => (λ _ : unit, OKP) <$> field q
    | 1 => (λ _ : unit, EC2) <$> field q
    | 2 => OtherKeyType <$> field q
    | _ => None
    end;
|}.
Solve All Obligations with pack_cases.
#[global] Program Instance cose_key_pack : Pack CoseKey :=
  pack_iso (λ r, let '(mkCoseKey a b c d e f) := r in (a, b, c, d, e, f))
    (λ '(a, b, c, d, e, f), mkCoseKey a b c d e f) _.
Next Obligation. by intros []. Qed.
#[global] Program Instance header_pack : Pack Header :=
  pack_iso (λ r, let '(mkHeader a b c d) := r in (a, b, c, d)) (λ '(a, b, c, d), mkHeader a b c d) _.
Next Obligation. by intros []. Qed.
#[global] Program Instance protected_pack : Pack ProtectedHeader :=
  pack_iso (λ r, let '(mkProtected a b) := r in (a, b)) (λ '(a, b), mkProtected a b) _.
Next Obligation. by intros []. Qed.
#[global] Program Instance envelope_pack : Pack CoseSign1 :=
  pack_iso (λ r, let '(mkCoseSign1 a b c d) := r in (a, b, c, d)) (λ '(a, b, c, d), mkCoseSign1 a b c d) _.
Next Obligation. by intros []. Qed.

(** A set of keys is read if no key has a label twice. *)
Definition read_keyset (l : bytes) : outcome string (list CoseKey) :=
  ks ← decode (Cbor := pack_cbor) l;
  if bool_decide (Forall key_labels_unique ks) then Ok ks else Err "duplicate map key".
#[global] Instance key_labels_unique_dec k : Decision (key_labels_unique k).
Proof. unfold key_labels_unique. apply _. Defined.
#[global] Instance ref_coset : Coset := {|
  tbs_data h p := to_vec (Cbor := pack_cbor) (h, p);
  cose_from_slice l := decode (Cbor := pack_cbor) l;
  cose_to_vec e := Ok (to_vec (Cbor := pack_cbor) e);
  cose_from_tagged_slice l := decode (Cbor := pack_cbor) l;
  cose_to_tagged_vec e := Ok (to_vec (Cbor := pack_cbor) e);
  coset_key_to_vec k := Ok (to_vec (Cbor := pack_cbor) k);
  keyset_to_vec ks := Ok (to_vec (Cbor := pack_cbor) ks);
  keyset_from_slice := read_keyset;
  keyset_from_cbor_value v := match v with VOther l => read_keyset l | _ => Err "expected an array" end;
|}.
Lemma decode_pack `{Pack A} (a : A) : decode (Cbor := pack_cbor) (to_vec (Cbor := pack_cbor) a) = Ok a.
Proof. exact (decode_to_vec (CborLaws := pack_cbor_laws (λ _, True)) a I). Qed.
#[global] Instance ref_coset_laws : CosetLaws.
Proof.
  split.
  - intros l ks. simpl. unfold read_keyset. intros (ks' & _ & Hk)%bind_Ok_inv. case_bool_decide; [|done].
    by injection Hk as <-.
  - intros ks Hks. eexists. split; [done|]. unfold keyset_from_slice, ref_coset, read_keyset.
    rewrite decode_pack. cbn [mbind outcome_bind].
    by rewrite bool_decide_true.
  - intros l. by eexists.
  - intros k. by eexists.
Qed.

#[global] Instance ref_transport : CosetTransport.
Proof. by split; intros e _; eexists _, e; (split; [reflexivity|split; [exact (decode_pack e)|]]). Qed.

#[global] Instance ref_rocksdb : RocksDb := {|
  rocks_db := gmap bytes bytes;
  rocks_get d k := d !! k;
  rocks_put d k v := <[k := v]> d;
|}.
#[global] Instance ref_rocksdb_laws : RocksDbLaws.
Proof.
  intros d k v k'. simpl. destruct (bool_decide_reflect (k = k')) as [->|Hk]; by simplify_map_eq.
Qed.
#[global] Instance ref_sha512 : Sha512 := λ l, l.

(** A scheme in which the public key is the secret and a signature is the key and the message. *)
#[global] Instance ref_sha3 : Sha3 := λ l, resize SHA_OUTPUT_SIZE (as_u8 0) (reverse l).
#[global] Instance ref_sha3_laws : Sha3Laws.
Proof. intros l. apply length_resize. Qed.
Definition toy_verify (key sig data : bytes) : outcome string unit :=
  if bool_decide (sig = key ++ data) then Ok tt else Err "signature error".
#[global] Instance ref_crypto : Crypto := {|
  ed_verifying_key _ := Ok tt;
  ed_verify x := toy_verify x;
  ed_sign d l := Ok (d ++ l);
  p256_verifying_key x y := if bool_decide (x = y) then Ok tt else Err "not on the curve";
  p256_verify x y := toy_verify x;
  p256_secret_key _ := Ok tt;
  p256_sign d l := Ok (d ++ l);
|}.
Lemma toy_pair x : length x = 32%nat → p256_pair x x x.
Proof.
  intros Hx. split; [done|done|by simpl; rewrite bool_decide_true|]. intros l. exists (x ++ l).
  split; [done|]. simpl. unfold toy_verify. by rewrite bool_decide_true.
Qed.
#[global] Instance ref_debug : CosetDebug := {| debug_kty _ := "key type"; debug_alg _ := "algorithm" |}.
#[global] Program Instance challenge_pack : Pack Challenge :=
  pack_iso (λ r, let '(mkChallenge a b) := r in (a, b)) (λ '(a, b), mkChallenge a b) _.
Next Obligation. by intros []. Qed.
#[global] Program Instance client_data_pack : Pack ClientData :=
  pack_iso (λ r, let '(mkClientData a b c) := r in (a, b, c)) (λ '(a, b, c), mkClientData a b c) _.
Next Obligation. by intros []. Qed.
#[global] Instance ref_webauthn : WebAuthnEnv := {|
  client_data_from_json s := decode (Cbor := pack_cbor) (b s);
  ManyUrl := string;
  url_parse s := Ok s;
  url_eqb u v := bool_decide (u = v);
  base64_url_decode s := Ok (b s);
  challenge_decode l := decode (Cbor := pack_cbor) l;
  sha256_digest l := l;
  sha512_digest l := l;
|}.

(** The key of an attacker. *)
Definition mallory_key : bytes := replicate 32 (as_u8 66).
Definition web_verifier : WebAuthnVerifier := mkWebAuthn (Some ["https://example.org"]).

(** ** Parties *)

(** An identity signs with its address; its verifier reads it back. *)
Definition signer (a : Address) : Identity :=
  mkIdentity a None (λ e,
    Ok (mkCoseSign1 (mkProtected None (mkHeader None (address_to_vec a) [] [])) header_default (cose_payload e)
          (address_to_vec a))).
Definition key_verifier : Verifier := λ e,
  if bool_decide (cose_key_id e = cose_signature e) then from_bytes (cose_key_id e)
  else Err (could_not_verify_signature "bad signature").
Definition verifier_of_all : Verifier := verify_tuple [AnonymousVerifier; key_verifier].

(** ** Requests *)

Definition ping (from : option Address) (i : option N) : RequestMessage :=
  mkRequest None from ANONYMOUS "ping" (b "hello") (Some 1700000000) i (Some [as_u8 7]) {[3 := [CBytes [as_u8 1]]]}.
(** A request in the envelope of its sender. *)
Definition sealed (m : RequestMessage) : CoseSign1 :=
  match encode_cose_sign1_from_request m (signer (request_from m)) with Ok e => e | _ => cose_of_payload [] end.
Definition anonymous_ping : CoseSign1 :=
  match encode_cose_sign1_from_request (ping None None) AnonymousIdentity with Ok e => e | _ => cose_of_payload [] end.
(** A request whose sender is the text [méa], cut inside its second character. *)
Definition cut_text : string := "méa".
Definition cut_tokens : list Token := [TkTag REQUEST_TAG; TkMap (Some 1); TkInt 1; TkString cut_text].
Definition cut_envelope : CoseSign1 := cose_of_payload (tokens_to_vec cut_tokens).

(** ** A server *)

(** A module that counts its messages. *)
Definition ping_module : ManyModule N :=
  mkModule _ (mkModuleInfo "PingModule" (Some (attribute_id 90)) ["ping"; "count"])
    (λ _ _ _, Ok tt)
    (λ m n, (n + 1, Ok (response_from_request m Scenario.server (Ok (b "pong"))))).
Definition pong_module : ManyModule N :=
  mkModule _ (mkModuleInfo "PongModule" (Some (attribute_id 91)) ["pong"])
    (λ _ _ _, Ok tt) (λ m n, (n, Err could_not_route_message)).
Abbreviation CachedValidator := (unit * RequestCacheValidator (gmap bytes bytes))%type.
#[global] Instance cached_validator : RequestValidator CachedValidator :=
  pair_validator (RequestValidator1 := cache_validator (T := rocks_db)).
Definition empty_server : ManyServer N unit := server_new "reference" (signer Scenario.server) verifier_of_all None.
Definition ping_server : ManyServer N CachedValidator :=
  match add_module (add_validator empty_server (CacheValidator (∅ : gmap bytes bytes))) ping_module with
  | Ok s => s
  | _ => add_validator empty_server (CacheValidator (∅ : gmap bytes bytes))
  end.
Definition sh0 : Shared := mkShared ping_server false 0 [].
Definition now_ns : SystemTime := 1700000000 * NANOS.
Definition http (e : CoseSign1) : HttpRequest := (None, to_vec (Cbor := pack_cbor) e, now_ns).


(** ** Nodes *)

(** A backend that always gives the same answer. *)
#[global] Instance ref_http : Http CoseSign1 := λ _ w, (w, Ok (200, Ok (to_vec (Cbor := pack_cbor) w))).
(** A chain that records what is broadcast. *)
#[global] Instance ref_tendermint : Tendermint (list bytes) := {|
  broadcast_tx_sync l w := (w ++ [l], Ok (sha512 [as_u8 42]));
  tm_abci_query _ w := (w, Ok []);
|}.

Definition node (name : string) : AbciApp unit :=
  mkAbciApp name (client_new ANONYMOUS AnonymousIdentity key_verifier) tt false ∅ None.
(** The answer of the backend of a node: its own identity and time. *)
Definition answer_at (a : Address) (t : Timestamp) : ResponseMessage :=
  mkResponse (Some 1) a (Some alice) (Ok (b "pong")) (Some t) None ∅.
Definition backend_at (a : Address) (t : Timestamp) : CoseSign1 := cose_of_payload (response_to_bytes (answer_at a t)).

Definition frontend : AbciModuleMany :=
  mkAbciModule (signer Scenario.server) {["ping" := true; "count" := false]} (Some {[alice]})
    (mkStatus 1 "backend" None Scenario.server [attribute_id 0; attribute_id 1000] None (Some 300) ∅) [AnonymousVerifier; key_verifier].
