(* ===== verification/AppWitnesses.v ===== *)
(** * Witnesses: errors, the key-value store and the web server

    Concrete libraries that meet the laws of [AppEnv], [KvEnv] and [WebEnv], on those of
    [Reference], and concrete stores of the two applications (an archive is the encoded list of
    its files); for each theorem with hypotheses, an application to a concrete input that satisfies them. *)
From S2P Require Import Cose Wire WireLaws Protocol ProtocolLaws ProofOps Verifiers VerifierLaws Server ServerLaws.
From S2P Require Import Endpoints EndpointLaws AbciBridge HttpProxy WebServer ServerReference.
From S2P Require Import Prelude Error ErrorDisplay External Address Types Account Events Migration.
From S2P Require Import Storage StorageLaws AppStore AccountStorage AccountModule KvStore KvModule KvLaws KvAccounts.
From S2P Require Import Web WebLaws WebSites IdStore Codecs Reference Scenario.

#[local] Open Scope string_scope.
#[local] Open Scope list_scope.
#[local] Open Scope N_scope.

#[local] Unset Program Cases.

(** ** Environments *)

#[global] Program Instance kv_meta_pack : Pack KvStoreMetadata :=
  pack_iso (λ r, let '(mkKvMeta a b c) := r in (a, b, c)) (λ '(a, b, c), mkKvMeta a b c) _.
Next Obligation. by intros []. Qed.
#[global] Program Instance web_info_pack : Pack WebDeploymentInfo :=
  pack_iso (λ r, let '(mkWebInfo a b c d e) := r in (a, b, c, d, e))
    (λ '(a, b, c, d, e), mkWebInfo a b c d e) _.
Next Obligation. by intros []. Qed.
#[global] Program Instance dir_entry_pack : Pack DirEntry := {|
  pack x :=
    match x with
    | DirFile p c => tagged 0 (p, c)
    | DirDirectory p => tagged 1 p
    | DirUnreadable p err => tagged 2 (p, err)
    | DirError p err => tagged 3 (p, err)
    end;
  unpack p :=
    '(n, q) ← untag p;
    match n with
    | 0 => (λ '(p, c), DirFile p c) <$> field q
    | 1 => DirDirectory <$> field q
    | 2 => (λ '(p, err), DirUnreadable p err) <$> field q
    | 3 => (λ '(p, err), DirError p err) <$> field q
    | _ => None
    end;
|}.
Solve All Obligations with pack_cases.

#[global] Instance ref_app : AppEnv := {|
  app_base32 := ref_base32;
  app_crc16 := ref_crc16;
  app_hex := ref_hex;
  app_big := ref_big;
  app_merk := ref_merk;
  app_clock := 1700000000;
  app_cbor_event := pack_cbor;
  app_cbor_event_id := pack_cbor;
  app_cbor_account := pack_cbor;
|}.
#[global] Instance ref_app_laws : AppEnvLaws.
Proof. split; apply _ || apply pack_cbor_laws. Defined.

#[global] Instance ref_kv : KvEnv := {| kv_app := ref_app; kv_cbor_meta := pack_cbor |}.
#[global] Instance ref_kv_laws : KvEnvLaws.
Proof. split; [apply ref_app_laws|apply pack_cbor_laws]. Defined.

(** Leading spaces are dropped; then, on the reversed text, the trailing ones. *)
Fixpoint drop_spaces (l : bytes) : bytes :=
  match l with
  | x :: r => if is_ascii_whitespace (Byte.to_N x) then drop_spaces r else l
  | [] => []
  end.
Definition trim_spaces (s : string) : string :=
  String.string_of_list_byte (reverse (drop_spaces (reverse (drop_spaces (b s))))).
Definition ascii_alphanumeric (c : N) : bool :=
  (48 <=? c) && (c <=? 57) || (65 <=? c) && (c <=? 90) || (97 <=? c) && (c <=? 122).
Definition archive (l : list DirEntry) : bytes := to_vec (Cbor := pack_cbor) l.

#[global] Instance ref_web : WebEnv := {|
  web_app := ref_app;
  web_cbor_info := pack_cbor;
  new_tempdir := Ok tt;
  zip_open l := (λ _ : list DirEntry, tt) <$> decode (Cbor := pack_cbor) l;
  zip_extract l := decode (Cbor := pack_cbor) l;
  sha256 l := be_bytes 32 (be_value l);
  Web.base64_encode l := l;
  Web.base64_decode l := Ok l;
  domain_name d := if String.eqb d "" then Err "empty domain" else Ok d;
  unicode_alphanumeric := ascii_alphanumeric;
  str_to_lowercase := to_ascii_lowercase;
  str_trim := trim_spaces;
  web_domain_suffix := "localhost:8880";
|}.
#[global] Instance ref_web_laws : WebEnvLaws.
Proof. split; [apply ref_app_laws|apply pack_cbor_laws|done]. Defined.

Abbreviation KvState := (@AppStorage (@kv_app ref_kv)).
Abbreviation WebState := (@AppStorage (@web_app ref_web)).

(** ** A key-value store *)

Definition no_app (is_blockchain : bool) : AppStorage :=
  mkAppStorage _ (mkMem ∅ ∅) is_blockchain [as_u8 0] None None 0 server.
Definition kv0 : KvState := state_of (no_app true)
  (kv_module_new (mkKvInitialState {[b "motd" := mkKvMeta bob None None]} server None) (Ok (mkMem ∅ ∅)) true).
(** Alice stores a value under her key. *)
Definition put_color : KvPutArgs := mkKvPutArgs (b "color") (b "blue") None.
Definition kv1 : KvState := (kv_module_put alice put_color kv0).1.

(** What is stored is metadata that can be read. *)
Definition readable_meta (m : gmap bytes bytes) : bool :=
  forallb (λ kv, negb (bool_decide (KVSTORE_ACL_ROOT `prefix_of` kv.1))
                 || is_ok (decode (A := KvStoreMetadata) kv.2)) (map_to_list m).
Lemma readable_meta_ok m k l :
  readable_meta m = true → m !! (KVSTORE_ACL_ROOT ++ k) = Some l → ∃ x : KvStoreMetadata, decode l = Ok x.
Proof.
  intros Hm Hk.
  refine (map_check m (λ k l, KVSTORE_ACL_ROOT `prefix_of` k → ∃ x : KvStoreMetadata, decode l = Ok x)
    _ _ Hm _ l Hk _); [|by exists k].
  intros k' v Hc Hp. cbn [fst snd] in Hc. rewrite bool_decide_eq_true_2 in Hc by done. cbn [negb orb] in Hc.
  destruct (decode v); [eauto|done..].
Qed.
Lemma kv0_ready : kv_ready kv0.
Proof.
  split; [|exists 0; compute_eq]. intros k l. apply readable_meta_ok. compute_eq.
Qed.
Lemma kv1_ready : kv_ready kv1.
Proof.
  split; [|exists 1; compute_eq]. intros k l. apply readable_meta_ok. compute_eq.
Qed.

(** Every value has an owner. *)
Definition owned_values (m : gmap bytes bytes) : bool :=
  forallb (λ kv, match kv.1 with
                 | Byte.x73 :: k => bool_decide (is_Some (meta_in m k))
                 | _ => true
                 end) (map_to_list m).
Lemma owned_values_ok s k : owned_values (app_view s) = true → is_Some (value_at s k) → is_Some (meta_at s k).
Proof.
  intros Hm [v Hv].
  refine (map_check (app_view s) (λ k' _, k' = KVSTORE_ROOT ++ k → is_Some (meta_at s k)) _ _ Hm _ v Hv eq_refl).
  intros k' v' Hc ->. cbn [fst KVSTORE_ROOT b app] in Hc. by apply bool_decide_eq_true in Hc.
Qed.

(** ** Web servers *)

Definition web0 (is_blockchain : bool) : WebState :=
  state_of (no_app is_blockchain) (web_new server (Ok (mkMem ∅ ∅)) is_blockchain).
Definition page : list DirEntry :=
  [DirDirectory ["css"]; DirFile ["css"; "a.css"] (b "p{}"); DirFile ["index.html"] (b "<p>");
   DirFile [".env"] (b "x")].
Definition deploy_blog : WebDeployArgs :=
  mkWebDeployArgs None "My Blog " (Some "A blog.") (archive page) None (Some "blog.example").
Definition web1 : WebState := (web_deploy alice deploy_blog (web0 false)).1.
Definition page2 : list DirEntry := [DirFile ["index.html"] (b "<b>")].
Definition update_blog : WebDeployArgs :=
  mkWebDeployArgs (Some alice) "my blog" None (archive page2) None (Some "blog.example").

(** ** Errors *)

Ltac by_eval := apply (bool_decide_unpack _); vm_compute; exact I.

Lemma error_display_witness :
  ManyError_to_string (mkReason Unknown (Some "Key {key} is gone") {["key" := "k1"]}) = "Key k1 is gone".
Proof.
  rewrite (proj2 (error_display "" "Key " "key" " is gone" Unknown {["key" := "k1"]} eq_refl eq_refl)).
  vm_compute. reflexivity.
Defined.

(** ** The key-value store *)

Lemma kv_put_spec_witness :
  ∃ s', kv_module_put alice put_color kv0 = (s', Ok tt)
    ∧ kv_module_get s' (b "color") = Ok (Some (b "blue")).
Proof.
  pose proof (kv_put_spec kv0 alice put_color kv0_ready) as Hp.
  cbn [kv_put_alternative_owner put_color acting_owner] in Hp.
  assert (acl_allows kv0 alice (kv_put_key put_color) = true) as Ha by compute_eq.
  rewrite Ha in Hp. destruct Hp as (s' & Hs & Hg & _). exists s'. split; [exact Hs|exact Hg].
Defined.

Definition color_to_bob : KvTransferArgs := mkKvTransferArgs (b "color") None bob.
Lemma kv_transfer_spec_witness :
  ∃ s', kv_module_transfer alice color_to_bob kv1 = (s', Ok tt)
    ∧ value_at s' (b "color") = Some (b "blue").
Proof.
  pose proof (kv_transfer_spec kv1 alice color_to_bob kv1_ready) as Ht. cbn zeta in Ht.
  assert (meta_at kv1 (kv_transfer_key color_to_bob) = Some (mkKvMeta alice (Some (DisabledBool false)) None))
    as Hm by compute_eq.
  assert (value_at kv1 (kv_transfer_key color_to_bob) = Some (b "blue")) as Hv by compute_eq.
  assert (is_anonymous (kv_transfer_new_owner color_to_bob) = false) as Hn by compute_eq.
  rewrite Hm, Hv, Hn in Ht. cbn [km_disabled flag_disabled kv_transfer_alternative_owner color_to_bob acting_owner km_owner] in Ht.
  rewrite bool_decide_eq_false_2, bool_decide_eq_true_2 in Ht by done.
  destruct Ht as (s' & Hs & _ & _ & Hb). exists s'. split; [exact Hs|]. exact (becomes_value _ _ _ _ _ Hb).
Defined.

Definition disable_color : KvDisableArgs := mkKvDisableArgs (b "color") None None.
Definition kv2 : KvState := (kv_module_disable alice disable_color kv1).1.
Lemma kv_disabled_key_witness :
  kv_module_get kv2 (b "color") = Err key_disabled
  ∧ kv_module_transfer alice color_to_bob kv2 = (kv2, Err key_disabled).
Proof.
  destruct (kv_disabled_key kv1 alice disable_color kv2 kv1_ready) as (_ & Hg & _ & Ht & _).
  - rewrite (surjective_pairing (kv_module_disable alice disable_color kv1)). unfold kv2. f_equal.
  - split; [exact Hg|]. apply Ht. reflexivity.
Defined.

Lemma kv_access_control_witness :
  let s' := (kv_step bob (KvPut put_color) kv1).1 in
  meta_at s' (b "color") = Some (mkKvMeta alice (Some (DisabledBool false)) None)
  ∧ value_at s' (b "color") = value_at kv1 (b "color").
Proof.
  destruct (kv_access_control kv1 bob (KvPut put_color) (b "color")
    (mkKvMeta alice (Some (DisabledBool false)) None) kv1_ready) as [Hs|[_ Hact]].
  - compute_eq.
  - exact Hs.
  - exfalso. simpl in Hact. apply (f_equal (λ a, bool_decide (a = bob))) in Hact.
    vm_compute in Hact. discriminate Hact.
Defined.

Lemma kv_invariant_witness :
  kv_inv (kv_steps [(bob, KvPut put_color); (alice, KvDisable disable_color); (bob, KvTransfer color_to_bob)] kv1).1.
Proof.
  apply (kv_invariant kv1). split; [exact kv1_ready|]. intros k. apply owned_values_ok. compute_eq.
Defined.

Definition list_alice : KvListArgs := mkKvListArgs None (Some Descending) (Some [FilterOwner alice]).
Lemma kv_list_spec_witness : ∃ ks, kv_module_list kv1 list_alice = Ok ks ∧ NoDup ks.
Proof.
  destruct (kv_list_spec kv1 list_alice) as (ks & Hk & _ & Hnd & _); [|exists ks; split; assumption].
  intros k l. apply readable_meta_ok. compute_eq.
Defined.

Definition kv3 : KvState := (kv_commit kv1).1.
Lemma kv_restart_witness :
  ∃ s'', kv_module_load (Ok (app_store kv3)) true = Ok s'' ∧ kv_get_height s'' = Ok 1.
Proof.
  destruct (kv_restart kv1 kv3 (mkCommitInfo 0 []) 0 (address_to_vec server)) as (s'' & Hl & _ & _ & _ & _ & _ & _ & _ & Hh).
  - compute_eq.
  - compute_eq.
  - compute_eq.
  - compute_eq.
  - rewrite (surjective_pairing (kv_commit kv1)). unfold kv3. f_equal.
  - exists s''. split; [exact Hl|exact Hh].
Defined.

Definition kv_acct_args : CreateArgs :=
  mkCreateArgs (Some "team") (Some {[bob := {[CanKvStorePut]}]}) {[2 := []]}.
Lemma kv0_accounts : kv_accounts_inv kv0.
Proof.
  assert (∀ i l, app_view kv0 !! kv_key_for_account i = Some l → False) as Hnone.
  { intros i l Hl. eapply (none_below_ok (b "/account") (app_view kv0)); [compute_eq| |exact Hl].
    by eexists. }
  split; [intros i a (l & Hl & _)|intros i l Hl|intros i [l Hl]|exists 0; compute_eq]; destruct (Hnone _ _ Hl).
Qed.
Lemma kv_accounts_invariant_witness :
  kv_accounts_inv (kv_account_steps
    [(alice, ACreate kv_acct_args); (bob, ADisable (mkDisableArgs (subresource_of server 0)));
     (alice, ADisable (mkDisableArgs (subresource_of server 0)))] kv0).1.
Proof. apply (kv_accounts_invariant kv0); [exact kv0_accounts|compute_eq]. Defined.

(** ** The web server *)

Lemma web0_ready c : web_ready (web0 c).
Proof. exists 0. destruct c; compute_eq. Qed.
Lemma web1_ready : web_ready web1.
Proof. exists 1. compute_eq. Qed.
Definition no_store : @merk (@app_merk (@web_app ref_web)) := mkMem ∅ ∅.
Lemma web0_new : web_new server (Ok no_store) false = Ok (web0 false).
Proof. apply state_of_ok. compute_eq. Qed.
Lemma web1_step : web_step alice (WDeploy deploy_blog) (web0 false) = (web1, Ok tt).
Proof.
  unfold web_step, web1.
  rewrite (bind_ok (web_deploy alice deploy_blog) _ (web0 false) (web_deploy alice deploy_blog (web0 false)).1
    (info_of alice "my_blog" (Some "A blog.") (Some "blog.example"))); [reflexivity|].
  rewrite (surjective_pairing (web_deploy alice deploy_blog (web0 false))) at 1. f_equal.
Qed.
Lemma web0_inv : web_inv (web0 false).
Proof. apply (web_new_inv no_store server); [reflexivity|exact web0_new]. Qed.
Lemma web1_inv : web_inv web1.
Proof. exact (web_inv_step (web0 false) alice (WDeploy deploy_blog) web1 (Ok tt) web0_inv web1_step). Qed.

Definition remove_blog : WebRemoveArgs := mkWebRemoveArgs None "my_blog" None.

Lemma web_access_control_witness :
  let s' := (web_step bob (WRemove remove_blog) web1).1 in
  app_view s' !! key_for_website_meta alice "my_blog" = app_view web1 !! key_for_website_meta alice "my_blog".
Proof.
  destruct (web_access_control web1 bob (WRemove remove_blog) (web_step bob (WRemove remove_blog) web1).1
    (web_step bob (WRemove remove_blog) web1).2 web1_ready (surjective_pairing _)) as (_ & _ & Hk & _).
  refine (proj1 (Hk (key_for_website_meta alice "my_blog") _ _)).
  - intros Hb. pose proof (owner_key_inj _ _ _ Hb (meta_owner_key alice "my_blog")) as Heq.
    apply (f_equal (λ a, bool_decide (a = bob))) in Heq. vm_compute in Heq. discriminate Heq.
  - apply meta_not_event.
Defined.

Lemma web_deploy_spec_witness :
  ∃ s' i, web_deploy alice deploy_blog (web0 false) = (s', Ok i)
    ∧ get_deployment_meta s' alice (_transform_site_name (web_site_name deploy_blog)) = Ok i.
Proof.
  destruct (web_deploy_spec (web0 false) alice deploy_blog (web0_ready false))
    as [(dom & h & entries & files & _ & _ & _ & _ & _ & s' & Hs & Hm & _)|[[_ Hx] _]].
  - exists s'. eexists. split; [exact Hs|exact Hm].
  - exfalso. vm_compute in Hx. discriminate Hx.
Defined.

Lemma web_update_spec_witness :
  ∃ s' i, web_update alice update_blog web1 = (s', Ok i)
    ∧ get_deployment_meta s' alice (_transform_site_name (web_site_name update_blog)) = Ok i.
Proof.
  destruct (web_update_spec web1 alice update_blog web1_ready)
    as [(dom & h & entries & files & _ & _ & _ & _ & s' & Hs & Hm & _)|[[_ Hx] _]].
  - intros f. by rewrite (inv_db _ web1_inv).
  - exists s'. eexists. split; [exact Hs|exact Hm].
  - exfalso. vm_compute in Hx. discriminate Hx.
Defined.

Lemma web_remove_spec_witness :
  ∃ s', web_remove alice remove_blog web1 = (s', Ok tt)
    ∧ web_kv_get s' (key_for_website_file alice (_transform_site_name "my_blog") "index.html") = Ok None
    ∧ web_kv_get s' (key_for_website_file alice (_transform_site_name "my_blog" +:+ "/draft") "index.html") = Ok None.
Proof.
  destruct (web_remove_spec web1 alice remove_blog web1_ready) as (s' & Hs & Hf & _ & Hn & _).
  - intros k. by rewrite (inv_db _ web1_inv).
  - reflexivity.
  - exists s'. split; [exact Hs|]. split; [apply Hf|]. apply (Hn "draft" "index.html").
Defined.

Lemma web_domains_unique_witness :
  unique_domains (app_view (H0 := web_app_laws) web1)
  ∧ app_db (H0 := web_app_laws) web1 = app_view (H0 := web_app_laws) web1.
Proof.
  refine (web_domains_unique no_store server (web0 false) web1 eq_refl web0_new _).
  apply rtc_once. exists alice, (WDeploy deploy_blog), (Ok tt). exact web1_step.
Defined.

Lemma web_domains_in_a_block_witness :
  ∃ s1 s2 i1 i2, web_deploy alice deploy_blog (web0 true) = (s1, Ok i1)
    ∧ web_deploy bob deploy_blog s1 = (s2, Ok i2) ∧ wi_domain i1 = wi_domain i2.
Proof.
  destruct (web_domains_in_a_block (web0 true) alice deploy_blog bob deploy_blog (web0_ready true))
    as (s1 & s2 & i1 & i2 & H1 & H2 & _ & _ & Hd).
  - reflexivity.
  - by_eval.
  - compute_eq.
  - compute_eq.
  - exists s1, s2, i1, i2. split; [exact H1|]. split; [exact H2|]. apply Hd. reflexivity.
Defined.

Lemma web_list_pages_witness :
  concat ((λ i, page_of web1 2 None None (N.of_nat i)) <$> seq 1 3) = take 6 (web_list web1 Indeterminate None).*2.
Proof.
  apply (web_list_pages web1 2 None None 3).
  - vm_compute. discriminate.
  - compute_eq.
  - compute_eq.
Defined.

(** ** The pages of a site *)

#[global] Program Instance kv_get_args_pack : Pack KvGetArgs :=
  pack_iso kg_key mkKvGetArgs _.
Next Obligation. by intros []. Qed.
#[global] Program Instance kv_get_returns_pack : Pack KvGetReturns :=
  pack_iso kg_value mkKvGetReturns _.
Next Obligation. by intros []. Qed.
#[local] Instance ref_get_codecs : KvGetCodecs := {| codec_kv_get := pack_cbor; codec_kv_returns := pack_cbor |}.
(** The arguments of the other endpoints, which are not called here, are not read. *)
Definition unread {A} : Cbor A := {| to_vec _ := []; decode _ := Err "unread" |}.
#[local] Instance ref_web_codecs : WebCodecs.
Proof. split; [exact ref_get_codecs|exact unread..]. Defined.
#[local] Instance ref_proxy : ProxyEnv := {|
  field_equiv x y := String.eqb (to_ascii_lowercase x) y;
  mime_first_raw _ := Some "text/html";
  header_from_bytes n v := Some (n, v);
|}.

(** A server of sites after the deployment of the blog, with the verifiers of the program and a key of its own, and
    a proxy in front of it that knows neither the server nor a key. *)
Definition web_key : bytes := replicate 32 (as_u8 77).
Definition web_address : Address :=
  match address_unchecked (ecdsa_cose_key web_key web_key None) with Ok a => a | _ => ANONYMOUS end.
Definition web_identity : Identity := dsa_identity (ec_signer web_address web_key web_key web_key).
Definition web_base : ManyModule (Mutex WebState) :=
  mkModule _ (mkModuleInfo "BaseModule" (Some (attribute_id 0)) ["endpoints"; "heartbeat"; "status"])
    (λ _ _ _, Ok tt) (λ m w, (w, Ok (response_from_request m (req_to m) (Ok [])))).
Lemma web_base_ok : base_module_ok web_base.
Proof. split; [reflexivity|reflexivity|]. intros m w. reflexivity. Qed.
Definition web_server0 : ManyServer (Mutex WebState) unit :=
  match web_server web_identity (server_verifier web_verifier) None web_base None false with
  | Ok s => s
  | _ => server_new "" AnonymousIdentity AnonymousVerifier None
  end.
Definition web_node : Shared (W := Mutex WebState) (V := unit) := mkShared web_server0 false (mkMutex web1 false) [].
Definition proxy0 : ManyClient := proxy_client None None CoseKeyVerifier.
Definition blog_host : string := site_host alice "my_blog" "localhost:8880".
Definition blog_request : ProxyRequest := mkProxyRequest MethodGet "/" [("Accept", "*/*"); ("Host", blog_host)].

Lemma web_node_assembled : server_wf web_server0 ∧ modules web_server0 = web_base :: web_modules None false
  ∧ identity web_server0 = web_identity ∧ identity_verifier web_server0 = server_verifier web_verifier
  ∧ time_fn web_server0 = None ∧ timeout web_server0 = 300.
Proof.
  destruct (web_assembled web_identity (server_verifier web_verifier) None web_base None false web_base_ok)
    as (s & Hs & Hwf & Hm & Hi & Hv & _ & Ht & Hto).
  assert (web_server0 = s) as He by (unfold web_server0; rewrite Hs; reflexivity).
  rewrite He. exact (conj Hwf (conj Hm (conj Hi (conj Hv (conj Ht Hto))))).
Qed.
Lemma web_node_connected : connected proxy0 web_node now_ns "kvstore.get" (to_vec (mkKvGetArgs (page_key blog_request))) [].
Proof.
  destruct web_node_assembled as (_ & _ & Hi & Hv & Htf & Hto).
  split; change (Server.server web_node) with web_server0; rewrite ?Hi, ?Hv, ?Htf, ?Hto.
  - apply anonymous_speaks.
  - apply ecdsa_speaks; [apply toy_pair; reflexivity|compute_eq..].
  - exact (conj eq_refl eq_refl).
  - split; [by_eval|exact eq_refl].
  - compute_eq.
  - unfold validate_id. change (is_anonymous (req_to _)) with true. exact eq_refl.
  - intros e l He Hl. apply Ok_inj in He as <-. apply Ok_inj in Hl as <-. by_eval.
Qed.

(** The claim on sites, for the front page of the blog. *)
Lemma site_served_witness :
  ∃ sh', handle_proxy_request (Http0 := direct now_ns) proxy0 blog_request [] web_node
      = (sh', Ok (mkProxyResponse 200 [("Content-Type", "text/html")] (b "<p>")))
    ∧ world sh' = world web_node.
Proof.
  destruct web_node_assembled as (Hwf & Hm & _).
  destruct (site_served (H1 := ref_web_codecs) (CborLaws0 := pack_cbor_laws _) (CborLaws1 := pack_cbor_laws _) web_base None false proxy0 (web0 false) alice deploy_blog web1
    (info_of alice "my_blog" (Some "A blog.") (Some "blog.example")) web_node now_ns [] blog_request "index.html")
    as (dom & h & entries & files & [_ _ _ _ Hfiles] & Hf & Hif).
  - exact (web0_ready false).
  - exact (inv_db _ web0_inv).
  - rewrite (surjective_pairing (web_deploy alice deploy_blog (web0 false))) at 1. f_equal.
  - exact Hwf.
  - exact Hm.
  - reflexivity.
  - exact web_node_connected.
  - reflexivity.
  - reflexivity.
  - intros host Hh. apply (inj Some) in Hh. apply (inj (String.append "https://")) in Hh. rewrite <-Hh. reflexivity.
  - assert (entries = page) as ->.
    { assert (_prepare_deployment "my_blog" (Some "A blog.") (archive page) = Ok (h, entries)) as Hp by exact Hfiles.
      assert ((snd <$> _prepare_deployment "my_blog" (Some "A blog.") (archive page)) = Ok page) as Hp' by compute_eq.
      rewrite Hp in Hp'. by apply Ok_inj in Hp'. }
    assert (site_files page = Ok [("css/a.css", b "p{}"); ("index.html", b "<p>")]) as Hp by compute_eq.
    rewrite Hp in Hf. apply Ok_inj in Hf as <-.
    destruct Hif as [Hin _]. apply (Hin (b "<p>")). by_eval.
Defined.
