(* ===== verification/ServerWitnesses.v ===== *)
(** * Witnesses: messages, servers and the bridge

    The theorems about messages, servers and nodes, applied in the environment of [ServerReference]. *)
From S2P Require Import Prelude Error ErrorDisplay External Address Types Account Events Migration.
From S2P Require Import Codecs Reference Scenario.
From S2P Require Import Cose Wire WireLaws Protocol ProtocolLaws Verifiers VerifierLaws Server ServerLaws ServerReplay AbciBridge AbciBridgeLaws.
From S2P Require Import ServerReference.

#[local] Open Scope string_scope.
#[local] Open Scope list_scope.
#[local] Open Scope N_scope.

(** ** Messages *)

Lemma one_attribute i l : i < 2 ^ 32 →
  map_Forall (λ i args, attribute_wf (mkAttribute i args)) ({[i := [CBytes l]]} : AttributeSet).
Proof. intros Hi. apply map_Forall_insert_2; [|apply map_Forall_empty]. split; [done|]. repeat constructor. Qed.

Lemma ping_wf f i : (∀ n, i = Some n → n < 2 ^ 64) → request_wf (ping f i).
Proof. intros Hi. split; [decided|done|]. apply one_attribute. decided. Qed.
Lemma request_roundtrip_witness :
  request_from_bytes (request_to_bytes (ping (Some alice) (Some 4))) = Ok (ping (Some alice) (Some 4)).
Proof.
  destruct (request_roundtrip (ping (Some alice) (Some 4))) as [Hr Hm].
  - apply ping_wf. intros n [= <-]. decided.
  - decided.
  - rewrite Hr. by rewrite Hm.
Defined.

Definition pong (i : option N) : ResponseMessage :=
  mkResponse (Some 1) Scenario.server (Some alice) (Err (invalid_method_name "pong")) (Some 1700000001) i
    {[3 := [CBytes [as_u8 1]]]}.
Lemma pong_wf i : (∀ n, i = Some n → n < 2 ^ 63) → response_wf (pong i).
Proof. intros Hi. split; [done|decided|done|]. apply one_attribute. decided. Qed.
(** The same response without and with an id, of which the second loses its attributes. *)
Lemma response_roundtrip_witness :
  (∃ r, response_from_bytes (response_to_bytes (pong None)) = Ok r ∧ resp_attributes r = {[3 := [CBytes [as_u8 1]]]}
        ∧ resp_data r = Err (invalid_method_name "pong") ∧ resp_to r = Some alice)
  ∧ (∃ r, response_from_bytes (response_to_bytes (pong (Some 9))) = Ok r ∧ resp_attributes r = ∅ ∧ resp_id r = None).
Proof.
  split.
  - destruct (response_roundtrip (pong None)) as [Hr _]; [by apply pong_wf|decided|].
    eexists. split; [by apply Hr|]. split_and!; [done..|]. decided.
  - destruct (response_roundtrip (pong (Some 9))) as [_ Hr]; [|decided|].
    { apply pong_wf. intros n [= <-]. decided. }
    eexists. split; [apply (Hr 9 eq_refl); right; decided|]. done.
Defined.

(** ** Who signed *)

Definition mallory_signed (a : Address) (m : RequestMessage) : outcome ManyError CoseSign1 :=
  dsa_sign_1 (ec_signer a mallory_key mallory_key mallory_key) (cose_of_payload (request_to_bytes m)).
(** The address of the key of Mallory. *)
Definition mallory : Address :=
  match address_unchecked (ecdsa_cose_key mallory_key mallory_key None) with Ok a => a | _ => ANONYMOUS end.
Lemma mallory_address : address_unchecked (ecdsa_cose_key mallory_key mallory_key None) = Ok mallory.
Proof. vm_compute. reflexivity. Qed.
Lemma mallory_pair : p256_pair mallory_key mallory_key mallory_key.
Proof. by apply toy_pair. Qed.

Lemma ecdsa_sign_verify_witness :
  ∃ e, sign_1 (dsa_identity (ec_signer mallory mallory_key mallory_key mallory_key)) (cose_of_payload (b "hello")) = Ok e
    ∧ cose_payload e = Some (b "hello") ∧ CoseKeyVerifier e = Ok mallory.
Proof.
  apply (ecdsa_sign_verify mallory mallory_key mallory_key mallory_key (cose_of_payload (b "hello")) mallory_pair).
  - exact mallory_address.
  - reflexivity.
Defined.
Lemma mallory_verified :
  ∃ e, mallory_signed mallory (ping (Some mallory) None) = Ok e ∧ CoseKeyVerifier e = Ok mallory.
Proof.
  destruct (ec_signed mallory _ _ _ (cose_of_payload (request_to_bytes (ping (Some mallory) None))) mallory_pair)
    as (e & He & _ & Hid & (l & Hl & Hr) & Hs); [done|].
  destruct (cose_key_verifier_answers e mallory _ _ _ l mallory_pair Hid) as (ka & Hka & Hv); [by rewrite Hl|done..|].
  exists e. split; [done|]. rewrite Hv. rewrite mallory_address in Hka. injection Hka as <-. by rewrite matches_refl.
Qed.
Lemma cose_key_verifier_sound_witness :
  ∃ e ks k pk ka, mallory_signed mallory (ping (Some mallory) None) = Ok e
    ∧ keyset_from_cose_sign1 e = Some ks ∧ find_key (cose_key_id e) ks = Some k
    ∧ (ed_public_key k = Ok (Some pk) ∨ ec_public_key k = Ok (Some pk))
    ∧ signed_by pk (cose_signature e) (tbs_data (protected e) (default [] (cose_payload e)))
    ∧ address_unchecked pk = Ok ka ∧ matches ka mallory = true.
Proof.
  destruct mallory_verified as (e & He & Hv).
  destruct (cose_key_verifier_sound e mallory Hv) as (ks & k & pk & ka & Hks & Hk & Hp & Hs & Ha & Hm & _).
  exists e, ks, k, pk, ka. exact (conj He (conj Hks (conj Hk (conj Hp (conj Hs (conj Ha Hm)))))).
Defined.
(** Mallory asks as Alice, whose address is not that of the key. *)
Lemma webauthn_impersonation_witness :
  ∃ e, mallory_signed alice (ping (Some alice) None) = Ok e
    ∧ CoseKeyVerifier e = Err (address_mismatch mallory alice)
    ∧ decode_request_from_cose_sign1 e (server_verifier web_verifier) = Ok (ping (Some alice) None).
Proof.
  destruct (webauthn_impersonation web_verifier alice mallory_key mallory_key mallory_key (ping (Some alice) None))
    as (e & ka & He & Ha & Hc & Hd); [exact mallory_pair|reflexivity|reflexivity|reflexivity| |decided|].
  - by apply ping_wf.
  - assert (ka = mallory) as -> by (unfold mallory; by rewrite Ha).
    exists e. split; [exact He|]. split; [|exact Hd]. apply Hc. vm_compute. reflexivity.
Defined.

(** ** Servers *)

Lemma empty_wf : server_wf empty_server.
Proof. apply server_new_wf. Qed.
Lemma ping_added : ∃ s, add_module empty_server ping_module = Ok s.
Proof. by eexists. Qed.
(** The first module is accepted; a second one for the same methods is not. *)
Lemma add_module_spec_witness :
  (∃ s, add_module empty_server ping_module = Ok s ∧ server_wf s ∧ find_module s (ping None None) = Some ping_module
        ∧ ∃ t, add_module s ping_module = Panic t).
Proof.
  destruct (add_module_spec empty_server ping_module empty_wf) as (_ & _ & Hs).
  destruct ping_added as [s Ha]. destruct (Hs s Ha) as [Hwf Hf]. exists s. split_and!; [done|done| |].
  - by rewrite (proj1 (Hf (ping None None))).
  - destruct (add_module_spec s ping_module Hwf) as (_ & Hp & _). apply Hp. intros [_ Hc].
    assert (s = with_module empty_server ping_module) as -> by (by injection Ha as <-).
    apply (Hc "ping"); [by left|]. unfold with_module. cbn [method_cache]. set_solver.
Defined.

Lemma served_at_most_once_witness :
  let l := [http anonymous_ping; http anonymous_ping; http (sealed (ping (Some alice) (Some 4)))] in
  length (history (serve l sh0)) = 2%nat ∧ NoDup (ex_hash <$> history (serve l sh0)).
Proof. split; [vm_compute; reflexivity|]. by apply served_at_most_once. Defined.

(** A call of the server, as the only one. *)
Abbreviation State := (Shared (W := N) (V := CachedValidator) * Task (W := N))%type.
Definition step_of (st : State) : State := task_step now_ns st.2 st.1.
Lemma step_serves (st : State) e :
  serves sh0 [Received e] st.1 [st.2] → serves sh0 [Received e] (step_of st).1 [(step_of st).2].
Proof.
  intros Hs. change [(step_of st).2] with (<[0%nat := (step_of st).2]> [st.2]).
  eapply serves_step; [exact Hs|done|apply surjective_pairing].
Qed.
Definition three_steps (e : CoseSign1) : State := step_of (step_of (step_of (sh0, Received e))).
Definition one_call : list (Task (W := N)) := [Received anonymous_ping].
Lemma server_executes_only_valid_witness :
  ∃ x, history (three_steps anonymous_ping).1 = [x] ∧ accepted ping_server x.
Proof.
  assert (length (history (three_steps anonymous_ping).1) = 1%nat) as Hl by (vm_compute; reflexivity).
  destruct (history (three_steps anonymous_ping).1) as [|x [|y l]] eqn:Hh; [discriminate| |discriminate].
  exists x. split; [done|].
  refine (proj2 (server_executes_only_valid sh0 one_call (three_steps anonymous_ping).1
    [(three_steps anonymous_ping).2] _ _ _) x _).
  - do 3 apply step_serves. apply serves_refl.
  - done.
  - intros t ->%list_elem_of_singleton. eauto.
  - rewrite Hh. by left.
Defined.


Lemma sh0_dependable : dependable sh0 anonymous_ping.
Proof.
  split.
  - done.
  - vm_compute. reflexivity.
  - intros p t Hp Ht. apply (inj Some) in Hp. subst p. vm_compute in Ht. discriminate Ht.
  - done.
  - done.
  - intros m r _. reflexivity.
  - intros x w m Hx. change (modules (server sh0)) with [ping_module] in Hx.
    apply list_elem_of_singleton in Hx as ->. done.
  - done.
  - done.
Qed.
Lemma server_answers_witness :
  answer_to sh0 anonymous_ping now_ns (execute anonymous_ping now_ns sh0).2
  ∧ answers (execute anonymous_ping now_ns sh0).2 = true ∧ poisoned (execute anonymous_ping now_ns sh0).1 = false.
Proof. apply server_answers; [done|apply sh0_dependable]. Defined.

(** ** Nodes *)

Lemma answer_node a t : t < 2 ^ 64 → Forall token_fits (response_encode (answer_at a t)) →
  node_answers ref_clock (node "n") (backend_at a t) (anonymous_ping : CoseSign1) (answer_at a t).
Proof.
  intros Ht Hf. split; try done.
  - eexists _, (backend_at a t). split; [|done]. unfold send_envelope, mbind, st_bind, lift. cbn -[pack_cbor].
    by rewrite decode_pack.
Qed.
(** Two nodes, of which the backends have different identities and clocks. *)
Lemma deliver_tx_agreement_witness :
  let tx := to_vec (Cbor := pack_cbor) anonymous_ping in
  (deliver_tx tx (node "n", backend_at alice 1700000001)).2 = (deliver_tx tx (node "n", backend_at bob 1700000005)).2
  ∧ ∃ data, (deliver_tx tx (node "n", backend_at alice 1700000001)).2
            = Ok (mkAbciResponse DELIVER_SUCCESS "" data).
Proof.
  apply (deliver_tx_agreement ref_clock ref_clock (node "n") (node "n") _ _ _ anonymous_ping
    (answer_at alice 1700000001) (answer_at bob 1700000005)).
  - apply decode_pack.
  - apply answer_node; decided.
  - apply answer_node; decided.
  - done.
  - done.
  - done.
  - done.
Defined.

Lemma frontend_safety_witness :
  ∃ w r m, frontend_execute frontend (sealed (ping (Some alice) None)) [] = (w, r) ∧ w ≠ []
    ∧ decode_request_from_cose_sign1 (sealed (ping (Some alice) None)) (verify_tuple (frontend_verifiers frontend)) = Ok m
    ∧ request_from m ∈ ({[alice]} : gset Address).
Proof.
  destruct (frontend_execute frontend (sealed (ping (Some alice) None)) []) as [w r] eqn:Hx.
  assert (w ≠ []) as Hw.
  { intros ->. assert (length (frontend_execute frontend (sealed (ping (Some alice) None)) []).1 = 1%nat) as Hl
      by (vm_compute; reflexivity). by rewrite Hx in Hl. }
  destruct (frontend_safety frontend (sealed (ping (Some alice) None)) [] w r Hx Hw) as (m & c & Hd & Hc & Ha).
  exists w, r, m. split_and!; [done..|]. apply Ha; [|done].
  assert (m = ping (Some alice) None) as -> by (revert Hd; vm_compute; by intros [= <-]). by injection Hc as <-.
Defined.

Lemma async_token_delivery_witness :
  (∃ r, response_from_bytes (response_to_bytes (async_response frontend (ping (Some alice) None) [as_u8 42])) = Ok r
        ∧ async_try_from_set (resp_attributes r) = Ok [as_u8 42])
  ∧ (∃ r, response_from_bytes (response_to_bytes (async_response frontend (ping (Some alice) (Some 9)) [as_u8 42])) = Ok r
          ∧ async_try_from_set (resp_attributes r) = Err (attribute_not_found "1")).
Proof.
  split.
  - destruct (async_token_delivery frontend (sealed (ping (Some alice) None)) []
      [to_vec (Cbor := pack_cbor) (sealed (ping (Some alice) None))] (ping (Some alice) None)
      (to_vec (Cbor := pack_cbor) (sealed (ping (Some alice) None))) [as_u8 42]) as [_ Hr].
    + vm_compute; reflexivity.
    + done.
    + intros l [= <-]. by apply elem_of_singleton.
    + done.
    + done.
    + decided.
    + done.
    + decided.
    + destruct Hr as (r & Hr & _ & Ha); [by left|]. eauto.
  - destruct (async_token_delivery frontend (sealed (ping (Some alice) (Some 9))) []
      [to_vec (Cbor := pack_cbor) (sealed (ping (Some alice) (Some 9)))] (ping (Some alice) (Some 9))
      (to_vec (Cbor := pack_cbor) (sealed (ping (Some alice) (Some 9)))) [as_u8 42]) as [_ Hr].
    + vm_compute; reflexivity.
    + done.
    + intros l [= <-]. by apply elem_of_singleton.
    + done.
    + done.
    + decided.
    + intros i [= <-]. decided.
    + decided.
    + destruct Hr as (r & Hr & _ & Ha); [right; exists 9; by split; [|decided]|]. eauto.
Defined.
