(* ===== verification/NodeWitnesses.v ===== *)
(** * Witnesses: a node of the ledger

    Codecs of the arguments of the endpoints, a server of the ledger on the genesis state of [Scenario], and the
    theorems about endpoints and the server of the ledger, applied to it. *)
From S2P Require Import Prelude Error ErrorDisplay External Address Types Account Events Migration Storage.
From S2P Require Import StorageLaws LedgerEvent Ledger Tokens Supply Subresource AccountStorage.
From S2P Require Import AccountModule Multisig Abci LedgerModule EventsModule IdStore.
From S2P Require Import Cose Wire WireLaws Protocol ProtocolLaws ProofOps Verifiers VerifierLaws.
From S2P Require Import Server ServerLaws Endpoints EndpointLaws LedgerServer LedgerServerLaws.
From S2P Require Import Codecs Reference Scenario ServerReference.

#[local] Open Scope string_scope.
#[local] Open Scope list_scope.
#[local] Open Scope N_scope.
#[local] Unset Program Cases.

#[global] Program Instance info_returns_pack : Pack LedgerInfoReturns :=
  pack_iso (λ r, let '(mkLedgerInfo a b c d) := r in (a, b, c, d)) (λ '(a, b, c, d), mkLedgerInfo a b c d) _.
Next Obligation. by intros []. Qed.
#[global] Program Instance balance_args_pack : Pack BalanceArgs :=
  pack_iso (λ r, let '(mkBalanceArgs a b) := r in (a, b)) (λ '(a, b), mkBalanceArgs a b) _.
Next Obligation. by intros []. Qed.

#[global] Program Instance sort_order_pack : Pack SortOrder := {|
  pack x := match x with Indeterminate => tagged 0 tt | Ascending => tagged 1 tt | Descending => tagged 2 tt end;
  unpack p :=
    '(n, q) ← untag p;
    match n with
    | 0 => (λ _ : unit, Indeterminate) <$> field q
    | 1 => (λ _ : unit, Ascending) <$> field q
    | 2 => (λ _ : unit, Descending) <$> field q
    | _ => None
    end;
|}.
Solve All Obligations with pack_cases.
(** A kind as its place in the list of kinds. *)
Definition kind_index (k : EventKind) : nat := default 0%nat (fst <$> list_find (k =.) all_kinds).
#[global] Program Instance event_kind_pack : Pack EventKind := {|
  pack k := pack (kind_index k);
  unpack p := i ← unpack p; all_kinds !! (i : nat);
|}.
Next Obligation. intros k. cbv beta. rewrite unpack_pack. by destruct k. Qed.
#[global] Program Instance bound_pack `{Pack T} : Pack (Bound T) := {|
  pack x := match x with Included a => tagged 0 a | Excluded a => tagged 1 a | Unbounded => tagged 2 tt end;
  unpack p :=
    '(n, q) ← untag p;
    match n with
    | 0 => Included <$> field q
    | 1 => Excluded <$> field q
    | 2 => (λ _ : unit, Unbounded) <$> field q
    | _ => None
    end;
|}.
Solve All Obligations with pack_cases.
#[global] Program Instance range_pack `{Pack T} : Pack (CborRange T) :=
  pack_iso (λ r, let '(mkRange a b) := r in (a, b)) (λ '(a, b), mkRange a b) _.
Next Obligation. by intros ? ? []. Qed.
#[global] Program Instance filter_pack : Pack EventFilter :=
  pack_iso (λ r, let '(mkEventFilter a b c d e f) := r in (a, b, c, d, e, f))
    (λ '(a, b, c, d, e, f), mkEventFilter a b c d e f) _.
Next Obligation. by intros []. Qed.
#[global] Program Instance list_args_pack : Pack ListArgs :=
  pack_iso (λ r, let '(mkListArgs a b c) := r in (a, b, c)) (λ '(a, b, c), mkListArgs a b c) _.
Next Obligation. by intros []. Qed.
#[global] Program Instance list_returns_pack : Pack ListReturns :=
  pack_iso (λ r, let '(mkListReturns a b) := r in (a, b)) (λ '(a, b), mkListReturns a b) _.
Next Obligation. by intros []. Qed.
#[global] Program Instance token_info_args_pack : Pack TokenInfoArgs :=
  pack_iso (λ r, let '(mkTokenInfoArgs a b) := r in (a, b)) (λ '(a, b), mkTokenInfoArgs a b) _.
Next Obligation. by intros []. Qed.
#[global] Program Instance token_info_returns_pack : Pack TokenInfoReturns :=
  pack_iso (λ r, let '(mkTokenInfoReturns a b) := r in (a, b)) (λ '(a, b), mkTokenInfoReturns a b) _.
Next Obligation. by intros []. Qed.
#[global] Program Instance store_args_pack : Pack StoreArgs :=
  pack_iso (λ r, let '(mkStoreArgs a b c) := r in (a, b, c)) (λ '(a, b, c), mkStoreArgs a b c) _.
Next Obligation. by intros []. Qed.
#[global] Program Instance get_returns_pack : Pack GetReturns :=
  pack_iso (λ r, let '(mkGetReturns a b) := r in (a, b)) (λ '(a, b), mkGetReturns a b) _.
Next Obligation. by intros []. Qed.
#[global] Program Instance get_roles_pack : Pack GetRolesArgs :=
  pack_iso (λ r, let '(mkGetRolesArgs a b) := r in (a, b)) (λ '(a, b), mkGetRolesArgs a b) _.
Next Obligation. by intros []. Qed.
#[global] Program Instance submit_pack : Pack (SubmitTransactionArgs AccountMultisigTransaction) :=
  pack_iso (λ r, let '(mkSubmitArgs a b c d e f g h) := r in (a, b, c, d, e, f, g, h))
    (λ '(a, b, c, d, e, f, g, h), mkSubmitArgs a b c d e f g h) _.
Next Obligation. by intros []. Qed.
#[global] Program Instance block_pack : Pack AbciBlock :=
  pack_iso (λ r, let '(mkAbciBlock a) := r in a) (λ a, mkAbciBlock a) _.
Next Obligation. by intros []. Qed.
#[global] Program Instance abci_info_pack : Pack AbciInfo :=
  pack_iso (λ r, let '(mkAbciInfo a b) := r in (a, b)) (λ '(a, b), mkAbciInfo a b) _.
Next Obligation. by intros []. Qed.
#[global] Program Instance commit_pack : Pack AbciCommitInfo :=
  pack_iso (λ r, let '(mkCommitInfo a b) := r in (a, b)) (λ '(a, b), mkCommitInfo a b) _.
Next Obligation. by intros []. Qed.

#[global] Instance ref_ledger_codecs : LedgerCodecs.
Proof. split; exact pack_cbor. Defined.
#[global] Instance ref_merk_prove : MerkProve := λ _ keys, Ok (map (λ k, MerkPush (MerkKVHash k)) keys).

(** The base module answers everything with nothing. *)
Definition ref_base : LModule :=
  mkModule _ (mkModuleInfo "BaseModule" (Some (attribute_id 0)) ["endpoints"; "heartbeat"; "status"])
    (λ _ _ _, Ok tt) (λ m w, (w, Ok (response_from_request m (req_to m) (Ok [])))).
Lemma ref_base_ok : base_module_ok ref_base.
Proof. split; [reflexivity|reflexivity|]. intros m w. reflexivity. Qed.

(** A node of the ledger, with the verifiers of the program. *)
Definition node_server : ManyServer LedgerWorld unit :=
  match ledger_server 5 (signer Scenario.server) (server_verifier web_verifier) None ref_base None true with
  | Ok s => s
  | _ => server_new "" AnonymousIdentity AnonymousVerifier None
  end.
Definition node_of (s : LedgerStorage) : Shared (W := LedgerWorld) (V := unit) :=
  mkShared node_server false (mkMutex s false) [].
Lemma node_assembled : ledger_node 5 None true ref_base (node_of genesis)
  ∧ server_wf node_server ∧ identity_verifier node_server = server_verifier web_verifier
  ∧ time_fn node_server = None ∧ timeout node_server = U64_MAX.
Proof.
  destruct (assembled 5 (signer Scenario.server) (server_verifier web_verifier) None ref_base None true ref_base_ok)
    as (s & Hs & Hwf & Hm & _ & Hv & Hf & Ht & Hto).
  assert (node_server = s) as He by (unfold node_server; rewrite Hs; reflexivity).
  unfold node_of. rewrite He. split; [split; [exact ref_base_ok|exact Hm|exact Hf]|].
  exact (conj Hwf (conj Hv (conj Ht Hto))).
Qed.

(** ** Proofs *)

Definition some_ops : list ProofOperation := [KeyValuePair (b "k") (b "v"); ProofParent; NodeHash [as_u8 1]; ProofChild].
Lemma proof_roundtrip_witness : ∃ x, proof_attributes (ProofOf some_ops) = Ok [mkAttribute 3 [x]] ∧ any_encode x = proof_encode some_ops.
Proof. refine (proj2 (proof_roundtrip some_ops _)). decided. Defined.

(** ** A node *)

Lemma ledger_server_assembles_witness :
  ∃ s, ledger_server 5 (signer Scenario.server) (server_verifier web_verifier) None ref_base (Some {[alice]}) false = Ok s
    ∧ timeout s = 300.
Proof.
  destruct (ledger_server_assembles 5 (signer Scenario.server) (server_verifier web_verifier) None ref_base (Some {[alice]})
              false ref_base_ok) as (s & Hs & _ & _ & _ & _ & _ & _ & Ht).
  exists s. exact (conj Hs Ht).
Defined.

(** A request to send 300 to Bob, in the name of Alice. *)
Definition stolen_args : SendArgs := mkSendArgs None bob 300 coin None.
Definition stolen (attrs : AttributeSet) : RequestMessage := send_request alice stolen_args 1700000000 attrs.
Definition proof_attribute : AttributeSet := {[3 := []]}.
Definition forged (m : RequestMessage) : outcome ManyError CoseSign1 :=
  dsa_sign_1 (ec_signer alice mallory_key mallory_key mallory_key) (cose_of_payload (request_to_bytes m)).

Lemma stolen_wf attrs : map_Forall (λ i args, attribute_wf (mkAttribute i args)) attrs → request_wf (stolen attrs).
Proof. intros Ha. split; [decided|intros i Hi; discriminate Hi|exact Ha]. Qed.
Lemma no_attributes_wf : map_Forall (λ i args, attribute_wf (mkAttribute i args)) (∅ : AttributeSet).
Proof. apply map_Forall_empty. Qed.
Lemma proof_attribute_wf : map_Forall (λ i args, attribute_wf (mkAttribute i args)) proof_attribute.
Proof. apply map_Forall_insert_2; [|apply map_Forall_empty]. split; [done|constructor]. Qed.
Lemma stolen_timely attrs : validate_time (stolen attrs) now_ns U64_MAX = Ok tt.
Proof. vm_compute. reflexivity. Qed.

Lemma stolen_funds_witness :
  ∃ e, forged (stolen ∅) = Ok e
    ∧ bal (store_of (execute e now_ns (node_of genesis)).1) alice coin = bal genesis alice coin - 300
    ∧ bal (store_of (execute e now_ns (node_of genesis)).1) bob coin = bal genesis bob coin + 300.
Proof.
  destruct node_assembled as (Hnode & Hwf & Hv & Htf & Hto).
  apply (stolen_funds 5 true ref_base (node_of genesis) web_verifier alice mallory_key mallory_key mallory_key
           1700000000 ∅ now_ns bob coin 300 None Hnode Hwf Hv Htf eq_refl eq_refl).
  - by apply toy_pair.
  - reflexivity.
  - reflexivity.
  - change (timeout (Server.server (node_of genesis))) with (timeout node_server). rewrite Hto. apply stolen_timely.
  - exact (stolen_wf ∅ no_attributes_wf).
  - decided.
  - exact (decode_pack stolen_args).
  - exact genesis_counters.
  - decided.
  - reflexivity.
  - decided.
  - decided.
Defined.

(** The same envelope, as a change of the store. *)
Lemma stolen_changes :
  ∃ e, forged (stolen ∅) = Ok e ∧ store_of (execute e now_ns (node_of genesis)).1 ≠ genesis.
Proof.
  destruct node_assembled as (Hnode & Hwf & Hv & Htf & Hto).
  destruct (impersonated_send 5 true ref_base (node_of genesis) web_verifier alice mallory_key mallory_key mallory_key
           1700000000 ∅ now_ns bob coin 300 None Hnode Hwf Hv Htf eq_refl eq_refl) as (e & He & Ha & _).
  - by apply toy_pair.
  - reflexivity.
  - reflexivity.
  - change (timeout (Server.server (node_of genesis))) with (timeout node_server). rewrite Hto. apply stolen_timely.
  - exact (stolen_wf ∅ no_attributes_wf).
  - decided.
  - exact (decode_pack stolen_args).
  - exact genesis_counters.
  - decided.
  - reflexivity.
  - decided.
  - decided.
  - exists e. split; [exact He|]. intros Heq.
    assert (bal genesis alice coin = bal genesis alice coin - 300) as Hb by (rewrite <-Heq at 1; exact Ha).
    vm_compute in Hb. discriminate Hb.
Qed.
Lemma ledger_state_changes_witness :
  ∃ e m t, forged (stolen ∅) = Ok e ∧ accepted (Server.server (node_of genesis)) (mkExecution e m t)
    ∧ store_of (execute e now_ns (node_of genesis)).1 ≠ genesis.
Proof.
  destruct stolen_changes as (e & He & Hne).
  destruct (ledger_state_changes 5 None true ref_base (node_of genesis) e now_ns (proj1 node_assembled) Hne)
    as (m & t & ep & Hacc & _).
  exists e, m, t. exact (conj He (conj Hacc Hne)).
Defined.

(** With the attribute that asks for a proof, the transfer is made and nothing is answered any more. *)
Lemma proof_request_hangs_witness :
  ∃ e, (execute e now_ns (node_of genesis)).2 = OutOfFuel
    ∧ store_of (execute e now_ns (node_of genesis)).1 = (LedgerBackend.send alice stolen_args genesis).1
    ∧ ∀ rest, serve ((None, to_vec (Cbor := pack_cbor) e, now_ns) :: rest) (node_of genesis)
              = (execute e now_ns (node_of genesis)).1.
Proof.
  destruct node_assembled as (Hnode & Hwf & Hv & Htf & Hto).
  destruct (impersonation_accepted web_verifier alice mallory_key mallory_key mallory_key (stolen proof_attribute))
    as (e & _ & _ & _ & _ & Hd).
  - by apply toy_pair.
  - reflexivity.
  - reflexivity.
  - reflexivity.
  - exact (stolen_wf _ proof_attribute_wf).
  - decided.
  - exists e. rewrite <-Hv in Hd.
    destruct (proof_request_hangs (node_of genesis) e now_ns (stolen proof_attribute) now_ns "LedgerCommandsModule" (Some 6)
                ledger_command_endpoints (command "ledger.send" LedgerBackend.send)
                (LedgerBackend.send alice stolen_args genesis).1 (to_vec tt)) as (Ho & Hs & Hserve).
    + apply (send_routed 5 true ref_base (node_of genesis) e alice stolen_args 1700000000 proof_attribute now_ns Hnode Hwf Htf
               eq_refl Hd).
      * change (timeout (Server.server (node_of genesis))) with (timeout node_server). rewrite Hto. apply stolen_timely.
      * exact (decode_pack stolen_args).
    + reflexivity.
    + reflexivity.
    + reflexivity.
    + reflexivity.
    + apply send_answers; [exact (decode_pack stolen_args)|vm_compute; reflexivity].
    + split; [exact Ho|]. split; [exact Hs|]. intros rest. apply Hserve. exact (decode_pack e).
Defined.
