(* ===== verification/ComputeReference.v ===== *)
(** * A reference environment of many-compute, and its theorems at work

    A concrete tool, whose provider reports an address or not ([reports]), concrete parsers of what it
    prints, and the theorems with hypotheses of [ComputeLaws] applied to them. *)
From S2P Require Import Prelude Error ErrorDisplay External Address Types Account Events Migration.
From S2P Require Import Storage StorageLaws AppStore Codecs Reference Scenario AppWitnesses.
From S2P Require Import Compute ComputeLaws.

#[local] Open Scope string_scope.
#[local] Open Scope list_scope.
#[local] Open Scope N_scope.

#[local] Unset Program Cases.

#[local] Instance ref_float : Float64 := {|
  f64 := N; f64_lt x y := x <? y; f64_MAX := 2 ^ 64; f64_to_string := pretty |}.

#[local] Program Instance status_pack : Pack ComputeStatus :=
  pack_iso (λ x, bool_decide (x = Deployed)) (λ x, if x : bool then Deployed else Closed) _.
Next Obligation. by intros []. Qed.
#[local] Program Instance protocol_pack : Pack ServiceProtocol :=
  pack_iso (λ x, match x with TCP => true | UDP => false end) (λ x, if x : bool then TCP else UDP) _.
Next Obligation. by intros []. Qed.
#[local] Program Instance provider_pack : Pack ProviderInfo :=
  pack_iso (λ r, let '(mkProviderInfo a b c d) := r in (a, b, c, d)) (λ '(a, b, c, d), mkProviderInfo a b c d) _.
Next Obligation. by intros []. Qed.
#[local] Program Instance info_pack : Pack DeploymentInfo :=
  pack_iso (λ r, (di_provider r, di_provider_info r, di_price r : N))
    (λ '(a, b, c), mkDeploymentInfo _ a b c) _.
Next Obligation. by intros []. Qed.
#[local] Program Instance meta_pack : Pack DeploymentMeta :=
  pack_iso (λ r, (dm_status r, dm_dseq r, dm_meta r, dm_image r)) (λ '(a, b, c, d), mkDeploymentMeta _ a b c d) _.
Next Obligation. by intros []. Qed.

(** The certificate exists; everything else succeeds. *)
Definition ref_output (l : list Call) : string + Output :=
  match last l with
  | Some c =>
      if bool_decide (take 2 (call_args c) = ["tx"; "cert"])
      then inr (mkOutput false [] (b ("Error: certificate error: cannot overwrite certificate" +:+ nl)))
      else inr (mkOutput true [] [])
  | None => inl "no call"
  end.
Definition ref_log : TxLog :=
  mkTxLog [mkLogEntry [mkLogEvent "akash.v1" [mkEventAttribute "dseq" "4711"; mkEventAttribute "gseq" "1";
                                              mkEventAttribute "owner" "akash1"; mkEventAttribute "oseq" "+1"]]].
Definition ref_bids : list (@BidDetails ref_float) :=
  let bid p a := mkBidDetails _ (mkBidId 4711 1 1 "akash1" p) (mkBidPrice _ "uakt" a) BidOpen in
  [bid "dear" 90; bid "cheap" 40; bid "middle" 60].
Definition ref_status (reports : bool) : LeaseStatus :=
  mkLeaseStatus {["app" := Some (mkServiceStatus "app" 1 1 (if reports then Some ["a.example"] else None) 1 1 1 1 1)]} ∅ None.

#[local] Instance ref_compute (reports : bool) : ComputeEnv := {|
  compute_app := ref_app;
  compute_float := ref_float;
  compute_cbor_meta := pack_cbor;
  akash_output := ref_output;
  tempfile _ := inr (Some "/tmp/akash-sdl.yml");
  json_tx_log _ := inr ref_log;
  yaml_bids _ := inr ref_bids;
  yaml_leases _ := inr [mkLease "active"];
  yaml_lease_status _ := inr (ref_status reports);
|}.
#[local] Instance ref_compute_laws reports : @ComputeEnvLaws (ref_compute reports).
Proof.
  split; [apply ref_app_laws|apply pack_cbor_laws|intros x; apply N.ltb_irrefl|].
  intros x y z. change (((x : N) <? y) = true → ((y : N) <? z) = true → ((x : N) <? z) = true).
  rewrite !N.ltb_lt. lia.
Defined.

Definition ref_opt : @AkashOpt ref_float :=
  mkAkashOpt _ "akash1" "akashnet-2" "https://rpc.akashnet.net:443" "auto" 1 "0.025uakt" "amino-json" "os".
Definition web_args : DeployArgs := mkDeployArgs "nginx" 80 1 512 U_MI 1 U_GI UsWest.
Definition compute0 (reports : bool) : @ComputeModuleImpl (ref_compute reports) :=
  state_of (@mkComputeModule (ref_compute reports) ref_opt (no_app false) [])
    (@compute_module_new (ref_compute reports) (mkComputeInitialState server None) ref_opt (Ok (mkMem ∅ ∅)) false).

(** A deployment that goes through, and one that is then closed. *)
Example deploy_goes_through :
  let r := @compute_deploy (ref_compute true) alice web_args (compute0 true) in
  (λ m, (dm_dseq m, di_provider <$> dm_meta m)) <$> r.2 = Ok (4711, Some "cheap")
  ∧ length (calls r.1) = 7%nat
  ∧ (compute_close alice (mkCloseArgs 4711) r.1).2 = Ok tt
  ∧ is_ok (compute_close bob (mkCloseArgs 4711) r.1).2 = false.
Proof. vm_compute. done. Qed.

(** ** Witnesses *)

(** The deployment that goes through: its calls and its record. *)
Definition deploy0 := @compute_deploy (ref_compute true) alice web_args (compute0 true).
Lemma deploy0_ok : is_ok deploy0.2 = true.
Proof. vm_compute. reflexivity. Qed.
Lemma compute_deploy_spec_witness :
  ∃ s' m new, @compute_deploy (ref_compute true) alice web_args (compute0 true) = (s', Ok m)
    ∧ calls s' = calls (compute0 true) ++ new ∧ no_close new
    ∧ @deployed (ref_compute true) (akash_opt (compute0 true)) web_args (calls (compute0 true)) new m.
Proof.
  destruct (@compute_deploy_spec (ref_compute true) (ref_compute_laws true) alice web_args (compute0 true))
    as (s' & r & new & Hd & _ & Hc & _ & _ & Hr).
  assert (deploy0 = (s', r)) as Hd0 by exact Hd. pose proof deploy0_ok as Hok. rewrite Hd0 in Hok.
  destruct r as [m|e|t|]; [|discriminate Hok..]. destruct Hr as (Hn & Hm & _).
  exists s', m, new. split; [exact Hd|]. split; [exact Hc|]. split; [exact Hn|exact Hm].
Defined.

Definition empty_store : @merk (@app_merk (@compute_app (ref_compute true))) := mkMem ∅ ∅.
Lemma compute_store_typed_witness :
  let s := @after_all (ref_compute true) (compute0 true)
             [C_Deploy alice web_args; C_Close alice (mkCloseArgs 4711); C_Commit] in
  @well_formed (ref_compute true) (app_view (compute_storage s)) ∧ ∃ ms, compute_list s (mkComputeListArgs None None None) = Ok ms ∧ length ms = 1%nat.
Proof.
  destruct (@compute_store_typed (ref_compute true) (ref_compute_laws true) (mkComputeInitialState server None) ref_opt empty_store false
    (compute0 true) [C_Deploy alice web_args; C_Close alice (mkCloseArgs 4711); C_Commit] eq_refl eq_refl) as [Hw _].
  split; [exact Hw|]. eexists. split; [vm_compute; reflexivity|reflexivity].
Defined.

Definition start0 := @deploy_start (ref_compute false) web_args (compute0 false).
Definition cheap_bid : string * @f64 (@compute_float (ref_compute false)) := ("cheap", 40).
Definition provider0 := @provider_steps (ref_compute false) web_args 4711 1 1 cheap_bid.1 start0.1.
Lemma start0_ok : start0.2 = Ok (4711, 1, 1, cheap_bid).
Proof. vm_compute. reflexivity. Qed.
Lemma provider0_ok : provider0.2 = Ok (ref_status false).
Proof. vm_compute. reflexivity. Qed.
Lemma provider0_run :
  @provider_steps (ref_compute false) web_args 4711 1 1 cheap_bid.1 start0.1 = (provider0.1, Ok (ref_status false)).
Proof. rewrite <-provider0_ok. unfold provider0. apply surjective_pairing. Qed.
Lemma compute_deploy_orphan_witness :
  is_ok (@compute_deploy (ref_compute false) alice web_args (compute0 false)).2 = false
  ∧ compute_storage provider0.1 = compute_storage (compute0 false)
  ∧ ∃ new, calls provider0.1 = calls (compute0 false) ++ new ∧ no_close new.
Proof.
  destruct (@compute_deploy_orphan (ref_compute false) (ref_compute_laws false) alice web_args (compute0 false) 4711 1 1 cheap_bid
    start0.1 provider0.1 (ref_status false)
    (unknown ("No URIs or forwarded ports found for deployment " +:+ pretty 4711)))
    as (Hd & Hs & (new & Hn & _ & Hc) & _).
  - exact (eq_trans (surjective_pairing start0) (f_equal (pair start0.1) start0_ok)).
  - exact provider0_run.
  - vm_compute. reflexivity.
  - vm_compute. reflexivity.
  - rewrite Hd. split; [reflexivity|]. split; [exact Hs|]. exists new. split; [exact Hn|exact Hc].
Defined.
