(* ===== verification/WireWitnesses.v ===== *)
(** * Witnesses: the chain, and events and filters on the wire

    A concrete client of Tendermint, with one block and one transaction, and the theorems of
    [BlockchainLaws] with hypotheses applied to it. A reference for the derived instances (a structure is one byte string, and a submission its structure followed
    by its transaction), and the theorems of [EventWireLaws] at concrete values. *)
From S2P Require Import Prelude Error ErrorDisplay External Address Types Account Events Migration Storage.
From S2P Require Import Cose Wire WireLaws Protocol ProtocolLaws ProofOps Server Endpoints.
From S2P Require Import AbciBridge AbciBridgeLaws Blockchain BlockchainLaws ValueWire ValueWireLaws.
From S2P Require Import EventWire EventWireLaws Codecs Reference Scenario ServerReference ServerWitnesses NodeWitnesses.

#[local] Open Scope string_scope.
#[local] Open Scope list_scope.
#[local] Open Scope N_scope.
#[local] Unset Program Cases.

(** ** The chain *)

#[local] Instance ref_chain_crypto : ChainCrypto := {|
  tx_sha256 l := be_bytes 32 (be_value l);
  base64_standard_decode l := Ok l;
|}.
(** The chain is the result of its only transaction. *)
#[local] Instance ref_rpc : TendermintRpc bytes := {|
  tm_tx h c := (c, if bool_decide (h = be_bytes 32 7) then Ok (mkTmTx h [] c) else Err (TmResponse "not found"));
  tm_status c := (c, Ok (mkTmStatus (be_bytes 32 1) 9 []));
  tm_block_by_hash _ c := (c, Ok None);
  tm_block n c := (c, Ok (mkTmBlock n (be_bytes 32 n) (Some []) [] 1700000000000000000 [c]));
  tm_block_search _ _ _ _ c := (c, Ok []);
|}.

Lemma block_height_truncated_witness :
  ∃ y, blockchain_block (BlockHeight (2 ^ 32 + 5)) [] = ([], Ok y) ∧ bid_height (blk_id y) ≠ 2 ^ 32 + 5.
Proof.
  refine (block_height_truncated (2 ^ 32 + 5) (mkTmBlock 5 (be_bytes 32 5) (Some []) [] 1700000000000000000 [[]])
    [] [] _ _ _ _).
  - done.
  - vm_compute. reflexivity.
  - reflexivity.
  - split; [by eexists|]. simpl. lia.
Defined.

Definition tx0 : bytes := to_vec (Cbor := pack_cbor) (anonymous_ping : CoseSign1).
Definition answer0 : ResponseMessage := answer_at alice 1700000001.
Definition delivered0 : bytes := response_to_bytes (agreed false answer0).
Lemma deliver0 : (deliver_tx tx0 (node "n", backend_at alice 1700000001)).2
  = Ok (mkAbciResponse DELIVER_SUCCESS "" delivered0).
Proof.
  refine (deliver_tx_result ref_clock (node "n") _ tx0 anonymous_ping answer0 _ _); [apply decode_pack|].
  apply answer_node; decided.
Qed.
Lemma async_result_delivery_witness :
  ∃ e, async_status (be_bytes 32 7) delivered0 = (delivered0, Ok (StatusDone e))
    ∧ decode_and_verify e AnonymousVerifier = Ok (agreed false answer0)
    ∧ ∃ ts e', status_encode (StatusDone e) = Ok ts ∧ reads_back status_decode ts (StatusDone e')
        ∧ same_envelope e e' ∧ decode_and_verify e' AnonymousVerifier = Ok (agreed false answer0).
Proof.
  destruct (async_result_delivery (node "n") (backend_at alice 1700000001) tx0 anonymous_ping answer0
    (mkAbciResponse DELIVER_SUCCESS "" delivered0) (be_bytes 32 7) delivered0 delivered0
    (mkTmTx (be_bytes 32 7) [] delivered0)) as (e & He & Hv & Hs).
  - apply decode_pack.
  - apply answer_node; decided.
  - exact deliver0.
  - decided.
  - apply length_be_bytes.
  - reflexivity.
  - done.
  - exists e. split; [exact He|]. split; [exact Hv|exact Hs].
Defined.

(** ** Events and filters *)

Definition pack_codec `{Pack A} : Codec A := {|
  c_encode a := [TkBytes (to_vec (Cbor := pack_cbor) a)];
  c_decode := l ← d_bytes; d_lift (decode (Cbor := pack_cbor) l);
|}.
Lemma pack_codec_ok `{Pack A} (a : A) : codec_ok pack_codec a.
Proof.
  split; [|done]. intros rest. cbn [pack_codec c_encode c_decode app]. unfold d_bytes. erewrite d_read_ok by done.
  unfold d_lift. by rewrite (decode_to_vec (CborLaws := pack_cbor_laws (λ _, True)) a I).
Qed.

Definition ref_derived {A} (d : Derived A) : Codec A.
Proof. destruct d; exact pack_codec. Defined.

#[global] Program Instance submission_pack : Pack (SubmitTransactionArgs unit) :=
  pack_iso (λ r, let '(mkSubmitArgs a b c d e f g h) := r in (a, b, c, d, e, f, g, h))
    (λ '(a, b, c, d, e, f, g, h), mkSubmitArgs a b c d e f g h) _.
Next Obligation. by intros []. Qed.
#[global] Instance ref_derived_cbor : DerivedCbor := {|
  derived A d := ref_derived d;
  submit_encode a := c_encode pack_codec (submit_with a tt) ++ sub_transaction a;
  submit_decode T d := a ← c_decode pack_codec; t ← d; mret (submit_with (a : SubmitTransactionArgs unit) t);
|}.
#[global] Instance ref_derived_laws : DerivedCborLaws.
Proof.
  split.
  - intros A d a _. destruct d; apply pack_codec_ok.
  - intros T dec ts a _ Hd rest. cbn [submit_decode submit_encode ref_derived_cbor].
    rewrite <-app_assoc, (reads_bind _ _ _ _ _ (ok_reads _ _ (pack_codec_ok (submit_with (submit_with a ts) tt)))).
    cbn [submit_with sub_transaction]. rewrite (reads_bind _ _ _ _ _ Hd). by destruct a.
  - intros a. cbn [submit_encode ref_derived_cbor]. rewrite length_app. lia.
Qed.

(** ** Values *)

(** A submission whose transaction is the submission of a payment, and filters. *)
Definition wire_memo : Memo := [MemoString "rent"; MemoBytes [x01; x02]].
Definition nested_submission : SubmitTransactionArgs AccountMultisigTransaction :=
  mkSubmitArgs Scenario.acct None
    (T_Send (mkSendArgs (Some Scenario.acct) Scenario.bob 20000000000000000000 Scenario.coin (Some wire_memo)))
    (Some 2) None (Some true) None None.
Definition wire_event : EventInfo :=
  E_AccountMultisigSubmit Scenario.alice Scenario.acct (Some (mkMemoLegacy "old")) (T_AccountMultisigSubmit nested_submission)
    (Some [x07]) 2 1700000000 false None (Some wire_memo).
Definition wire_filter (kinds : list EventKind) : EventFilter :=
  mkEventFilter (Some [Scenario.alice]) (Some kinds) None (Some (mkRange (Included [x01]) Unbounded))
    (Some (mkRange Unbounded (Excluded 1700000000))) (Some [Pending]).

Lemma wire_memo_valid : memo_valid wire_memo.
Proof. decided. Qed.
Lemma wire_event_wf : event_wf wire_event.
Proof.
  split; [apply wire_memo_valid|]. split_and!.
  - decided.
  - split; [by repeat split; decided|]. apply wire_memo_valid.
  - decided.
  - decided.
  - exact I.
Qed.
Lemma event_roundtrip_witness :
  event_wf wire_event ∧ event_decode (event_encode wire_event ++ [TkNull]) = Ok (wire_event, [TkNull]).
Proof. exact (conj wire_event_wf (event_roundtrip wire_event [TkNull] wire_event_wf)). Defined.

Lemma wire_filter_wf ks : filter_wf (wire_filter ks).
Proof. split; [exact I|]. cbn. lia. Qed.
Lemma event_filter_roundtrip_witness :
  filter_decode (filter_encode (wire_filter [K_Send; K_TokenMint]) ++ []) = Ok (wire_filter [K_Send; K_TokenMint], [])
  ∧ ∃ e, filter_decode (filter_encode (wire_filter [K_Send]) ++ []) = Err e.
Proof.
  exact (conj (event_filter_roundtrip (wire_filter [K_Send; K_TokenMint]) [] (wire_filter_wf _))
           (event_filter_roundtrip (wire_filter [K_Send]) [] (wire_filter_wf _))).
Defined.

Lemma owner_removal_lost_witness :
  event_decode (event_encode (E_TokenUpdate Scenario.coin None (Some "NEW") (Some 9) (Some OwnerNull) (Some wire_memo)) ++ [])
  = Ok (E_TokenUpdate Scenario.coin None (Some "NEW") (Some 9) None (Some wire_memo), []).
Proof.
  refine (proj1 (owner_removal_lost Scenario.coin None (Some "NEW") (Some 9) (Some wire_memo) [] wire_memo_valid _)).
  exact (eq_refl : 9 < 2 ^ 64).
Defined.
