(* ===== verification/GenesisWitnesses.v ===== *)
(** * A genesis file and an export

    A concrete genesis file with one token, two holders and an account, opened in the reference
    environment; the ledger it opens, exported after its account has been disabled. *)
From S2P Require Import Prelude Error External Address Types Account Events Migration Storage.
From S2P Require Import StorageLaws LedgerEvent Ledger Tokens Supply Subresource AccountStorage.
From S2P Require Import AccountModule LedgerMigrations IdStore Genesis GenesisLaws GenesisExport ExportLaws.
From S2P Require Import EventsExport EventsExportLaws.
From S2P Require Import Codecs Reference Scenario.

#[local] Open Scope string_scope.
#[local] Open Scope list_scope.
#[local] Open Scope N_scope.

(** ** The file *)

Definition registry : list (InnerMigration (@merk (@env_merk ref_env)) ManyError) := MIGRATIONS.
Definition tokens_at : Address := party 250.
Definition accounts_at : Address := party 251.

Definition file_meta : SymbolMetaJson := mkSymbolMetaJson "Manifest" 9 (Some alice) (Some 10000).
Definition file_keys : gmap string string := {["/idstore/01a" := "credential"]}.

(** A value is the argument of the multisig feature. *)
Definition file_with {V : Type} (feature : V) : InitialStateJson V :=
  mkInitialState server
    {[alice := {["MFX" := 1000]}; bob := {[address_to_string coin := 500]}]}
    (Some tokens_at) (Some accounts_at) (Some 1)
    {[coin := "MFX"]} (Some {[coin := file_meta]})
    (Some [mkAccountJson (Some (subresource_of accounts_at 0)) (Some 0) (Some "treasury")
             {[alice := {["owner"]}; bob := {["canMultisigApprove"; "canLedgerTransact"]}]}
             {[0 := None; 1 := Some feature]}])
    (Some 7) (Some file_keys) None.
Definition two_of : MultisigFeatureArgJson := mkMultisigArgJson (Some 2) None (Some false).

(** *** A text for every initial state *)

Fixpoint pos_text (p : positive) : string :=
  match p with
  | xH => EmptyString
  | xO p => String "0"%char (pos_text p)
  | xI p => String "1"%char (pos_text p)
  end.
Fixpoint text_pos (t : string) : positive :=
  match t with
  | EmptyString => xH
  | String c t => if bool_decide (c = "0"%char) then xO (text_pos t) else xI (text_pos t)
  end.
Lemma text_pos_text p : text_pos (pos_text p) = p.
Proof. induction p as [p IH|p IH|]; simpl; by rewrite ?IH. Qed.

#[global] Instance MultisigFeatureArgJson_eq_dec : EqDecision MultisigFeatureArgJson.
Proof. solve_decision. Defined.
#[global] Instance MultisigFeatureArgJson_countable : Countable MultisigFeatureArgJson.
Proof.
  by apply (inj_countable' (λ m, (mj_threshold m, mj_timeout_in_secs m, mj_execute_automatically m))
    (λ '(t, u, e), mkMultisigArgJson t u e)); intros [].
Defined.
#[global] Instance SymbolMetaJson_eq_dec : EqDecision SymbolMetaJson.
Proof. solve_decision. Defined.
#[global] Instance SymbolMetaJson_countable : Countable SymbolMetaJson.
Proof.
  by apply (inj_countable' (λ m, (smj_name m, smj_decimals m, smj_owner m, smj_maximum m))
    (λ '(n, d, o, x), mkSymbolMetaJson n d o x)); intros [].
Defined.
#[global] Instance AccountJson_eq_dec : EqDecision (AccountJson MultisigFeatureArgJson).
Proof. solve_decision. Defined.
#[global] Instance AccountJson_countable : Countable (AccountJson MultisigFeatureArgJson).
Proof.
  by apply (inj_countable' (λ a, (aj_id a, aj_subresource_id a, aj_description a, aj_roles a, aj_features a))
    (λ '(i, n, d, r, f), mkAccountJson i n d r f)); intros [].
Defined.
#[global] Instance InitialStateJson_eq_dec : EqDecision (InitialStateJson MultisigFeatureArgJson).
Proof. solve_decision. Defined.
#[global] Instance InitialStateJson_countable : Countable (InitialStateJson MultisigFeatureArgJson).
Proof.
  by apply (inj_countable' (λ s, (is_identity s, is_initial s, is_token_identity s, is_account_identity s,
      is_token_next_subresource s, (is_symbols s, is_symbols_meta s, is_accounts s, is_id_store_seed s,
      is_id_store_keys s, is_hash s)))
    (λ '(i, h, ti, ai, n, (x, xm, a, sd, k, hs)), mkInitialState i h ti ai n x xm a sd k hs)); intros [].
Defined.

#[global] Instance ref_genesis : GenesisEnv := {|
  json_value := MultisigFeatureArgJson;
  multisig_arg_of := Ok;
  json5_state t := match countable.decode (text_pos t) with Some st => Ok st | None => Err "expected an object" end;
  json_migrations _ := Ok config;
|}.
#[global] Instance ref_export : ExportEnv := {|
  base64_standard := String.string_of_list_byte;
  json_multisig := mkMultisigArgJson;
  json_pretty c := match reread c with Some st => Ok (pos_text (countable.encode st)) | None => Err "a key is no address" end;
  json_pretty_idstore _ := Ok "{}";
|}.
#[global] Instance ref_export_laws : ExportLaws.
Proof.
  split; [|done|].
  - intros l. simpl. by rewrite String.list_byte_of_string_of_list_byte.
  - intros c st _ Hst. exists (pos_text (countable.encode st)). split.
    + unfold json_pretty, ref_export. by rewrite Hst.
    + unfold json5_state, ref_genesis. by rewrite text_pos_text, countable.decode_encode.
Qed.

Definition file : InitialStateJson json_value := file_with two_of.
Definition file_metas : gmap Symbol SymbolMeta := {[coin := SymbolMeta_of_json file_meta]}.
Definition file_balances : Holdings := state_of ∅ (state_balances file).
Definition file_accounts : list AccountMeta := state_of [] (accounts_of_json (default [] (is_accounts file))).
Definition file_migrations : MigrationSet (@merk (@env_merk ref_env)) ManyError :=
  state_of ∅ (initial_migrations registry (Some config)).
Definition empty_db : @merk (@env_merk ref_env) := mkMem ∅ ∅.

(** ** Its conditions *)

Lemma file_total : (set_total (dom file_balances) (λ a, holding file_balances a coin) <=? 10000) = true.
Proof. compute_eq. Qed.

Lemma file_keys_confined : keys_confined (is_id_store_keys file).
Proof.
  intros m Hm. change (Some file_keys = Some m) in Hm. apply (inj Some) in Hm as <-.
  unfold file_keys. rewrite btree_iter_singleton. constructor; [|constructor].
  exists (b "01a"), (b "credential"). split; reflexivity.
Qed.
Lemma file_maxima : maxima_cover file_metas file_balances.
Proof.
  intros x meta n Hx Hn. unfold file_metas in Hx. apply lookup_singleton_Some in Hx as [<- <-].
  change (Some 10000 = Some n) in Hn. apply (inj Some) in Hn as <-. apply N.leb_le, file_total.
Qed.
Lemma file_metas_ok : symbols_meta_of file = Some file_metas.
Proof.
  transitivity (Some (SymbolMeta_of_json <$> ({[coin := file_meta]} : gmap Symbol SymbolMetaJson)));
    [reflexivity|f_equal; apply map_fmap_singleton].
Qed.
Lemma file_active : is_active file_migrations TOKEN_MIGRATION = true.
Proof. compute_eq. Qed.
Lemma file_sign : can_sign (genesis_base file (is_active file_migrations TOKEN_MIGRATION)) = true.
Proof. compute_eq. Qed.
Lemma file_balances_ok : state_balances file = Ok file_balances.
Proof. apply state_of_ok. compute_eq. Qed.

(** ** Opening it *)

Definition opened : LedgerStorage :=
  state_of (empty_storage false)
    (ledger_module_new registry true (Ok empty_db) file (Some config) false).
Lemma opened_ok : ledger_module_new registry true (Ok empty_db) file (Some config) false = Ok opened.
Proof. apply state_of_ok. compute_eq. Qed.


(** ** Exporting it *)

Definition treasury : Address := subresource_of accounts_at 0.
Definition closed : LedgerStorage := (AccountBackend.disable alice (mkDisableArgs treasury) opened).1.
Definition closed_view : gmap bytes bytes := mem_view (persistent_store closed).
Definition database : @merk (@env_merk ref_env) := mkMem closed_view closed_view.
Definition treasury_value : bytes := default [] (closed_view !! key_for_account treasury).
Definition treasury_account : Account := state_of (mkAccount None ∅ ∅ None) (decode treasury_value).
Definition treasury_features : FeatureSet :=
  {[0 := []; 1 := attr_arguments (as_feature (mkMultisigFeature (mkMultisigArg (Some 2)
                    (Some MULTISIG_DEFAULT_TIMEOUT_IN_SECS) (Some false))))]}.
Definition token_value : bytes := default [] (closed_view !! key_for_symbol coin).
Definition mfx_info : TokenInfo :=
  mkTokenInfo coin (mkSummary "Manifest" "MFX" 9) (mkSupply 1500 1500 (Some 10000)) (Some alice).

Lemma treasury_decodes : decode treasury_value = Ok treasury_account.
Proof. apply state_of_ok. compute_eq. Qed.
Lemma treasury_disabled : is_enabled treasury_account = false.
Proof. compute_eq. Qed.
Lemma treasury_has : features treasury_account = treasury_features.
Proof. decided. Qed.
Lemma treasury_reexportable : reexportable (features treasury_account).
Proof.
  rewrite treasury_has. unfold treasury_features. intros i args Hi.
  apply lookup_insert_Some in Hi as [[<- <-]|[_ Hi]]; [by eexists|].
  apply lookup_singleton_Some in Hi as [<- <-]. eexists. reflexivity.
Qed.
Lemma treasury_exact : account_exact treasury_account.
Proof.
  unfold account_exact. rewrite treasury_has. unfold treasury_features. intros i args Hi.
  apply lookup_insert_Some in Hi as [[<- <-]|[_ Hi]]; [split; [reflexivity|discriminate]|].
  apply lookup_singleton_Some in Hi as [<- <-]. split; [reflexivity|]. intros x Hx. apply Ok_inj in Hx as <-.
  split; reflexivity.
Qed.

(** What is below a prefix. *)
Definition only_below (p : bytes) (kvs : list (bytes * bytes)) (m : gmap bytes bytes) : bool :=
  forallb (λ kv, negb (bool_decide (p `prefix_of` kv.1)) || bool_decide (kv ∈ kvs)) (map_to_list m).
Lemma only_below_ok p kvs m k v :
  only_below p kvs m = true → m !! k = Some v → p `prefix_of` k → (k, v) ∈ kvs.
Proof.
  intros Hm Hk Hp. refine (map_check m (λ k v, p `prefix_of` k → (k, v) ∈ kvs) _ _ Hm k v Hk Hp).
  intros k' v' Hc Hp'. simpl in Hc. rewrite bool_decide_eq_true_2 in Hc by done. simpl in Hc.
  by apply bool_decide_eq_true in Hc.
Qed.

Definition balance_entry (a : Address) : bytes * bytes :=
  (key_for_account_balance a coin, default [] (closed_view !! key_for_account_balance a coin)).

Lemma database_symbols : only_below (b SYMBOLS_ROOT_DASH) [(key_for_symbol coin, token_value)] closed_view = true.
Proof. compute_eq. Qed.
Lemma database_balances :
  only_below (b BALANCE_ROOT) [balance_entry alice; balance_entry bob] closed_view = true.
Proof. compute_eq. Qed.
Lemma database_accounts :
  only_below (b ACCOUNT_ROOT) [(key_for_account treasury, treasury_value)] closed_view = true.
Proof. compute_eq. Qed.
Lemma database_lookups :
  closed_view !! b SYMBOLS_ROOT = Some (to_vec ({[coin := "MFX"]} : gmap Symbol string))
  ∧ closed_view !! key_for_symbol coin = Some token_value
  ∧ closed_view !! b IDENTITY_ROOT = Some (address_to_vec server)
  ∧ closed_view !! b TOKEN_IDENTITY_ROOT = Some (address_to_vec tokens_at)
  ∧ closed_view !! b ACCOUNT_IDENTITY_ROOT = Some (address_to_vec accounts_at)
  ∧ is_Some (closed_view !! key_for_account_balance alice coin)
  ∧ is_ok (read_be_or_zero 8 (closed_view !! IDSTORE_SEED_ROOT)) = true
  ∧ subresource_id treasury = Some 0 ∧ closed_view !! key_for_account treasury = Some treasury_value.
Proof.
  split_and!; [compute_eq..| |compute_eq|compute_eq|compute_eq]. apply (bool_decide_unpack _). compute_eq.
Qed.
Lemma token_decodes : decode token_value = Ok mfx_info.
Proof. compute_eq. Qed.

Lemma accounts_sign : can_sign accounts_at = true.
Proof. compute_eq. Qed.
Lemma database_account k v :
  closed_view !! k = Some v → b ACCOUNT_ROOT `prefix_of` k → k = key_for_account treasury ∧ v = treasury_value.
Proof.
  intros Hk Hp. pose proof (only_below_ok _ _ _ _ _ database_accounts Hk Hp) as Hin.
  apply list_elem_of_singleton in Hin. split; [by apply (f_equal fst) in Hin|by apply (f_equal snd) in Hin].
Qed.
Lemma database_exportable : exportable database coin mfx_info server tokens_at accounts_at.
Proof.
  destruct database_lookups as (Hsym & Htok & Hid & Hti & Hai & Hheld & Hseed & Hsub & _).
  split; [reflexivity|exact Hsym|..|exact Hid|exact Hti|exact Hai|exact accounts_sign| |].
  - exists token_value. split; [exact Htok|exact token_decodes].
  - intros k [v Hk] Hp. pose proof (only_below_ok _ _ _ _ _ database_symbols Hk Hp) as Hin.
    apply list_elem_of_singleton in Hin. by apply (f_equal fst) in Hin.
  - intros k [v Hk] Hp. pose proof (only_below_ok _ _ _ _ _ database_balances Hk Hp) as Hin.
    apply elem_of_cons in Hin as [Hin|Hin]; [|apply list_elem_of_singleton in Hin];
      apply (f_equal fst) in Hin; [by exists alice|by exists bob].
  - exists alice. exact Hheld.
  - intros k v Hk Hp. destruct (database_account k v Hk Hp) as [-> ->].
    exists treasury, 0, treasury_account. split; [reflexivity|]. split; [exact treasury_decodes|exact Hsub].
  - destruct (read_be_or_zero 8 (closed_view !! IDSTORE_SEED_ROOT)) as [n| | |] eqn:E; try discriminate Hseed.
    exists n. exact E.
Qed.

Lemma database_amounts :
  forallb (λ kv, from_bytes_be kv.2 <? 2 ^ 53) [balance_entry alice; balance_entry bob] = true.
Proof. compute_eq. Qed.
Lemma database_seed :
  match read_be_or_zero 8 (closed_view !! IDSTORE_SEED_ROOT) with Ok n => n <? 2 ^ 53 | _ => true end = true.
Proof. compute_eq. Qed.
Lemma database_exact : exact_numbers database mfx_info.
Proof.
  split.
  - reflexivity.
  - left. reflexivity.
  - intros k v Hk Hp. pose proof (only_below_ok _ _ _ _ _ database_balances Hk Hp) as Hin. left.
    apply N.ltb_lt. exact (proj1 (forallb_forall _ _) database_amounts (k, v) (proj1 (list_elem_of_In _ _) Hin)).
  - intros n Hn. pose proof database_seed as Hs. change (merk_view database) with closed_view in Hn.
    rewrite Hn in Hs. by apply N.ltb_lt.
  - intros i v a Hk Ha. destruct (database_account _ v Hk ltac:(by eexists)) as [_ ->].
    rewrite treasury_decodes in Ha. apply Ok_inj in Ha as <-. exact treasury_exact.
Qed.
Lemma identities_differ : tokens_at ≠ accounts_at.
Proof. apply (bool_decide_unpack _). compute_eq. Qed.

(** The claim on exports, for [database]: the exporter writes a document, which is read; opening it does not
    panic, and a ledger it opens has the balances of the database, and the account that was disabled
    enabled. *)
Lemma export_reopens_witness :
  ∃ text st, extract_genesis database = Ok text ∧ state_read (Ok text) = Ok st
    ∧ (∀ t, ledger_module_new registry true (Ok empty_db) st (Some config) false ≠ Panic t)
    ∧ ∀ s, ledger_module_new registry true (Ok empty_db) st (Some config) false = Ok s →
        (∀ a y, bal s a y = bal_of closed_view a y)
        ∧ is_enabled treasury_account = false
        ∧ ∃ a', stored s treasury a' ∧ is_enabled a' = true.
Proof.
  destruct (export_reopens registry true database empty_db (Some config) file_migrations coin mfx_info server
    tokens_at accounts_at false database_exportable database_exact eq_refl eq_refl
    ltac:(apply state_of_ok; compute_eq) file_active) as (text & Ht & _ & Hne).
  destruct (Hne identities_differ) as (st & Hst & Hr).
  exists text, st. split; [exact Ht|]. split; [exact Hst|]. split.
  - intros t Hp. rewrite Hp in Hr. destruct Hr as (i & v & a & Hv & Ha & Hn). apply Hn.
    destruct (database_account _ v Hv ltac:(by eexists)) as [_ ->].
    rewrite treasury_decodes in Ha. apply Ok_inj in Ha as <-. exact treasury_reexportable.
  - intros s Hs. rewrite Hs in Hr.
    destruct Hr as (_ & Hb & _ & Ha). split; [exact Hb|]. split; [exact treasury_disabled|].
    destruct (Ha treasury treasury_value treasury_account) as (a' & Hst' & _ & Hen & _).
    + destruct database_lookups as (_ & _ & _ & _ & _ & _ & _ & _ & Hk). exact Hk.
    + exact treasury_decodes.
    + exists a'. split; [exact Hst'|exact Hen].
Defined.

(** ** Exporting its events *)

#[global] Instance ref_event_export : EventExportEnv := {|
  json_events _ := Ok "{}";
  json_multisig_logs _ := Ok "{}";
|}.

Lemma hex_digit_inj n m : n < 16 → m < 16 → hex_digit n = hex_digit m → n = m.
Proof.
  intros Hn Hm Hd. apply (f_equal N_of_ascii) in Hd. unfold hex_digit in Hd.
  destruct (N.ltb_spec n 10), (N.ltb_spec m 10); rewrite !N_ascii_embedding in Hd by lia; lia.
Qed.
#[global] Instance ref_hex_inj : Inj (=) (=) (hex_encode (Hex := ref_hex)).
Proof.
  intros l. induction l as [|x l IH]; intros [|y k]; try done. intros E.
  change (String (hex_digit (Byte.to_N x / 16)) (String (hex_digit (Byte.to_N x mod 16)) (hex_encode l))
    = String (hex_digit (Byte.to_N y / 16)) (String (hex_digit (Byte.to_N y mod 16)) (hex_encode k))) in E.
  injection E as H1 H2 H3. pose proof (to_N_lt x). pose proof (to_N_lt y). f_equal; [|by apply IH].
  apply hex_digit_inj in H1; [|dlia..]. apply hex_digit_inj in H2; [|dlia..].
  apply to_N_inj. dlia.
Qed.

Definition note : TokenAddExtendedInfoArgs :=
  mkTokenAddExtendedInfoArgs coin (mkExtendedInfo (Some [MemoString "a coin"]) None) None.
Definition noted : LedgerStorage := (add_extended_info note opened).1.
Lemma noted_ok : add_extended_info note opened = (noted, Ok (key_for_ext_info coin)).
Proof.
  unfold noted. assert ((add_extended_info note opened).2 = Ok (key_for_ext_info coin)) as E by compute_eq.
  destruct (add_extended_info note opened) as [s r]. cbn [fst snd] in *. by rewrite E.
Qed.
Lemma opened_no_events : none_below EVENTS_ROOT (view opened) = true.
Proof. compute_eq. Qed.

(** The claim on the export of events, for the ledger of the file: it exports; after a note on its token
    it does not. *)
Lemma events_export_spec_witness :
  (∃ d, events_document (persistent_store opened) = Ok d)
  ∧ extract_events (persistent_store (commit_storage noted).1) = Panic "not yet implemented".
Proof.
  destruct (commit_storage_ok noted) as (s2 & Hs2 & _). rewrite Hs2.
  destruct (events_export_spec note opened noted s2 (key_for_ext_info coin) 0) as [(d & Hd & _) Hp].
  - apply _.
  - reflexivity.
  - intros k v Hk Hp. by destruct (none_below_ok _ _ _ _ opened_no_events Hp Hk).
  - compute_eq.
  - intros i t e _. exact (pack_cbor_laws (λ _, True) (mkEventLog i t e) I).
  - intros k e (v & Hk & Hp & _). change (committed opened !! k = Some v) in Hk.
    by destruct (none_below_ok _ _ _ _ opened_no_events Hp Hk).
  - exact noted_ok.
  - exact Hs2.
  - split; [by exists d|exact Hp].
Defined.
